(** * Buffer replacement strategy of the storage manager (freelist.c)

    A shallow embedding of [src/backend/storage/buffer/freelist.c]: the
    freelist, the two victim queues threaded through the buffer
    descriptors, the four replacement policies behind [StrategyGetBuffer],
    the unpin hook [BufferUnpinned], [StrategyFreeBuffer] and the
    backend-private access-strategy ring.

    Descriptors live in the array [BufferDescriptors]; a
    [volatile BufferDesc *] is either NULL or the address of one element of
    that array, so pointers are modelled as [option nat].  The C functions
    mutate shared memory; here every function is a computation in a small
    state-and-error monad over the shared state. *)

From Stdlib Require Import ZArith List Bool Lia.
From stdpp Require Import base list.

Open Scope Z_scope.

(** ** Data model *)

(** [volatile BufferDesc *]: NULL, or [&BufferDescriptors[i]]. *)
Definition ptr := option nat.

(** The fields of [BufferDesc] that freelist.c reads or writes.  The struct
    is declared in storage/buf_internals.h; [buf_hdr_lock] is the header
    spinlock taken by [LockBufHdr]. *)
Record BufferDesc := mkBufferDesc {
  buf_id : Z;
  refcount : Z;
  usage_count : Z;
  freeNext : Z;
  next : ptr;
  previous : ptr;
  buf_hdr_lock : bool
}.

Definition set_usage_count (v : Z) (b : BufferDesc) : BufferDesc :=
  mkBufferDesc (buf_id b) (refcount b) v (freeNext b) (next b) (previous b)
               (buf_hdr_lock b).
Definition set_refcount (v : Z) (b : BufferDesc) : BufferDesc :=
  mkBufferDesc (buf_id b) v (usage_count b) (freeNext b) (next b) (previous b)
               (buf_hdr_lock b).
Definition set_freeNext (v : Z) (b : BufferDesc) : BufferDesc :=
  mkBufferDesc (buf_id b) (refcount b) (usage_count b) v (next b) (previous b)
               (buf_hdr_lock b).
Definition set_next (v : ptr) (b : BufferDesc) : BufferDesc :=
  mkBufferDesc (buf_id b) (refcount b) (usage_count b) (freeNext b) v
               (previous b) (buf_hdr_lock b).
Definition set_previous (v : ptr) (b : BufferDesc) : BufferDesc :=
  mkBufferDesc (buf_id b) (refcount b) (usage_count b) (freeNext b) (next b) v
               (buf_hdr_lock b).
Definition set_buf_hdr_lock (v : bool) (b : BufferDesc) : BufferDesc :=
  mkBufferDesc (buf_id b) (refcount b) (usage_count b) (freeNext b) (next b)
               (previous b) v.

(** Modelled from the spec: the sentinel [FREENEXT_NOT_IN_LIST] is declared
    in storage/buf_internals.h, which is not part of this file.  The spec
    fixes only that it is a sentinel different from every frame index and
    from the empty-list sentinel -1; the value below is that of the
    PostgreSQL header. *)
Definition FREENEXT_NOT_IN_LIST : Z := -2.

(** "InvalidBuffer (that is, zero)", as the comment in
    [BufferAccessStrategyData] has it. *)
Definition InvalidBuffer : Z := 0.

(** [BufferDescriptorGetBuffer] is a macro of storage/buf_internals.h: buffer
    numbers are descriptor indices plus one, which is also what
    [GetBufferFromRing] undoes with [BufferDescriptors[bufnum - 1]]. *)
Definition BufferDescriptorGetBuffer (b : BufferDesc) : Z := buf_id b + 1.

(** The values an [int BufferReplacementPolicy] can take: the four members
    of [PolicyKind], or anything else. *)
Inductive PolicyKind :=
| POLICY_CLOCK
| POLICY_LRU
| POLICY_MRU
| POLICY_2Q
| POLICY_INVALID.

#[global] Instance PolicyKind_eq_dec : EqDecision PolicyKind.
Proof. solve_decision. Defined.

Definition Latch := nat.

Record BufferStrategyControl := mkControl {
  nextVictimBuffer : Z;
  firstFreeBuffer : Z;
  lastFreeBuffer : Z;
  completePasses : Z;
  numBufferAllocs : Z;
  bgwriterLatch : option Latch;
  lastUnpinned : ptr;
  firstUnpinned : ptr;
  a1Head : ptr;
  a1Tail : ptr
}.

Definition set_nextVictimBuffer (v : Z) (c : BufferStrategyControl) :=
  mkControl v (firstFreeBuffer c) (lastFreeBuffer c) (completePasses c)
            (numBufferAllocs c) (bgwriterLatch c) (lastUnpinned c)
            (firstUnpinned c) (a1Head c) (a1Tail c).
Definition set_firstFreeBuffer (v : Z) (c : BufferStrategyControl) :=
  mkControl (nextVictimBuffer c) v (lastFreeBuffer c) (completePasses c)
            (numBufferAllocs c) (bgwriterLatch c) (lastUnpinned c)
            (firstUnpinned c) (a1Head c) (a1Tail c).
Definition set_lastFreeBuffer (v : Z) (c : BufferStrategyControl) :=
  mkControl (nextVictimBuffer c) (firstFreeBuffer c) v (completePasses c)
            (numBufferAllocs c) (bgwriterLatch c) (lastUnpinned c)
            (firstUnpinned c) (a1Head c) (a1Tail c).
Definition set_completePasses (v : Z) (c : BufferStrategyControl) :=
  mkControl (nextVictimBuffer c) (firstFreeBuffer c) (lastFreeBuffer c) v
            (numBufferAllocs c) (bgwriterLatch c) (lastUnpinned c)
            (firstUnpinned c) (a1Head c) (a1Tail c).
Definition set_numBufferAllocs (v : Z) (c : BufferStrategyControl) :=
  mkControl (nextVictimBuffer c) (firstFreeBuffer c) (lastFreeBuffer c)
            (completePasses c) v (bgwriterLatch c) (lastUnpinned c)
            (firstUnpinned c) (a1Head c) (a1Tail c).
Definition set_bgwriterLatch (v : option Latch) (c : BufferStrategyControl) :=
  mkControl (nextVictimBuffer c) (firstFreeBuffer c) (lastFreeBuffer c)
            (completePasses c) (numBufferAllocs c) v (lastUnpinned c)
            (firstUnpinned c) (a1Head c) (a1Tail c).
Definition set_lastUnpinned (v : ptr) (c : BufferStrategyControl) :=
  mkControl (nextVictimBuffer c) (firstFreeBuffer c) (lastFreeBuffer c)
            (completePasses c) (numBufferAllocs c) (bgwriterLatch c) v
            (firstUnpinned c) (a1Head c) (a1Tail c).
Definition set_firstUnpinned (v : ptr) (c : BufferStrategyControl) :=
  mkControl (nextVictimBuffer c) (firstFreeBuffer c) (lastFreeBuffer c)
            (completePasses c) (numBufferAllocs c) (bgwriterLatch c)
            (lastUnpinned c) v (a1Head c) (a1Tail c).
Definition set_a1Head (v : ptr) (c : BufferStrategyControl) :=
  mkControl (nextVictimBuffer c) (firstFreeBuffer c) (lastFreeBuffer c)
            (completePasses c) (numBufferAllocs c) (bgwriterLatch c)
            (lastUnpinned c) (firstUnpinned c) v (a1Tail c).
Definition set_a1Tail (v : ptr) (c : BufferStrategyControl) :=
  mkControl (nextVictimBuffer c) (firstFreeBuffer c) (lastFreeBuffer c)
            (completePasses c) (numBufferAllocs c) (bgwriterLatch c)
            (lastUnpinned c) (firstUnpinned c) (a1Head c) v.

(** The shared state: the policy selector, the descriptor array, the control
    block, and the latches woken so far by [SetLatch] (most recent first). *)
Record State := mkState {
  BufferReplacementPolicy : PolicyKind;
  BufferDescriptors : list BufferDesc;
  StrategyControl : BufferStrategyControl;
  latches_set : list Latch
}.

(** [NBuffers] is the number of elements of [BufferDescriptors]. *)
Definition NBuffers (s : State) : Z := Z.of_nat (length (BufferDescriptors s)).

Inductive BufferAccessStrategyType :=
| BAS_NORMAL
| BAS_BULKREAD
| BAS_BULKWRITE
| BAS_VACUUM.

(** The backend-private ring. *)
Record BufferAccessStrategyData := mkStrategy {
  btype : BufferAccessStrategyType;
  ring_size : Z;
  current : Z;
  current_was_in_ring : bool;
  buffers : list Z
}.

(** [BufferAccessStrategy]: NULL for the default strategy, or a ring. *)
Definition BufferAccessStrategy := option BufferAccessStrategyData.

(** ** Outcomes and the state monad *)

(** The three [elog(ERROR, ...)] messages of [StrategyGetBuffer]. *)
Inductive ErrorKind :=
| NoUnpinnedBuffers      (* "no unpinned buffers available" *)
| InvalidPolicy          (* "invalid buffer pool replacement policy %d" *)
| NoBufferSelected.      (* "reached end of StrategyGetBuffer() without selecting a buffer" *)

(** What a call can do: return, leave through [elog(ERROR)] (the shared
    state stays as it was at that point), access memory through NULL or
    outside [BufferDescriptors] or fail an [Assert] ([Fault]), spin for ever
    on a header spinlock that is already held ([Stuck]), or exhaust the
    bound given to its loops ([OutOfFuel]). *)
Inductive outcome (A : Type) : Type :=
| Ret (a : A) (s : State)
| Elog (e : ErrorKind) (s : State)
| Fault
| Stuck
| OutOfFuel.
Arguments Ret {A} a s.
Arguments Elog {A} e s.
Arguments Fault {A}.
Arguments Stuck {A}.
Arguments OutOfFuel {A}.

Definition M (A : Type) : Type := State -> outcome A.

Definition ret {A} (a : A) : M A := fun s => Ret a s.

Definition bind {A B} (m : M A) (k : A -> M B) : M B :=
  fun s =>
    match m s with
    | Ret a s' => k a s'
    | Elog e s' => Elog e s'
    | Fault => Fault
    | Stuck => Stuck
    | OutOfFuel => OutOfFuel
    end.

Notation "x <- m ;; k" := (bind m (fun x => k))
  (at level 20, m at level 99, k at level 200, only parsing).
Notation "m ;; k" := (bind m (fun _ => k))
  (at level 100, k at level 200, right associativity, only parsing).

Definition elog {A} (e : ErrorKind) : M A := fun s => Elog e s.
Definition fault {A} : M A := fun _ => Fault.
Definition out_of_fuel {A} : M A := fun _ => OutOfFuel.

Definition get_control : M BufferStrategyControl :=
  fun s => Ret (StrategyControl s) s.
Definition get_policy : M PolicyKind :=
  fun s => Ret (BufferReplacementPolicy s) s.
Definition get_NBuffers : M Z := fun s => Ret (NBuffers s) s.

(** [StrategyControl->field = v] *)
Definition modify_control (f : BufferStrategyControl -> BufferStrategyControl)
  : M unit :=
  fun s => Ret tt (mkState (BufferReplacementPolicy s) (BufferDescriptors s)
                           (f (StrategyControl s)) (latches_set s)).

(** [p == NULL] *)
Definition is_null (p : ptr) : bool :=
  match p with None => true | Some _ => false end.

(** [p == q] on descriptor pointers *)
Definition ptr_eqb (p q : ptr) : bool :=
  match p, q with
  | None, None => true
  | Some i, Some j => Nat.eqb i j
  | _, _ => false
  end.

(** [&BufferDescriptors[i]] *)
Definition desc_addr (i : Z) : M ptr :=
  fun s => if (0 <=? i) && (i <? NBuffers s)
           then Ret (Some (Z.to_nat i)) s else Fault.

(** Reading the descriptor behind a pointer. *)
Definition deref (p : ptr) : M BufferDesc :=
  fun s =>
    match p with
    | None => Fault
    | Some i => match BufferDescriptors s !! i with
                | Some b => Ret b s
                | None => Fault
                end
    end.

(** [p->field = v] *)
Definition store (p : ptr) (f : BufferDesc -> BufferDesc) : M unit :=
  fun s =>
    match p with
    | None => Fault
    | Some i => match BufferDescriptors s !! i with
                | Some _ =>
                    Ret tt (mkState (BufferReplacementPolicy s)
                                    (alter f i (BufferDescriptors s))
                                    (StrategyControl s) (latches_set s))
                | None => Fault
                end
    end.

(** [LockBufHdr] and [UnlockBufHdr] are macros of storage/buf_internals.h
    over the spinlock inside the descriptor their argument points to:
    acquiring sets it, and never returns when it is already held; releasing
    clears it.  Both write through the pointer, so NULL is a fault. *)
Definition LockBufHdr (p : ptr) : M unit :=
  b <- deref p ;;
  if buf_hdr_lock b then (fun _ => Stuck) else store p (set_buf_hdr_lock true).

Definition UnlockBufHdr (p : ptr) : M unit :=
  store p (set_buf_hdr_lock false).

Definition SetLatch (l : Latch) : M unit :=
  fun s => Ret tt (mkState (BufferReplacementPolicy s) (BufferDescriptors s)
                           (StrategyControl s) (l :: latches_set s)).

Definition Assert (b : bool) : M unit := if b then ret tt else fault.

(** A [uint32] incremented by one. *)
Definition uint32_incr (v : Z) : Z := (v + 1) mod 2 ^ 32.

(** ** Backend-private buffer ring management *)

Definition set_current (v : Z) (st : BufferAccessStrategyData) :=
  mkStrategy (btype st) (ring_size st) v (current_was_in_ring st) (buffers st).
Definition set_current_was_in_ring (v : bool) (st : BufferAccessStrategyData) :=
  mkStrategy (btype st) (ring_size st) (current st) v (buffers st).
Definition set_buffers (v : list Z) (st : BufferAccessStrategyData) :=
  mkStrategy (btype st) (ring_size st) (current st) (current_was_in_ring st) v.

(** [strategy->buffers[i]], read and written; the array has [ring_size]
    elements and an access outside it is a fault. *)
Definition ring_read (st : BufferAccessStrategyData) (i : Z) : option Z :=
  if 0 <=? i then buffers st !! Z.to_nat i else None.

Definition ring_write (st : BufferAccessStrategyData) (i : Z) (v : Z)
  : option BufferAccessStrategyData :=
  match ring_read st i with
  | Some _ => Some (set_buffers (<[Z.to_nat i := v]> (buffers st)) st)
  | None => None
  end.

(** [GetAccessStrategy]; [BLCKSZ] is a build-time constant declared outside
    this file and is taken as an argument.  [palloc0] zeroes the object. *)
Definition GetAccessStrategy (BLCKSZ : Z) (bt : BufferAccessStrategyType)
  : M BufferAccessStrategy :=
  match bt with
  | BAS_NORMAL => ret None
  | _ =>
      let ring_size0 :=
        match bt with
        | BAS_BULKWRITE => Z.quot (16 * 1024 * 1024) BLCKSZ
        | _ => Z.quot (256 * 1024) BLCKSZ
        end in
      n <- get_NBuffers ;;
      let ring_size := Z.min (Z.quot n 8) ring_size0 in
      ret (Some (mkStrategy bt ring_size 0 false
                            (replicate (Z.to_nat ring_size) 0)))
  end.

(** [if (++strategy->current >= strategy->ring_size) strategy->current = 0;]:
    the slot the next call looks at. *)
Definition next_slot (st : BufferAccessStrategyData) : Z :=
  if ring_size st <=? current st + 1 then 0 else current st + 1.

(** [GetBufferFromRing]: returns a buffer from the ring, or NULL; the ring
    object is updated in place, so the updated object is returned as well. *)
Definition GetBufferFromRing (st : BufferAccessStrategyData)
  : M (ptr * BufferAccessStrategyData) :=
  (* Advance to next ring slot *)
  let st := set_current (next_slot st) st in
  match ring_read st (current st) with
  | None => fault
  | Some bufnum =>
      if bufnum =? InvalidBuffer
      then ret (None, set_current_was_in_ring false st)
      else
        buf <- desc_addr (bufnum - 1) ;;
        LockBufHdr buf ;;
        b <- deref buf ;;
        if (refcount b =? 0) && (usage_count b <=? 1)
        then ret (buf, set_current_was_in_ring true st)
        else
          UnlockBufHdr buf ;;
          ret (None, set_current_was_in_ring false st)
  end.

(** [AddBufferToRing]; with the NULL strategy the callers skip the call. *)
Definition AddBufferToRing (strategy : BufferAccessStrategy) (buf : ptr)
  : M BufferAccessStrategy :=
  match strategy with
  | None => ret None
  | Some st =>
      b <- deref buf ;;
      match ring_write st (current st) (BufferDescriptorGetBuffer b) with
      | Some st' => ret (Some st')
      | None => fault
      end
  end.

(** [StrategyRejectBuffer] *)
Definition StrategyRejectBuffer (st : BufferAccessStrategyData) (buf : ptr)
  : M (bool * BufferAccessStrategyData) :=
  match btype st with
  | BAS_BULKREAD =>
      if negb (current_was_in_ring st) then ret (false, st)
      else
        match ring_read st (current st) with
        | None => fault
        | Some bufnum =>
            b <- deref buf ;;
            if negb (bufnum =? BufferDescriptorGetBuffer b)
            then ret (false, st)
            else
              match ring_write st (current st) InvalidBuffer with
              | Some st' => ret (true, st')
              | None => fault
              end
        end
  | _ => ret (false, st)
  end.

(** ** StrategyGetBuffer *)

(** The [while (StrategyControl->firstFreeBuffer >= 0)] loop.  [Some] is the
    [return buf] inside the loop, [None] is falling out of it. *)
Fixpoint freelist_loop (fuel : nat) (strategy : BufferAccessStrategy)
  : M (option (ptr * BufferAccessStrategy)) :=
  match fuel with
  | O => out_of_fuel
  | S fuel' =>
      ctl <- get_control ;;
      if 0 <=? firstFreeBuffer ctl then
        buf <- desc_addr (firstFreeBuffer ctl) ;;
        b <- deref buf ;;
        Assert (negb (freeNext b =? FREENEXT_NOT_IN_LIST)) ;;
        (* Unconditionally remove buffer from freelist *)
        modify_control (set_firstFreeBuffer (freeNext b)) ;;
        store buf (set_freeNext FREENEXT_NOT_IN_LIST) ;;
        LockBufHdr buf ;;
        b <- deref buf ;;
        if (refcount b =? 0) && (usage_count b =? 0) then
          strategy' <- AddBufferToRing strategy buf ;;
          ret (Some (buf, strategy'))
        else
          UnlockBufHdr buf ;;
          freelist_loop fuel' strategy
      else ret None
  end.

(** The clock sweep: the [for (;;)] loop of the POLICY_CLOCK branch, with
    [trycounter] as loop state. *)
Fixpoint clock_sweep (fuel : nat) (strategy : BufferAccessStrategy)
  (trycounter : Z) : M (ptr * BufferAccessStrategy) :=
  match fuel with
  | O => out_of_fuel
  | S fuel' =>
      ctl <- get_control ;;
      buf <- desc_addr (nextVictimBuffer ctl) ;;
      n <- get_NBuffers ;;
      (if n <=? nextVictimBuffer ctl + 1
       then modify_control (set_nextVictimBuffer 0) ;;
            modify_control
              (fun c => set_completePasses (uint32_incr (completePasses c)) c)
       else modify_control (set_nextVictimBuffer (nextVictimBuffer ctl + 1))) ;;
      LockBufHdr buf ;;
      b <- deref buf ;;
      if refcount b =? 0 then
        if 0 <? usage_count b then
          store buf (set_usage_count (usage_count b - 1)) ;;
          UnlockBufHdr buf ;;
          clock_sweep fuel' strategy n
        else
          (* Found a usable buffer *)
          strategy' <- AddBufferToRing strategy buf ;;
          ret (buf, strategy')
      else if trycounter - 1 =? 0 then
        UnlockBufHdr buf ;;
        elog NoUnpinnedBuffers
      else
        UnlockBufHdr buf ;;
        clock_sweep fuel' strategy (trycounter - 1)
  end.

(** The walk shared by the POLICY_LRU and POLICY_MRU branches: LRU follows
    [next] from [firstUnpinned], MRU follows [previous] from [lastUnpinned].
    It returns the final [buf] and [resultIndex]. *)
Fixpoint queue_walk (fuel : nat) (link : BufferDesc -> ptr) (buf : ptr)
  : M (ptr * Z) :=
  match fuel with
  | O => out_of_fuel
  | S fuel' =>
      match buf with
      | None => ret (None, -1)
      | Some _ =>
          LockBufHdr buf ;;
          b <- deref buf ;;
          if refcount b =? 0 then ret (buf, buf_id b)
          else
            UnlockBufHdr buf ;;
            b <- deref buf ;;
            queue_walk fuel' link (link b)
      end
  end.

(** After the walk: [if (buf == NULL) { UnlockBufHdr(buf); elog(ERROR, ...); }] *)
Definition queue_walk_result (r : ptr * Z) : M Z :=
  match fst r with
  | None => UnlockBufHdr None ;; elog NoUnpinnedBuffers
  | Some _ => ret (snd r)
  end.

(** The two victim queues of the 2Q policy: A1 ([a1Head], [a1Tail]) and the
    main queue Am ([firstUnpinned], [lastUnpinned]). *)
Inductive Queue := QA1 | QAM.

Definition queue_head (q : Queue) (c : BufferStrategyControl) : ptr :=
  match q with QA1 => a1Head c | QAM => firstUnpinned c end.
Definition queue_tail (q : Queue) (c : BufferStrategyControl) : ptr :=
  match q with QA1 => a1Tail c | QAM => lastUnpinned c end.
Definition set_queue_head (q : Queue) (v : ptr) :=
  match q with QA1 => set_a1Head v | QAM => set_firstUnpinned v end.
Definition set_queue_tail (q : Queue) (v : ptr) :=
  match q with QA1 => set_a1Tail v | QAM => set_lastUnpinned v end.

(** [while (head != NULL) { head = head->next; sizeA1++; }] *)
Fixpoint a1_size (fuel : nat) (head : ptr) (sizeA1 : Z) : M Z :=
  match fuel with
  | O => out_of_fuel
  | S fuel' =>
      match head with
      | None => ret sizeA1
      | Some _ => b <- deref head ;; a1_size fuel' (next b) (sizeA1 + 1)
      end
  end.

(** "adjust neighbors": the unlinking block of the POLICY_2Q branch, which
    the source has once for A1 and once for the main queue. *)
Definition unlink_victim (q : Queue) (buf : ptr) : M unit :=
  b <- deref buf ;;
  let nxt := next b in
  let prv := previous b in
  match nxt, prv with
  | Some _, Some _ =>
      store prv (set_next nxt) ;;
      store nxt (set_previous prv)
  | Some _, None =>
      store nxt (set_previous None) ;;
      modify_control (set_queue_head q nxt)
  | None, None =>
      modify_control (set_queue_head q None) ;;
      modify_control (set_queue_tail q None)
  | None, Some _ =>
      match q with
      | QA1 => modify_control (set_queue_tail q prv) ;;
               store prv (set_next None)
      | QAM => store prv (set_next None) ;;
               modify_control (set_queue_tail q prv)
      end
  end ;;
  store buf (set_next None) ;;
  store buf (set_previous None).

(** The scan of the POLICY_2Q branch over queue [q]; no header lock is taken
    (the [LockBufHdr] call is commented out in the source).  It returns the
    final [buf] and [resultIndex]. *)
Fixpoint twoq_scan (fuel : nat) (q : Queue) (buf : ptr) : M (ptr * Z) :=
  match fuel with
  | O => out_of_fuel
  | S fuel' =>
      match buf with
      | None => ret (None, -1)
      | Some _ =>
          b <- deref buf ;;
          if refcount b =? 0 then
            unlink_victim q buf ;;
            ret (buf, buf_id b)
          else twoq_scan fuel' q (next b)
      end
  end.

Definition twoq_scan_result (r : ptr * Z) : M Z :=
  match fst r with
  | None => elog NoUnpinnedBuffers
  | Some _ => ret (snd r)
  end.

(** The POLICY_2Q branch. *)
Definition twoq_select (fuel : nat) : M Z :=
  n <- get_NBuffers ;;
  let thres := Z.quot n 2 in
  ctl <- get_control ;;
  sizeA1 <- a1_size fuel (a1Head ctl) 0 ;;
  ctl <- get_control ;;
  if (thres <=? sizeA1) || is_null (lastUnpinned ctl)
  then r <- twoq_scan fuel QA1 (a1Head ctl) ;; twoq_scan_result r
  else r <- twoq_scan fuel QAM (firstUnpinned ctl) ;; twoq_scan_result r.

(** The tail of [StrategyGetBuffer] for the queue policies:
    [if (resultIndex == -1) elog(...); return &BufferDescriptors[resultIndex];] *)
Definition return_result (strategy : BufferAccessStrategy) (resultIndex : Z)
  : M (ptr * bool * BufferAccessStrategy) :=
  if resultIndex =? -1 then elog NoBufferSelected
  else buf <- desc_addr resultIndex ;; ret (buf, true, strategy).

(** The POLICY_CLOCK branch. *)
Definition clock_select (fuel : nat) (strategy : BufferAccessStrategy)
  : M (ptr * bool * BufferAccessStrategy) :=
  n <- get_NBuffers ;;
  r <- clock_sweep fuel strategy n ;;
  ret (fst r, true, snd r).

(** The POLICY_LRU and POLICY_MRU branches, followed by the tail of the
    function: [entry] is where the walk starts, [link] how it advances. *)
Definition queue_select (fuel : nat) (strategy : BufferAccessStrategy)
  (link : BufferDesc -> ptr) (entry : BufferStrategyControl -> ptr)
  : M (ptr * bool * BufferAccessStrategy) :=
  ctl <- get_control ;;
  r <- queue_walk fuel link (entry ctl) ;;
  resultIndex <- queue_walk_result r ;;
  return_result strategy resultIndex.

(** The POLICY_2Q branch followed by the tail of the function. *)
Definition twoq_victim (fuel : nat) (strategy : BufferAccessStrategy)
  : M (ptr * bool * BufferAccessStrategy) :=
  resultIndex <- twoq_select fuel ;;
  return_result strategy resultIndex.

(** The [if (resultIndex == -1)] block that follows the freelist loop, which
    runs the algorithm named by [BufferReplacementPolicy], and the tail of
    the function. *)
Definition select_victim (fuel : nat) (strategy : BufferAccessStrategy)
  : M (ptr * bool * BufferAccessStrategy) :=
  pol <- get_policy ;;
  match pol with
  | POLICY_CLOCK => clock_select fuel strategy
  | POLICY_LRU => queue_select fuel strategy next firstUnpinned
  | POLICY_MRU => queue_select fuel strategy previous lastUnpinned
  | POLICY_2Q => twoq_victim fuel strategy
  | POLICY_INVALID => elog InvalidPolicy
  end.

(** [StrategyControl->numBufferAllocs++] and the wake-up of the bgwriter. *)
Definition count_allocation : M unit :=
  modify_control
    (fun c => set_numBufferAllocs (uint32_incr (numBufferAllocs c)) c) ;;
  ctl <- get_control ;;
  match bgwriterLatch ctl with
  | Some l => modify_control (set_bgwriterLatch None) ;; SetLatch l
  | None => ret tt
  end.

(** [StrategyGetBuffer] from "Nope, so lock the freelist" on. *)
Definition StrategyGetBuffer_global (fuel : nat) (strategy : BufferAccessStrategy)
  : M (ptr * bool * BufferAccessStrategy) :=
  count_allocation ;;
  r <- freelist_loop fuel strategy ;;
  match r with
  | Some (buf, strategy') => ret (buf, true, strategy')
  | None => (* Nothing on the freelist *) select_victim fuel strategy
  end.

(** [StrategyGetBuffer(strategy, &lock_held)]: the result is the returned
    descriptor, the value stored in [*lock_held], and the ring object.  [fuel]
    bounds the iterations of each loop. *)
Definition StrategyGetBuffer (fuel : nat) (strategy : BufferAccessStrategy)
  : M (ptr * bool * BufferAccessStrategy) :=
  match strategy with
  | Some st =>
      r <- GetBufferFromRing st ;;
      match fst r with
      | Some _ => ret (fst r, false, Some (snd r))
      | None => StrategyGetBuffer_global fuel (Some (snd r))
      end
  | None => StrategyGetBuffer_global fuel None
  end.

(** ** BufferUnpinned *)

(** [while (head != NULL) { if (head == buf) {...; return;} else head = head->next; }]:
    whether the walk from [head] meets [buf]. *)
Fixpoint queue_member (fuel : nat) (head buf : ptr) : M bool :=
  match fuel with
  | O => out_of_fuel
  | S fuel' =>
      match head with
      | None => ret false
      | Some _ =>
          if ptr_eqb head buf then ret true
          else b <- deref head ;; queue_member fuel' (next b) buf
      end
  end.

(** The block that ends each A1 case of the 2Q branch: put [buf] at the tail
    of the main queue, [first] and [last] being the values of
    [firstUnpinned] and [lastUnpinned] read on entry. *)
Definition append_to_AM (first last buf : ptr) : M unit :=
  (if is_null first || is_null last
   then modify_control (set_firstUnpinned buf)
   else store last (set_next buf)) ;;
  store buf (set_previous last) ;;
  store buf (set_next None) ;;
  modify_control (set_lastUnpinned buf).

(** The 2Q branch when [buf] was found in the main queue. *)
Definition unpinned_in_AM (last prv nxt buf : ptr) : M unit :=
  match nxt with
  | Some _ =>
      match prv with
      | Some _ =>
          (* buf in middle of AM queue *)
          store prv (set_next nxt) ;;
          store nxt (set_previous prv) ;;
          store last (set_next buf) ;;
          store buf (set_previous last) ;;
          store buf (set_next None) ;;
          modify_control (set_lastUnpinned buf)
      | None =>
          (* buf at beginning *)
          store nxt (set_previous None) ;;
          modify_control (set_firstUnpinned nxt) ;;
          store last (set_next buf) ;;
          store buf (set_previous last) ;;
          store buf (set_next None) ;;
          modify_control (set_lastUnpinned buf)
      end
  | None => ret tt
  end.

(** The 2Q branch when [buf] was found in A1: remove it from A1 and put it
    at the tail of the main queue. *)
Definition unpinned_in_A1 (first last prv nxt buf : ptr) : M unit :=
  match nxt, prv with
  | Some _, Some _ =>
      (* buf in middle of A1 queue *)
      store prv (set_next nxt) ;;
      store nxt (set_previous prv) ;;
      append_to_AM first last buf
  | Some _, None =>
      (* buf at beginning *)
      store nxt (set_previous None) ;;
      modify_control (set_a1Head nxt) ;;
      append_to_AM first last buf
  | None, None =>
      (* buf is only thing in A1 *)
      modify_control (set_a1Head None) ;;
      modify_control (set_a1Tail None) ;;
      append_to_AM first last buf
  | None, Some _ =>
      (* buf is last thing in A1 *)
      modify_control (set_a1Tail prv) ;;
      store prv (set_next None) ;;
      append_to_AM first last buf
  end.

(** The 2Q branch when [buf] is in neither queue: put it at the tail of A1. *)
Definition unpinned_new_2Q (buf : ptr) : M unit :=
  ctl <- get_control ;;
  (if is_null (a1Head ctl) || is_null (a1Tail ctl)
   then modify_control (set_a1Head buf) ;;
        modify_control (set_a1Tail buf) ;;
        store buf (set_previous None)
   else store (a1Tail ctl) (set_next buf) ;;
        store buf (set_previous (a1Tail ctl))) ;;
  store buf (set_next None) ;;
  modify_control (set_a1Tail buf).

(** The branch for LRU, MRU and Clock. *)
Definition unpinned_other (first last prv nxt buf : ptr) : M unit :=
  match nxt, prv with
  | Some _, Some _ =>
      (* buf is already in middle of list *)
      store prv (set_next nxt) ;;
      store nxt (set_previous prv) ;;
      store last (set_next buf) ;;
      store buf (set_previous last) ;;
      store buf (set_next None) ;;
      modify_control (set_lastUnpinned buf)
  | Some _, None =>
      (* buf is at beginning of list *)
      store nxt (set_previous None) ;;
      modify_control (set_firstUnpinned nxt) ;;
      store last (set_next buf) ;;
      store buf (set_previous last) ;;
      store buf (set_next None) ;;
      modify_control (set_lastUnpinned buf)
  | None, None =>
      (* buf is new to list *)
      (if is_null first then modify_control (set_firstUnpinned buf)
       else ret tt) ;;
      store buf (set_previous last) ;;
      store buf (set_next None) ;;
      (if is_null last then ret tt else store last (set_next buf)) ;;
      modify_control (set_lastUnpinned buf)
  | None, Some _ => ret tt
  end.

(** [BufferUnpinned(bufIndex)].  [acquired] is the result of
    [LWLockConditionalAcquire(BufFreelistLock, LW_EXCLUSIVE)]: the hook gives
    up when the lock is taken. *)
Definition BufferUnpinned (fuel : nat) (acquired : bool) (bufIndex : Z)
  : M unit :=
  buf <- desc_addr bufIndex ;;
  ctl <- get_control ;;
  let first := firstUnpinned ctl in
  let last := lastUnpinned ctl in
  b <- deref buf ;;
  let prv := previous b in
  let nxt := next b in
  if negb acquired then ret tt
  else
    pol <- get_policy ;;
    match pol with
    | POLICY_2Q =>
        inAM <- queue_member fuel first buf ;;
        if inAM then unpinned_in_AM last prv nxt buf
        else
          ctl <- get_control ;;
          inA1 <- queue_member fuel (a1Head ctl) buf ;;
          if inA1 then unpinned_in_A1 first last prv nxt buf
          else unpinned_new_2Q buf
    | _ => unpinned_other first last prv nxt buf
    end.

(** ** The other entry points *)

(** [StrategyFreeBuffer(buf)] *)
Definition StrategyFreeBuffer (buf : ptr) : M unit :=
  b <- deref buf ;;
  if freeNext b =? FREENEXT_NOT_IN_LIST then
    ctl <- get_control ;;
    store buf (set_freeNext (firstFreeBuffer ctl)) ;;
    b <- deref buf ;;
    (if freeNext b <? 0 then modify_control (set_lastFreeBuffer (buf_id b))
     else ret tt) ;;
    b <- deref buf ;;
    modify_control (set_firstFreeBuffer (buf_id b))
  else ret tt.

(** [StrategySyncStart(complete_passes, num_buf_alloc)]: the two booleans say
    which of the out-pointers are non-NULL; the result carries the value
    returned and the values stored through them. *)
Definition StrategySyncStart (want_passes want_allocs : bool)
  : M (Z * option Z * option Z) :=
  ctl <- get_control ;;
  let result := nextVictimBuffer ctl in
  let passes := if want_passes then Some (completePasses ctl) else None in
  if want_allocs then
    modify_control (set_numBufferAllocs 0) ;;
    ret (result, passes, Some (numBufferAllocs ctl))
  else ret (result, passes, None).

(** [StrategyNotifyBgWriter(bgwriterLatch)] *)
Definition StrategyNotifyBgWriter (l : option Latch) : M unit :=
  modify_control (set_bgwriterLatch l).

(** [StrategyInitialize(init)].  [found] is what [ShmemInitStruct] reports:
    whether the control block existed already. *)
Definition StrategyInitialize (found init : bool) : M unit :=
  if negb found then
    Assert init ;;
    n <- get_NBuffers ;;
    modify_control (fun _ =>
      mkControl 0 0 (n - 1) 0 0 None None None None None)
  else Assert (negb init).

(** ** Initial state and the pin manager *)

(** Modelled from the spec: [InitBufferPool] (buf_init.c) is not part of
    this file; [StrategyInitialize] assumes it has built all descriptors
    into the free list.  Following the spec, frame [i] has [buf_id = i], no
    pin, a zero usage count, [freeNext] pointing at frame [i + 1] (-1 for the
    last frame), nil queue links and a free header lock. *)
Definition InitBufferPool (pol : PolicyKind) (n : nat) : State :=
  mkState pol
    (map (fun i => mkBufferDesc (Z.of_nat i) 0 0
                     (if Nat.eqb (S i) n then -1 else Z.of_nat (S i))
                     None None false)
         (seq 0 n))
    (mkControl 0 0 0 0 0 None None None None None)
    [].

(** The state of an outcome that has one. *)
Definition final_state {A} (o : outcome A) : option State :=
  match o with
  | Ret _ s => Some s
  | Elog _ s => Some s
  | _ => None
  end.

(** The value an outcome returns. *)
Definition returned {A} (o : outcome A) : option A :=
  match o with
  | Ret a _ => Some a
  | _ => None
  end.

(** The state after bootstrap: [InitBufferPool], then the first
    [StrategyInitialize(true)]. *)
Definition initial_state (pol : PolicyKind) (n : nat) : State :=
  match StrategyInitialize false true (InitBufferPool pol n) with
  | Ret _ s => s
  | _ => InitBufferPool pol n
  end.

(** What the pin manager (bufmgr.c, outside this file) does to a frame: it
    changes [refcount] and [usage_count] and takes or releases the header
    lock; it never touches [buf_id], [freeNext] or the queue links. *)
Definition pin_manager_update (refs usage : Z) (lock : bool) (b : BufferDesc) :=
  mkBufferDesc (buf_id b) refs usage (freeNext b) (next b) (previous b) lock.

Definition update_frame (i : nat) (f : BufferDesc -> BufferDesc) (s : State) :=
  mkState (BufferReplacementPolicy s) (alter f i (BufferDescriptors s))
          (StrategyControl s) (latches_set s).

(** Running a call and continuing from the state it leaves. *)
Definition exec {A} (m : M A) (s : State) : State :=
  match final_state (m s) with
  | Some s' => s'
  | None => s
  end.

(** ** Specification vocabulary *)

(** A frame index is valid when it names a descriptor. *)
Definition valid_frame (s : State) (i : nat) : Prop :=
  (i < length (BufferDescriptors s))%nat.

(** Every descriptor carries its own index in [buf_id]. *)
Definition ids_ok (s : State) : Prop :=
  forall i b, BufferDescriptors s !! i = Some b -> buf_id b = Z.of_nat i.

(** Freelist membership, as the source signals it. *)
Definition on_freelist (s : State) (i : nat) : Prop :=
  exists b, BufferDescriptors s !! i = Some b /\
            freeNext b <> FREENEXT_NOT_IN_LIST.

(** [linked bufs p i]: following [next] from [p] meets frame [i]. *)
Inductive linked (bufs : list BufferDesc) : ptr -> nat -> Prop :=
| linked_here i : linked bufs (Some i) i
| linked_next j b i :
    bufs !! j = Some b -> linked bufs (next b) i -> linked bufs (Some j) i.

(** Membership in a victim queue: reachable from the queue's head. *)
Definition in_queue (s : State) (q : Queue) (i : nat) : Prop :=
  linked (BufferDescriptors s) (queue_head q (StrategyControl s)) i.

(** The partition property: no frame is in two of the three structures. *)
Definition at_most_one (s : State) (i : nat) : Prop :=
  ~ (on_freelist s i /\ in_queue s QAM i) /\
  ~ (on_freelist s i /\ in_queue s QA1 i) /\
  ~ (in_queue s QAM i /\ in_queue s QA1 i).

(** [hd_ptr l q]: the first frame of [l], or [q] when [l] is empty;
    [last_ptr l p] likewise for the last frame. *)
Definition hd_ptr (l : list nat) (q : ptr) : ptr :=
  match l with
  | [] => q
  | i :: _ => Some i
  end.

Definition last_ptr (l : list nat) (p : ptr) : ptr :=
  match last l with
  | Some i => Some i
  | None => p
  end.

(** [seg bufs p l q]: the frames [l] are linked in this order, the first
    one's [previous] being [p] and the last one's [next] being [q]. *)
Fixpoint seg (bufs : list BufferDesc) (p : ptr) (l : list nat) (q : ptr)
  : Prop :=
  match l with
  | [] => True
  | i :: l' =>
      exists b, bufs !! i = Some b /\ previous b = p /\
                next b = hd_ptr l' q /\ seg bufs (Some i) l' q
  end.

(** Queue [q] of state [s] is a well-formed doubly-linked list holding
    exactly the frames [l], head first. *)
Definition queue_is (s : State) (q : Queue) (l : list nat) : Prop :=
  queue_head q (StrategyControl s) = hd_ptr l None /\
  queue_tail q (StrategyControl s) = last_ptr l None /\
  seg (BufferDescriptors s) None l None /\
  NoDup l.

(** Both victim queues are well formed and share no frame. *)
Definition queues_are (s : State) (am a1 : list nat) : Prop :=
  queue_is s QAM am /\ queue_is s QA1 a1 /\ NoDup (am ++ a1).

(** Frame [i] is pinned / not pinned. *)
Definition pinned (s : State) (i : nat) : Prop :=
  exists b, BufferDescriptors s !! i = Some b /\ refcount b <> 0.
Definition unpinned (s : State) (i : nat) : Prop :=
  exists b, BufferDescriptors s !! i = Some b /\ refcount b = 0.

(** The header lock of frame [i] is held. *)
Definition header_locked (s : State) (i : nat) : Prop :=
  exists b, BufferDescriptors s !! i = Some b /\ buf_hdr_lock b = true.

(** The queue links of a descriptor, and the queue fields of the control
    block. *)
Definition links_of (b : BufferDesc) : ptr * ptr := (next b, previous b).
Definition queue_fields (c : BufferStrategyControl) : ptr * ptr * ptr * ptr :=
  (firstUnpinned c, lastUnpinned c, a1Head c, a1Tail c).

(** [s'] has the same victim queues as [s]: same policy, same head and tail
    pointers, and the same [next] and [previous] in every descriptor. *)
Definition same_queues (s s' : State) : Prop :=
  BufferReplacementPolicy s' = BufferReplacementPolicy s /\
  queue_fields (StrategyControl s') = queue_fields (StrategyControl s) /\
  links_of <$> BufferDescriptors s' = links_of <$> BufferDescriptors s.

(** [s'] has the same policy and the same A1 queue pointers as [s]. *)
Definition same_a1 (s s' : State) : Prop :=
  BufferReplacementPolicy s' = BufferReplacementPolicy s /\
  a1Head (StrategyControl s') = a1Head (StrategyControl s) /\
  a1Tail (StrategyControl s') = a1Tail (StrategyControl s).

(** A computation keeps relation [R] between the state it starts from and
    any state it leaves behind, by returning or through [elog]. *)
Definition keeps {A} (R : State -> State -> Prop) (m : M A) : Prop :=
  forall s s', final_state (m s) = Some s' -> R s s'.

(** ** Reachable states *)

(** One operation of the strategy's interface, or one update of a frame by
    the pin manager.  [StrategyInitialize] after bootstrap finds the control
    block in place. *)
Inductive step (s : State) : State -> Prop :=
| step_Initialize init s' :
    final_state (StrategyInitialize true init s) = Some s' -> step s s'
| step_GetBuffer fuel strategy s' :
    final_state (StrategyGetBuffer fuel strategy s) = Some s' -> step s s'
| step_FreeBuffer buf s' :
    final_state (StrategyFreeBuffer buf s) = Some s' -> step s s'
| step_OnUnpinned fuel acquired bufIndex s' :
    final_state (BufferUnpinned fuel acquired bufIndex s) = Some s' ->
    step s s'
| step_pin_manager i refs usage lock :
    step s (update_frame i (pin_manager_update refs usage lock) s).

Inductive reachable (pol : PolicyKind) (n : nat) : State -> Prop :=
| reachable_init : reachable pol n (initial_state pol n)
| reachable_step s s' : reachable pol n s -> step s s' -> reachable pol n s'.

(** The state [StrategyFreeBuffer] leaves when called on frame [i], whose
    descriptor is [b]. *)
Definition free_buffer_state (i : nat) (b : BufferDesc) (s : State) : State :=
  if freeNext b =? FREENEXT_NOT_IN_LIST then
    mkState (BufferReplacementPolicy s)
      (alter (set_freeNext (firstFreeBuffer (StrategyControl s))) i
             (BufferDescriptors s))
      (set_firstFreeBuffer (buf_id b)
         (if firstFreeBuffer (StrategyControl s) <? 0
          then set_lastFreeBuffer (buf_id b) (StrategyControl s)
          else StrategyControl s))
      (latches_set s)
  else s.

(** ** Scenarios *)

(** The pin manager pins the frame [StrategyGetBuffer] returned (one pin,
    usage count one) and releases its header lock; later it drops the pin. *)
Definition pin (i : nat) : State -> State :=
  update_frame i (pin_manager_update 1 1 false).
Definition drop_pin (i : nat) : State -> State :=
  update_frame i (fun b => pin_manager_update 0 (usage_count b) false b).

(** [k] allocations, each pinned by its caller. *)
Fixpoint allocate_and_pin (k : nat) (s : State) : State :=
  match k with
  | O => s
  | S k' =>
      allocate_and_pin k'
        (match StrategyGetBuffer 32 None s with
         | Ret (Some i, _, _) s' => pin i s'
         | _ => s
         end)
  end.

(** The pool after bootstrap with its freelist drained: every frame has been
    allocated once and is pinned. *)
Definition drained (pol : PolicyKind) (n : nat) : State :=
  allocate_and_pin n (initial_state pol n).

(** The last pin on frame [i] goes away and the unpin hook runs. *)
Definition unpin (i : nat) (s : State) : State :=
  exec (BufferUnpinned 32 true (Z.of_nat i)) (drop_pin i s).

(** A frame that is unpinned is looked up again, pinned, and unpinned. *)
Definition repin_unpin (i : nat) (s : State) : State :=
  unpin i (pin i s).

(** The state [StrategyGetBuffer] starts victim selection from when the
    freelist is empty: the allocation is counted and a registered bgwriter
    latch has been set. *)
Definition counted (s : State) : State :=
  match bgwriterLatch (StrategyControl s) with
  | Some l =>
      mkState (BufferReplacementPolicy s) (BufferDescriptors s)
        (set_bgwriterLatch None
           (set_numBufferAllocs
              (uint32_incr (numBufferAllocs (StrategyControl s)))
              (StrategyControl s)))
        (l :: latches_set s)
  | None =>
      mkState (BufferReplacementPolicy s) (BufferDescriptors s)
        (set_numBufferAllocs
           (uint32_incr (numBufferAllocs (StrategyControl s)))
           (StrategyControl s))
        (latches_set s)
  end.

(** Scenario 2 of the spec, as a condition on the state: CLOCK, eight
    frames, nothing on the freelist, the hand at 0 with no completed pass,
    every frame unpinned with usage count 1 and a free header lock. *)
Definition clock_ready (s : State) : Prop :=
  BufferReplacementPolicy s = POLICY_CLOCK /\
  length (BufferDescriptors s) = 8%nat /\
  firstFreeBuffer (StrategyControl s) < 0 /\
  nextVictimBuffer (StrategyControl s) = 0 /\
  completePasses (StrategyControl s) = 0 /\
  forall i b, BufferDescriptors s !! i = Some b ->
              refcount b = 0 /\ usage_count b = 1 /\ buf_hdr_lock b = false.

(** One such state: the drained pool with every pin dropped. *)
Definition clock_scenario : State :=
  fold_right unpin (drained POLICY_CLOCK 8) (rev (seq 0 8)).

(** Scenario 4 of the spec: 2Q, eight frames, all allocated and pinned; the
    pins on frames 0, 1, 2 are dropped, then frame 1 is pinned and unpinned
    once more. *)
Definition twoq_scenario : State :=
  repin_unpin 1 (unpin 2 (unpin 1 (unpin 0 (drained POLICY_2Q 8)))).

(** One frame in the main queue: the drained pool after frame 3 is
    unpinned. *)
Definition sole_element_scenario (pol : PolicyKind) : State :=
  unpin 3 (drained pol 8).

(** ** Link surgery, as functions on the descriptor array *)

(** Splicing a frame out: its predecessor [prv] and successor [nxt] are
    linked to each other (a NULL side has nothing to update). *)
Definition bypass (prv nxt : ptr) (bufs : list BufferDesc) : list BufferDesc :=
  let bufs1 := match prv with
               | Some p => alter (set_next nxt) p bufs
               | None => bufs
               end in
  match nxt with
  | Some n => alter (set_previous prv) n bufs1
  | None => bufs1
  end.

(** [buf->next = NULL; buf->previous = NULL;] *)
Definition detach (x : nat) (bufs : list BufferDesc) : list BufferDesc :=
  alter (set_previous None) x (alter (set_next None) x bufs).

(** Linking frame [x] behind the tail [t] of a queue (NULL when the queue is
    empty). *)
Definition attach (t : ptr) (x : nat) (bufs : list BufferDesc)
  : list BufferDesc :=
  alter (set_next None) x
    (alter (set_previous t) x
       (match t with
        | Some j => alter (set_next (Some x)) j bufs
        | None => bufs
        end)).

(** The control block after the unlinking block of the 2Q branch, for a
    victim whose links were [prv] and [nxt]. *)
Definition unlink_control (q : Queue) (prv nxt : ptr)
  (c : BufferStrategyControl) : BufferStrategyControl :=
  match nxt, prv with
  | Some _, Some _ => c
  | Some _, None => set_queue_head q nxt c
  | None, None => set_queue_tail q None (set_queue_head q None c)
  | None, Some _ => set_queue_tail q prv c
  end.

(** The state after [unlink_victim q] on frame [x] with descriptor [b]. *)
Definition unlinked (q : Queue) (x : nat) (b : BufferDesc) (s : State) : State :=
  mkState (BufferReplacementPolicy s)
    (detach x (bypass (previous b) (next b) (BufferDescriptors s)))
    (unlink_control q (previous b) (next b) (StrategyControl s))
    (latches_set s).

(** A pointer is NULL or names a descriptor. *)
Definition valid_ptr (s : State) (p : ptr) : Prop :=
  match p with
  | Some i => valid_frame s i
  | None => True
  end.

(** Which queue the 2Q branch scans, in terms of the queues' contents: A1
    when it holds at least [NBuffers / 2] frames or the main queue is empty,
    the main queue otherwise. *)
Definition twoq_choice (s : State) (am a1 : list nat) : Queue :=
  if (Z.quot (NBuffers s) 2 <=? Z.of_nat (length a1))
     || (match am with [] => true | _ :: _ => false end)
  then QA1 else QAM.

Definition other_queue (q : Queue) : Queue :=
  match q with QA1 => QAM | QAM => QA1 end.

(** The contents of queue [q], given those of the main queue and of A1. *)
Definition contents (q : Queue) (am a1 : list nat) : list nat :=
  match q with QAM => am | QA1 => a1 end.

(** Link surgery leaves the other fields of every descriptor alone. *)
Definition same_data (b b' : BufferDesc) : Prop :=
  buf_id b' = buf_id b /\ refcount b' = refcount b /\
  usage_count b' = usage_count b /\ freeNext b' = freeNext b /\
  buf_hdr_lock b' = buf_hdr_lock b.


(** ** The states [BufferUnpinned] leaves under 2Q *)

(** Frame [x], with descriptor [b], was in the main queue and not at its
    tail: it is spliced out and linked behind the old tail. *)
Definition moved_to_tail (x : nat) (b : BufferDesc) (s : State) : State :=
  mkState (BufferReplacementPolicy s)
    (attach (lastUnpinned (StrategyControl s)) x
       (bypass (previous b) (next b) (BufferDescriptors s)))
    (set_lastUnpinned (Some x)
       (match previous b with
        | Some _ => StrategyControl s
        | None => set_firstUnpinned (next b) (StrategyControl s)
        end))
    (latches_set s).

(** Frame [x] was in A1: it is spliced out of A1 and linked behind the tail
    of the main queue. *)
Definition promoted (x : nat) (b : BufferDesc) (s : State) : State :=
  mkState (BufferReplacementPolicy s)
    (attach (lastUnpinned (StrategyControl s)) x
       (bypass (previous b) (next b) (BufferDescriptors s)))
    (set_lastUnpinned (Some x)
       (let c := unlink_control QA1 (previous b) (next b) (StrategyControl s) in
        if is_null (firstUnpinned (StrategyControl s))
           || is_null (lastUnpinned (StrategyControl s))
        then set_firstUnpinned (Some x) c else c))
    (latches_set s).

(** Frame [x] was in neither queue: it is linked behind the tail of A1. *)
Definition enqueued_A1 (x : nat) (s : State) : State :=
  mkState (BufferReplacementPolicy s)
    (attach (a1Tail (StrategyControl s)) x (BufferDescriptors s))
    (set_a1Tail (Some x)
       (if is_null (a1Head (StrategyControl s))
           || is_null (a1Tail (StrategyControl s))
        then set_a1Tail (Some x) (set_a1Head (Some x) (StrategyControl s))
        else StrategyControl s))
    (latches_set s).

(** The state [BufferUnpinned] leaves under 2Q for frame [x] with
    descriptor [b], when the main queue holds [am] and A1 holds [a1]. *)
Definition unpinned_2Q_state (x : nat) (b : BufferDesc) (am a1 : list nat)
  (s : State) : State :=
  if bool_decide (x ∈ am) then
    match next b with
    | Some _ => moved_to_tail x b s
    | None => s
    end
  else if bool_decide (x ∈ a1) then promoted x b s
  else enqueued_A1 x s.

(** The contents of the two queues after [BufferUnpinned] under 2Q. *)
Definition without (x : nat) (l : list nat) : list nat :=
  filter (fun y => y <> x) l.

Definition unpinned_2Q_queues (x : nat) (am a1 : list nat)
  : list nat * list nat :=
  if bool_decide (x ∈ am) then (without x am ++ [x], a1)
  else if bool_decide (x ∈ a1) then (am ++ [x], without x a1)
  else (am, a1 ++ [x]).

(** What holds of the victim queues in every reachable state: under 2Q both
    are well-formed lists without a common frame; under the other policies
    A1 is never used. *)
Definition queues_inv (s : State) : Prop :=
  match BufferReplacementPolicy s with
  | POLICY_2Q => exists am a1, queues_are s am a1
  | _ => a1Head (StrategyControl s) = None
  end.

(** Frame 0 is allocated, pinned, unpinned, and then released to the
    freelist (as the buffer manager does when it invalidates a page). *)
Definition freed_while_queued : State :=
  exec (StrategyFreeBuffer (Some 0%nat))
       (unpin 0 (allocate_and_pin 1 (initial_state POLICY_2Q 8))).

(** The same with the four operations alone, without the pin manager. *)
Definition freed_while_queued_bare : State :=
  exec (StrategyFreeBuffer (Some 0%nat))
    (exec (BufferUnpinned 32 true 0)
       (exec (StrategyGetBuffer 32 None) (initial_state POLICY_2Q 8))).

(** A frame whose two queue links point at itself. *)
Definition self_linked (s : State) (i : nat) : Prop :=
  exists b, BufferDescriptors s !! i = Some b /\
            next b = Some i /\ previous b = Some i.

(** What re-unpinning the only frame of the main queue does under policy
    [pol]: the queue held frame 3 alone and was well formed; afterwards
    frame 3 is still head and tail, but linked to itself, and the main queue
    is no well-formed list any more. *)
Definition sole_element_broken (pol : PolicyKind) : Prop :=
  queue_is (sole_element_scenario pol) QAM [3%nat] /\
  let s' := repin_unpin 3 (sole_element_scenario pol) in
  firstUnpinned (StrategyControl s') = Some 3%nat /\
  lastUnpinned (StrategyControl s') = Some 3%nat /\
  self_linked s' 3 /\
  forall l, ~ queue_is s' QAM l.

(** Every frame pinned, with stale entries in the main queue: frames 3 and 5
    were unpinned and have been pinned again. *)
Definition all_pinned_stale (pol : PolicyKind) : State :=
  pin 5 (pin 3 (unpin 5 (unpin 3 (drained pol 8)))).

(** Every frame is pinned and nothing is on the freelist. *)
Definition all_pinned (s : State) : Prop :=
  firstFreeBuffer (StrategyControl s) < 0 /\
  forall i, valid_frame s i -> pinned s i.

(** Scenario 3 of the spec: LRU, frames 3, 1, 7, 2 unpinned in this order. *)
Definition lru_scenario : State :=
  unpin 2 (unpin 7 (unpin 1 (unpin 3 (drained POLICY_LRU 8)))).

(** A BULKREAD ring of four slots holding frames 0..3, whose current slot 0
    was handed out from the ring. *)
Definition ring_scenario : BufferAccessStrategyData :=
  mkStrategy BAS_BULKREAD 4 0 true [1; 2; 3; 4].

(** One frame released to the freelist after the pool has been drained. *)
Definition release_scenario : State :=
  exec (StrategyFreeBuffer (Some 5%nat)) (drained POLICY_2Q 8).

(** [s'] has the same descriptors as [s] as far as [buf_id] goes. *)
Definition same_ids (s s' : State) : Prop :=
  buf_id <$> BufferDescriptors s' = buf_id <$> BufferDescriptors s.

(** The contract of [StrategyGetBuffer] for the frame it returns. *)
Definition returned_frame_ok (s' : State) (i : nat) : Prop :=
  header_locked s' i /\ unpinned s' i.

(** A computation never leaves through [elog] with error [e]. *)
Definition never_raises {A} (e : ErrorKind) (m : M A) : Prop :=
  forall s s', m s <> Elog e s'.

(** The clock hand after one step of the sweep. *)
Definition clock_advance (s : State) : State :=
  mkState (BufferReplacementPolicy s) (BufferDescriptors s)
    (if NBuffers s <=? nextVictimBuffer (StrategyControl s) + 1
     then set_completePasses
            (uint32_incr (completePasses (StrategyControl s)))
            (set_nextVictimBuffer 0 (StrategyControl s))
     else set_nextVictimBuffer (nextVictimBuffer (StrategyControl s) + 1)
            (StrategyControl s))
    (latches_set s).

(** The clock hand after [k] steps. *)
Fixpoint clock_advance_n (k : nat) (s : State) : State :=
  match k with
  | O => s
  | S k' => clock_advance_n k' (clock_advance s)
  end.

(** Every frame is pinned and no header lock is held. *)
Definition pinned_and_unlocked (s : State) : Prop :=
  forall i b, BufferDescriptors s !! i = Some b ->
              refcount b <> 0 /\ buf_hdr_lock b = false.

(** The clock hand points into the descriptor array. *)
Definition hand_in_range (s : State) : Prop :=
  0 <= nextVictimBuffer (StrategyControl s) < NBuffers s.

(** What holds of the freelist fields in every reachable state: the head is
    a frame index or -1, every [freeNext] is an index, -1 or the
    [FREENEXT_NOT_IN_LIST] sentinel, and no [buf_id] is negative. *)
Definition free_inv (s : State) : Prop :=
  -1 <= firstFreeBuffer (StrategyControl s) /\
  forall i b, BufferDescriptors s !! i = Some b ->
              FREENEXT_NOT_IN_LIST <= freeNext b /\ 0 <= buf_id b.

(** A call that started with [free_inv] leaves it in place. *)
Definition keeps_free_inv (s s' : State) : Prop := free_inv s -> free_inv s'.

(** The state the hook leaves under CLOCK, LRU and MRU when frame [x], with
    nil links, is not in the main queue: it becomes the tail. *)
Definition appended_main (x : nat) (s : State) : State :=
  mkState (BufferReplacementPolicy s)
    (attach (lastUnpinned (StrategyControl s)) x (BufferDescriptors s))
    (set_lastUnpinned (Some x)
       (if is_null (firstUnpinned (StrategyControl s))
        then set_firstUnpinned (Some x) (StrategyControl s)
        else StrategyControl s))
    (latches_set s).

(** The policies whose unpin hook keeps the main queue only. *)
Definition single_queue_policy (pol : PolicyKind) : Prop :=
  pol = POLICY_CLOCK \/ pol = POLICY_LRU \/ pol = POLICY_MRU.

(** ** Further vocabulary: the ring *)

(** A ring is well formed when it has at least one slot, [buffers] has
    [ring_size] elements and [current] names one of them. *)
Definition ring_ok (st : BufferAccessStrategyData) : Prop :=
  0 < ring_size st /\ 0 <= current st < ring_size st /\
  Z.of_nat (length (buffers st)) = ring_size st.

(** The number of bytes [GetAccessStrategy] sizes a ring of type [bt] for. *)
Definition ring_bytes (bt : BufferAccessStrategyType) : Z :=
  match bt with
  | BAS_BULKWRITE => 16 * 1024 * 1024
  | _ => 256 * 1024
  end.

(** The ring after [GetBufferFromRing] has moved to the next slot and
    recorded whether that slot supplied the buffer. *)
Definition ring_advanced (hit : bool) (st : BufferAccessStrategyData)
  : BufferAccessStrategyData :=
  set_current_was_in_ring hit (set_current (next_slot st) st).

(** Taking the header lock of frame [i]. *)
Definition lock_frame (i : nat) (s : State) : State :=
  update_frame i (set_buf_hdr_lock true) s.

(** A pool of four frames with nothing on the freelist and the clock hand
    on frame 1: frame 0 is pinned, frame 1 is unpinned and was used once,
    frame 2 is unpinned and unused, frame 3 is pinned. *)
Definition small_pool (pol : PolicyKind) : State :=
  mkState pol
    [ mkBufferDesc 0 1 1 FREENEXT_NOT_IN_LIST None None false;
      mkBufferDesc 1 0 1 FREENEXT_NOT_IN_LIST None None false;
      mkBufferDesc 2 0 0 FREENEXT_NOT_IN_LIST None None false;
      mkBufferDesc 3 2 5 FREENEXT_NOT_IN_LIST None None false ]
    (mkControl 1 (-1) 0 0 0 None None None None None)
    [].

(** A ring of two slots: slot 0 holds buffer 1 (frame 0), slot 1 holds
    buffer 2 (frame 1); slot 0 was looked at last. *)
Definition small_ring : BufferAccessStrategyData :=
  mkStrategy BAS_BULKREAD 2 0 false [1; 2].

(** ** Further vocabulary: what a call leaves alone *)

(** [s'] agrees with [s] on the policy, on the latches set so far, on the
    view [fd] of every descriptor and on the view [fc] of the control
    block. *)
Definition preserved {X Y : Type} (fd : BufferDesc -> X)
  (fc : BufferStrategyControl -> Y) (s s' : State) : Prop :=
  BufferReplacementPolicy s' = BufferReplacementPolicy s /\
  latches_set s' = latches_set s /\
  fd <$> BufferDescriptors s' = fd <$> BufferDescriptors s /\
  fc (StrategyControl s') = fc (StrategyControl s).

(** Views of a descriptor and of the control block. *)
Definition no_view {A : Type} (_ : A) : unit := tt.
Definition alloc_stats (c : BufferStrategyControl) : Z * option Latch :=
  (numBufferAllocs c, bgwriterLatch c).

(** [allocations s k s']: [s'] is reached from [s] by calls of this file's
    entry points and updates of the pin manager, [k] of them calls of
    [StrategyGetBuffer] that came back, by returning or through [elog],
    with [*lock_held] set. *)
Inductive allocations (s : State) : nat -> State -> Prop :=
| allocations_none : allocations s 0 s
| allocations_ring k s1 s2 fuel strategy r :
    allocations s k s1 ->
    StrategyGetBuffer fuel strategy s1 = Ret r s2 -> snd (fst r) = false ->
    allocations s k s2
| allocations_global k s1 s2 fuel strategy :
    allocations s k s1 ->
    final_state (StrategyGetBuffer fuel strategy s1) = Some s2 ->
    (forall r, StrategyGetBuffer fuel strategy s1 = Ret r s2 ->
               snd (fst r) = true) ->
    allocations s (S k) s2
| allocations_free k s1 s2 buf :
    allocations s k s1 ->
    final_state (StrategyFreeBuffer buf s1) = Some s2 ->
    allocations s k s2
| allocations_unpinned k s1 s2 fuel acquired bufIndex :
    allocations s k s1 ->
    final_state (BufferUnpinned fuel acquired bufIndex s1) = Some s2 ->
    allocations s k s2
| allocations_notify k s1 s2 l :
    allocations s k s1 ->
    final_state (StrategyNotifyBgWriter l s1) = Some s2 ->
    allocations s k s2
| allocations_pin_manager k s1 i refs usage lock :
    allocations s k s1 ->
    allocations s k (update_frame i (pin_manager_update refs usage lock) s1).

(** The state [StrategySyncStart] leaves: the allocation count is cleared
    when it was asked for. *)
Definition sync_started (want_allocs : bool) (s : State) : State :=
  if want_allocs
  then mkState (BufferReplacementPolicy s) (BufferDescriptors s)
               (set_numBufferAllocs 0 (StrategyControl s)) (latches_set s)
  else s.

(** ** Further vocabulary: the freelist *)

(** [free_chain bufs h l]: following [freeNext] from index [h] visits the
    frames [l], in this order, and then reaches -1. *)
Fixpoint free_chain (bufs : list BufferDesc) (h : Z) (l : list nat) : Prop :=
  match l with
  | [] => h = -1
  | i :: l' =>
      h = Z.of_nat i /\
      exists b, bufs !! i = Some b /\ free_chain bufs (freeNext b) l'
  end.

(** The freelist of state [s] holds exactly the frames [l], head first: they
    are chained from [firstFreeBuffer], no frame occurs twice, a frame is in
    [l] exactly when its [freeNext] is not [FREENEXT_NOT_IN_LIST], and
    [lastFreeBuffer] is the last frame when there is one. *)
Definition freelist_is (s : State) (l : list nat) : Prop :=
  free_chain (BufferDescriptors s) (firstFreeBuffer (StrategyControl s)) l /\
  NoDup l /\
  (forall i b, BufferDescriptors s !! i = Some b ->
               (i ∈ l <-> freeNext b <> FREENEXT_NOT_IN_LIST)) /\
  (forall t, last l = Some t ->
             lastFreeBuffer (StrategyControl s) = Z.of_nat t).

(** The freelist fields, and everything beside them. *)
Definition freelist_ends (c : BufferStrategyControl) : Z * Z :=
  (firstFreeBuffer c, lastFreeBuffer c).
Definition beside_freeNext (b : BufferDesc) : Z * Z * Z * ptr * ptr * bool :=
  (buf_id b, refcount b, usage_count b, next b, previous b, buf_hdr_lock b).
Definition beside_freelist (c : BufferStrategyControl)
  : Z * Z * Z * option Latch * ptr * ptr * ptr * ptr :=
  (nextVictimBuffer c, completePasses c, numBufferAllocs c, bgwriterLatch c,
   lastUnpinned c, firstUnpinned c, a1Head c, a1Tail c).

(** The body of the freelist loop up to [LockBufHdr]: the head, frame [x]
    with descriptor [b], is taken off the list. *)
Definition popped (x : nat) (b : BufferDesc) (s : State) : State :=
  mkState (BufferReplacementPolicy s)
    (alter (set_freeNext FREENEXT_NOT_IN_LIST) x (BufferDescriptors s))
    (set_firstFreeBuffer (freeNext b) (StrategyControl s))
    (latches_set s).

Definition pop (x : nat) (s : State) : State :=
  match BufferDescriptors s !! x with
  | Some b => popped x b s
  | None => s
  end.

(** Taking the frames [l] off the freelist one after the other. *)
Fixpoint pop_all (l : list nat) (s : State) : State :=
  match l with
  | [] => s
  | x :: l' => pop_all l' (pop x s)
  end.

(** A frame the freelist loop hands out, and one it throws away. *)
Definition usable (b : BufferDesc) : bool :=
  (refcount b =? 0) && (usage_count b =? 0).

(** The descriptors are threaded into one list, frame [i] pointing at frame
    [i + 1] and the last one at -1: what [StrategyInitialize] assumes
    [InitBufferPool] has set up. *)
Definition threaded (s : State) : Prop :=
  forall i b, BufferDescriptors s !! i = Some b ->
    freeNext b = if Nat.eqb (S i) (length (BufferDescriptors s)) then -1
                 else Z.of_nat (S i).

(** A frame the freelist loop throws away when it meets it: its header lock
    is free, and it is pinned or has a nonzero usage count. *)
Definition discardable (s : State) (i : nat) : Prop :=
  exists b, BufferDescriptors s !! i = Some b /\
            buf_hdr_lock b = false /\ usable b = false.

(** A call that started with a well-formed freelist leaves one. *)
Definition keeps_freelist (s s' : State) : Prop :=
  (exists l, freelist_is s l) -> exists l', freelist_is s' l'.

(** ** Further vocabulary: the queue walks *)

(** A frame the walks of LRU and MRU step over: it is pinned and its header
    lock is free. *)
Definition skippable (s : State) (i : nat) : Prop :=
  exists b, BufferDescriptors s !! i = Some b /\
            buf_hdr_lock b = false /\ refcount b <> 0.

(** A frame these walks stop at: unpinned, header lock free, and carrying
    its own index. *)
Definition takeable (s : State) (i : nat) : Prop :=
  exists b, BufferDescriptors s !! i = Some b /\
            buf_hdr_lock b = false /\ refcount b = 0 /\
            buf_id b = Z.of_nat i.

(** ** Further vocabulary: header locks *)









(** ** Further vocabulary: what the pin manager owns, and the clock *)

(** The identity and the pin count of a frame. *)
Definition pin_view (b : BufferDesc) : Z * Z := (buf_id b, refcount b).

(** The usage count of a frame together with its identity and pin count. *)
Definition use_view (b : BufferDesc) : Z * Z * Z :=
  (buf_id b, refcount b, usage_count b).

(** The state of the clock sweep in the control block. *)
Definition clock_fields (c : BufferStrategyControl) : Z * Z :=
  (nextVictimBuffer c, completePasses c).

(** From [s] to [s'] no usage count has gone up, and one that has gone down
    has not gone below zero. *)
Definition usage_not_raised (s s' : State) : Prop :=
  forall i b, BufferDescriptors s !! i = Some b ->
    exists b', BufferDescriptors s' !! i = Some b' /\
               usage_count b' <= usage_count b /\
               (usage_count b' < usage_count b -> 0 <= usage_count b').

(** The body of the clock sweep from [LockBufHdr] on, for frame [i]: [n] is
    [NBuffers] and [rest] is the sweep going on with a new [trycounter]. *)
Definition clock_visit (i : nat) (strategy : BufferAccessStrategy)
  (trycounter n : Z) (rest : Z -> M (ptr * BufferAccessStrategy))
  : M (ptr * BufferAccessStrategy) :=
  LockBufHdr (Some i) ;;
  b <- deref (Some i) ;;
  if refcount b =? 0 then
    if 0 <? usage_count b then
      store (Some i) (set_usage_count (usage_count b - 1)) ;;
      UnlockBufHdr (Some i) ;;
      rest n
    else
      strategy' <- AddBufferToRing strategy (Some i) ;;
      ret (Some i, strategy')
  else if trycounter - 1 =? 0 then
    UnlockBufHdr (Some i) ;;
    elog NoUnpinnedBuffers
  else
    UnlockBufHdr (Some i) ;;
    rest (trycounter - 1).

(** A call that started with the clock hand inside the pool leaves it
    there. *)
Definition keeps_hand (s s' : State) : Prop :=
  hand_in_range s -> hand_in_range s'.

(** No header lock is held. *)
Definition all_unlocked (s : State) : Prop :=
  forall i b, BufferDescriptors s !! i = Some b -> buf_hdr_lock b = false.

(** What the clock sweep still has to count down: the usage counts of the
    unpinned frames, added up. *)
Definition usage_left (b : BufferDesc) : nat :=
  if refcount b =? 0 then Z.to_nat (usage_count b) else 0%nat.

Definition usage_sum (s : State) : nat :=
  sum_list_with usage_left (BufferDescriptors s).

(** ** Further vocabulary: what the unpin hook leaves alone *)

(** Everything in a descriptor beside the two queue links, and everything
    in the control block beside the heads and tails of the two queues. *)
Definition beside_links (b : BufferDesc) : Z * Z * Z * Z * bool :=
  (buf_id b, refcount b, usage_count b, freeNext b, buf_hdr_lock b).
Definition beside_queues (c : BufferStrategyControl)
  : Z * Z * Z * Z * Z * option Latch :=
  (nextVictimBuffer c, firstFreeBuffer c, lastFreeBuffer c, completePasses c,
   numBufferAllocs c, bgwriterLatch c).

(** ** Further scenarios *)

(** Three descriptors threaded into one list, before the strategy has been
    initialised. *)
Definition threaded_pool : State :=
  mkState POLICY_LRU
    [ mkBufferDesc 0 0 0 1 None None false;
      mkBufferDesc 1 0 0 2 None None false;
      mkBufferDesc 2 0 0 (-1) None None false ]
    (mkControl 0 0 0 0 0 None None None None None)
    [].

(** The same pool once initialised, frame 0 having been pinned by someone
    while it was still on the freelist. *)
Definition fresh_pool : State :=
  mkState POLICY_LRU
    [ mkBufferDesc 0 1 1 1 None None false;
      mkBufferDesc 1 0 0 2 None None false;
      mkBufferDesc 2 0 0 (-1) None None false ]
    (mkControl 0 0 2 0 0 None None None None None)
    [].

(** Three frames, all in the main queue in the order 0, 1, 2; frame 1 is
    the only one that is not pinned.  Nothing is on the freelist. *)
Definition queued_pool (pol : PolicyKind) : State :=
  mkState pol
    [ mkBufferDesc 0 1 1 FREENEXT_NOT_IN_LIST (Some 1%nat) None false;
      mkBufferDesc 1 0 1 FREENEXT_NOT_IN_LIST (Some 2%nat) (Some 0%nat) false;
      mkBufferDesc 2 1 1 FREENEXT_NOT_IN_LIST None (Some 1%nat) false ]
    (mkControl 0 (-1) 0 0 0 None (Some 2%nat) (Some 0%nat) None None)
    [].

(** Two frames, both pinned, nothing on the freelist. *)
Definition pinned_pool : State :=
  mkState POLICY_CLOCK
    [ mkBufferDesc 0 1 1 FREENEXT_NOT_IN_LIST None None false;
      mkBufferDesc 1 2 3 FREENEXT_NOT_IN_LIST None None false ]
    (mkControl 1 (-1) 0 0 0 None None None None None)
    [].

(** A ring of two slots, none of them filled yet. *)
Definition empty_ring : BufferAccessStrategyData :=
  mkStrategy BAS_BULKREAD 2 0 false [0; 0].

(** A frame that is in no queue as far as its own links tell: both are
    nil. *)
Definition off_queue (s : State) (i : nat) : Prop :=
  exists b, BufferDescriptors s !! i = Some b /\
            next b = None /\ previous b = None.

(** The frame LRU and MRU choose between two frames unpinned one after the
    other: the first one for LRU, the second one for MRU. *)
Definition victim_of (pol : PolicyKind) (first second : nat) : nat :=
  match pol with
  | POLICY_MRU => second
  | _ => first
  end.

(** * Proofs *)

(** ** Running the monad *)

Ltac msimpl :=
  cbn [bind ret elog fault out_of_fuel get_control get_policy get_NBuffers
       modify_control deref store Assert SetLatch
       BufferDescriptors StrategyControl BufferReplacementPolicy latches_set
       buf_id refcount usage_count freeNext next previous buf_hdr_lock
       set_usage_count set_refcount set_freeNext set_next set_previous
       set_buf_hdr_lock
       nextVictimBuffer firstFreeBuffer lastFreeBuffer completePasses
       numBufferAllocs bgwriterLatch lastUnpinned firstUnpinned a1Head a1Tail
       set_nextVictimBuffer set_firstFreeBuffer set_lastFreeBuffer
       set_completePasses set_numBufferAllocs set_bgwriterLatch
       set_lastUnpinned set_firstUnpinned set_a1Head set_a1Tail
       queue_head queue_tail set_queue_head set_queue_tail
       btype ring_size current current_was_in_ring buffers
       set_current set_current_was_in_ring set_buffers
       final_state returned update_frame
       is_null negb orb andb fst snd] in *.

Ltac munfold :=
  unfold bind, ret, elog, fault, get_control, get_policy, get_NBuffers,
    modify_control, deref, store, Assert, SetLatch.

Lemma bind_Ret {A B} (m : M A) (k : A -> M B) s a s' :
  m s = Ret a s' -> bind m k s = k a s'.
Proof. intros H. unfold bind. rewrite H. reflexivity. Qed.

Lemma deref_Some s i b :
  BufferDescriptors s !! i = Some b -> deref (Some i) s = Ret b s.
Proof. intros H. unfold deref. rewrite H. reflexivity. Qed.

Lemma store_Some s i f :
  valid_frame s i -> store (Some i) f s = Ret tt (update_frame i f s).
Proof.
  intros H. unfold store. destruct (lookup_lt_is_Some_2 _ _ H) as [b ->].
  reflexivity.
Qed.

(** ** Computations that keep a relation *)

Section Keeps.
Variable R : State -> State -> Prop.
Hypothesis R_refl : forall s, R s s.
Hypothesis R_trans : forall s1 s2 s3, R s1 s2 -> R s2 s3 -> R s1 s3.

Lemma keeps_ret {A} (a : A) : keeps R (ret a).
Proof. intros s s' [= <-]. apply R_refl. Qed.

Lemma keeps_elog {A} e : keeps R (@elog A e).
Proof. intros s s' [= <-]. apply R_refl. Qed.

Lemma keeps_fault {A} : keeps R (@fault A).
Proof. intros s s' [=]. Qed.

Lemma keeps_out_of_fuel {A} : keeps R (@out_of_fuel A).
Proof. intros s s' [=]. Qed.

Lemma keeps_stuck {A} : keeps R (fun _ => @Stuck A).
Proof. intros s s' [=]. Qed.

Lemma keeps_bind {A B} (m : M A) (k : A -> M B) :
  keeps R m -> (forall a, keeps R (k a)) -> keeps R (bind m k).
Proof.
  intros Hm Hk s s'. unfold bind.
  destruct (m s) as [a s1|e s1| | |] eqn:E; cbn; try discriminate.
  - intros H. eapply R_trans; [|eapply Hk, H]. apply Hm. rewrite E. reflexivity.
  - intros [= <-]. apply Hm. rewrite E. reflexivity.
Qed.

Lemma keeps_get_control : keeps R get_control.
Proof. intros s s' [= <-]. apply R_refl. Qed.

Lemma keeps_get_policy : keeps R get_policy.
Proof. intros s s' [= <-]. apply R_refl. Qed.

Lemma keeps_get_NBuffers : keeps R get_NBuffers.
Proof. intros s s' [= <-]. apply R_refl. Qed.

Lemma keeps_desc_addr i : keeps R (desc_addr i).
Proof.
  intros s s'. unfold desc_addr.
  destruct ((0 <=? i) && (i <? NBuffers s)); intros [= <-]. apply R_refl.
Qed.

Lemma keeps_deref p : keeps R (deref p).
Proof.
  intros s s'. unfold deref. destruct p as [i|]; [|discriminate].
  destruct (BufferDescriptors s !! i); intros [= <-]. apply R_refl.
Qed.

Lemma keeps_Assert b : keeps R (Assert b).
Proof. destruct b; [apply keeps_ret|apply keeps_fault]. Qed.

Lemma keeps_store p f :
  (forall s i, R s (update_frame i f s)) -> keeps R (store p f).
Proof.
  intros Hf s s'. unfold store. destruct p as [i|]; [|discriminate].
  destruct (BufferDescriptors s !! i); intros [= <-]. apply Hf.
Qed.

Lemma keeps_modify_control f :
  (forall s, R s (mkState (BufferReplacementPolicy s) (BufferDescriptors s)
                          (f (StrategyControl s)) (latches_set s))) ->
  keeps R (modify_control f).
Proof. intros Hf s s' [= <-]. apply Hf. Qed.

Lemma keeps_SetLatch l :
  (forall s, R s (mkState (BufferReplacementPolicy s) (BufferDescriptors s)
                          (StrategyControl s) (l :: latches_set s))) ->
  keeps R (SetLatch l).
Proof. intros Hf s s' [= <-]. apply Hf. Qed.
End Keeps.

Lemma same_queues_refl s : same_queues s s.
Proof. repeat split. Qed.

Lemma same_queues_trans s1 s2 s3 :
  same_queues s1 s2 -> same_queues s2 s3 -> same_queues s1 s3.
Proof.
  intros (? & ? & ?) (? & ? & ?). repeat split; etransitivity; eauto.
Qed.

Lemma same_queues_update_frame f s i :
  (forall b, links_of (f b) = links_of b) ->
  same_queues s (update_frame i f s).
Proof.
  intros Hf. repeat split. cbn. apply list_eq. intros j.
  rewrite !list_lookup_fmap.
  destruct (decide (i = j)) as [->|Hne].
  - rewrite list_lookup_alter_eq. destruct (BufferDescriptors s !! j); cbn; [|reflexivity].
    f_equal. apply Hf.
  - rewrite list_lookup_alter_ne by exact Hne. reflexivity.
Qed.

Lemma same_queues_control f s :
  (forall c, queue_fields (f c) = queue_fields c) ->
  same_queues s (mkState (BufferReplacementPolicy s) (BufferDescriptors s)
                         (f (StrategyControl s)) (latches_set s)).
Proof. intros Hf. repeat split. apply Hf. Qed.

Lemma same_queues_latch l s :
  same_queues s (mkState (BufferReplacementPolicy s) (BufferDescriptors s)
                         (StrategyControl s) (l :: latches_set s)).
Proof. repeat split. Qed.

Ltac keeps_queues_step :=
  first
    [ apply keeps_ret; exact same_queues_refl
    | apply keeps_elog; exact same_queues_refl
    | apply keeps_fault
    | apply keeps_out_of_fuel
    | apply keeps_stuck
    | apply keeps_get_control; exact same_queues_refl
    | apply keeps_get_policy; exact same_queues_refl
    | apply keeps_get_NBuffers; exact same_queues_refl
    | apply keeps_desc_addr; exact same_queues_refl
    | apply keeps_deref; exact same_queues_refl
    | apply keeps_Assert; exact same_queues_refl
    | apply keeps_store; intros; apply same_queues_update_frame; reflexivity
    | apply keeps_modify_control; intros; apply same_queues_control; reflexivity
    | apply keeps_SetLatch; intros; apply same_queues_latch
    | apply (keeps_bind _ same_queues_trans); [|intros ?]
    | match goal with
      | |- keeps _ (if ?b then _ else _) => destruct b
      | |- keeps _ (match ?x with _ => _ end) => destruct x
      end ].

Ltac keeps_queues := repeat keeps_queues_step.

Lemma LockBufHdr_keeps_queues p : keeps same_queues (LockBufHdr p).
Proof. unfold LockBufHdr. keeps_queues. Qed.

Lemma UnlockBufHdr_keeps_queues p : keeps same_queues (UnlockBufHdr p).
Proof. unfold UnlockBufHdr. keeps_queues. Qed.

Lemma AddBufferToRing_keeps_queues st p : keeps same_queues (AddBufferToRing st p).
Proof. unfold AddBufferToRing. keeps_queues. Qed.

Lemma GetBufferFromRing_keeps_queues st : keeps same_queues (GetBufferFromRing st).
Proof.
  unfold GetBufferFromRing. keeps_queues;
    first [apply LockBufHdr_keeps_queues | apply UnlockBufHdr_keeps_queues].
Qed.

Lemma final_state_bind {A B} (m : M A) (k : A -> M B) s s' :
  final_state (bind m k s) = Some s' ->
  (exists a s1, m s = Ret a s1 /\ final_state (k a s1) = Some s') \/
  (exists e, m s = Elog e s').
Proof.
  unfold bind. destruct (m s) as [a s1|e s1| | |]; cbn; try discriminate.
  - intros H. left. eauto.
  - intros [= <-]. right. eauto.
Qed.

Ltac keeps_queues_step' :=
  first
    [ apply LockBufHdr_keeps_queues
    | apply UnlockBufHdr_keeps_queues
    | apply AddBufferToRing_keeps_queues
    | apply GetBufferFromRing_keeps_queues
    | keeps_queues_step ].

Lemma count_allocation_keeps_queues : keeps same_queues count_allocation.
Proof. unfold count_allocation. repeat keeps_queues_step'. Qed.

Lemma freelist_loop_keeps_queues fuel strategy :
  keeps same_queues (freelist_loop fuel strategy).
Proof.
  induction fuel as [|fuel IH]; cbn [freelist_loop];
    repeat first [apply IH | keeps_queues_step'].
Qed.

Lemma clock_sweep_keeps_queues fuel strategy trycounter :
  keeps same_queues (clock_sweep fuel strategy trycounter).
Proof.
  revert trycounter. induction fuel as [|fuel IH]; intros trycounter;
    cbn [clock_sweep]; repeat first [apply IH | keeps_queues_step'].
Qed.

Lemma queue_walk_keeps_queues fuel link buf :
  keeps same_queues (queue_walk fuel link buf).
Proof.
  revert buf. induction fuel as [|fuel IH]; intros buf;
    cbn [queue_walk]; repeat first [apply IH | keeps_queues_step'].
Qed.

Lemma queue_walk_result_keeps_queues r :
  keeps same_queues (queue_walk_result r).
Proof. unfold queue_walk_result. repeat keeps_queues_step'. Qed.

Lemma return_result_keeps_queues strategy r :
  keeps same_queues (return_result strategy r).
Proof. unfold return_result. repeat keeps_queues_step'. Qed.


(** ** StrategyFreeBuffer *)

Lemma StrategyFreeBuffer_run s i b :
  BufferDescriptors s !! i = Some b ->
  StrategyFreeBuffer (Some i) s = Ret tt (free_buffer_state i b s).
Proof.
  intros Hb. unfold StrategyFreeBuffer, free_buffer_state. munfold.
  rewrite Hb. destruct (freeNext b =? FREENEXT_NOT_IN_LIST); [|reflexivity].
  rewrite Hb. msimpl. rewrite !list_lookup_alter_eq, Hb.
  cbn [fmap option_fmap option_map]. msimpl.
  destruct (firstFreeBuffer (StrategyControl s) <? 0); msimpl;
    rewrite ?list_lookup_alter_eq, ?Hb; reflexivity.
Qed.

(** C8.  Releasing a frame twice leaves exactly the state that releasing it
    once leaves: the second [StrategyFreeBuffer] finds [freeNext] different
    from [FREENEXT_NOT_IN_LIST] and changes nothing.  The whole shared state
    is compared, hence also [firstFreeBuffer], [lastFreeBuffer] and every
    [freeNext].  The hypothesis says that the head of the freelist is a frame
    index or -1, not the sentinel [FREENEXT_NOT_IN_LIST]; it holds in every
    reachable state ([reachable_freelist_head]). *)
Theorem StrategyFreeBuffer_idempotent (buf : ptr) (s : State) :
  firstFreeBuffer (StrategyControl s) <> FREENEXT_NOT_IN_LIST ->
  (StrategyFreeBuffer buf ;; StrategyFreeBuffer buf) s
  = StrategyFreeBuffer buf s.
Proof.
  intros Hfirst. apply Z.eqb_neq in Hfirst.
  destruct buf as [i|]; [|reflexivity].
  destruct (BufferDescriptors s !! i) as [b|] eqn:Hb.
  2:{ unfold StrategyFreeBuffer, bind, deref. rewrite Hb. reflexivity. }
  rewrite (bind_Ret _ _ _ _ _ (StrategyFreeBuffer_run s i b Hb)).
  rewrite (StrategyFreeBuffer_run s i b Hb).
  unfold free_buffer_state.
  destruct (freeNext b =? FREENEXT_NOT_IN_LIST) eqn:Hfn.
  - erewrite StrategyFreeBuffer_run.
    2:{ msimpl. rewrite list_lookup_alter_eq, Hb. reflexivity. }
    unfold free_buffer_state. msimpl. rewrite Hfirst. reflexivity.
  - rewrite (StrategyFreeBuffer_run s i b Hb). unfold free_buffer_state.
    rewrite Hfn. reflexivity.
Qed.

(** ** The clock sweep scenario *)

Lemma count_allocation_run s : count_allocation s = Ret tt (counted s).
Proof.
  unfold count_allocation, counted. munfold. msimpl.
  destruct (bgwriterLatch (StrategyControl s)); reflexivity.
Qed.

Lemma freelist_loop_empty fuel strategy s :
  firstFreeBuffer (StrategyControl s) < 0 ->
  freelist_loop (S fuel) strategy s = Ret None s.
Proof.
  intros H. cbn [freelist_loop]. munfold.
  destruct (Z.leb_spec 0 (firstFreeBuffer (StrategyControl s))); [lia|reflexivity].
Qed.

Lemma firstFreeBuffer_counted s :
  firstFreeBuffer (StrategyControl (counted s)) = firstFreeBuffer (StrategyControl s).
Proof. unfold counted. destruct (bgwriterLatch (StrategyControl s)); reflexivity. Qed.

Lemma StrategyGetBuffer_empty_freelist fuel s :
  firstFreeBuffer (StrategyControl s) < 0 ->
  StrategyGetBuffer (S fuel) None s = select_victim (S fuel) None (counted s).
Proof.
  intros H. unfold StrategyGetBuffer, StrategyGetBuffer_global.
  rewrite (bind_Ret _ _ _ _ _ (count_allocation_run s)).
  rewrite (bind_Ret (freelist_loop (S fuel) None) _ (counted s) None (counted s));
    [reflexivity|].
  apply freelist_loop_empty. rewrite firstFreeBuffer_counted. exact H.
Qed.

Lemma clock_ready_counted s : clock_ready s -> clock_ready (counted s).
Proof.
  unfold clock_ready, counted.
  destruct (bgwriterLatch (StrategyControl s)); msimpl; tauto.
Qed.

(** C3.  CLOCK with eight frames, an empty freelist, the hand at 0 and every
    frame unpinned with usage count 1: one [StrategyGetBuffer] returns
    frame 0 with its header lock held; on the way the sweep has brought the
    usage count of each of the frames 0..7 down to 0 (evicting none on the
    first pass), has wrapped once ([completePasses] is 1), and leaves
    [nextVictimBuffer] at 1. *)
Theorem clock_decrement_then_evict s fuel :
  clock_ready s -> (9 <= fuel)%nat ->
  exists s', StrategyGetBuffer fuel None s = Ret (Some 0%nat, true, None) s' /\
    nextVictimBuffer (StrategyControl s') = 1 /\
    completePasses (StrategyControl s') = 1 /\
    length (BufferDescriptors s') = 8%nat /\
    (forall i b, BufferDescriptors s' !! i = Some b -> refcount b = 0 /\ usage_count b = 0) /\
    header_locked s' 0.
Proof.
  intros Hready Hfuel.
  do 9 (destruct fuel as [|fuel]; [lia|]).
  rewrite StrategyGetBuffer_empty_freelist by apply Hready.
  apply clock_ready_counted in Hready. revert Hready. generalize (counted s). clear s.
  intros s (Hpol & Hlen & Hfree & Hhand & Hpass & Hfr).
  destruct s as [pol bufs ctl sigs]. cbn [BufferReplacementPolicy BufferDescriptors StrategyControl] in *.
  do 9 (destruct bufs as [|? bufs]; try discriminate Hlen).
  pose proof (Hfr 0%nat _ eq_refl) as H0.
  pose proof (Hfr 1%nat _ eq_refl) as H1.
  pose proof (Hfr 2%nat _ eq_refl) as H2.
  pose proof (Hfr 3%nat _ eq_refl) as H3.
  pose proof (Hfr 4%nat _ eq_refl) as H4.
  pose proof (Hfr 5%nat _ eq_refl) as H5.
  pose proof (Hfr 6%nat _ eq_refl) as H6.
  pose proof (Hfr 7%nat _ eq_refl) as H7.
  clear Hfr Hlen.
  repeat match goal with b : BufferDesc |- _ => destruct b end.
  destruct ctl as [hand ff lf cp nba latch lu fu ah atl]. cbn in *.
  repeat match goal with H : _ /\ _ |- _ => destruct H end. subst.
  eexists. split.
  - vm_compute. reflexivity.
  - do 3 (split; [reflexivity|]). split.
    + intros k d Hd. do 8 (destruct k; [injection Hd as <-; split; reflexivity|]). discriminate Hd.
    + eexists; split; reflexivity.
Qed.

(** ** The ring *)

Lemma ring_read_write st i v st' :
  ring_write st i v = Some st' ->
  ring_read st' i = Some v /\ current st' = current st /\
  ring_size st' = ring_size st /\ btype st' = btype st /\
  current_was_in_ring st' = current_was_in_ring st.
Proof.
  unfold ring_write, ring_read.
  destruct (0 <=? i) eqn:Hi; [|discriminate].
  destruct (buffers st !! Z.to_nat i) as [w|] eqn:Hw; [|discriminate].
  intros [= <-]. msimpl. repeat split.
  apply list_lookup_insert_eq. eapply lookup_lt_Some; eauto.
Qed.

Lemma GetBufferFromRing_invalid_slot st s :
  ring_read st (next_slot st) = Some InvalidBuffer ->
  GetBufferFromRing st s
  = Ret (None, set_current_was_in_ring false (set_current (next_slot st) st)) s.
Proof.
  intros H. unfold GetBufferFromRing.
  replace (ring_read (set_current (next_slot st) st)
             (current (set_current (next_slot st) st)))
    with (ring_read st (next_slot st)) by reflexivity.
  rewrite H. reflexivity.
Qed.

(** C9.  [StrategyRejectBuffer(strategy, buf)] returns true exactly when the
    ring is a BULKREAD ring, the current slot still holds [buf]'s buffer
    number, and [current_was_in_ring] is set; it then writes [InvalidBuffer]
    into that slot, so that a later [GetBufferFromRing] whose advance lands on
    that slot, the slot not having been refilled, returns NULL. *)
Theorem StrategyRejectBuffer_spec st i b slot s :
  BufferDescriptors s !! i = Some b ->
  ring_read st (current st) = Some slot ->
  exists r st',
    StrategyRejectBuffer st (Some i) s = Ret (r, st') s /\
    (r = true <->
       btype st = BAS_BULKREAD /\ slot = BufferDescriptorGetBuffer b /\
       current_was_in_ring st = true) /\
    (r = false -> st' = st) /\
    (r = true ->
       ring_read st' (current st) = Some InvalidBuffer /\
       forall st2 s2,
         next_slot st2 = current st ->
         ring_read st2 (current st) = ring_read st' (current st) ->
         exists st3, GetBufferFromRing st2 s2 = Ret (None, st3) s2 /\
                     current st3 = current st /\
                     current_was_in_ring st3 = false).
Proof.
  intros Hb Hslot. unfold StrategyRejectBuffer.
  destruct (btype st) eqn:Hty;
    try (exists false, st; split; [reflexivity|];
         split; [split; [discriminate|intros (? & _); discriminate]|];
         split; [reflexivity|discriminate]).
  destruct (current_was_in_ring st) eqn:Hin; cbn [negb].
  2:{ exists false, st. split; [reflexivity|].
      split; [split; [discriminate|intros (_ & _ & ?); discriminate]|].
      split; [reflexivity|discriminate]. }
  rewrite Hslot. rewrite (bind_Ret _ _ _ _ _ (deref_Some s i b Hb)).
  destruct (slot =? BufferDescriptorGetBuffer b) eqn:Heq; cbn [negb].
  2:{ exists false, st. split; [reflexivity|]. apply Z.eqb_neq in Heq.
      split; [split; [discriminate|intros (_ & ? & _); contradiction]|].
      split; [reflexivity|discriminate]. }
  apply Z.eqb_eq in Heq.
  destruct (ring_write st (current st) InvalidBuffer) as [st'|] eqn:Hw.
  2:{ unfold ring_write in Hw. rewrite Hslot in Hw. discriminate. }
  exists true, st'. split; [reflexivity|].
  split; [split; [auto|reflexivity]|].
  split; [discriminate|]. intros _.
  destruct (ring_read_write _ _ _ _ Hw) as (Hrd & Hcur & _).
  split; [exact Hrd|]. intros st2 s2 Hnext Hsame.
  eexists. split.
  - apply GetBufferFromRing_invalid_slot. rewrite Hnext, Hsame. exact Hrd.
  - split; [exact Hnext|reflexivity]. 
Qed.

(** ** Selection under CLOCK, LRU and MRU does not touch the queues *)

Lemma clock_select_keeps_queues fuel strategy :
  keeps same_queues (clock_select fuel strategy).
Proof.
  unfold clock_select.
  repeat first [apply clock_sweep_keeps_queues | keeps_queues_step'].
Qed.

Lemma queue_select_keeps_queues fuel strategy link entry :
  keeps same_queues (queue_select fuel strategy link entry).
Proof.
  unfold queue_select.
  repeat first [apply queue_walk_keeps_queues
               | apply queue_walk_result_keeps_queues
               | apply return_result_keeps_queues
               | keeps_queues_step'].
Qed.

Lemma select_victim_keeps_queues fuel strategy s s' :
  BufferReplacementPolicy s <> POLICY_2Q ->
  final_state (select_victim fuel strategy s) = Some s' ->
  same_queues s s'.
Proof.
  intros Hpol. unfold select_victim.
  rewrite (bind_Ret get_policy _ s (BufferReplacementPolicy s) s eq_refl).
  destruct (BufferReplacementPolicy s); try contradiction.
  - apply clock_select_keeps_queues.
  - apply queue_select_keeps_queues.
  - apply queue_select_keeps_queues.
  - intros [= <-]. apply same_queues_refl.
Qed.

(** What [StrategyGetBuffer] does before it selects a victim: either it
    leaves with a frame from the ring or the freelist (or an error), or it
    reaches victim selection in a state with the same queues. *)
Lemma StrategyGetBuffer_cases fuel strategy s s' :
  final_state (StrategyGetBuffer fuel strategy s) = Some s' ->
  same_queues s s' \/
  exists strategy' s1, same_queues s s1 /\
    final_state (select_victim fuel strategy' s1) = Some s'.
Proof.
  assert (Hglobal : forall strategy s s',
    final_state (StrategyGetBuffer_global fuel strategy s) = Some s' ->
    same_queues s s' \/
    exists strategy' s1, same_queues s s1 /\
      final_state (select_victim fuel strategy' s1) = Some s').
  { clear. intros strategy s s' H. unfold StrategyGetBuffer_global in H.
    apply final_state_bind in H as [(a & s1 & H1 & H)|(e & H1)].
    2:{ left. apply count_allocation_keeps_queues. rewrite H1. reflexivity. }
    assert (Hs1 : same_queues s s1).
    { apply count_allocation_keeps_queues. rewrite H1. reflexivity. }
    apply final_state_bind in H as [(r & s2 & H2 & H)|(e & H2)].
    2:{ left. eapply same_queues_trans; [exact Hs1|].
        eapply freelist_loop_keeps_queues. rewrite H2. reflexivity. }
    assert (Hs2 : same_queues s s2).
    { eapply same_queues_trans; [exact Hs1|].
      eapply freelist_loop_keeps_queues. rewrite H2. reflexivity. }
    destruct r as [[buf strategy']|].
    - left. injection H as <-. exact Hs2.
    - right. eauto. }
  intros H. destruct strategy as [st|]; [|eapply Hglobal, H].
  unfold StrategyGetBuffer in H.
  apply final_state_bind in H as [(r & s1 & H1 & H)|(e & H1)].
  2:{ left. eapply GetBufferFromRing_keeps_queues. rewrite H1. reflexivity. }
  assert (Hs1 : same_queues s s1).
  { eapply GetBufferFromRing_keeps_queues. rewrite H1. reflexivity. }
  destruct (fst r).
  - left. injection H as <-. exact Hs1.
  - apply Hglobal in H as [H|(st' & s2 & H2 & H)].
    + left. eapply same_queues_trans; eauto.
    + right. exists st', s2. split; [eapply same_queues_trans; eauto|exact H].
Qed.

Lemma StrategyGetBuffer_keeps_queues fuel strategy s s' :
  BufferReplacementPolicy s <> POLICY_2Q ->
  final_state (StrategyGetBuffer fuel strategy s) = Some s' ->
  same_queues s s'.
Proof.
  intros Hpol H. apply StrategyGetBuffer_cases in H as [H|(st' & s1 & H1 & H)].
  - exact H.
  - eapply same_queues_trans; [exact H1|].
    eapply select_victim_keeps_queues; [|exact H].
    destruct H1 as (-> & _). exact Hpol.
Qed.

Lemma same_queues_links s s' i b :
  same_queues s s' -> BufferDescriptors s !! i = Some b ->
  exists b', BufferDescriptors s' !! i = Some b' /\
             next b' = next b /\ previous b' = previous b.
Proof.
  intros (_ & _ & Hl) Hb.
  assert (H : (links_of <$> BufferDescriptors s') !! i = Some (links_of b)).
  { rewrite Hl, list_lookup_fmap, Hb. reflexivity. }
  rewrite list_lookup_fmap in H.
  destruct (BufferDescriptors s' !! i) as [b'|]; [|discriminate].
  injection H as H1 H2. eauto.
Qed.

Lemma same_queues_length s s' :
  same_queues s s' ->
  length (BufferDescriptors s') = length (BufferDescriptors s).
Proof.
  intros (_ & _ & Hl). apply (f_equal length) in Hl.
  rewrite !length_fmap in Hl. exact Hl.
Qed.

(** C10.  A [StrategyGetBuffer] that returns under LRU or MRU leaves the main
    victim queue as it found it: [firstUnpinned] and [lastUnpinned] are
    unchanged, and so are [next] and [previous] of every descriptor, the
    returned victim included.  (Under 2Q the victim is unlinked, see
    [twoq_select_run].) *)
Theorem LRU_MRU_selection_leaves_queue fuel strategy s r s' :
  BufferReplacementPolicy s = POLICY_LRU \/
  BufferReplacementPolicy s = POLICY_MRU ->
  StrategyGetBuffer fuel strategy s = Ret r s' ->
  firstUnpinned (StrategyControl s') = firstUnpinned (StrategyControl s) /\
  lastUnpinned (StrategyControl s') = lastUnpinned (StrategyControl s) /\
  length (BufferDescriptors s') = length (BufferDescriptors s) /\
  forall i b, BufferDescriptors s !! i = Some b ->
    exists b', BufferDescriptors s' !! i = Some b' /\
               next b' = next b /\ previous b' = previous b.
Proof.
  intros Hpol Hrun.
  assert (H : same_queues s s').
  { eapply StrategyGetBuffer_keeps_queues with (fuel := fuel) (strategy := strategy).
    - destruct Hpol as [-> | ->]; discriminate.
    - rewrite Hrun. reflexivity. }
  pose proof H as (_ & Hq & _). injection Hq as Hf Hl _ _.
  split; [exact Hf|]. split; [exact Hl|].
  split; [apply same_queues_length, H|].
  intros i b Hb. eapply same_queues_links; eauto.
Qed.

(** ** Doubly-linked segments *)

Section Segments.
Implicit Types (bufs : list BufferDesc) (l : list nat) (p q : ptr).

Lemma hd_ptr_app l1 l2 q : hd_ptr (l1 ++ l2) q = hd_ptr l1 (hd_ptr l2 q).
Proof. destruct l1; reflexivity. Qed.

Lemma last_ptr_cons i l p : last_ptr (i :: l) p = last_ptr l (Some i).
Proof. unfold last_ptr. rewrite last_cons. destruct (last l); reflexivity. Qed.

Lemma last_ptr_app l1 l2 p : last_ptr (l1 ++ l2) p = last_ptr l2 (last_ptr l1 p).
Proof.
  revert p. induction l1 as [|i l1 IH]; intros p; [reflexivity|].
  rewrite <- app_comm_cons, !last_ptr_cons. apply IH.
Qed.

Lemma seg_app bufs p l1 l2 q :
  seg bufs p (l1 ++ l2) q <->
  seg bufs p l1 (hd_ptr l2 q) /\ seg bufs (last_ptr l1 p) l2 q.
Proof.
  revert p. induction l1 as [|i l1 IH]; intros p.
  - cbn. tauto.
  - rewrite last_ptr_cons. cbn [app seg]. rewrite hd_ptr_app. split.
    + intros (b & Hb & Hp & Hn & Hs). apply IH in Hs as [Hs1 Hs2].
      split; [|exact Hs2]. exists b. auto.
    + intros [(b & Hb & Hp & Hn & Hs1) Hs2]. exists b.
      repeat split; auto. apply IH. auto.
Qed.

(** A segment only depends on the links of its own frames. *)
Lemma seg_frame bufs bufs' p l q :
  (forall i, i ∈ l -> links_of <$> bufs' !! i = links_of <$> bufs !! i) ->
  seg bufs p l q -> seg bufs' p l q.
Proof.
  revert p. induction l as [|i l IH]; intros p Hsame; [trivial|].
  cbn. intros (b & Hb & Hp & Hn & Hs).
  pose proof (Hsame i ltac:(left)) as Hi. rewrite Hb in Hi.
  destruct (bufs' !! i) as [b'|]; [|discriminate].
  injection Hi as Hn' Hp'. exists b'. repeat split; try congruence.
  apply IH; [|exact Hs]. intros j Hj. apply Hsame. right. exact Hj.
Qed.

Lemma seg_valid bufs p l q i :
  seg bufs p l q -> i ∈ l -> is_Some (bufs !! i).
Proof.
  revert p. induction l as [|j l IH]; intros p Hs Hi.
  - inversion Hi.
  - destruct Hs as (b & Hb & _ & _ & Hs).
    apply elem_of_cons in Hi as [->|Hi]; eauto.
Qed.

(** Redirecting the [next] of the last frame. *)
Lemma seg_set_last bufs p l q q' :
  NoDup l -> seg bufs p l q ->
  seg (match last_ptr l None with
       | Some t => alter (set_next q') t bufs
       | None => bufs
       end) p l q'.
Proof.
  revert p. induction l as [|i l IH]; intros p Hnd Hs; [exact I|].
  apply NoDup_cons in Hnd as [Hi Hnd].
  destruct Hs as (b & Hb & Hp & Hn & Hs).
  rewrite last_ptr_cons. destruct l as [|j l].
  - cbn. rewrite list_lookup_alter_eq, Hb. eexists. split; [reflexivity|].
    repeat split. exact Hp.
  - specialize (IH (Some i) Hnd Hs).
    assert (Ht : exists t, last_ptr (j :: l) (Some i) = Some t /\
                           last_ptr (j :: l) None = Some t /\ t <> i).
    { unfold last_ptr. destruct (last (j :: l)) as [t|] eqn:Hl.
      - exists t. repeat split. intros ->. apply Hi.
        apply last_Some_elem_of in Hl. exact Hl.
      - apply last_None in Hl. discriminate. }
    destruct Ht as (t & Ht1 & Ht2 & Hti). rewrite Ht1. rewrite Ht2 in IH.
    cbn [seg]. rewrite list_lookup_alter_ne by exact Hti.
    exists b. repeat split; auto.
Qed.

(** Redirecting the [previous] of the first frame. *)
Lemma seg_set_first bufs p p' l q :
  NoDup l -> seg bufs p l q ->
  seg (match hd_ptr l None with
       | Some h => alter (set_previous p') h bufs
       | None => bufs
       end) p' l q.
Proof.
  destruct l as [|i l]; intros Hnd Hs; [exact I|].
  apply NoDup_cons in Hnd as [Hi Hnd].
  destruct Hs as (b & Hb & Hp & Hn & Hs).
  cbn. rewrite list_lookup_alter_eq, Hb. eexists. split; [reflexivity|].
  repeat split; [exact Hn|].
  eapply seg_frame; [|exact Hs]. intros j Hj.
  rewrite list_lookup_alter_ne; [reflexivity|]. intros ->. contradiction.
Qed.
End Segments.

(** ** Splicing out and linking in *)

Lemma last_ptr_elem_of l t : last_ptr l None = Some t -> t ∈ l.
Proof.
  unfold last_ptr. destruct (last l) as [i|] eqn:Hl; [|discriminate].
  intros [= <-]. apply last_Some_elem_of, Hl.
Qed.

Lemma hd_ptr_elem_of l h : hd_ptr l None = Some h -> h ∈ l.
Proof. destruct l; [discriminate|]. intros [= <-]. left. Qed.

Lemma bypass_lookup_other prv nxt bufs i :
  Some i <> prv -> Some i <> nxt -> bypass prv nxt bufs !! i = bufs !! i.
Proof.
  intros Hp Hn. unfold bypass.
  destruct nxt as [n|], prv as [p|];
    rewrite ?list_lookup_alter_ne by congruence; reflexivity.
Qed.

Lemma seg_bypass bufs l1 x l2 :
  NoDup (l1 ++ x :: l2) ->
  seg bufs None (l1 ++ x :: l2) None ->
  seg (bypass (last_ptr l1 None) (hd_ptr l2 None) bufs) None (l1 ++ l2) None.
Proof.
  intros Hnd Hs.
  apply NoDup_app in Hnd as (Hnd1 & Hdisj & Hnd2).
  apply NoDup_cons in Hnd2 as [Hx2 Hnd2].
  apply seg_app in Hs as [Hs1 (b & Hb & Hp & Hn & Hs2)].
  pose proof (seg_set_last _ _ _ _ (hd_ptr l2 None) Hnd1 Hs1) as Hs1'.
  set (bufs1 := match last_ptr l1 None with
                | Some t => alter (set_next (hd_ptr l2 None)) t bufs
                | None => bufs
                end) in *.
  assert (Hs2' : seg bufs1 (Some x) l2 None).
  { eapply seg_frame; [|exact Hs2]. intros j Hj. subst bufs1.
    destruct (last_ptr l1 None) as [t|] eqn:Ht; [|reflexivity].
    rewrite list_lookup_alter_ne; [reflexivity|]. intros ->.
    apply last_ptr_elem_of in Ht. eapply Hdisj; [exact Ht|]. right. exact Hj. }
  pose proof (seg_set_first _ _ (last_ptr l1 None) _ _ Hnd2 Hs2') as Hs2''.
  change (bypass (last_ptr l1 None) (hd_ptr l2 None) bufs)
    with (match hd_ptr l2 None with
          | Some n => alter (set_previous (last_ptr l1 None)) n bufs1
          | None => bufs1
          end).
  apply seg_app. split; [|exact Hs2''].
  eapply seg_frame; [|exact Hs1']. intros j Hj.
  destruct (hd_ptr l2 None) as [n|] eqn:Hh; [|reflexivity].
  rewrite list_lookup_alter_ne; [reflexivity|]. intros ->.
  apply hd_ptr_elem_of in Hh. eapply Hdisj; [exact Hj|]. right. exact Hh.
Qed.

Lemma attach_lookup_other t x bufs i :
  i <> x -> Some i <> t -> attach t x bufs !! i = bufs !! i.
Proof.
  intros Hx Ht. unfold attach. rewrite !list_lookup_alter_ne by congruence.
  destruct t as [j|]; [|reflexivity].
  rewrite list_lookup_alter_ne by congruence. reflexivity.
Qed.

Lemma seg_attach bufs l x :
  NoDup l -> x ∉ l -> is_Some (bufs !! x) ->
  seg bufs None l None ->
  seg (attach (last_ptr l None) x bufs) None (l ++ [x]) None.
Proof.
  intros Hnd Hx [b Hb] Hs.
  pose proof (seg_set_last _ _ _ _ (Some x) Hnd Hs) as Hs'.
  unfold attach.
  set (bufs1 := match last_ptr l None with
                | Some t => alter (set_next (Some x)) t bufs
                | None => bufs
                end) in *.
  apply seg_app. split.
  - eapply seg_frame; [|exact Hs']. intros j Hj.
    rewrite !list_lookup_alter_ne; [reflexivity| |]; intros ->; contradiction.
  - assert (Hb1 : is_Some (bufs1 !! x)).
    { subst bufs1. destruct (last_ptr l None) as [t|]; [|eauto].
      apply lookup_lt_is_Some. rewrite length_alter.
      eapply lookup_lt_Some, Hb. }
    destruct Hb1 as [b1 Hb1]. cbn [seg].
    rewrite !list_lookup_alter_eq, Hb1. eexists. split; [reflexivity|].
    cbn. auto.
Qed.

Lemma detach_lookup_other x bufs i : i <> x -> detach x bufs !! i = bufs !! i.
Proof.
  intros Hx. unfold detach. rewrite !list_lookup_alter_ne by congruence.
  reflexivity.
Qed.

Lemma detach_lookup x bufs b :
  bufs !! x = Some b ->
  exists b', detach x bufs !! x = Some b' /\ next b' = None /\ previous b' = None /\
             refcount b' = refcount b /\ buf_hdr_lock b' = buf_hdr_lock b /\
             buf_id b' = buf_id b.
Proof.
  intros Hb. unfold detach. rewrite !list_lookup_alter_eq, Hb.
  eexists. split; [reflexivity|]. repeat split.
Qed.

(** ** Running straight-line blocks *)

Lemma valid_frame_update s i f j :
  valid_frame (update_frame i f s) j <-> valid_frame s j.
Proof. unfold valid_frame. cbn. rewrite length_alter. tauto. Qed.

Lemma bind_assoc {A B C} (m : M A) (k : A -> M B) (k' : B -> M C) s :
  bind (bind m k) k' s = bind m (fun a => bind (k a) k') s.
Proof. unfold bind. destruct (m s); reflexivity. Qed.

Ltac solve_valid :=
  unfold valid_ptr, valid_frame in *;
  cbn [BufferDescriptors update_frame StrategyControl] in *;
  rewrite ?length_alter; assumption.

Ltac run_store :=
  rewrite ?bind_assoc;
  first
    [ erewrite bind_Ret by (apply store_Some; solve_valid)
    | rewrite store_Some by solve_valid
    | erewrite bind_Ret by reflexivity ];
  cbn [bind modify_control update_frame BufferDescriptors StrategyControl
       BufferReplacementPolicy latches_set].

Lemma unlink_victim_run q x b s :
  BufferDescriptors s !! x = Some b ->
  valid_ptr s (previous b) -> valid_ptr s (next b) ->
  unlink_victim q (Some x) s = Ret tt (unlinked q x b s).
Proof.
  intros Hb Hp Hn.
  assert (Hx : valid_frame s x) by (eapply lookup_lt_Some, Hb).
  unfold unlink_victim, unlinked, unlink_control, detach, bypass.
  rewrite (bind_Ret _ _ _ _ _ (deref_Some s x b Hb)).
  destruct (next b) as [n|], (previous b) as [p|], q;
    cbn [bind modify_control update_frame BufferDescriptors StrategyControl
         BufferReplacementPolicy latches_set];
    repeat run_store; reflexivity.
Qed.

(** ** Unlinking a victim keeps its queue well formed *)

Lemma seg_middle bufs p l0 i r q :
  seg bufs p (l0 ++ i :: r) q ->
  exists b, bufs !! i = Some b /\ previous b = last_ptr l0 p /\
            next b = hd_ptr r q.
Proof. intros H. apply seg_app in H as [_ (b & Hb & Hp & Hn & _)]. eauto. Qed.

Lemma last_ptr_Some l i : exists t, last_ptr l (Some i) = Some t.
Proof. unfold last_ptr. destruct (last l); eauto. Qed.

Lemma last_ptr_None l : last_ptr l None = None -> l = [].
Proof.
  destruct l as [|i l]; [reflexivity|]. rewrite last_ptr_cons.
  destruct (last_ptr_Some l i) as [t ->]. discriminate.
Qed.

Lemma hd_ptr_None l : hd_ptr l None = None -> l = [].
Proof. destruct l; [reflexivity|discriminate]. Qed.

Lemma queue_other_head q q' v c :
  q <> q' -> queue_head q' (set_queue_head q v c) = queue_head q' c /\
             queue_tail q' (set_queue_head q v c) = queue_tail q' c /\
             queue_head q' (set_queue_tail q v c) = queue_head q' c /\
             queue_tail q' (set_queue_tail q v c) = queue_tail q' c.
Proof. destruct q, q'; try congruence; intros _; repeat split. Qed.

Lemma queue_same_head q v c :
  queue_head q (set_queue_head q v c) = v /\
  queue_tail q (set_queue_head q v c) = queue_tail q c /\
  queue_head q (set_queue_tail q v c) = queue_head q c /\
  queue_tail q (set_queue_tail q v c) = v.
Proof. destruct q; repeat split. Qed.

Lemma unlinked_queue_is q x b s l1 l2 :
  queue_is s q (l1 ++ x :: l2) ->
  BufferDescriptors s !! x = Some b ->
  queue_is (unlinked q x b s) q (l1 ++ l2).
Proof.
  intros (Hh & Ht & Hs & Hnd) Hb.
  destruct (seg_middle _ _ _ _ _ _ Hs) as (b' & Hb' & Hp & Hn).
  assert (b' = b) by congruence. subst b'.
  assert (Hnd' : NoDup (l1 ++ l2)).
  { apply NoDup_app in Hnd as (H1 & H2 & H3). apply NoDup_cons in H3 as [H3 H4].
    apply NoDup_app. repeat split; auto. intros j Hj Hj'. eapply H2; [exact Hj|].
    right. exact Hj'. }
  assert (Hx : x ∉ l1 ++ l2).
  { apply NoDup_app in Hnd as (H1 & H2 & H3). apply NoDup_cons in H3 as [H3 H4].
    intros Hin. apply elem_of_app in Hin as [Hin|Hin]; [|contradiction].
    eapply H2; [exact Hin|]. left. }
  unfold queue_is, unlinked. cbn [BufferDescriptors StrategyControl].
  rewrite Hp, Hn. split; [|split; [|split; [|exact Hnd']]].
  - rewrite hd_ptr_app in Hh |- *. unfold unlink_control.
    destruct l1 as [|a l1], l2 as [|c l2]; cbn [hd_ptr] in *;
      rewrite ?last_ptr_cons;
      try (destruct (last_ptr_Some l1 a) as [t ->]);
      cbn [last_ptr last]; try apply queue_same_head;
      try (rewrite (proj1 (proj2 (proj2 (queue_same_head q _ _)))));
      try apply queue_same_head; try exact Hh.
  - rewrite last_ptr_app in Ht |- *. rewrite last_ptr_cons in Ht.
    unfold unlink_control.
    destruct l2 as [|c l2]; cbn [hd_ptr].
    + destruct l1 as [|a l1].
      * cbn. apply queue_same_head.
      * rewrite last_ptr_cons. destruct (last_ptr_Some l1 a) as [t ->].
        cbn. apply queue_same_head.
    + rewrite !last_ptr_cons in Ht |- *.
      destruct (last_ptr_Some l2 c) as [t Hl]. rewrite Hl.
      assert (Ht' : queue_tail q (StrategyControl s) = Some t).
      { rewrite Ht. clear -Hl. unfold last_ptr in *. destruct (last l2); congruence. }
      destruct l1 as [|a l1].
      * cbn. rewrite (proj1 (proj2 (queue_same_head q _ _))). exact Ht'.
      * rewrite last_ptr_cons. destruct (last_ptr_Some l1 a) as [t' ->]. exact Ht'.
  - eapply seg_frame; [|exact (seg_bypass _ l1 x l2 Hnd Hs)].
    intros j Hj. rewrite detach_lookup_other; [reflexivity|].
    intros ->. contradiction.
Qed.

Lemma queue_is_valid s q l i : queue_is s q l -> i ∈ l -> valid_frame s i.
Proof.
  intros (_ & _ & Hs & _) Hi. apply lookup_lt_is_Some.
  eapply seg_valid; eauto.
Qed.

Lemma unlinked_other_queue q q' x b s l1 l2 l' :
  q <> q' ->
  queue_is s q (l1 ++ x :: l2) ->
  BufferDescriptors s !! x = Some b ->
  queue_is s q' l' ->
  (forall i, i ∈ l1 ++ x :: l2 -> i ∈ l' -> False) ->
  queue_is (unlinked q x b s) q' l'.
Proof.
  intros Hq (Hh & Ht & Hs & Hnd) Hb (Hh' & Ht' & Hs' & Hnd') Hdisj.
  destruct (seg_middle _ _ _ _ _ _ Hs) as (b' & Hb' & Hp & Hn).
  assert (b' = b) by congruence. subst b'.
  unfold queue_is, unlinked. cbn [BufferDescriptors StrategyControl].
  assert (Hctl : queue_head q' (unlink_control q (previous b) (next b) (StrategyControl s))
                 = queue_head q' (StrategyControl s) /\
                 queue_tail q' (unlink_control q (previous b) (next b) (StrategyControl s))
                 = queue_tail q' (StrategyControl s)).
  { unfold unlink_control. destruct q, q'; try congruence;
      destruct (next b), (previous b); split; reflexivity. }
  destruct Hctl as [-> ->]. repeat split; auto.
  eapply seg_frame; [|exact Hs']. intros j Hj.
  rewrite detach_lookup_other, bypass_lookup_other; [reflexivity| | |].
  - rewrite Hp. intros Heq. symmetry in Heq. apply last_ptr_elem_of in Heq.
    eapply Hdisj; [|exact Hj]. apply elem_of_app. left. exact Heq.
  - rewrite Hn. intros Heq. symmetry in Heq. apply hd_ptr_elem_of in Heq.
    eapply Hdisj; [|exact Hj]. apply elem_of_app. right. right. exact Heq.
  - intros ->. eapply Hdisj; [|exact Hj]. apply elem_of_app. right. left.
Qed.

(** *** The walks of the 2Q branch over a well-formed queue *)

Lemma a1_size_run fuel s l0 r acc :
  seg (BufferDescriptors s) None (l0 ++ r) None ->
  (fuel <= length r)%nat /\ a1_size fuel (hd_ptr r None) acc s = OutOfFuel \/
  a1_size fuel (hd_ptr r None) acc s = Ret (acc + Z.of_nat (length r)) s.
Proof.
  revert fuel l0 acc. induction r as [|i r IH]; intros fuel l0 acc Hs.
  - destruct fuel; [left; split; [cbn; lia|reflexivity]|].
    right. cbn. unfold ret. f_equal. lia.
  - destruct fuel as [|fuel]; [left; split; [cbn; lia|reflexivity]|].
    destruct (seg_middle _ _ _ _ _ _ Hs) as (b & Hb & _ & Hn).
    cbn [a1_size hd_ptr]. rewrite (bind_Ret _ _ _ _ _ (deref_Some s i b Hb)).
    rewrite Hn.
    replace (l0 ++ i :: r) with ((l0 ++ [i]) ++ r) in Hs
      by (rewrite <- app_assoc; reflexivity).
    destruct (IH fuel _ (acc + 1) Hs) as [[Hf ->]| ->].
    + left. split; [cbn; lia|reflexivity].
    + right. f_equal. cbn [length]. lia.
Qed.

Lemma twoq_scan_all_pinned fuel q s l0 r :
  seg (BufferDescriptors s) None (l0 ++ r) None ->
  (forall i, i ∈ r -> pinned s i) ->
  (fuel <= length r)%nat /\ twoq_scan fuel q (hd_ptr r None) s = OutOfFuel \/
  twoq_scan fuel q (hd_ptr r None) s = Ret (None, -1) s.
Proof.
  revert fuel l0. induction r as [|i r IH]; intros fuel l0 Hs Hpin.
  - destruct fuel; [left; split; [cbn; lia|reflexivity]|]. right. reflexivity.
  - destruct fuel as [|fuel]; [left; split; [cbn; lia|reflexivity]|].
    destruct (seg_middle _ _ _ _ _ _ Hs) as (b & Hb & _ & Hn).
    cbn [twoq_scan hd_ptr]. rewrite (bind_Ret _ _ _ _ _ (deref_Some s i b Hb)).
    destruct (Hpin i ltac:(left)) as (b' & Hb' & Hr).
    assert (b' = b) by congruence. subst b'.
    apply Z.eqb_neq in Hr. rewrite Hr, Hn.
    replace (l0 ++ i :: r) with ((l0 ++ [i]) ++ r) in Hs
      by (rewrite <- app_assoc; reflexivity).
    destruct (IH fuel _ Hs) as [[Hf ->]| ->].
    + intros j Hj. apply Hpin. right. exact Hj.
    + left. split; [cbn; lia|reflexivity].
    + right. reflexivity.
Qed.

Lemma seg_valid_ptr s p l q b i :
  seg (BufferDescriptors s) p l q -> i ∈ l ->
  BufferDescriptors s !! i = Some b ->
  (p = None -> valid_ptr s (previous b)) /\ (q = None -> valid_ptr s (next b)).
Proof.
  intros Hs Hi Hb. apply list_elem_of_split in Hi as (l1 & l2 & ->).
  destruct (seg_middle _ _ _ _ _ _ Hs) as (b' & Hb' & Hp & Hn).
  assert (b' = b) by congruence. subst b'. split; intros ->.
  - rewrite Hp. destruct (last_ptr l1 None) as [t|] eqn:Ht; [|exact I].
    apply last_ptr_elem_of in Ht. apply lookup_lt_is_Some.
    eapply seg_valid; [exact Hs|]. apply elem_of_app. left. exact Ht.
  - rewrite Hn. destruct (hd_ptr l2 None) as [h|] eqn:Hh; [|exact I].
    apply hd_ptr_elem_of in Hh. apply lookup_lt_is_Some.
    eapply seg_valid; [exact Hs|]. apply elem_of_app. right. right. exact Hh.
Qed.

Lemma twoq_scan_found fuel q s l0 r1 x r2 b :
  seg (BufferDescriptors s) None (l0 ++ r1 ++ x :: r2) None ->
  (forall i, i ∈ r1 -> pinned s i) ->
  BufferDescriptors s !! x = Some b -> refcount b = 0 ->
  (fuel <= length r1)%nat /\
    twoq_scan fuel q (hd_ptr (r1 ++ x :: r2) None) s = OutOfFuel \/
  twoq_scan fuel q (hd_ptr (r1 ++ x :: r2) None) s
  = Ret (Some x, buf_id b) (unlinked q x b s).
Proof.
  revert fuel l0. induction r1 as [|i r1 IH]; intros fuel l0 Hs Hpin Hb Hr.
  - destruct fuel; [left; split; [cbn; lia|reflexivity]|]. right.
    change ([] ++ x :: r2) with (x :: r2). cbn [hd_ptr twoq_scan].
    rewrite (bind_Ret _ _ _ _ _ (deref_Some s x b Hb)).
    apply Z.eqb_eq in Hr. rewrite Hr.
    destruct (seg_valid_ptr s _ _ _ b x Hs) as [Hp Hn]; auto.
    { apply elem_of_app. right. left. }
    erewrite bind_Ret; [reflexivity|].
    apply unlink_victim_run; auto.
  - destruct fuel as [|fuel]; [left; split; [cbn; lia|reflexivity]|].
    change ((i :: r1) ++ x :: r2) with (i :: (r1 ++ x :: r2)) in *.
    destruct (seg_middle _ _ _ _ _ _ Hs) as (bi & Hbi & _ & Hn).
    cbn [twoq_scan hd_ptr].
    rewrite (bind_Ret _ _ _ _ _ (deref_Some s i bi Hbi)).
    destruct (Hpin i ltac:(left)) as (b' & Hb' & Hr').
    assert (b' = bi) by congruence. subst b'.
    apply Z.eqb_neq in Hr'. rewrite Hr', Hn.
    replace (l0 ++ i :: r1 ++ x :: r2) with ((l0 ++ [i]) ++ r1 ++ x :: r2) in Hs
      by (rewrite <- app_assoc; reflexivity).
    destruct (IH fuel _ Hs) as [[Hf ->]| ->]; auto.
    + intros j Hj. apply Hpin. right. exact Hj.
    + left. split; [cbn; lia|reflexivity].
Qed.

(** A list of frames is all pinned, or has a first unpinned frame. *)
Lemma first_unpinned s l :
  (forall i, i ∈ l -> valid_frame s i) ->
  (forall i, i ∈ l -> pinned s i) \/
  exists r1 x r2 b, l = r1 ++ x :: r2 /\ (forall i, i ∈ r1 -> pinned s i) /\
                    BufferDescriptors s !! x = Some b /\ refcount b = 0.
Proof.
  induction l as [|i l IH]; intros Hv.
  - left. intros i Hi. inversion Hi.
  - destruct (lookup_lt_is_Some_2 _ _ (Hv i ltac:(left))) as [b Hb].
    destruct (decide (refcount b = 0)) as [Hr|Hr].
    + right. exists [], i, l, b. auto using elem_of_nil.
      repeat split; auto. intros j Hj. inversion Hj.
    + destruct IH as [Hall|(r1 & x & r2 & bx & -> & Hpin & Hbx & Hrx)].
      * intros j Hj. apply Hv. right. exact Hj.
      * left. intros j Hj. apply elem_of_cons in Hj as [->|Hj]; [|auto].
        exists b. auto.
      * right. exists (i :: r1), x, r2, bx. repeat split; auto.
        intros j Hj. apply elem_of_cons in Hj as [->|Hj]; [|auto].
        exists b. auto.
Qed.

(** ** Victim selection under 2Q *)

Lemma seg_same_queues s s' p l q :
  same_queues s s' ->
  seg (BufferDescriptors s) p l q -> seg (BufferDescriptors s') p l q.
Proof.
  intros (_ & _ & Hl). apply seg_frame. intros i _.
  rewrite <- !list_lookup_fmap, Hl. reflexivity.
Qed.

Lemma queue_is_same_queues s s' q l :
  same_queues s s' -> queue_is s q l -> queue_is s' q l.
Proof.
  intros Hsame (Hh & Ht & Hs & Hnd).
  pose proof Hsame as (_ & Hq & _). injection Hq as Hf Hl Hah Hat.
  repeat split; auto.
  - destruct q; cbn in *; congruence.
  - destruct q; cbn in *; congruence.
  - eapply seg_same_queues; eauto.
Qed.

Lemma queues_are_same_queues s s' am a1 :
  same_queues s s' -> queues_are s am a1 -> queues_are s' am a1.
Proof.
  intros Hsame (H1 & H2 & H3).
  split; [|split]; eauto using queue_is_same_queues.
Qed.

Lemma queues_are_contents s am a1 q :
  queues_are s am a1 ->
  queue_is s q (contents q am a1) /\
  queue_is s (other_queue q) (contents (other_queue q) am a1) /\
  (forall i, i ∈ contents q am a1 -> i ∈ contents (other_queue q) am a1 -> False).
Proof.
  intros (H1 & H2 & H3). apply NoDup_app in H3 as (_ & H3 & _).
  destruct q; cbn [contents other_queue]; (split; [|split]); auto;
    intros i Hi Hi'; eapply H3; eauto.
Qed.

Lemma a1_size_total fuel s a1 :
  queue_is s QA1 a1 ->
  (fuel <= length a1)%nat /\
    a1_size fuel (a1Head (StrategyControl s)) 0 s = OutOfFuel \/
  a1_size fuel (a1Head (StrategyControl s)) 0 s
  = Ret (Z.of_nat (length a1)) s.
Proof.
  intros (Hh & _ & Hs & _). cbn in Hh. rewrite Hh.
  apply (a1_size_run fuel s [] a1 0). exact Hs.
Qed.

Lemma twoq_select_scan fuel s am a1 :
  queues_are s am a1 ->
  (fuel <= length a1)%nat /\ twoq_select fuel s = OutOfFuel \/
  twoq_select fuel s
  = bind (twoq_scan fuel (twoq_choice s am a1)
            (queue_head (twoq_choice s am a1) (StrategyControl s)))
         twoq_scan_result s.
Proof.
  intros (Ham & Ha1 & _). unfold twoq_select.
  rewrite (bind_Ret get_NBuffers _ s (NBuffers s) s eq_refl).
  rewrite (bind_Ret get_control _ s (StrategyControl s) s eq_refl).
  destruct (a1_size_total fuel s a1 Ha1) as [[Hf Hrun]|Hrun].
  - left. split; [exact Hf|]. unfold bind at 1. rewrite Hrun. reflexivity.
  - right. rewrite (bind_Ret _ _ _ _ _ Hrun).
    rewrite (bind_Ret get_control _ s (StrategyControl s) s eq_refl).
    unfold twoq_choice.
    assert (Hnull : is_null (lastUnpinned (StrategyControl s))
                    = match am with [] => true | _ :: _ => false end).
    { destruct Ham as (_ & Ht & _). cbn in Ht. rewrite Ht.
      destruct am as [|a am]; [reflexivity|].
      rewrite last_ptr_cons. destruct (last_ptr_Some am a) as [t ->].
      reflexivity. }
    rewrite Hnull.
    destruct ((NBuffers s `quot` 2 <=? Z.of_nat (length a1))
              || match am with [] => true | _ :: _ => false end);
      reflexivity.
Qed.

Lemma unlinked_length q x b s :
  length (BufferDescriptors (unlinked q x b s)) = length (BufferDescriptors s).
Proof.
  unfold unlinked, detach, bypass. cbn.
  destruct (next b), (previous b); rewrite ?length_alter; reflexivity.
Qed.

Lemma return_result_frame strategy s x :
  valid_frame s x ->
  return_result strategy (Z.of_nat x) s = Ret (Some x, true, strategy) s.
Proof.
  intros Hx. unfold return_result, valid_frame in *.
  destruct (Z.eqb_spec (Z.of_nat x) (-1)); [lia|].
  unfold bind, desc_addr, NBuffers.
  destruct (Z.leb_spec 0 (Z.of_nat x)); [|lia].
  destruct (Z.ltb_spec (Z.of_nat x) (Z.of_nat (length (BufferDescriptors s))));
    [|lia].
  cbn. rewrite Nat2Z.id. reflexivity.
Qed.

(** The 2Q branch on well-formed queues, when the scanned queue has a first
    unpinned frame [x]: [x] is unlinked and returned. *)
Lemma twoq_victim_found fuel strategy s am a1 r1 x r2 b :
  queues_are s am a1 -> ids_ok s ->
  contents (twoq_choice s am a1) am a1 = r1 ++ x :: r2 ->
  (forall i, i ∈ r1 -> pinned s i) ->
  BufferDescriptors s !! x = Some b -> refcount b = 0 ->
  (fuel <= length am + length a1)%nat /\
    twoq_victim fuel strategy s = OutOfFuel \/
  twoq_victim fuel strategy s
  = Ret (Some x, true, strategy) (unlinked (twoq_choice s am a1) x b s).
Proof.
  intros Hq Hids Hl Hpin Hb Hr. unfold twoq_victim.
  destruct (twoq_select_scan fuel s am a1 Hq) as [[Hf Hrun]|Hrun].
  { left. split; [lia|]. unfold bind at 1. rewrite Hrun. reflexivity. }
  set (q := twoq_choice s am a1) in *.
  destruct (queues_are_contents s am a1 q Hq) as ((Hh & _ & Hs & _) & _).
  rewrite Hl in Hh, Hs.
  destruct (twoq_scan_found fuel q s [] r1 x r2 b Hs Hpin Hb Hr)
    as [[Hf Hscan]|Hscan].
  - left. split.
    + assert (length r1 <= length (contents q am a1))%nat
        by (rewrite Hl, length_app; lia).
      destruct q; cbn in *; lia.
    + unfold bind at 1. rewrite Hrun. unfold bind at 1.
      rewrite Hh, Hscan. reflexivity.
  - right. unfold bind at 1. rewrite Hrun. unfold bind at 1.
    rewrite Hh, Hscan. cbn [twoq_scan_result fst snd ret].
    rewrite (Hids x b Hb). apply return_result_frame.
    unfold valid_frame. rewrite unlinked_length. eapply lookup_lt_Some, Hb.
Qed.

(** The 2Q branch on well-formed queues, when every frame of the scanned
    queue is pinned. *)
Lemma twoq_victim_none fuel strategy s am a1 :
  queues_are s am a1 ->
  (forall i, i ∈ contents (twoq_choice s am a1) am a1 -> pinned s i) ->
  (fuel <= length am + length a1)%nat /\
    twoq_victim fuel strategy s = OutOfFuel \/
  twoq_victim fuel strategy s = Elog NoUnpinnedBuffers s.
Proof.
  intros Hq Hpin. unfold twoq_victim.
  destruct (twoq_select_scan fuel s am a1 Hq) as [[Hf Hrun]|Hrun].
  { left. split; [lia|]. unfold bind at 1. rewrite Hrun. reflexivity. }
  set (q := twoq_choice s am a1) in *.
  destruct (queues_are_contents s am a1 q Hq) as ((Hh & _ & Hs & _) & _).
  destruct (twoq_scan_all_pinned fuel q s [] _ Hs Hpin) as [[Hf Hscan]|Hscan].
  - left. split; [destruct q; cbn in *; lia|].
    unfold bind at 1. rewrite Hrun. unfold bind at 1.
    rewrite Hh, Hscan. reflexivity.
  - right. unfold bind at 1. rewrite Hrun. unfold bind at 1.
    rewrite Hh, Hscan. reflexivity.
Qed.

Lemma same_queues_counted s : same_queues s (counted s).
Proof.
  unfold counted. destruct (bgwriterLatch (StrategyControl s));
    repeat split.
Qed.

Lemma counted_frames s : BufferDescriptors (counted s) = BufferDescriptors s.
Proof. unfold counted. destruct (bgwriterLatch (StrategyControl s)); reflexivity. Qed.

Lemma counted_policy s :
  BufferReplacementPolicy (counted s) = BufferReplacementPolicy s.
Proof. unfold counted. destruct (bgwriterLatch (StrategyControl s)); reflexivity. Qed.

Lemma select_victim_2Q fuel strategy s :
  BufferReplacementPolicy s = POLICY_2Q ->
  select_victim fuel strategy s = twoq_victim fuel strategy s.
Proof.
  intros Hpol. unfold select_victim.
  rewrite (bind_Ret get_policy _ s (BufferReplacementPolicy s) s eq_refl).
  rewrite Hpol. reflexivity.
Qed.

Lemma twoq_choice_counted s am a1 :
  twoq_choice (counted s) am a1 = twoq_choice s am a1.
Proof. unfold twoq_choice, NBuffers. rewrite counted_frames. reflexivity. Qed.

Lemma twoq_choice_spec s am a1 :
  twoq_choice s am a1 = QA1 <->
  Z.quot (NBuffers s) 2 <= Z.of_nat (length a1) \/ am = [].
Proof.
  unfold twoq_choice.
  destruct (Z.leb_spec (Z.quot (NBuffers s) 2) (Z.of_nat (length a1)));
    destruct am; cbn; split; auto; try discriminate.
  intros [?|?]; [lia|discriminate].
Qed.

Lemma alter_same_data (f : BufferDesc -> BufferDesc) (j : nat)
  (bufs : list BufferDesc) (i : nat) b :
  (forall d, same_data d (f d)) ->
  bufs !! i = Some b ->
  exists b', alter f j bufs !! i = Some b' /\ same_data b b'.
Proof.
  intros Hf Hb. destruct (decide (j = i)) as [->|Hne].
  - rewrite list_lookup_alter_eq, Hb. eexists. split; [reflexivity|apply Hf].
  - rewrite list_lookup_alter_ne by exact Hne. exists b. split; [exact Hb|].
    repeat split.
Qed.

Lemma same_data_trans b1 b2 b3 :
  same_data b1 b2 -> same_data b2 b3 -> same_data b1 b3.
Proof. unfold same_data. intuition congruence. Qed.

Lemma bypass_same_data prv nxt (bufs : list BufferDesc) (i : nat) b :
  bufs !! i = Some b ->
  exists b', bypass prv nxt bufs !! i = Some b' /\ same_data b b'.
Proof.
  intros Hb. unfold bypass.
  assert (H1 : exists b1, match prv with
                          | Some p => alter (set_next nxt) p bufs
                          | None => bufs
                          end !! i = Some b1 /\ same_data b b1).
  { destruct prv; [apply alter_same_data; [repeat split|exact Hb]|].
    exists b. repeat split. exact Hb. }
  destruct H1 as (b1 & Hb1 & Hd1). destruct nxt as [n|]; [|eauto].
  edestruct (alter_same_data (set_previous prv) n) as (b2 & Hb2 & Hd2);
    [|exact Hb1|]; [repeat split|].
  exists b2. split; [exact Hb2|]. eapply same_data_trans; eauto.
Qed.

Lemma detach_same_data x (bufs : list BufferDesc) (i : nat) b :
  bufs !! i = Some b ->
  exists b', detach x bufs !! i = Some b' /\ same_data b b'.
Proof.
  intros Hb. unfold detach.
  destruct (alter_same_data (set_next None) x bufs i b) as (b1 & Hb1 & Hd1);
    [repeat split|exact Hb|].
  edestruct (alter_same_data (set_previous None) x) as (b2 & Hb2 & Hd2);
    [|exact Hb1|]; [repeat split|].
  exists b2. split; [exact Hb2|]. eapply same_data_trans; eauto.
Qed.

Lemma attach_same_data t x (bufs : list BufferDesc) (i : nat) b :
  bufs !! i = Some b ->
  exists b', attach t x bufs !! i = Some b' /\ same_data b b'.
Proof.
  intros Hb. unfold attach.
  assert (H0 : exists b0, match t with
                          | Some j => alter (set_next (Some x)) j bufs
                          | None => bufs
                          end !! i = Some b0 /\ same_data b b0).
  { destruct t; [apply alter_same_data; [repeat split|exact Hb]|].
    exists b. repeat split. exact Hb. }
  destruct H0 as (b0 & Hb0 & Hd0).
  edestruct (alter_same_data (set_previous t) x) as (b1 & Hb1 & Hd1);
    [|exact Hb0|]; [repeat split|].
  edestruct (alter_same_data (set_next None) x) as (b2 & Hb2 & Hd2);
    [|exact Hb1|]; [repeat split|].
  exists b2. split; [exact Hb2|].
  eapply same_data_trans; [|exact Hd2]. eapply same_data_trans; eauto.
Qed.

(** C4.  Victim selection under 2Q, on well-formed queues and with nothing on
    the freelist.  The branch scans A1 exactly when A1 holds at least
    [NBuffers / 2] frames or the main queue is empty, and the main queue
    otherwise (so with [NBuffers / 2 - 1] frames in A1 and a non-empty main
    queue it is the main queue, with [NBuffers / 2] it is A1).  The first
    frame of the scanned queue with [refcount = 0] is returned and unlinked
    from that queue, which stays well formed, the other queue being left as
    it was; when every frame of the scanned queue is pinned the call fails
    with "no unpinned buffers available". *)
Theorem twoq_victim_selection fuel s am a1 :
  BufferReplacementPolicy s = POLICY_2Q ->
  firstFreeBuffer (StrategyControl s) < 0 ->
  ids_ok s ->
  queues_are s am a1 ->
  (length am + length a1 < fuel)%nat ->
  let q := twoq_choice s am a1 in
  (q = QA1 <-> Z.quot (NBuffers s) 2 <= Z.of_nat (length a1) \/ am = []) /\
  (Z.of_nat (length a1) = Z.quot (NBuffers s) 2 - 1 -> am <> [] -> q = QAM) /\
  (Z.of_nat (length a1) = Z.quot (NBuffers s) 2 -> q = QA1) /\
  (forall r1 x r2,
      contents q am a1 = r1 ++ x :: r2 ->
      (forall i, i ∈ r1 -> pinned s i) -> unpinned s x ->
      exists s',
        StrategyGetBuffer fuel None s = Ret (Some x, true, None) s' /\
        queue_is s' q (r1 ++ r2) /\
        queue_is s' (other_queue q) (contents (other_queue q) am a1) /\
        exists b', BufferDescriptors s' !! x = Some b' /\
                   next b' = None /\ previous b' = None /\ refcount b' = 0) /\
  ((forall i, i ∈ contents q am a1 -> pinned s i) ->
   exists s',
     StrategyGetBuffer fuel None s = Elog NoUnpinnedBuffers s' /\
     queues_are s' am a1).
Proof.
  intros Hpol Hfree Hids Hq Hfuel q.
  pose proof (twoq_choice_spec s am a1) as Hspec. fold q in Hspec.
  split; [exact Hspec|]. split; [|split; [|split]].
  - intros Hlen Ham. destruct q eqn:Eq; [|reflexivity].
    destruct (proj1 Hspec eq_refl); [lia|contradiction].
  - intros Hlen. apply Hspec. left. lia.
  - intros r1 x r2 Hl Hpin (b & Hb & Hr).
    destruct fuel as [|fuel]; [lia|].
    rewrite StrategyGetBuffer_empty_freelist by exact Hfree.
    rewrite select_victim_2Q by (rewrite counted_policy; exact Hpol).
    pose proof (queues_are_same_queues _ _ _ _ (same_queues_counted s) Hq) as Hq'.
    destruct (twoq_victim_found (S fuel) None (counted s) am a1 r1 x r2 b)
      as [[Hf _]|Hrun]; auto.
    { intros i d Hd. rewrite counted_frames in Hd. auto. }
    { rewrite twoq_choice_counted. exact Hl. }
    { intros i Hi. destruct (Hpin i Hi) as (d & Hd & Hrd). exists d.
      rewrite counted_frames. auto. }
    { rewrite counted_frames. exact Hb. }
    { lia. }
    rewrite twoq_choice_counted in Hrun. fold q in Hrun.
    eexists. split; [exact Hrun|].
    destruct (queues_are_contents _ _ _ q Hq') as (Hq1 & Hq2 & Hdisj).
    rewrite Hl in Hq1, Hdisj.
    assert (Hb' : BufferDescriptors (counted s) !! x = Some b)
      by (rewrite counted_frames; exact Hb).
    split; [apply unlinked_queue_is; assumption|].
    split.
    + eapply unlinked_other_queue; eauto. destruct q; discriminate.
    + unfold unlinked. cbn [BufferDescriptors].
      destruct (bypass_same_data (previous b) (next b) _ _ _ Hb')
        as (b2 & Hb2 & (_ & Hrc2 & _)).
      destruct (detach_lookup _ _ _ Hb2) as (b' & Hd & Hn & Hp & Hrc & _).
      exists b'. repeat split; auto. congruence.
  - intros Hpin. destruct fuel as [|fuel]; [lia|].
    rewrite StrategyGetBuffer_empty_freelist by exact Hfree.
    rewrite select_victim_2Q by (rewrite counted_policy; exact Hpol).
    pose proof (queues_are_same_queues _ _ _ _ (same_queues_counted s) Hq) as Hq'.
    destruct (twoq_victim_none (S fuel) None (counted s) am a1 Hq')
      as [[Hf _]|Hrun].
    { rewrite twoq_choice_counted. intros i Hi.
      destruct (Hpin i Hi) as (d & Hd & Hrd). exists d.
      rewrite counted_frames. auto. }
    { lia. }
    eexists. split; [exact Hrun|exact Hq'].
Qed.

(** ** The unpin hook under 2Q *)

Lemma queue_member_run fuel s l0 r x :
  seg (BufferDescriptors s) None (l0 ++ r) None ->
  (fuel <= length r)%nat /\
    queue_member fuel (hd_ptr r None) (Some x) s = OutOfFuel \/
  queue_member fuel (hd_ptr r None) (Some x) s = Ret (bool_decide (x ∈ r)) s.
Proof.
  revert fuel l0. induction r as [|i r IH]; intros fuel l0 Hs.
  - destruct fuel; [left; split; [cbn; lia|reflexivity]|]. right.
    cbn. rewrite bool_decide_eq_false_2; [reflexivity|]. apply not_elem_of_nil.
  - destruct fuel as [|fuel]; [left; split; [cbn; lia|reflexivity]|].
    cbn [queue_member hd_ptr ptr_eqb].
    destruct (Nat.eqb_spec i x) as [->|Hne].
    + right. rewrite bool_decide_eq_true_2; [reflexivity|]. left.
    + destruct (seg_middle _ _ _ _ _ _ Hs) as (b & Hb & _ & Hn).
      rewrite (bind_Ret _ _ _ _ _ (deref_Some s i b Hb)), Hn.
      replace (l0 ++ i :: r) with ((l0 ++ [i]) ++ r) in Hs
        by (rewrite <- app_assoc; reflexivity).
      destruct (IH fuel _ Hs) as [[Hf ->]| ->].
      * left. split; [cbn; lia|reflexivity].
      * right. f_equal. apply bool_decide_ext. rewrite elem_of_cons.
        split; [auto|]. intros [->|?]; [contradiction|assumption].
Qed.

Lemma NoDup_remove_middle (l1 : list nat) x l2 :
  NoDup (l1 ++ x :: l2) -> NoDup (l1 ++ l2) /\ x ∉ l1 ++ l2.
Proof.
  intros Hnd. apply NoDup_app in Hnd as (H1 & H2 & H3).
  apply NoDup_cons in H3 as [H3 H4]. split.
  - apply NoDup_app. repeat split; auto. intros j Hj Hj'.
    eapply H2; [exact Hj|]. right. exact Hj'.
  - intros Hin. apply elem_of_app in Hin as [Hin|Hin]; [|contradiction].
    eapply H2; [exact Hin|]. left.
Qed.

Lemma bypass_length prv nxt (bufs : list BufferDesc) :
  length (bypass prv nxt bufs) = length bufs.
Proof. unfold bypass. destruct nxt, prv; rewrite ?length_alter; reflexivity. Qed.

Lemma attach_length t x (bufs : list BufferDesc) :
  length (attach t x bufs) = length bufs.
Proof. unfold attach. destruct t; rewrite ?length_alter; reflexivity. Qed.

(** Splicing [x] out of a segment and linking it behind the rest. *)
Lemma seg_move bufs l1 x l2 :
  NoDup (l1 ++ x :: l2) ->
  seg bufs None (l1 ++ x :: l2) None ->
  seg (attach (last_ptr (l1 ++ l2) None) x
         (bypass (last_ptr l1 None) (hd_ptr l2 None) bufs))
      None ((l1 ++ l2) ++ [x]) None.
Proof.
  intros Hnd Hs. destruct (NoDup_remove_middle _ _ _ Hnd) as [Hnd' Hx].
  apply seg_attach; auto.
  - apply lookup_lt_is_Some. rewrite bypass_length. apply lookup_lt_is_Some.
    eapply seg_valid; [exact Hs|]. apply elem_of_app. right. left.
  - apply (seg_bypass bufs l1 x l2 Hnd Hs).
Qed.

Lemma hd_ptr_snoc l x : hd_ptr (l ++ [x]) None = hd_ptr l (Some x).
Proof. destruct l; reflexivity. Qed.

Lemma last_ptr_snoc l x p : last_ptr (l ++ [x]) p = Some x.
Proof. unfold last_ptr. rewrite last_snoc. reflexivity. Qed.

Lemma NoDup_snoc_fresh (l : list nat) x : NoDup l -> x ∉ l -> NoDup (l ++ [x]).
Proof.
  intros Hnd Hx. apply NoDup_app. repeat split; auto.
  - intros j Hj Hj'. apply list_elem_of_singleton in Hj'. subst. contradiction.
  - apply NoDup_singleton.
Qed.

(** *** Frame [x] is in the main queue *)

Lemma moved_to_tail_main (s : State) l1 x l2 b c :
  queue_is s QAM (l1 ++ x :: c :: l2) ->
  BufferDescriptors s !! x = Some b ->
  queue_is (moved_to_tail x b s) QAM ((l1 ++ c :: l2) ++ [x]).
Proof.
  intros (Hh & Ht & Hs & Hnd) Hb.
  destruct (seg_middle _ _ _ _ _ _ Hs) as (b' & Hb' & Hp & Hn).
  assert (b' = b) by congruence. subst b'.
  destruct (NoDup_remove_middle _ _ _ Hnd) as [Hnd' Hx].
  cbn [queue_head queue_tail] in Hh, Ht.
  assert (Hlast : lastUnpinned (StrategyControl s) = last_ptr (l1 ++ c :: l2) None).
  { rewrite Ht, !last_ptr_app, !last_ptr_cons.
    destruct (last_ptr_Some l2 c) as [t Hl]. rewrite Hl.
    unfold last_ptr in *. destruct (last l2); congruence. }
  unfold queue_is, moved_to_tail.
  cbn [BufferDescriptors StrategyControl queue_head queue_tail].
  rewrite Hp, Hn, Hlast. split; [|split; [|split]].
  - rewrite hd_ptr_snoc, hd_ptr_app. rewrite hd_ptr_app in Hh.
    destruct l1 as [|a l1].
    + reflexivity.
    + rewrite last_ptr_cons. destruct (last_ptr_Some l1 a) as [t ->]. exact Hh.
  - rewrite last_ptr_snoc. destruct (last_ptr l1 None); reflexivity.
  - apply seg_move; assumption.
  - apply NoDup_snoc_fresh; assumption.
Qed.

Lemma moved_to_tail_other (s : State) l1 x l2 b c a1 :
  queue_is s QAM (l1 ++ x :: c :: l2) ->
  BufferDescriptors s !! x = Some b ->
  queue_is s QA1 a1 ->
  (forall i, i ∈ l1 ++ x :: c :: l2 -> i ∈ a1 -> False) ->
  queue_is (moved_to_tail x b s) QA1 a1.
Proof.
  intros (Hh & Ht & Hs & Hnd) Hb (Hh' & Ht' & Hs' & Hnd') Hdisj.
  destruct (seg_middle _ _ _ _ _ _ Hs) as (b' & Hb' & Hp & Hn).
  assert (b' = b) by congruence. subst b'.
  cbn [queue_head queue_tail] in *.
  unfold queue_is, moved_to_tail.
  cbn [BufferDescriptors StrategyControl queue_head queue_tail].
  split; [|split; [|split; [|exact Hnd']]].
  - destruct (previous b); exact Hh'.
  - destruct (previous b); exact Ht'.
  - eapply seg_frame; [|exact Hs']. intros j Hj.
    rewrite attach_lookup_other, bypass_lookup_other; [reflexivity| | | |].
    + rewrite Hp. intros Heq. symmetry in Heq. apply last_ptr_elem_of in Heq.
      eapply Hdisj; [|exact Hj]. apply elem_of_app. left. exact Heq.
    + rewrite Hn. intros Heq. symmetry in Heq. apply hd_ptr_elem_of in Heq.
      eapply Hdisj; [|exact Hj]. apply elem_of_app. right. right. exact Heq.
    + intros ->. eapply Hdisj; [|exact Hj]. apply elem_of_app. right. left.
    + rewrite Ht. intros Heq. symmetry in Heq. apply last_ptr_elem_of in Heq.
      eapply Hdisj; [exact Heq|exact Hj].
Qed.

Lemma unlink_control_queue q c l1 x l2 :
  queue_head q c = hd_ptr (l1 ++ x :: l2) None ->
  queue_tail q c = last_ptr (l1 ++ x :: l2) None ->
  queue_head q (unlink_control q (last_ptr l1 None) (hd_ptr l2 None) c)
  = hd_ptr (l1 ++ l2) None /\
  queue_tail q (unlink_control q (last_ptr l1 None) (hd_ptr l2 None) c)
  = last_ptr (l1 ++ l2) None.
Proof.
  intros Hh Ht. rewrite hd_ptr_app in Hh |- *.
  rewrite last_ptr_app in Ht |- *. rewrite last_ptr_cons in Ht.
  unfold unlink_control.
  destruct l1 as [|a l1], l2 as [|d l2]; cbn [hd_ptr] in *;
    rewrite ?last_ptr_cons in *;
    try (destruct (last_ptr_Some l1 a) as [t Hl1]; rewrite ?Hl1 in * );
    try (destruct (last_ptr_Some l2 d) as [t' Hl2]; rewrite ?Hl2 in * );
    try (assert (Hl2' : last_ptr l2 (Some x) = Some t')
          by (clear -Hl2; unfold last_ptr in *; destruct (last l2); congruence);
         rewrite Hl2' in Ht);
    cbn [last_ptr last]; destruct q; cbn in *; auto.
Qed.

Lemma unlink_control_other q q' c prv nxt :
  q <> q' ->
  queue_head q' (unlink_control q prv nxt c) = queue_head q' c /\
  queue_tail q' (unlink_control q prv nxt c) = queue_tail q' c.
Proof.
  intros Hq. unfold unlink_control.
  destruct q, q'; try congruence; destruct nxt, prv; split; reflexivity.
Qed.

Lemma is_null_hd_ptr l : is_null (hd_ptr l None) = match l with [] => true | _ => false end.
Proof. destruct l; reflexivity. Qed.

Lemma is_null_last_ptr l : is_null (last_ptr l None) = match l with [] => true | _ => false end.
Proof.
  destruct l as [|a l]; [reflexivity|]. rewrite last_ptr_cons.
  destruct (last_ptr_Some l a) as [t ->]. reflexivity.
Qed.

(** *** Frame [x] is in A1 *)

Lemma promoted_A1 (s : State) l1 x l2 b am :
  queue_is s QA1 (l1 ++ x :: l2) ->
  BufferDescriptors s !! x = Some b ->
  queue_is s QAM am ->
  (forall i, i ∈ am -> i ∈ l1 ++ x :: l2 -> False) ->
  queue_is (promoted x b s) QA1 (l1 ++ l2).
Proof.
  intros (Hh & Ht & Hs & Hnd) Hb (Hh' & Ht' & Hs' & Hnd') Hdisj.
  destruct (seg_middle _ _ _ _ _ _ Hs) as (b' & Hb' & Hp & Hn).
  assert (b' = b) by congruence. subst b'.
  destruct (NoDup_remove_middle _ _ _ Hnd) as [Hnd2 Hx].
  destruct (unlink_control_queue QA1 _ _ _ _ Hh Ht) as [Hh2 Ht2].
  cbn [queue_head queue_tail] in *.
  unfold queue_is, promoted.
  cbn [BufferDescriptors StrategyControl queue_head queue_tail].
  rewrite Hp, Hn. split; [|split; [|split; [|exact Hnd2]]].
  - destruct (is_null _ || is_null _); exact Hh2.
  - destruct (is_null _ || is_null _); exact Ht2.
  - eapply seg_frame; [|exact (seg_bypass _ l1 x l2 Hnd Hs)].
    intros j Hj. rewrite attach_lookup_other; [reflexivity| |].
    + intros ->. contradiction.
    + rewrite Ht'. intros Heq. symmetry in Heq. apply last_ptr_elem_of in Heq.
      eapply Hdisj; [exact Heq|]. apply elem_of_app in Hj as [Hj|Hj];
        apply elem_of_app; [left|right; right]; exact Hj.
Qed.

Lemma promoted_main (s : State) l1 x l2 b am :
  queue_is s QA1 (l1 ++ x :: l2) ->
  BufferDescriptors s !! x = Some b ->
  queue_is s QAM am ->
  (forall i, i ∈ am -> i ∈ l1 ++ x :: l2 -> False) ->
  queue_is (promoted x b s) QAM (am ++ [x]).
Proof.
  intros (Hh & Ht & Hs & Hnd) Hb (Hh' & Ht' & Hs' & Hnd') Hdisj.
  destruct (seg_middle _ _ _ _ _ _ Hs) as (b' & Hb' & Hp & Hn).
  assert (b' = b) by congruence. subst b'.
  assert (Hx : x ∉ am).
  { intros Hin. eapply Hdisj; [exact Hin|]. apply elem_of_app. right. left. }
  cbn [queue_head queue_tail] in *.
  unfold queue_is, promoted.
  cbn [BufferDescriptors StrategyControl queue_head queue_tail].
  split; [|split; [|split]].
  - rewrite Hh', Ht', is_null_hd_ptr, is_null_last_ptr.
    destruct (unlink_control_other QA1 QAM (StrategyControl s) (previous b) (next b))
      as [Hc _]; [discriminate|]. cbn in Hc.
    destruct am as [|a am]; [reflexivity|]. cbn [orb app hd_ptr].
    cbn. rewrite Hc, Hh'. reflexivity.
  - rewrite last_ptr_snoc. destruct (is_null _ || is_null _); reflexivity.
  - rewrite Ht'. apply seg_attach; auto.
    + apply lookup_lt_is_Some. rewrite bypass_length.
      eapply lookup_lt_Some, Hb.
    + eapply seg_frame; [|exact Hs']. intros j Hj.
      rewrite bypass_lookup_other; [reflexivity| |].
      * rewrite Hp. intros Heq. symmetry in Heq. apply last_ptr_elem_of in Heq.
        eapply Hdisj; [exact Hj|]. apply elem_of_app. left. exact Heq.
      * rewrite Hn. intros Heq. symmetry in Heq. apply hd_ptr_elem_of in Heq.
        eapply Hdisj; [exact Hj|]. apply elem_of_app. right. right. exact Heq.
  - apply NoDup_snoc_fresh; assumption.
Qed.

(** *** Frame [x] is in neither queue *)

Lemma enqueued_A1_A1 (s : State) x a1 :
  queue_is s QA1 a1 -> valid_frame s x -> x ∉ a1 ->
  queue_is (enqueued_A1 x s) QA1 (a1 ++ [x]).
Proof.
  intros (Hh & Ht & Hs & Hnd) Hv Hx.
  cbn [queue_head queue_tail] in *.
  unfold queue_is, enqueued_A1.
  cbn [BufferDescriptors StrategyControl queue_head queue_tail].
  split; [|split; [|split]].
  - rewrite Hh, Ht, is_null_hd_ptr, is_null_last_ptr.
    destruct a1 as [|a a1]; [reflexivity|]. cbn. exact Hh.
  - rewrite last_ptr_snoc. destruct (is_null _ || is_null _); reflexivity.
  - rewrite Ht. apply seg_attach; auto. apply lookup_lt_is_Some. exact Hv.
  - apply NoDup_snoc_fresh; assumption.
Qed.

Lemma enqueued_A1_main (s : State) x a1 am :
  queue_is s QA1 a1 -> queue_is s QAM am ->
  (forall i, i ∈ am -> i ∈ a1 -> False) -> x ∉ am ->
  queue_is (enqueued_A1 x s) QAM am.
Proof.
  intros (Hh & Ht & Hs & Hnd) (Hh' & Ht' & Hs' & Hnd') Hdisj Hx.
  cbn [queue_head queue_tail] in *.
  unfold queue_is, enqueued_A1.
  cbn [BufferDescriptors StrategyControl queue_head queue_tail].
  split; [|split; [|split; [|exact Hnd']]].
  - destruct (is_null _ || is_null _); exact Hh'.
  - destruct (is_null _ || is_null _); exact Ht'.
  - eapply seg_frame; [|exact Hs']. intros j Hj.
    rewrite attach_lookup_other; [reflexivity| |].
    + intros ->. contradiction.
    + rewrite Ht. intros Heq. symmetry in Heq. apply last_ptr_elem_of in Heq.
      eapply Hdisj; eauto.
Qed.

(** *** Running the hook *)

Lemma desc_addr_frame s x :
  valid_frame s x -> desc_addr (Z.of_nat x) s = Ret (Some x) s.
Proof.
  unfold valid_frame, desc_addr, NBuffers. intros Hx.
  destruct (Z.leb_spec 0 (Z.of_nat x)); [|lia].
  destruct (Z.ltb_spec (Z.of_nat x) (Z.of_nat (length (BufferDescriptors s))));
    [|lia].
  cbn. rewrite Nat2Z.id. reflexivity.
Qed.

Lemma queue_is_ends_valid s q l :
  queue_is s q l ->
  valid_ptr s (queue_head q (StrategyControl s)) /\
  valid_ptr s (queue_tail q (StrategyControl s)).
Proof.
  intros Hq. pose proof Hq as (Hh & Ht & _). rewrite Hh, Ht. split.
  - destruct (hd_ptr l None) as [h|] eqn:E; [|exact I].
    eapply queue_is_valid; [exact Hq|]. apply hd_ptr_elem_of, E.
  - destruct (last_ptr l None) as [t|] eqn:E; [|exact I].
    eapply queue_is_valid; [exact Hq|]. apply last_ptr_elem_of, E.
Qed.

Lemma queue_is_links_valid s q l x b :
  queue_is s q l -> x ∈ l -> BufferDescriptors s !! x = Some b ->
  valid_ptr s (previous b) /\ valid_ptr s (next b).
Proof.
  intros (_ & _ & Hs & _) Hx Hb.
  destruct (seg_valid_ptr s _ _ _ b x Hs Hx Hb) as [Hp Hn]. auto.
Qed.

Lemma unpinned_in_AM_run (s : State) l1 x l2 b :
  queue_is s QAM (l1 ++ x :: l2) ->
  BufferDescriptors s !! x = Some b ->
  unpinned_in_AM (lastUnpinned (StrategyControl s)) (previous b) (next b)
                 (Some x) s
  = Ret tt (match next b with
            | Some _ => moved_to_tail x b s
            | None => s
            end).
Proof.
  intros Hq Hb.
  assert (Hin : x ∈ l1 ++ x :: l2) by (apply elem_of_app; right; left).
  destruct (queue_is_links_valid _ _ _ _ _ Hq Hin Hb) as [Hp Hn].
  destruct (queue_is_ends_valid _ _ _ Hq) as [_ Ht]. cbn in Ht.
  assert (Hx : valid_frame s x) by (eapply lookup_lt_Some, Hb).
  assert (Hlast : is_null (lastUnpinned (StrategyControl s)) = false).
  { destruct Hq as (_ & Htl & _). cbn in Htl. rewrite Htl, is_null_last_ptr.
    destruct l1; reflexivity. }
  unfold unpinned_in_AM, moved_to_tail, attach, bypass.
  destruct (lastUnpinned (StrategyControl s)) as [t|]; [|discriminate].
  destruct (next b) as [n|]; [|reflexivity].
  destruct (previous b) as [p|]; repeat run_store; reflexivity.
Qed.

Lemma append_to_AM_run (s0 s : State) x am :
  queue_is s0 QAM am -> valid_frame s0 x ->
  length (BufferDescriptors s) = length (BufferDescriptors s0) ->
  append_to_AM (firstUnpinned (StrategyControl s0))
               (lastUnpinned (StrategyControl s0)) (Some x) s
  = Ret tt
      (mkState (BufferReplacementPolicy s)
         (attach (lastUnpinned (StrategyControl s0)) x (BufferDescriptors s))
         (set_lastUnpinned (Some x)
            (if is_null (firstUnpinned (StrategyControl s0))
                || is_null (lastUnpinned (StrategyControl s0))
             then set_firstUnpinned (Some x) (StrategyControl s)
             else StrategyControl s))
         (latches_set s)).
Proof.
  intros Hq Hx Hlen.
  destruct (queue_is_ends_valid _ _ _ Hq) as [_ Ht]. cbn in Ht.
  destruct Hq as (Hh & Htl & _). cbn in Hh, Htl.
  assert (Hnull : is_null (firstUnpinned (StrategyControl s0))
                  = is_null (lastUnpinned (StrategyControl s0))).
  { rewrite Hh, Htl, is_null_hd_ptr, is_null_last_ptr. reflexivity. }
  unfold append_to_AM, attach. rewrite Hnull.
  unfold valid_ptr, valid_frame in *. rewrite <- Hlen in *.
  destruct (lastUnpinned (StrategyControl s0)) as [t|]; cbn [is_null orb];
    repeat run_store; reflexivity.
Qed.

Lemma unpinned_in_A1_run (s : State) l1 x l2 b am :
  queue_is s QA1 (l1 ++ x :: l2) ->
  queue_is s QAM am ->
  BufferDescriptors s !! x = Some b ->
  unpinned_in_A1 (firstUnpinned (StrategyControl s))
                 (lastUnpinned (StrategyControl s))
                 (previous b) (next b) (Some x) s
  = Ret tt (promoted x b s).
Proof.
  intros Hq Ham Hb.
  assert (Hin : x ∈ l1 ++ x :: l2) by (apply elem_of_app; right; left).
  destruct (queue_is_links_valid _ _ _ _ _ Hq Hin Hb) as [Hp Hn].
  assert (Hx : valid_frame s x) by (eapply lookup_lt_Some, Hb).
  unfold unpinned_in_A1, promoted, bypass, unlink_control.
  destruct (next b) as [n|], (previous b) as [p|];
    repeat run_store;
    rewrite ?bind_assoc;
    try (erewrite bind_Ret by reflexivity);
    (rewrite (append_to_AM_run s _ x am Ham Hx);
     [reflexivity|cbn; rewrite ?length_alter; reflexivity]).
Qed.

Lemma unpinned_new_2Q_run (s : State) x a1 :
  queue_is s QA1 a1 -> valid_frame s x ->
  unpinned_new_2Q (Some x) s = Ret tt (enqueued_A1 x s).
Proof.
  intros Hq Hx.
  destruct (queue_is_ends_valid _ _ _ Hq) as [_ Ht]. cbn in Ht.
  destruct Hq as (Hh & Htl & _). cbn in Hh, Htl.
  assert (Hnull : is_null (a1Head (StrategyControl s))
                  = is_null (a1Tail (StrategyControl s))).
  { rewrite Hh, Htl, is_null_hd_ptr, is_null_last_ptr. reflexivity. }
  unfold unpinned_new_2Q, enqueued_A1, attach.
  rewrite (bind_Ret get_control _ s (StrategyControl s) s eq_refl).
  rewrite Hnull.
  destruct (a1Tail (StrategyControl s)) as [t|]; cbn [is_null orb];
    repeat run_store; reflexivity.
Qed.

Lemma BufferUnpinned_2Q_run fuel (s : State) am a1 x b :
  BufferReplacementPolicy s = POLICY_2Q ->
  queues_are s am a1 ->
  BufferDescriptors s !! x = Some b ->
  (fuel <= length am + length a1)%nat /\
    BufferUnpinned fuel true (Z.of_nat x) s = OutOfFuel \/
  BufferUnpinned fuel true (Z.of_nat x) s
  = Ret tt (unpinned_2Q_state x b am a1 s).
Proof.
  intros Hpol (Ham & Ha1 & Hnd) Hb.
  assert (Hx : valid_frame s x) by (eapply lookup_lt_Some, Hb).
  unfold BufferUnpinned, unpinned_2Q_state.
  rewrite (bind_Ret _ _ _ _ _ (desc_addr_frame s x Hx)).
  rewrite (bind_Ret get_control _ s (StrategyControl s) s eq_refl).
  rewrite (bind_Ret _ _ _ _ _ (deref_Some s x b Hb)).
  cbn [negb].
  rewrite (bind_Ret get_policy _ s (BufferReplacementPolicy s) s eq_refl).
  rewrite Hpol.
  pose proof Ham as (Hh & _ & Hs & _). cbn in Hh.
  destruct (queue_member_run fuel s [] am x Hs) as [[Hf Hrun]|Hrun];
    rewrite <- Hh in Hrun.
  { left. split; [lia|]. unfold bind at 1. rewrite Hrun. reflexivity. }
  rewrite (bind_Ret _ _ _ _ _ Hrun).
  destruct (bool_decide (x ∈ am)) eqn:Em.
  { right. apply bool_decide_eq_true_1 in Em.
    apply list_elem_of_split in Em as (l1 & l2 & ->).
    apply (unpinned_in_AM_run s l1 x l2 b Ham Hb). }
  rewrite (bind_Ret get_control _ s (StrategyControl s) s eq_refl).
  pose proof Ha1 as (Hh1 & _ & Hs1 & _). cbn in Hh1.
  destruct (queue_member_run fuel s [] a1 x Hs1) as [[Hf Hrun1]|Hrun1];
    rewrite <- Hh1 in Hrun1.
  { left. split; [lia|]. unfold bind at 1. rewrite Hrun1. reflexivity. }
  rewrite (bind_Ret _ _ _ _ _ Hrun1). right.
  destruct (bool_decide (x ∈ a1)) eqn:E1.
  - apply bool_decide_eq_true_1 in E1.
    apply list_elem_of_split in E1 as (l1 & l2 & ->).
    apply (unpinned_in_A1_run s l1 x l2 b am Ha1 Ham Hb).
  - apply (unpinned_new_2Q_run s x a1 Ha1 Hx).
Qed.

Lemma without_fresh x (l : list nat) : x ∉ l -> without x l = l.
Proof.
  unfold without. induction l as [|a l IH]; intros Hx; [reflexivity|].
  apply not_elem_of_cons in Hx as [Hxa Hx].
  rewrite filter_cons_True by congruence. f_equal. apply IH, Hx.
Qed.

Lemma without_middle (l1 : list nat) x l2 :
  NoDup (l1 ++ x :: l2) -> without x (l1 ++ x :: l2) = l1 ++ l2.
Proof.
  intros Hnd. apply NoDup_app in Hnd as (_ & H2 & H3).
  apply NoDup_cons in H3 as [H3 _].
  unfold without. rewrite filter_app, filter_cons_False by auto.
  fold (without x l1) (without x l2).
  rewrite !without_fresh; auto.
  intros Hin. eapply H2; [exact Hin|left].
Qed.

Lemma queues_are_intro s am a1 :
  queue_is s QAM am -> queue_is s QA1 a1 ->
  (forall i, i ∈ am -> i ∈ a1 -> False) ->
  queues_are s am a1.
Proof.
  intros Ham Ha1 Hdisj. split; [exact Ham|]. split; [exact Ha1|].
  apply NoDup_app. split; [apply Ham|]. split; [|apply Ha1].
  intros i Hi Hi'. eapply Hdisj; eauto.
Qed.

Lemma queues_are_disjoint s am a1 i :
  queues_are s am a1 -> i ∈ am -> i ∈ a1 -> False.
Proof.
  intros (_ & _ & Hnd) Hi Hi'. apply NoDup_app in Hnd as (_ & H & _).
  eapply H; eauto.
Qed.

(** The queues after the hook, in each of its three cases. *)
Lemma unpinned_2Q_state_queues (s : State) am a1 x b :
  queues_are s am a1 ->
  BufferDescriptors s !! x = Some b ->
  queues_are (unpinned_2Q_state x b am a1 s)
             (fst (unpinned_2Q_queues x am a1))
             (snd (unpinned_2Q_queues x am a1)).
Proof.
  intros Hq Hb. pose proof Hq as (Ham & Ha1 & Hnd).
  assert (Hx : valid_frame s x) by (eapply lookup_lt_Some, Hb).
  unfold unpinned_2Q_state, unpinned_2Q_queues.
  destruct (bool_decide (x ∈ am)) eqn:Em; cbn [fst snd].
  - apply bool_decide_eq_true_1 in Em.
    apply list_elem_of_split in Em as (l1 & l2 & ->).
    rewrite without_middle by apply Ham.
    pose proof Ham as (_ & _ & Hs & _).
    destruct (seg_middle _ _ _ _ _ _ Hs) as (b' & Hb' & _ & Hn).
    assert (b' = b) by congruence. subst b'. rewrite Hn.
    destruct l2 as [|c l2]; cbn [hd_ptr].
    + rewrite app_nil_r. exact Hq.
    + apply queues_are_intro.
      * apply moved_to_tail_main; assumption.
      * eapply moved_to_tail_other; eauto.
        intros i Hi Hi'. eapply queues_are_disjoint; eauto.
      * intros i Hi Hi'. eapply (queues_are_disjoint _ _ _ i Hq); [|exact Hi'].
        rewrite !elem_of_app in Hi. rewrite elem_of_app, !elem_of_cons.
        rewrite elem_of_cons, list_elem_of_singleton in Hi. tauto.
  - destruct (bool_decide (x ∈ a1)) eqn:E1; cbn [fst snd].
    + apply bool_decide_eq_true_1 in E1.
      apply list_elem_of_split in E1 as (l1 & l2 & ->).
      rewrite without_middle by apply Ha1.
      assert (Hdisj : forall i, i ∈ am -> i ∈ l1 ++ x :: l2 -> False)
        by (intros i; apply (queues_are_disjoint _ _ _ i Hq)).
      apply queues_are_intro.
      * eapply promoted_main; eauto.
      * eapply promoted_A1; eauto.
      * intros i Hi Hi'. rewrite elem_of_app, list_elem_of_singleton in Hi.
        destruct Hi as [Hi| ->].
        -- eapply Hdisj; [exact Hi|]. rewrite elem_of_app in Hi'.
           rewrite elem_of_app, elem_of_cons. tauto.
        -- destruct Ha1 as (_ & _ & _ & Hnd1).
           apply NoDup_remove_middle in Hnd1 as [_ Hnd1]. contradiction.
    + apply bool_decide_eq_false_1 in Em, E1.
      apply queues_are_intro.
      * eapply enqueued_A1_main; eauto.
        intros i; apply (queues_are_disjoint _ _ _ i Hq).
      * apply enqueued_A1_A1; assumption.
      * intros i Hi Hi'. rewrite elem_of_app, list_elem_of_singleton in Hi'.
        destruct Hi' as [Hi'| ->]; [|contradiction].
        eapply queues_are_disjoint; eauto.
Qed.

(** ** The three-way dispatch of the unpin hook *)

(** Well-formedness of the queues of a concrete state, by evaluation. *)
Ltac solve_seg :=
  vm_compute;
  repeat (eexists; split; [reflexivity|];
          split; [reflexivity|]; split; [reflexivity|]);
  exact I.

Ltac solve_queue_is :=
  split; [vm_compute; reflexivity|];
  split; [vm_compute; reflexivity|];
  split; [solve_seg|];
  apply (bool_decide_unpack _); vm_compute; exact I.

Ltac solve_queues_are :=
  split; [solve_queue_is|]; split; [solve_queue_is|];
  apply (bool_decide_unpack _); vm_compute; exact I.

Lemma twoq_scenario_A1 :
  queues_are (unpin 2 (unpin 1 (unpin 0 (drained POLICY_2Q 8)))) [] [0; 1; 2]%nat.
Proof. solve_queues_are. Qed.

Lemma twoq_scenario_queues : queues_are twoq_scenario [1]%nat [0; 2]%nat.
Proof. solve_queues_are. Qed.

(** C6.  Under 2Q, on well-formed queues, [BufferUnpinned] dispatches three
    ways: a frame of the main queue moves to the tail of the main queue; else
    a frame of A1 is removed from A1 and appended to the main queue; else the
    frame is appended to A1.  In the scenario with eight frames, unpinning
    frames 0, 1, 2 puts all three in A1, unpinning frame 1 again leaves
    A1 = [0; 2] and main = [1], and the next [StrategyGetBuffer] takes frame 1
    from the head of the main queue. *)
Theorem BufferUnpinned_2Q_dispatch :
  (forall fuel (s : State) am a1 x,
      BufferReplacementPolicy s = POLICY_2Q ->
      queues_are s am a1 ->
      valid_frame s x ->
      (length am + length a1 < fuel)%nat ->
      exists s',
        BufferUnpinned fuel true (Z.of_nat x) s = Ret tt s' /\
        (x ∈ am -> queues_are s' (without x am ++ [x]) a1) /\
        (x ∉ am -> x ∈ a1 -> queues_are s' (am ++ [x]) (without x a1)) /\
        (x ∉ am -> x ∉ a1 -> queues_are s' am (a1 ++ [x]))) /\
  queues_are (unpin 2 (unpin 1 (unpin 0 (drained POLICY_2Q 8))))
             [] [0; 1; 2]%nat /\
  queues_are twoq_scenario [1]%nat [0; 2]%nat /\
  exists s',
    StrategyGetBuffer 32 None twoq_scenario = Ret (Some 1%nat, true, None) s' /\
    queues_are s' [] [0; 2]%nat.
Proof.
  split; [|split; [exact twoq_scenario_A1|split; [exact twoq_scenario_queues|]]].
  - intros fuel s am a1 x Hpol Hq Hx Hfuel.
    destruct (lookup_lt_is_Some_2 _ _ Hx) as [b Hb].
    destruct (BufferUnpinned_2Q_run fuel s am a1 x b Hpol Hq Hb)
      as [[Hf _]|Hrun]; [lia|].
    exists (unpinned_2Q_state x b am a1 s). split; [exact Hrun|].
    pose proof (unpinned_2Q_state_queues s am a1 x b Hq Hb) as Hres.
    unfold unpinned_2Q_queues in Hres.
    split; [|split].
    + intros Hin. rewrite bool_decide_eq_true_2 in Hres by exact Hin.
      exact Hres.
    + intros Hout Hin. rewrite bool_decide_eq_false_2 in Hres by exact Hout.
      rewrite bool_decide_eq_true_2 in Hres by exact Hin. exact Hres.
    + intros Hout Hout1. rewrite !bool_decide_eq_false_2 in Hres by assumption.
      exact Hres.
  - eexists. split; [vm_compute; reflexivity|]. solve_queues_are.
Qed.

(** ** The queues in reachable states *)

Lemma unlinked_queues_are (s : State) am a1 q r1 x r2 b :
  queues_are s am a1 ->
  contents q am a1 = r1 ++ x :: r2 ->
  BufferDescriptors s !! x = Some b ->
  exists am' a1', queues_are (unlinked q x b s) am' a1'.
Proof.
  intros Hq Hl Hb.
  destruct (queues_are_contents s am a1 q Hq) as (Hq1 & Hq2 & Hdisj).
  rewrite Hl in Hq1, Hdisj.
  pose proof (unlinked_queue_is q x b s r1 r2 Hq1 Hb) as H1.
  assert (H2 : queue_is (unlinked q x b s) (other_queue q)
                        (contents (other_queue q) am a1)).
  { eapply unlinked_other_queue; eauto. destruct q; discriminate. }
  assert (Hd : forall i, i ∈ r1 ++ r2 ->
                         i ∈ contents (other_queue q) am a1 -> False).
  { intros i Hi. apply Hdisj. rewrite elem_of_app in Hi.
    rewrite elem_of_app, elem_of_cons. tauto. }
  destruct q; cbn [other_queue contents] in *.
  - exists am, (r1 ++ r2). apply queues_are_intro; auto.
    intros i Hi Hi'. eapply Hd; eauto.
  - exists (r1 ++ r2), a1. apply queues_are_intro; auto.
Qed.

Lemma unlinked_policy q x b s :
  BufferReplacementPolicy (unlinked q x b s) = BufferReplacementPolicy s.
Proof. reflexivity. Qed.

(** The three ways the 2Q branch can end on well-formed queues. *)
Lemma twoq_select_outcome fuel (s : State) am a1 :
  queues_are s am a1 ->
  twoq_select fuel s = OutOfFuel \/
  twoq_select fuel s = Elog NoUnpinnedBuffers s \/
  exists r1 x r2 b,
    contents (twoq_choice s am a1) am a1 = r1 ++ x :: r2 /\
    BufferDescriptors s !! x = Some b /\
    twoq_select fuel s
    = Ret (buf_id b) (unlinked (twoq_choice s am a1) x b s).
Proof.
  intros Hq.
  destruct (twoq_select_scan fuel s am a1 Hq) as [[_ Hrun]|Hrun];
    [left; exact Hrun|].
  rewrite Hrun. set (q := twoq_choice s am a1) in *.
  destruct (queues_are_contents s am a1 q Hq) as (Hq1 & _).
  pose proof Hq1 as (Hh & _ & Hs & _).
  destruct (first_unpinned s (contents q am a1))
    as [Hpin|(r1 & x & r2 & b & Hl & Hpin & Hb & Hr)].
  { intros i Hi. eapply queue_is_valid; eauto. }
  - destruct (twoq_scan_all_pinned fuel q s [] _ Hs Hpin) as [[_ Hscan]|Hscan];
      unfold bind; rewrite Hh, Hscan; auto.
  - rewrite Hl in Hs.
    destruct (twoq_scan_found fuel q s [] r1 x r2 b Hs Hpin Hb Hr)
      as [[_ Hscan]|Hscan]; unfold bind; rewrite Hh, Hl, Hscan; auto.
    right. right. exists r1, x, r2, b. auto.
Qed.

Lemma twoq_victim_inv fuel strategy (s s' : State) am a1 :
  queues_are s am a1 ->
  final_state (twoq_victim fuel strategy s) = Some s' ->
  BufferReplacementPolicy s' = BufferReplacementPolicy s /\
  exists am' a1', queues_are s' am' a1'.
Proof.
  intros Hq Hfin. unfold twoq_victim in Hfin.
  destruct (twoq_select_outcome fuel s am a1 Hq)
    as [Hrun|[Hrun|(r1 & x & r2 & b & Hl & Hb & Hrun)]].
  - unfold bind in Hfin. rewrite Hrun in Hfin. discriminate.
  - unfold bind in Hfin. rewrite Hrun in Hfin. injection Hfin as <-.
    split; [reflexivity|eauto].
  - rewrite (bind_Ret _ _ _ _ _ Hrun) in Hfin.
    apply return_result_keeps_queues in Hfin.
    destruct (unlinked_queues_are s am a1 _ r1 x r2 b Hq Hl Hb)
      as (am' & a1' & Hq').
    split.
    + destruct Hfin as (-> & _). reflexivity.
    + exists am', a1'. eapply queues_are_same_queues; eauto.
Qed.

(** *** The unpin hook under the other policies never touches A1 *)

Lemma same_a1_refl s : same_a1 s s.
Proof. repeat split. Qed.

Lemma same_a1_trans s1 s2 s3 : same_a1 s1 s2 -> same_a1 s2 s3 -> same_a1 s1 s3.
Proof. intros (? & ? & ?) (? & ? & ?). repeat split; congruence. Qed.

Ltac keeps_a1_step :=
  first
    [ apply keeps_ret; exact same_a1_refl
    | apply keeps_fault
    | apply keeps_store; intros; repeat split
    | apply keeps_modify_control; intros; repeat split
    | apply (keeps_bind _ same_a1_trans); [|intros ?]
    | match goal with
      | |- keeps _ (if ?b then _ else _) => destruct b
      | |- keeps _ (match ?x with _ => _ end) => destruct x
      end ].

Lemma unpinned_other_keeps_a1 first last prv nxt buf :
  keeps same_a1 (unpinned_other first last prv nxt buf).
Proof. unfold unpinned_other. repeat keeps_a1_step. Qed.

Lemma BufferUnpinned_other_inv fuel acquired bufIndex (s s' : State) :
  BufferReplacementPolicy s <> POLICY_2Q ->
  final_state (BufferUnpinned fuel acquired bufIndex s) = Some s' ->
  same_a1 s s'.
Proof.
  intros Hpol. unfold BufferUnpinned. unfold bind at 1.
  unfold desc_addr. destruct ((0 <=? bufIndex) && (bufIndex <? NBuffers s));
    [|discriminate].
  rewrite (bind_Ret get_control _ s (StrategyControl s) s eq_refl).
  unfold bind at 1, deref.
  destruct (BufferDescriptors s !! Z.to_nat bufIndex) as [b|]; [|discriminate].
  destruct acquired; cbn [negb]; [|intros [= <-]; apply same_a1_refl].
  rewrite (bind_Ret get_policy _ s (BufferReplacementPolicy s) s eq_refl).
  destruct (BufferReplacementPolicy s); try contradiction;
    apply unpinned_other_keeps_a1.
Qed.

Lemma BufferUnpinned_2Q_inv fuel acquired bufIndex (s s' : State) am a1 :
  BufferReplacementPolicy s = POLICY_2Q ->
  queues_are s am a1 ->
  final_state (BufferUnpinned fuel acquired bufIndex s) = Some s' ->
  BufferReplacementPolicy s' = POLICY_2Q /\
  exists am' a1', queues_are s' am' a1'.
Proof.
  intros Hpol Hq Hfin.
  destruct ((0 <=? bufIndex) && (bufIndex <? NBuffers s)) eqn:Hrange.
  2:{ unfold BufferUnpinned, bind, desc_addr in Hfin. rewrite Hrange in Hfin.
      discriminate. }
  apply andb_prop in Hrange as [H0 Hn].
  apply Z.leb_le in H0. apply Z.ltb_lt in Hn. unfold NBuffers in Hn.
  set (x := Z.to_nat bufIndex).
  assert (Hx : valid_frame s x) by (unfold valid_frame, x; lia).
  assert (Hidx : bufIndex = Z.of_nat x) by (unfold x; lia).
  destruct (lookup_lt_is_Some_2 _ _ Hx) as [b Hb]. rewrite Hidx in Hfin.
  destruct acquired.
  - destruct (BufferUnpinned_2Q_run fuel s am a1 x b Hpol Hq Hb)
      as [[_ Hrun]|Hrun]; rewrite Hrun in Hfin; [discriminate|].
    injection Hfin as <-. split.
    + unfold unpinned_2Q_state.
      destruct (bool_decide (x ∈ am)); [destruct (next b); exact Hpol|].
      destruct (bool_decide (x ∈ a1)); exact Hpol.
    + eexists _, _. apply unpinned_2Q_state_queues; assumption.
  - unfold BufferUnpinned in Hfin.
    rewrite (bind_Ret _ _ _ _ _ (desc_addr_frame s x Hx)) in Hfin.
    rewrite (bind_Ret get_control _ s (StrategyControl s) s eq_refl) in Hfin.
    rewrite (bind_Ret _ _ _ _ _ (deref_Some s x b Hb)) in Hfin.
    injection Hfin as <-. eauto.
Qed.

Lemma StrategyFreeBuffer_keeps_queues buf :
  keeps same_queues (StrategyFreeBuffer buf).
Proof. unfold StrategyFreeBuffer. repeat keeps_queues_step'. Qed.

Lemma StrategyInitialize_found init (s s' : State) :
  final_state (StrategyInitialize true init s) = Some s' -> s' = s.
Proof. unfold StrategyInitialize. destruct init; cbn; congruence. Qed.

Lemma queues_inv_same_queues s s' :
  same_queues s s' -> queues_inv s -> queues_inv s'.
Proof.
  intros Hsame. pose proof Hsame as (Hpol & Hq & _).
  unfold queues_inv. rewrite Hpol. injection Hq as _ _ Hh _.
  destruct (BufferReplacementPolicy s); try congruence.
  intros (am & a1 & H). exists am, a1.
  eapply queues_are_same_queues; eauto.
Qed.

Lemma queues_inv_init pol n : queues_inv (initial_state pol n).
Proof.
  unfold queues_inv, initial_state.
  assert (H : StrategyInitialize false true (InitBufferPool pol n)
              = Ret tt (mkState pol (BufferDescriptors (InitBufferPool pol n))
                          (mkControl 0 0 (Z.of_nat n - 1) 0 0 None None None None None) [])).
  { unfold StrategyInitialize, InitBufferPool, bind, Assert, ret, get_NBuffers,
      modify_control, NBuffers. cbn. rewrite length_map, length_seq. reflexivity. }
  rewrite H. cbn [BufferReplacementPolicy StrategyControl a1Head].
  destruct pol; try reflexivity.
  exists [], []. repeat split; cbn; constructor.
Qed.

Lemma initial_state_policy pol n :
  BufferReplacementPolicy (initial_state pol n) = pol.
Proof.
  unfold initial_state, StrategyInitialize, InitBufferPool, bind, Assert, ret,
    get_NBuffers, modify_control. reflexivity.
Qed.

Lemma step_inv (s s' : State) :
  step s s' -> queues_inv s ->
  BufferReplacementPolicy s' = BufferReplacementPolicy s /\ queues_inv s'.
Proof.
  intros Hstep Hinv. destruct Hstep as [init s' H|fuel strategy s' H|buf s' H
                                       |fuel acquired bufIndex s' H|i refs usage lock].
  - apply StrategyInitialize_found in H. subst. auto.
  - apply StrategyGetBuffer_cases in H as [H|(st' & s1 & H1 & H)].
    { split; [apply H|]. eapply queues_inv_same_queues; eauto. }
    pose proof (queues_inv_same_queues _ _ H1 Hinv) as Hinv1.
    destruct H1 as (Hpol1 & _).
    destruct (decide (BufferReplacementPolicy s1 = POLICY_2Q)) as [Hpol|Hpol].
    + rewrite select_victim_2Q in H by exact Hpol.
      unfold queues_inv in Hinv1. rewrite Hpol in Hinv1.
      destruct Hinv1 as (am & a1 & Hq).
      destruct (twoq_victim_inv _ _ _ _ _ _ Hq H) as (Hp' & Hq').
      split; [congruence|]. unfold queues_inv. rewrite Hp', Hpol. exact Hq'.
    + pose proof (select_victim_keeps_queues _ _ _ _ Hpol H) as Hsame.
      split; [destruct Hsame as (-> & _); exact Hpol1|].
      eapply queues_inv_same_queues; eauto.
  - apply StrategyFreeBuffer_keeps_queues in H.
    split; [apply H|]. eapply queues_inv_same_queues; eauto.
  - destruct (decide (BufferReplacementPolicy s = POLICY_2Q)) as [Hpol|Hpol].
    + unfold queues_inv in Hinv. rewrite Hpol in Hinv.
      destruct Hinv as (am & a1 & Hq).
      destruct (BufferUnpinned_2Q_inv _ _ _ _ _ _ _ Hpol Hq H) as (Hp' & Hq').
      split; [congruence|]. unfold queues_inv. rewrite Hp'. exact Hq'.
    + apply BufferUnpinned_other_inv in H; [|exact Hpol].
      destruct H as (Hp' & Hh & _). split; [exact Hp'|].
      unfold queues_inv in *. rewrite Hp'.
      destruct (BufferReplacementPolicy s); try congruence.
  - assert (Hsame : same_queues s (update_frame i (pin_manager_update refs usage lock) s)).
    { apply same_queues_update_frame. reflexivity. }
    split; [apply Hsame|]. eapply queues_inv_same_queues; eauto.
Qed.

Lemma reachable_inv pol n (s : State) :
  reachable pol n s -> BufferReplacementPolicy s = pol /\ queues_inv s.
Proof.
  induction 1 as [|s s' _ [IHp IHq] Hstep].
  - split; [apply initial_state_policy|apply queues_inv_init].
  - destruct (step_inv s s' Hstep IHq) as [Hp Hq]. split; congruence.
Qed.

Lemma linked_seg bufs p l i :
  seg bufs p l None -> linked bufs (hd_ptr l None) i -> i ∈ l.
Proof.
  revert p. induction l as [|j l IH]; intros p Hs Hl.
  - inversion Hl.
  - destruct Hs as (b & Hb & _ & Hn & Hs). cbn in Hl.
    inversion Hl as [|j' b' i' Hb' Hl']; subst.
    + left.
    + right. assert (b' = b) by congruence. subst b'. rewrite Hn in Hl'.
      eapply IH; eauto.
Qed.

Lemma in_queue_contents (s : State) q l i :
  queue_is s q l -> in_queue s q i -> i ∈ l.
Proof.
  intros (Hh & _ & Hs & _) Hin. unfold in_queue in Hin. rewrite Hh in Hin.
  eapply linked_seg; eauto.
Qed.

(** C7, as amended.  In every state reachable from bootstrap by
    [StrategyInitialize], [StrategyGetBuffer], [StrategyFreeBuffer] and
    [BufferUnpinned] calls, interleaved with the pin manager's updates, no
    frame is in both the main victim queue and the A1 queue.  (Freelist
    membership is independent of queue membership, see
    [partition_counterexample].) *)
Theorem queues_disjoint_when_reachable pol n (s : State) i :
  reachable pol n s -> ~ (in_queue s QAM i /\ in_queue s QA1 i).
Proof.
  intros Hreach [Ham Ha1].
  destruct (reachable_inv pol n s Hreach) as [_ Hinv].
  unfold queues_inv in Hinv.
  destruct (BufferReplacementPolicy s);
    try (unfold in_queue in Ha1; cbn in Ha1; rewrite Hinv in Ha1;
         inversion Ha1; fail).
  destruct Hinv as (am & a1 & Hq). pose proof Hq as (H1 & H2 & _).
  eapply (queues_are_disjoint s am a1 i Hq); eapply in_queue_contents; eauto.
Qed.

(** ** [buf_id] is never written *)

Lemma same_ids_refl s : same_ids s s.
Proof. reflexivity. Qed.

Lemma same_ids_trans s1 s2 s3 : same_ids s1 s2 -> same_ids s2 s3 -> same_ids s1 s3.
Proof. unfold same_ids. congruence. Qed.

Lemma same_ids_update_frame f s i :
  (forall b, buf_id (f b) = buf_id b) -> same_ids s (update_frame i f s).
Proof.
  intros Hf. unfold same_ids. cbn. apply list_eq. intros j.
  rewrite !list_lookup_fmap, list_lookup_alter. case_decide; [|reflexivity].
  subst. destruct (BufferDescriptors s !! j); cbn; [|reflexivity].
  f_equal. apply Hf.
Qed.

Lemma same_ids_ok s s' : same_ids s s' -> ids_ok s -> ids_ok s'.
Proof.
  intros Hsame Hok i b' Hb'.
  assert (H : (buf_id <$> BufferDescriptors s) !! i = Some (buf_id b')).
  { rewrite <- Hsame, list_lookup_fmap, Hb'. reflexivity. }
  rewrite list_lookup_fmap in H.
  destruct (BufferDescriptors s !! i) as [b|] eqn:Hb; [|discriminate].
  injection H as <-. apply Hok, Hb.
Qed.

Ltac keeps_ids_step :=
  first
    [ apply keeps_ret; exact same_ids_refl
    | apply keeps_elog; exact same_ids_refl
    | apply keeps_fault
    | apply keeps_out_of_fuel
    | apply keeps_stuck
    | apply keeps_get_control; exact same_ids_refl
    | apply keeps_get_policy; exact same_ids_refl
    | apply keeps_get_NBuffers; exact same_ids_refl
    | apply keeps_desc_addr; exact same_ids_refl
    | apply keeps_deref; exact same_ids_refl
    | apply keeps_Assert; exact same_ids_refl
    | apply keeps_store; intros; apply same_ids_update_frame; reflexivity
    | apply keeps_modify_control; intros; exact (same_ids_refl _)
    | apply keeps_SetLatch; intros; exact (same_ids_refl _)
    | apply (keeps_bind _ same_ids_trans); [|intros ?]
    | match goal with
      | |- keeps _ (if ?b then _ else _) => destruct b
      | |- keeps _ (match ?x with _ => _ end) => destruct x
      end
    | progress unfold LockBufHdr, UnlockBufHdr, AddBufferToRing,
        GetBufferFromRing, count_allocation, queue_walk_result, return_result,
        unlink_victim, twoq_scan_result, clock_select, queue_select ].

Lemma freelist_loop_keeps_ids fuel strategy :
  keeps same_ids (freelist_loop fuel strategy).
Proof.
  induction fuel as [|fuel IH]; cbn [freelist_loop];
    repeat first [apply IH | keeps_ids_step].
Qed.

Lemma clock_sweep_keeps_ids fuel strategy trycounter :
  keeps same_ids (clock_sweep fuel strategy trycounter).
Proof.
  revert trycounter. induction fuel as [|fuel IH]; intros trycounter;
    cbn [clock_sweep]; repeat first [apply IH | keeps_ids_step].
Qed.

Lemma queue_walk_keeps_ids fuel link buf :
  keeps same_ids (queue_walk fuel link buf).
Proof.
  revert buf. induction fuel as [|fuel IH]; intros buf;
    cbn [queue_walk]; repeat first [apply IH | keeps_ids_step].
Qed.

Lemma a1_size_keeps_ids fuel head acc : keeps same_ids (a1_size fuel head acc).
Proof.
  revert head acc. induction fuel as [|fuel IH]; intros head acc;
    cbn [a1_size]; repeat first [apply IH | keeps_ids_step].
Qed.

Lemma twoq_scan_keeps_ids fuel q buf : keeps same_ids (twoq_scan fuel q buf).
Proof.
  revert buf. induction fuel as [|fuel IH]; intros buf;
    cbn [twoq_scan]; repeat first [apply IH | keeps_ids_step].
Qed.

Lemma queue_member_keeps_ids fuel head buf :
  keeps same_ids (queue_member fuel head buf).
Proof.
  revert head. induction fuel as [|fuel IH]; intros head;
    cbn [queue_member]; repeat first [apply IH | keeps_ids_step].
Qed.

Lemma StrategyGetBuffer_keeps_ids fuel strategy :
  keeps same_ids (StrategyGetBuffer fuel strategy).
Proof.
  unfold StrategyGetBuffer, StrategyGetBuffer_global, select_victim,
    twoq_victim, twoq_select.
  repeat first [ apply freelist_loop_keeps_ids | apply clock_sweep_keeps_ids
               | apply queue_walk_keeps_ids | apply a1_size_keeps_ids
               | apply twoq_scan_keeps_ids | keeps_ids_step ].
Qed.

Lemma BufferUnpinned_keeps_ids fuel acquired bufIndex :
  keeps same_ids (BufferUnpinned fuel acquired bufIndex).
Proof.
  unfold BufferUnpinned, unpinned_in_AM, unpinned_in_A1, unpinned_new_2Q,
    unpinned_other, append_to_AM.
  repeat first [ apply queue_member_keeps_ids | keeps_ids_step ].
Qed.

Lemma StrategyFreeBuffer_keeps_ids buf : keeps same_ids (StrategyFreeBuffer buf).
Proof. unfold StrategyFreeBuffer. repeat keeps_ids_step. Qed.

Lemma InitBufferPool_ids pol n : ids_ok (initial_state pol n).
Proof.
  intros i b Hb.
  assert (H : BufferDescriptors (initial_state pol n)
              = BufferDescriptors (InitBufferPool pol n)).
  { unfold initial_state, StrategyInitialize, bind, Assert, ret, get_NBuffers,
      modify_control. reflexivity. }
  rewrite H in Hb. unfold InitBufferPool in Hb.
  cbn [BufferDescriptors] in Hb.
  assert (Hmap : forall (f : nat -> BufferDesc) l, map f l = f <$> l).
  { intros f l. induction l as [|a l IHl]; cbn; congruence. }
  rewrite Hmap, list_lookup_fmap in Hb.
  destruct (seq 0 n !! i) as [j|] eqn:Hj; [|discriminate].
  apply lookup_seq in Hj as [-> _]. injection Hb as <-. reflexivity.
Qed.

Lemma reachable_ids_ok pol n (s : State) : reachable pol n s -> ids_ok s.
Proof.
  induction 1 as [|s s' _ IH Hstep]; [apply InitBufferPool_ids|].
  destruct Hstep as [init s' H|fuel strategy s' H|buf s' H
                    |fuel acquired bufIndex s' H|i refs usage lock].
  - apply StrategyInitialize_found in H. subst. exact IH.
  - eapply same_ids_ok; [eapply StrategyGetBuffer_keeps_ids, H|exact IH].
  - eapply same_ids_ok; [eapply StrategyFreeBuffer_keeps_ids, H|exact IH].
  - eapply same_ids_ok; [eapply BufferUnpinned_keeps_ids, H|exact IH].
  - eapply same_ids_ok; [|exact IH]. apply same_ids_update_frame. reflexivity.
Qed.

(** ** The return contract on the paths that take the header lock *)

Lemma bind_Ret_inv {A B} (m : M A) (k : A -> M B) s b s' :
  bind m k s = Ret b s' -> exists a s1, m s = Ret a s1 /\ k a s1 = Ret b s'.
Proof.
  unfold bind. destruct (m s) as [a s1| | | |]; try discriminate. eauto.
Qed.

Lemma deref_inv p s b s' :
  deref p s = Ret b s' ->
  s' = s /\ exists i, p = Some i /\ BufferDescriptors s !! i = Some b.
Proof.
  unfold deref. destruct p as [i|]; [|discriminate].
  destruct (BufferDescriptors s !! i) as [d|] eqn:E; [|discriminate].
  intros [= <- <-]. eauto.
Qed.

Lemma desc_addr_inv z s p s' :
  desc_addr z s = Ret p s' -> s' = s /\ p = Some (Z.to_nat z) /\ 0 <= z.
Proof.
  unfold desc_addr. destruct (0 <=? z) eqn:E; [|discriminate].
  destruct (z <? NBuffers s); [|discriminate].
  intros [= <- <-]. apply Z.leb_le in E. auto.
Qed.

Lemma store_inv p f s s' :
  store p f s = Ret tt s' -> exists i, p = Some i /\ s' = update_frame i f s.
Proof.
  unfold store. destruct p as [i|]; [|discriminate].
  destruct (BufferDescriptors s !! i); [|discriminate].
  intros [= <-]. eauto.
Qed.

Lemma AddBufferToRing_inv strategy buf s strategy' s' :
  AddBufferToRing strategy buf s = Ret strategy' s' -> s' = s.
Proof.
  unfold AddBufferToRing. destruct strategy as [st|]; [|intros [= _ <-]; auto].
  intros H. apply bind_Ret_inv in H as (b & s1 & H1 & H).
  apply deref_inv in H1 as [-> _].
  destruct (ring_write st (current st) (BufferDescriptorGetBuffer b));
    [|discriminate].
  injection H as _ <-. reflexivity.
Qed.

(** After [LockBufHdr(buf)], the descriptor read through [buf] has its lock
    held. *)
Lemma lock_deref_inv {A} buf (k : BufferDesc -> M A) s r s' :
  (LockBufHdr buf ;; b <- deref buf ;; k b) s = Ret r s' ->
  exists i b s1, buf = Some i /\ BufferDescriptors s1 !! i = Some b /\
                 buf_hdr_lock b = true /\ k b s1 = Ret r s'.
Proof.
  intros H. apply bind_Ret_inv in H as ([] & s1 & Hlock & H).
  apply bind_Ret_inv in H as (b & s2 & Hd & H).
  apply deref_inv in Hd as [-> (i & -> & Hb)].
  exists i, b, s1. repeat split; auto.
  unfold LockBufHdr in Hlock.
  apply bind_Ret_inv in Hlock as (b0 & s0 & Hd0 & Hlock).
  apply deref_inv in Hd0 as [-> (i0 & [= <-] & Hb0)].
  destruct (buf_hdr_lock b0); [discriminate|].
  apply store_inv in Hlock as (i1 & [= <-] & ->).
  cbn in Hb. rewrite list_lookup_alter_eq, Hb0 in Hb.
  injection Hb as <-. reflexivity.
Qed.

Lemma returned_frame_ok_intro (s : State) i b :
  BufferDescriptors s !! i = Some b -> buf_hdr_lock b = true ->
  refcount b = 0 -> returned_frame_ok s i.
Proof. intros Hb Hl Hr. split; exists b; auto. Qed.




Lemma queue_walk_returns_ok fuel link buf s i idx s' :
  queue_walk fuel link buf s = Ret (Some i, idx) s' ->
  exists b, BufferDescriptors s' !! i = Some b /\ buf_hdr_lock b = true /\
            refcount b = 0 /\ idx = buf_id b.
Proof.
  revert buf s. induction fuel as [|fuel IH]; intros buf s H; [discriminate|].
  cbn [queue_walk] in H. destruct buf as [j|]; [|discriminate].
  apply lock_deref_inv in H as (j' & b & s1 & [= <-] & Hb & Hl & H).
  destruct (refcount b =? 0) eqn:Hr.
  - injection H as <- <- <-. apply Z.eqb_eq in Hr. eauto.
  - apply bind_Ret_inv in H as (? & s2 & _ & H).
    apply bind_Ret_inv in H as (b2 & s3 & _ & H). eapply IH, H.
Qed.





(** ** "no unpinned buffers available" under LRU and MRU *)

Section NeverRaises.
Variable e : ErrorKind.

Lemma never_raises_bind {A B} (m : M A) (k : A -> M B) :
  never_raises e m -> (forall a, never_raises e (k a)) ->
  never_raises e (bind m k).
Proof.
  intros Hm Hk s s' H. unfold bind in H.
  destruct (m s) as [a s1|e1 s1| | |] eqn:E; try discriminate.
  - eapply Hk, H.
  - injection H as -> ->. eapply Hm, E.
Qed.

Lemma never_raises_ret {A} (a : A) : never_raises e (ret a).
Proof. intros s s'. discriminate. Qed.

Lemma never_raises_fault {A} : never_raises e (@fault A).
Proof. intros s s'. discriminate. Qed.

Lemma never_raises_out_of_fuel {A} : never_raises e (@out_of_fuel A).
Proof. intros s s'. discriminate. Qed.

Lemma never_raises_stuck {A} : never_raises e (fun _ => @Stuck A).
Proof. intros s s'. discriminate. Qed.

Lemma never_raises_get_control : never_raises e get_control.
Proof. intros s s'. discriminate. Qed.

Lemma never_raises_modify_control f : never_raises e (modify_control f).
Proof. intros s s'. discriminate. Qed.

Lemma never_raises_SetLatch l : never_raises e (SetLatch l).
Proof. intros s s'. discriminate. Qed.

Lemma never_raises_desc_addr i : never_raises e (desc_addr i).
Proof.
  intros s s'. unfold desc_addr.
  destruct ((0 <=? i) && (i <? NBuffers s)); discriminate.
Qed.

Lemma never_raises_deref p : never_raises e (deref p).
Proof.
  intros s s'. unfold deref. destruct p as [i|]; [|discriminate].
  destruct (BufferDescriptors s !! i); discriminate.
Qed.

Lemma never_raises_store p f : never_raises e (store p f).
Proof.
  intros s s'. unfold store. destruct p as [i|]; [|discriminate].
  destruct (BufferDescriptors s !! i); discriminate.
Qed.

Lemma never_raises_Assert b : never_raises e (Assert b).
Proof. destruct b; [apply never_raises_ret|apply never_raises_fault]. Qed.
End NeverRaises.

Ltac never_raises_step :=
  first
    [ apply never_raises_ret
    | apply never_raises_fault
    | apply never_raises_out_of_fuel
    | apply never_raises_stuck
    | apply never_raises_get_control
    | apply never_raises_modify_control
    | apply never_raises_SetLatch
    | apply never_raises_desc_addr
    | apply never_raises_deref
    | apply never_raises_store
    | apply never_raises_Assert
    | apply never_raises_bind; [|intros ?]
    | match goal with
      | |- never_raises _ (if ?b then _ else _) => destruct b
      | |- never_raises _ (match ?x with _ => _ end) => destruct x
      end
    | progress unfold LockBufHdr, UnlockBufHdr, AddBufferToRing,
        GetBufferFromRing, count_allocation ].

Lemma freelist_loop_never_raises e fuel strategy :
  never_raises e (freelist_loop fuel strategy).
Proof.
  induction fuel as [|fuel IH]; cbn [freelist_loop];
    repeat first [apply IH | never_raises_step].
Qed.

Lemma queue_walk_never_raises e fuel link buf :
  never_raises e (queue_walk fuel link buf).
Proof.
  revert buf. induction fuel as [|fuel IH]; intros buf; cbn [queue_walk];
    repeat first [apply IH | never_raises_step].
Qed.

(** The [elog] after the walk is behind [UnlockBufHdr(NULL)]. *)
Lemma queue_walk_result_never_raises e r :
  never_raises e (queue_walk_result r).
Proof.
  unfold queue_walk_result. destruct (fst r); [apply never_raises_ret|].
  intros s s'. discriminate.
Qed.

Lemma return_result_never_raises strategy r :
  never_raises NoUnpinnedBuffers (return_result strategy r).
Proof.
  unfold return_result. destruct (r =? -1).
  - intros s s'. discriminate.
  - repeat never_raises_step.
Qed.

Lemma queue_select_never_raises fuel strategy link entry :
  never_raises NoUnpinnedBuffers (queue_select fuel strategy link entry).
Proof.
  unfold queue_select.
  repeat first [ apply queue_walk_never_raises
               | apply queue_walk_result_never_raises
               | apply return_result_never_raises
               | never_raises_step ].
Qed.

Lemma bind_Elog_inv {A B} (m : M A) (k : A -> M B) s e s' :
  bind m k s = Elog e s' ->
  m s = Elog e s' \/ exists a s1, m s = Ret a s1 /\ k a s1 = Elog e s'.
Proof.
  unfold bind. destruct (m s) as [a s1|e1 s1| | |]; try discriminate.
  - intros H. right. eauto.
  - intros [= -> ->]. left. reflexivity.
Qed.

(** Under LRU and MRU [StrategyGetBuffer] never fails with "no unpinned
    buffers available", whatever the state. *)
Lemma LRU_MRU_never_NoUnpinnedBuffers fuel strategy s s' :
  BufferReplacementPolicy s = POLICY_LRU \/
  BufferReplacementPolicy s = POLICY_MRU ->
  StrategyGetBuffer fuel strategy s <> Elog NoUnpinnedBuffers s'.
Proof.
  intros Hpol.
  assert (Hglobal : forall strategy s,
    BufferReplacementPolicy s = POLICY_LRU \/
    BufferReplacementPolicy s = POLICY_MRU ->
    StrategyGetBuffer_global fuel strategy s <> Elog NoUnpinnedBuffers s').
  { clear. intros strategy s Hpol H. unfold StrategyGetBuffer_global in H.
    apply bind_Elog_inv in H as [H|(? & s1 & Hc & H)].
    { revert H. assert (Hn : never_raises NoUnpinnedBuffers count_allocation)
        by repeat never_raises_step. apply Hn. }
    apply bind_Elog_inv in H as [H|(r & s2 & Hf & H)].
    { revert H. apply freelist_loop_never_raises. }
    destruct r as [[buf0 st0]|]; [discriminate|].
    assert (Hp : BufferReplacementPolicy s2 = BufferReplacementPolicy s).
    { assert (H1 : same_queues s s1)
        by (eapply count_allocation_keeps_queues; rewrite Hc; reflexivity).
      assert (H2 : same_queues s1 s2)
        by (eapply freelist_loop_keeps_queues; rewrite Hf; reflexivity).
      destruct H1 as (H1 & _), H2 as (H2 & _). congruence. }
    unfold select_victim in H.
    rewrite (bind_Ret get_policy _ s2 (BufferReplacementPolicy s2) s2 eq_refl)
      in H.
    rewrite Hp in H.
    destruct Hpol as [Hpol|Hpol]; rewrite Hpol in H; revert H;
      apply queue_select_never_raises. }
  intros H. destruct strategy as [st|]; [|eapply Hglobal; eauto].
  unfold StrategyGetBuffer in H.
  apply bind_Elog_inv in H as [H|([p st1] & s1 & Hring & H)].
  { revert H. assert (Hn : never_raises NoUnpinnedBuffers (GetBufferFromRing st))
      by repeat never_raises_step. apply Hn. }
  cbn [fst snd] in H. destruct p; [discriminate|].
  eapply Hglobal; [|exact H].
  assert (Hs : same_queues s s1)
    by (eapply GetBufferFromRing_keeps_queues; rewrite Hring; reflexivity).
  destruct Hs as (-> & _). exact Hpol.
Qed.

(** ** The clock sweep over pinned frames *)

Lemma toggle_lock (bufs : list BufferDesc) (i : nat) b :
  bufs !! i = Some b -> buf_hdr_lock b = false ->
  alter (set_buf_hdr_lock false) i (alter (set_buf_hdr_lock true) i bufs) = bufs.
Proof.
  intros Hb Hl. apply list_eq. intros j.
  destruct (decide (i = j)) as [->|Hne].
  - rewrite !list_lookup_alter_eq, Hb. cbn. f_equal.
    destruct b. cbn in *. subst. reflexivity.
  - rewrite !list_lookup_alter_ne by exact Hne. reflexivity.
Qed.

Lemma clock_advance_hand_in_range s :
  hand_in_range s -> hand_in_range (clock_advance s).
Proof.
  unfold hand_in_range, clock_advance, NBuffers. cbn. intros H.
  destruct (Z.leb_spec (Z.of_nat (length (BufferDescriptors s)))
              (nextVictimBuffer (StrategyControl s) + 1)); cbn; lia.
Qed.

(** One step of the sweep on a pinned frame: the hand advances and nothing
    else changes. *)
Lemma clock_sweep_pinned_step fuel strategy trycounter s :
  hand_in_range s -> pinned_and_unlocked s ->
  clock_sweep (S fuel) strategy trycounter s
  = if trycounter - 1 =? 0 then Elog NoUnpinnedBuffers (clock_advance s)
    else clock_sweep fuel strategy (trycounter - 1) (clock_advance s).
Proof.
  intros Hhand Hpin. cbn [clock_sweep].
  rewrite (bind_Ret get_control _ s (StrategyControl s) s eq_refl).
  set (h := nextVictimBuffer (StrategyControl s)) in *.
  assert (Hv : valid_frame s (Z.to_nat h)).
  { unfold valid_frame, hand_in_range, NBuffers in *. lia. }
  destruct (lookup_lt_is_Some_2 _ _ Hv) as [b Hb].
  destruct (Hpin _ _ Hb) as [Hr Hl].
  assert (Haddr : desc_addr h s = Ret (Some (Z.to_nat h)) s).
  { unfold desc_addr, hand_in_range in *.
    destruct (Z.leb_spec 0 h); [|lia].
    destruct (Z.ltb_spec h (NBuffers s)); [|lia]. reflexivity. }
  rewrite (bind_Ret _ _ _ _ _ Haddr).
  rewrite (bind_Ret get_NBuffers _ s (NBuffers s) s eq_refl).
  assert (Hadv : (if NBuffers s <=? h + 1
                  then modify_control (set_nextVictimBuffer 0) ;;
                       modify_control
                         (fun c => set_completePasses
                                     (uint32_incr (completePasses c)) c)
                  else modify_control (set_nextVictimBuffer (h + 1))) s
                 = Ret tt (clock_advance s)).
  { unfold clock_advance. fold h. destruct (NBuffers s <=? h + 1); reflexivity. }
  rewrite (bind_Ret _ _ _ _ _ Hadv).
  assert (Hb1 : BufferDescriptors (clock_advance s) !! Z.to_nat h = Some b)
    by exact Hb.
  assert (Hlock : LockBufHdr (Some (Z.to_nat h)) (clock_advance s)
                  = Ret tt (update_frame (Z.to_nat h) (set_buf_hdr_lock true)
                              (clock_advance s))).
  { unfold LockBufHdr. rewrite (bind_Ret _ _ _ _ _ (deref_Some _ _ _ Hb1)).
    rewrite Hl. apply store_Some. exact Hv. }
  rewrite (bind_Ret _ _ _ _ _ Hlock).
  erewrite (bind_Ret (deref _)).
  2:{ apply deref_Some. cbn. rewrite list_lookup_alter_eq, Hb. reflexivity. }
  cbn [refcount set_buf_hdr_lock].
  apply Z.eqb_neq in Hr. rewrite Hr.
  assert (Hunlock : UnlockBufHdr (Some (Z.to_nat h))
                      (update_frame (Z.to_nat h) (set_buf_hdr_lock true)
                         (clock_advance s))
                    = Ret tt (clock_advance s)).
  { unfold UnlockBufHdr. rewrite store_Some.
    2:{ unfold valid_frame. cbn. rewrite length_alter. exact Hv. }
    unfold update_frame. cbn [BufferDescriptors BufferReplacementPolicy
                              StrategyControl latches_set].
    rewrite (toggle_lock _ _ b Hb1 Hl). reflexivity. }
  destruct (trycounter - 1 =? 0); rewrite (bind_Ret _ _ _ _ _ Hunlock);
    reflexivity.
Qed.

Lemma clock_sweep_all_pinned k fuel strategy s :
  hand_in_range s -> pinned_and_unlocked s -> (k <= fuel)%nat ->
  clock_sweep (S fuel) strategy (Z.of_nat (S k)) s
  = Elog NoUnpinnedBuffers (clock_advance_n (S k) s).
Proof.
  revert fuel s. induction k as [|k IH]; intros fuel s Hhand Hpin Hfuel.
  - rewrite clock_sweep_pinned_step by assumption. reflexivity.
  - rewrite clock_sweep_pinned_step by assumption.
    destruct (Z.eqb_spec (Z.of_nat (S (S k)) - 1) 0); [lia|].
    destruct fuel as [|fuel]; [lia|].
    replace (Z.of_nat (S (S k)) - 1) with (Z.of_nat (S k)) by lia.
    rewrite IH; [reflexivity| | |lia].
    + apply clock_advance_hand_in_range, Hhand.
    + exact Hpin.
Qed.

Lemma clock_advance_n_frames k s :
  BufferDescriptors (clock_advance_n k s) = BufferDescriptors s /\
  same_queues s (clock_advance_n k s) /\
  numBufferAllocs (StrategyControl (clock_advance_n k s))
  = numBufferAllocs (StrategyControl s).
Proof.
  revert s. induction k as [|k IH]; intros s.
  - split; [reflexivity|]. split; [apply same_queues_refl|reflexivity].
  - cbn [clock_advance_n]. destruct (IH (clock_advance s)) as (H1 & H2 & H3).
    assert (Hadv : same_queues s (clock_advance s) /\
                   numBufferAllocs (StrategyControl (clock_advance s))
                   = numBufferAllocs (StrategyControl s)).
    { unfold clock_advance.
      destruct (NBuffers s <=? nextVictimBuffer (StrategyControl s) + 1);
        repeat split. }
    split; [rewrite H1; reflexivity|].
    split; [eapply same_queues_trans; [apply Hadv|exact H2]|].
    rewrite H3. apply Hadv.
Qed.

(** A full cycle brings the hand back and completes one pass. *)
Lemma clock_advance_full_cycle k s :
  hand_in_range s ->
  nextVictimBuffer (StrategyControl s) + Z.of_nat k <= NBuffers s ->
  let s' := clock_advance_n k s in
  NBuffers s' = NBuffers s /\
  (nextVictimBuffer (StrategyControl s) + Z.of_nat k < NBuffers s ->
   nextVictimBuffer (StrategyControl s')
   = nextVictimBuffer (StrategyControl s) + Z.of_nat k /\
   completePasses (StrategyControl s') = completePasses (StrategyControl s)) /\
  (nextVictimBuffer (StrategyControl s) + Z.of_nat k = NBuffers s ->
   (0 < k)%nat ->
   nextVictimBuffer (StrategyControl s') = 0 /\
   completePasses (StrategyControl s')
   = uint32_incr (completePasses (StrategyControl s))).
Proof.
  revert s. induction k as [|k IH]; intros s Hhand Hk; cbv zeta.
  - cbn [clock_advance_n]. split; [reflexivity|]. split; [intros; lia|].
    intros _ H. lia.
  - cbn [clock_advance_n].
    assert (HN : NBuffers (clock_advance s) = NBuffers s) by reflexivity.
    destruct (Z.leb_spec (NBuffers s)
                (nextVictimBuffer (StrategyControl s) + 1)) as [Hw|Hw].
    + (* the hand wraps now: this was the last step *)
      assert (k = 0%nat) by lia. subst k. cbn [clock_advance_n].
      split; [exact HN|]. split; [intros; lia|]. intros _ _.
      unfold clock_advance.
      destruct (Z.leb_spec (NBuffers s)
                  (nextVictimBuffer (StrategyControl s) + 1)); [|lia].
      split; reflexivity.
    + assert (Hh1 : nextVictimBuffer (StrategyControl (clock_advance s))
                    = nextVictimBuffer (StrategyControl s) + 1 /\
                    completePasses (StrategyControl (clock_advance s))
                    = completePasses (StrategyControl s)).
      { unfold clock_advance.
        destruct (Z.leb_spec (NBuffers s)
                    (nextVictimBuffer (StrategyControl s) + 1)); [lia|].
        split; reflexivity. }
      destruct Hh1 as [Hh1 Hp1].
      destruct (IH (clock_advance s)) as (IH1 & IH2 & IH3).
      { apply clock_advance_hand_in_range, Hhand. }
      { rewrite Hh1, HN. lia. }
      rewrite HN, Hh1, Hp1 in *.
      split; [exact IH1|]. split.
      * intros Hlt. destruct IH2 as [-> ->]; [lia|]. split; [lia|reflexivity].
      * intros Heq _. apply IH3; lia.
Qed.

Lemma clock_advance_n_add k1 k2 s :
  clock_advance_n (k1 + k2) s = clock_advance_n k2 (clock_advance_n k1 s).
Proof.
  revert s. induction k1 as [|k1 IH]; intros s; [reflexivity|].
  cbn [Nat.add clock_advance_n]. apply IH.
Qed.

Lemma clock_advance_n_hand_in_range k s :
  hand_in_range s -> hand_in_range (clock_advance_n k s).
Proof.
  revert s. induction k as [|k IH]; intros s H; [exact H|].
  cbn [clock_advance_n]. apply IH, clock_advance_hand_in_range, H.
Qed.

(** [NBuffers] steps bring the hand back to where it was, with one more
    completed pass. *)
Lemma clock_advance_whole_cycle s :
  hand_in_range s ->
  let s' := clock_advance_n (length (BufferDescriptors s)) s in
  nextVictimBuffer (StrategyControl s') = nextVictimBuffer (StrategyControl s) /\
  completePasses (StrategyControl s')
  = uint32_incr (completePasses (StrategyControl s)).
Proof.
  intros Hhand. cbv zeta.
  set (h := nextVictimBuffer (StrategyControl s)).
  set (k1 := Z.to_nat (NBuffers s - h)). set (k2 := Z.to_nat h).
  assert (Hr : 0 <= h < NBuffers s) by exact Hhand.
  assert (Hsplit : length (BufferDescriptors s) = (k1 + k2)%nat).
  { unfold k1, k2, NBuffers in *. lia. }
  rewrite Hsplit, clock_advance_n_add.
  destruct (clock_advance_full_cycle k1 s Hhand) as (HN & _ & Hwrap).
  { fold h. unfold k1. lia. }
  destruct Hwrap as [Hh1 Hp1]; [fold h; unfold k1; lia|unfold k1; lia|].
  set (s1 := clock_advance_n k1 s) in *.
  destruct (clock_advance_full_cycle k2 s1) as (_ & Hmove & _).
  { apply clock_advance_n_hand_in_range, Hhand. }
  { rewrite Hh1, HN. unfold k2. lia. }
  destruct Hmove as [Hh2 Hp2]; [rewrite Hh1, HN; unfold k2; lia|].
  rewrite Hh2, Hp2, Hh1, Hp1. unfold k2. split; [lia|reflexivity].
Qed.

(** X23.  CLOCK with an empty freelist and every frame pinned, no header
    lock being held: after exactly [NBuffers] pinned frames, none of which
    it changes, the sweep fails with "no unpinned buffers available"; the
    hand is back where it started and [completePasses] has been incremented
    once. *)
Lemma CLOCK_all_pinned_raises fuel s :
  BufferReplacementPolicy s = POLICY_CLOCK ->
  firstFreeBuffer (StrategyControl s) < 0 ->
  hand_in_range s -> pinned_and_unlocked s ->
  (length (BufferDescriptors s) <= fuel)%nat ->
  exists s',
    StrategyGetBuffer fuel None s = Elog NoUnpinnedBuffers s' /\
    BufferDescriptors s' = BufferDescriptors s /\
    nextVictimBuffer (StrategyControl s') = nextVictimBuffer (StrategyControl s) /\
    completePasses (StrategyControl s')
    = uint32_incr (completePasses (StrategyControl s)).
Proof.
  intros Hpol Hfree Hhand Hpin Hfuel.
  assert (Hn : (0 < length (BufferDescriptors s))%nat).
  { unfold hand_in_range, NBuffers in Hhand. lia. }
  destruct fuel as [|fuel]; [lia|].
  rewrite StrategyGetBuffer_empty_freelist by exact Hfree.
  assert (Hfr : BufferDescriptors (counted s) = BufferDescriptors s)
    by apply counted_frames.
  assert (Hhand' : hand_in_range (counted s)).
  { unfold hand_in_range, NBuffers in *. rewrite Hfr.
    unfold counted. destruct (bgwriterLatch (StrategyControl s)); exact Hhand. }
  assert (Hpin' : pinned_and_unlocked (counted s)).
  { intros i b Hb. rewrite Hfr in Hb. apply Hpin in Hb. exact Hb. }
  unfold select_victim.
  rewrite (bind_Ret get_policy _ _ _ _ eq_refl), counted_policy, Hpol.
  unfold clock_select.
  rewrite (bind_Ret get_NBuffers _ _ _ _ eq_refl).
  destruct (length (BufferDescriptors s)) as [|k] eqn:Hlen; [lia|].
  assert (HN : NBuffers (counted s) = Z.of_nat (S k)).
  { unfold NBuffers. rewrite Hfr, Hlen. reflexivity. }
  rewrite HN. unfold bind at 1.
  rewrite (clock_sweep_all_pinned k fuel None (counted s) Hhand' Hpin')
    by lia.
  eexists. split; [reflexivity|].
  destruct (clock_advance_n_frames (S k) (counted s)) as (Hf & _).
  split; [rewrite Hf; exact Hfr|].
  pose proof (clock_advance_whole_cycle (counted s) Hhand') as Hc.
  cbv zeta in Hc. rewrite Hfr, Hlen in Hc. destruct Hc as [Hc1 Hc2].
  rewrite Hc1, Hc2. unfold counted.
  destruct (bgwriterLatch (StrategyControl s)); split; reflexivity.
Qed.

(** 2Q with an empty freelist, well-formed queues and every frame of the
    scanned queue pinned. *)
Lemma twoq_all_pinned_raises fuel s am a1 :
  BufferReplacementPolicy s = POLICY_2Q ->
  firstFreeBuffer (StrategyControl s) < 0 ->
  queues_are s am a1 ->
  (forall i, valid_frame s i -> pinned s i) ->
  (length am + length a1 < fuel)%nat ->
  StrategyGetBuffer fuel None s = Elog NoUnpinnedBuffers (counted s).
Proof.
  intros Hpol Hfree Hq Hpin Hfuel. destruct fuel as [|fuel]; [lia|].
  rewrite StrategyGetBuffer_empty_freelist by exact Hfree.
  rewrite select_victim_2Q by (rewrite counted_policy; exact Hpol).
  pose proof (queues_are_same_queues _ _ _ _ (same_queues_counted s) Hq) as Hq'.
  destruct (twoq_victim_none (S fuel) None (counted s) am a1 Hq')
    as [[Hf _]|Hrun]; [|lia|exact Hrun].
  intros i Hi.
  destruct (queues_are_contents _ _ _ (twoq_choice (counted s) am a1) Hq')
    as (Hq1 & _).
  pose proof (queue_is_valid _ _ _ i Hq1 Hi) as Hv.
  unfold valid_frame in Hv. rewrite counted_frames in Hv.
  destruct (Hpin i Hv) as (b & Hb & Hr). exists b.
  rewrite counted_frames. auto.
Qed.

(** ** The head of the freelist in reachable states *)

Lemma keeps_free_inv_refl s : keeps_free_inv s s.
Proof. intros H. exact H. Qed.

Lemma keeps_free_inv_trans s1 s2 s3 :
  keeps_free_inv s1 s2 -> keeps_free_inv s2 s3 -> keeps_free_inv s1 s3.
Proof. unfold keeps_free_inv. auto. Qed.

Lemma free_inv_update_frame f s i :
  (forall b, buf_id (f b) = buf_id b /\
             (freeNext (f b) = freeNext b \/
              freeNext (f b) = FREENEXT_NOT_IN_LIST)) ->
  keeps_free_inv s (update_frame i f s).
Proof.
  intros Hf [H1 H2]. split; [exact H1|]. intros j b' Hb'. cbn in Hb'.
  rewrite list_lookup_alter in Hb'. case_decide.
  - subst. destruct (BufferDescriptors s !! j) as [b|] eqn:Hb; [|discriminate].
    injection Hb' as <-. destruct (H2 j b Hb) as [Hn Hid].
    destruct (Hf b) as [-> [-> | ->]]; split; auto. reflexivity.
  - eauto.
Qed.

Lemma free_inv_control f s :
  (forall c, firstFreeBuffer (f c) = firstFreeBuffer c) ->
  keeps_free_inv s (mkState (BufferReplacementPolicy s) (BufferDescriptors s)
                            (f (StrategyControl s)) (latches_set s)).
Proof. intros Hf [H1 H2]. split; [cbn; rewrite Hf; exact H1|exact H2]. Qed.

Ltac keeps_free_step :=
  first
    [ apply keeps_ret; exact keeps_free_inv_refl
    | apply keeps_elog; exact keeps_free_inv_refl
    | apply keeps_fault
    | apply keeps_out_of_fuel
    | apply keeps_stuck
    | apply keeps_get_control; exact keeps_free_inv_refl
    | apply keeps_get_policy; exact keeps_free_inv_refl
    | apply keeps_get_NBuffers; exact keeps_free_inv_refl
    | apply keeps_desc_addr; exact keeps_free_inv_refl
    | apply keeps_deref; exact keeps_free_inv_refl
    | apply keeps_Assert; exact keeps_free_inv_refl
    | apply keeps_store; intros; apply free_inv_update_frame;
      intros; split; [reflexivity|first [left; reflexivity|right; reflexivity]]
    | apply keeps_modify_control; intros; apply free_inv_control;
      intros; destruct_queue_setter; reflexivity
    | apply keeps_SetLatch; intros ? H; exact H
    | apply (keeps_bind _ keeps_free_inv_trans); [|intros ?]
    | match goal with
      | |- keeps _ (if ?b then _ else _) => destruct b
      | |- keeps _ (match ?x with _ => _ end) => destruct x
      end
    | progress unfold LockBufHdr, UnlockBufHdr, AddBufferToRing,
        GetBufferFromRing, count_allocation, queue_walk_result, return_result,
        unlink_victim, twoq_scan_result, clock_select, queue_select ]
with destruct_queue_setter :=
  try match goal with
      | |- context [set_queue_head ?q] => destruct q
      | |- context [set_queue_tail ?q] => destruct q
      end.

(** The loop over the freelist: the new head is the [freeNext] of the old
    head, which the [Assert] has seen to be in the list. *)
Lemma freelist_loop_keeps_free_inv fuel strategy :
  keeps keeps_free_inv (freelist_loop fuel strategy).
Proof.
  induction fuel as [|fuel IH]; [apply keeps_out_of_fuel|].
  intros s s' Hfin Hinv. cbn [freelist_loop] in Hfin.
  rewrite (bind_Ret get_control _ s (StrategyControl s) s eq_refl) in Hfin.
  destruct (0 <=? firstFreeBuffer (StrategyControl s)).
  2:{ injection Hfin as <-. exact Hinv. }
  apply final_state_bind in Hfin as [(buf & s1 & Ha & Hfin)|(e & Ha)].
  2:{ exfalso. eapply never_raises_desc_addr, Ha. }
  apply desc_addr_inv in Ha as (-> & -> & _).
  apply final_state_bind in Hfin as [(b & s1 & Hd & Hfin)|(e & Hd)].
  2:{ exfalso. eapply never_raises_deref, Hd. }
  apply deref_inv in Hd as (-> & i & [= <-] & Hb).
  destruct (Z.eqb_spec (freeNext b) FREENEXT_NOT_IN_LIST) as [|Hne];
    [discriminate Hfin|].
  cbn [negb Assert] in Hfin.
  rewrite (bind_Ret _ _ _ _ _ (eq_refl : ret tt s = Ret tt s)) in Hfin.
  rewrite (bind_Ret (modify_control _) _ _ _ _ eq_refl) in Hfin.
  revert Hfin.
  match goal with
  | |- final_state (?m ?s1) = Some _ -> _ =>
      assert (Hk : keeps keeps_free_inv m);
      [|intros Hfin; apply (Hk s1 s' Hfin)]
  end.
  - repeat first [apply IH | keeps_free_step].
  - destruct Hinv as [H1 H2]. split; [|exact H2]. cbn.
    destruct (H2 _ _ Hb) as [Hn _]. unfold FREENEXT_NOT_IN_LIST in *. lia.
Qed.

Ltac keeps_free_loops :=
  repeat first [ apply freelist_loop_keeps_free_inv | keeps_free_step ].

Lemma clock_sweep_keeps_free_inv fuel strategy trycounter :
  keeps keeps_free_inv (clock_sweep fuel strategy trycounter).
Proof.
  revert trycounter. induction fuel as [|fuel IH]; intros trycounter;
    cbn [clock_sweep]; repeat first [apply IH | keeps_free_step].
Qed.

Lemma queue_walk_keeps_free_inv fuel link buf :
  keeps keeps_free_inv (queue_walk fuel link buf).
Proof.
  revert buf. induction fuel as [|fuel IH]; intros buf;
    cbn [queue_walk]; repeat first [apply IH | keeps_free_step].
Qed.

Lemma a1_size_keeps_free_inv fuel head acc :
  keeps keeps_free_inv (a1_size fuel head acc).
Proof.
  revert head acc. induction fuel as [|fuel IH]; intros head acc;
    cbn [a1_size]; repeat first [apply IH | keeps_free_step].
Qed.

Lemma twoq_scan_keeps_free_inv fuel q buf :
  keeps keeps_free_inv (twoq_scan fuel q buf).
Proof.
  revert buf. induction fuel as [|fuel IH]; intros buf;
    cbn [twoq_scan]; repeat first [apply IH | keeps_free_step].
Qed.

Lemma queue_member_keeps_free_inv fuel head buf :
  keeps keeps_free_inv (queue_member fuel head buf).
Proof.
  revert head. induction fuel as [|fuel IH]; intros head;
    cbn [queue_member]; repeat first [apply IH | keeps_free_step].
Qed.

Lemma StrategyGetBuffer_keeps_free_inv fuel strategy :
  keeps keeps_free_inv (StrategyGetBuffer fuel strategy).
Proof.
  unfold StrategyGetBuffer, StrategyGetBuffer_global, select_victim,
    twoq_victim, twoq_select.
  repeat first [ apply freelist_loop_keeps_free_inv
               | apply clock_sweep_keeps_free_inv
               | apply queue_walk_keeps_free_inv
               | apply a1_size_keeps_free_inv
               | apply twoq_scan_keeps_free_inv | keeps_free_step ].
Qed.

Lemma BufferUnpinned_keeps_free_inv fuel acquired bufIndex :
  keeps keeps_free_inv (BufferUnpinned fuel acquired bufIndex).
Proof.
  unfold BufferUnpinned, unpinned_in_AM, unpinned_in_A1, unpinned_new_2Q,
    unpinned_other, append_to_AM.
  repeat first [ apply queue_member_keeps_free_inv | keeps_free_step ].
Qed.

Lemma StrategyFreeBuffer_keeps_free_inv buf :
  keeps keeps_free_inv (StrategyFreeBuffer buf).
Proof.
  intros s s' Hfin Hinv. destruct buf as [i|]; [|discriminate].
  destruct (BufferDescriptors s !! i) as [b|] eqn:Hb.
  2:{ unfold StrategyFreeBuffer, bind, deref in Hfin. rewrite Hb in Hfin.
      discriminate. }
  rewrite (StrategyFreeBuffer_run s i b Hb) in Hfin. injection Hfin as <-.
  unfold free_buffer_state.
  destruct (freeNext b =? FREENEXT_NOT_IN_LIST); [|exact Hinv].
  destruct Hinv as [H1 H2]. destruct (H2 i b Hb) as [_ Hid]. split.
  - cbn. lia.
  - intros j b' Hb'. cbn in Hb'. rewrite list_lookup_alter in Hb'.
    case_decide; [|eauto]. subst. rewrite Hb in Hb'. injection Hb' as <-.
    cbn. unfold FREENEXT_NOT_IN_LIST. split; [lia|exact Hid].
Qed.

Lemma free_inv_init pol n : free_inv (initial_state pol n).
Proof.
  assert (H : initial_state pol n
              = mkState pol (BufferDescriptors (InitBufferPool pol n))
                  (mkControl 0 0 (Z.of_nat n - 1) 0 0 None None None None None)
                  []).
  { unfold initial_state, StrategyInitialize, InitBufferPool, bind, Assert,
      ret, get_NBuffers, modify_control, NBuffers. cbn.
    rewrite length_map, length_seq. reflexivity. }
  rewrite H. split; [cbn; lia|]. intros i b Hb. cbn in Hb.
  assert (Hmap : forall (f : nat -> BufferDesc) l, map f l = f <$> l).
  { intros f l. induction l as [|a l IHl]; cbn; congruence. }
  rewrite Hmap, list_lookup_fmap in Hb.
  destruct (seq 0 n !! i) as [j|]; [|discriminate]. injection Hb as <-.
  cbn [freeNext buf_id]. unfold FREENEXT_NOT_IN_LIST.
  match goal with |- _ <= (if ?c then _ else _) /\ _ => destruct c end; lia.
Qed.

Lemma reachable_free_inv pol n (s : State) : reachable pol n s -> free_inv s.
Proof.
  induction 1 as [|s s' _ IH Hstep]; [apply free_inv_init|].
  destruct Hstep as [init s' H|fuel strategy s' H|buf s' H
                    |fuel acquired bufIndex s' H|i refs usage lock].
  - apply StrategyInitialize_found in H. subst. exact IH.
  - exact (StrategyGetBuffer_keeps_free_inv _ _ _ _ H IH).
  - exact (StrategyFreeBuffer_keeps_free_inv _ _ _ H IH).
  - exact (BufferUnpinned_keeps_free_inv _ _ _ _ _ H IH).
  - revert IH. apply free_inv_update_frame. intros b. split; [reflexivity|].
    left. reflexivity.
Qed.

(** In a reachable state the head of the freelist is never the
    [FREENEXT_NOT_IN_LIST] sentinel. *)
Lemma reachable_freelist_head pol n (s : State) :
  reachable pol n s ->
  firstFreeBuffer (StrategyControl s) <> FREENEXT_NOT_IN_LIST.
Proof.
  intros H. destruct (reachable_free_inv pol n s H) as [H1 _].
  unfold FREENEXT_NOT_IN_LIST. lia.
Qed.

(** ** The unpin hook under CLOCK, LRU and MRU, away from the sole element *)

Lemma BufferUnpinned_single_queue fuel (s : State) x b :
  single_queue_policy (BufferReplacementPolicy s) ->
  BufferDescriptors s !! x = Some b ->
  BufferUnpinned fuel true (Z.of_nat x) s
  = unpinned_other (firstUnpinned (StrategyControl s))
      (lastUnpinned (StrategyControl s)) (previous b) (next b) (Some x) s.
Proof.
  intros Hpol Hb.
  assert (Hx : valid_frame s x) by (eapply lookup_lt_Some, Hb).
  unfold BufferUnpinned.
  rewrite (bind_Ret _ _ _ _ _ (desc_addr_frame s x Hx)).
  rewrite (bind_Ret get_control _ s (StrategyControl s) s eq_refl).
  rewrite (bind_Ret _ _ _ _ _ (deref_Some s x b Hb)).
  cbn [negb].
  rewrite (bind_Ret get_policy _ s (BufferReplacementPolicy s) s eq_refl).
  destruct Hpol as [->|[->| ->]]; reflexivity.
Qed.

(** A frame of the main queue that is not its tail moves to the tail. *)
Lemma unpinned_other_moves (s : State) l1 x c l2 b :
  queue_is s QAM (l1 ++ x :: c :: l2) ->
  BufferDescriptors s !! x = Some b ->
  unpinned_other (firstUnpinned (StrategyControl s))
    (lastUnpinned (StrategyControl s)) (previous b) (next b) (Some x) s
  = Ret tt (moved_to_tail x b s).
Proof.
  intros Hq Hb.
  assert (Hin : x ∈ l1 ++ x :: c :: l2) by (apply elem_of_app; right; left).
  destruct (queue_is_links_valid _ _ _ _ _ Hq Hin Hb) as [Hp Hn].
  destruct (queue_is_ends_valid _ _ _ Hq) as [_ Ht]. cbn in Ht.
  assert (Hx : valid_frame s x) by (eapply lookup_lt_Some, Hb).
  pose proof Hq as (_ & Htl & Hs & _). cbn in Htl.
  destruct (seg_middle _ _ _ _ _ _ Hs) as (b' & Hb' & _ & Hnx).
  assert (b' = b) by congruence. subst b'. cbn in Hnx.
  assert (Hlast : is_null (lastUnpinned (StrategyControl s)) = false).
  { rewrite Htl, is_null_last_ptr. destruct l1; reflexivity. }
  unfold unpinned_other, moved_to_tail, attach, bypass.
  destruct (lastUnpinned (StrategyControl s)) as [t|]; [|discriminate].
  rewrite Hnx in *.
  destruct (previous b) as [p|]; repeat run_store; reflexivity.
Qed.

(** The tail of a main queue of two frames or more stays where it is. *)
Lemma unpinned_other_tail (s : State) l1 a x b :
  queue_is s QAM ((l1 ++ [a]) ++ [x]) ->
  BufferDescriptors s !! x = Some b ->
  unpinned_other (firstUnpinned (StrategyControl s))
    (lastUnpinned (StrategyControl s)) (previous b) (next b) (Some x) s
  = Ret tt s.
Proof.
  intros (_ & _ & Hs & _) Hb.
  destruct (seg_middle _ _ _ _ _ _ Hs) as (b' & Hb' & Hp & Hn).
  assert (b' = b) by congruence. subst b'.
  rewrite last_ptr_snoc in Hp. cbn in Hn.
  unfold unpinned_other. rewrite Hp, Hn. reflexivity.
Qed.

(** A frame with nil links that is not in the main queue becomes its tail. *)
Lemma unpinned_other_appends (s : State) am x b :
  queue_is s QAM am -> x ∉ am ->
  BufferDescriptors s !! x = Some b ->
  next b = None -> previous b = None ->
  unpinned_other (firstUnpinned (StrategyControl s))
    (lastUnpinned (StrategyControl s)) (previous b) (next b) (Some x) s
  = Ret tt (appended_main x s).
Proof.
  intros Hq Hx Hb Hn Hp.
  destruct (queue_is_ends_valid _ _ _ Hq) as [_ Ht]. cbn in Ht.
  assert (Hv : valid_frame s x) by (eapply lookup_lt_Some, Hb).
  pose proof Hq as (Hh & Htl & _). cbn in Hh, Htl.
  assert (Hnull : is_null (firstUnpinned (StrategyControl s))
                  = is_null (lastUnpinned (StrategyControl s))).
  { rewrite Hh, Htl, is_null_hd_ptr, is_null_last_ptr. reflexivity. }
  assert (Hne : forall t, lastUnpinned (StrategyControl s) = Some t -> t <> x).
  { intros t Et ->. apply Hx. apply last_ptr_elem_of. congruence. }
  unfold unpinned_other, appended_main, attach. rewrite Hn, Hp, Hnull.
  destruct (lastUnpinned (StrategyControl s)) as [t|]; cbn [is_null];
    repeat run_store; [|reflexivity].
  unfold modify_control, update_frame.
  cbn [BufferDescriptors BufferReplacementPolicy StrategyControl latches_set].
  rewrite !(list_alter_alter_ne _ _ _ t x) by (apply Hne; reflexivity).
  reflexivity.
Qed.

Lemma appended_main_queue (s : State) am x :
  queue_is s QAM am -> valid_frame s x -> x ∉ am ->
  queue_is (appended_main x s) QAM (am ++ [x]).
Proof.
  intros (Hh & Ht & Hs & Hnd) Hv Hx.
  cbn [queue_head queue_tail] in *.
  unfold queue_is, appended_main.
  cbn [BufferDescriptors StrategyControl queue_head queue_tail].
  split; [|split; [|split]].
  - rewrite Hh, is_null_hd_ptr.
    destruct am as [|a am]; [reflexivity|]. cbn. exact Hh.
  - rewrite last_ptr_snoc. destruct (is_null _); reflexivity.
  - rewrite Ht. apply seg_attach; auto. apply lookup_lt_is_Some. exact Hv.
  - apply NoDup_snoc_fresh; assumption.
Qed.

(** X24.  What the hook does keep well formed under CLOCK, LRU and MRU, on
    a well-formed main queue: every case except the one where the frame is
    the only element of the queue.  A frame of the queue moves to its tail
    (the tail itself stays where it is), the other frames keeping their
    order; a frame with nil links that is not in the queue is appended at
    the tail. *)
Lemma BufferUnpinned_single_queue_well_formed fuel (s : State) am x b :
  single_queue_policy (BufferReplacementPolicy s) ->
  queue_is s QAM am ->
  BufferDescriptors s !! x = Some b ->
  (x ∈ am -> am <> [x] ->
   exists s', BufferUnpinned fuel true (Z.of_nat x) s = Ret tt s' /\
              queue_is s' QAM (without x am ++ [x])) /\
  (x ∉ am -> next b = None -> previous b = None ->
   exists s', BufferUnpinned fuel true (Z.of_nat x) s = Ret tt s' /\
              queue_is s' QAM (am ++ [x])).
Proof.
  intros Hpol Hq Hb. rewrite (BufferUnpinned_single_queue fuel s x b Hpol Hb).
  split.
  - intros Hin Hsole. apply list_elem_of_split in Hin as (l1 & l2 & ->).
    rewrite without_middle by apply Hq.
    destruct l2 as [|c l2].
    + rewrite app_nil_r.
      destruct l1 as [|a l1 _] using rev_ind; [contradiction|].
      exists s. split; [|exact Hq].
      apply (unpinned_other_tail s l1 a x b Hq Hb).
    + exists (moved_to_tail x b s). split.
      * apply (unpinned_other_moves s l1 x c l2 b Hq Hb).
      * apply moved_to_tail_main; assumption.
  - intros Hout Hn Hp. exists (appended_main x s). split.
    + apply unpinned_other_appends with (am := am); assumption.
    + apply appended_main_queue; auto. eapply lookup_lt_Some, Hb.
Qed.

(** ** The scenario states are reachable *)

Section ReachableScenarios.
Variables (pol : PolicyKind) (n : nat).

Lemma reachable_exec_GetBuffer fuel strategy s :
  reachable pol n s -> reachable pol n (exec (StrategyGetBuffer fuel strategy) s).
Proof.
  intros H. unfold exec.
  destruct (final_state (StrategyGetBuffer fuel strategy s)) as [s'|] eqn:E;
    [|exact H].
  eapply reachable_step; [exact H|]. eapply step_GetBuffer, E.
Qed.

Lemma reachable_exec_FreeBuffer buf s :
  reachable pol n s -> reachable pol n (exec (StrategyFreeBuffer buf) s).
Proof.
  intros H. unfold exec.
  destruct (final_state (StrategyFreeBuffer buf s)) as [s'|] eqn:E; [|exact H].
  eapply reachable_step; [exact H|]. eapply step_FreeBuffer, E.
Qed.

Lemma reachable_exec_BufferUnpinned fuel acquired i s :
  reachable pol n s ->
  reachable pol n (exec (BufferUnpinned fuel acquired i) s).
Proof.
  intros H. unfold exec.
  destruct (final_state (BufferUnpinned fuel acquired i s)) as [s'|] eqn:E;
    [|exact H].
  eapply reachable_step; [exact H|]. eapply step_OnUnpinned, E.
Qed.

Lemma reachable_pin i s : reachable pol n s -> reachable pol n (pin i s).
Proof. intros H. eapply reachable_step; [exact H|]. apply step_pin_manager. Qed.

Lemma reachable_drop_pin i s :
  reachable pol n s -> reachable pol n (drop_pin i s).
Proof.
  intros H. unfold drop_pin.
  destruct (BufferDescriptors s !! i) as [b|] eqn:Hb.
  - replace (update_frame i
               (fun b => pin_manager_update 0 (usage_count b) false b) s)
      with (update_frame i (pin_manager_update 0 (usage_count b) false) s).
    + eapply reachable_step; [exact H|]. apply step_pin_manager.
    + unfold update_frame. f_equal. apply list_eq. intros j.
      rewrite !list_lookup_alter. case_decide; [|reflexivity].
      subst. rewrite Hb. reflexivity.
  - replace (update_frame i
               (fun b => pin_manager_update 0 (usage_count b) false b) s)
      with (update_frame i (pin_manager_update 0 0 false) s).
    + eapply reachable_step; [exact H|]. apply step_pin_manager.
    + unfold update_frame. f_equal. apply list_eq. intros j.
      rewrite !list_lookup_alter. case_decide; [|reflexivity].
      subst. rewrite Hb. reflexivity.
Qed.

Lemma reachable_unpin i s : reachable pol n s -> reachable pol n (unpin i s).
Proof.
  intros H. apply reachable_exec_BufferUnpinned, reachable_drop_pin, H.
Qed.

Lemma reachable_allocate_and_pin k s :
  reachable pol n s -> reachable pol n (allocate_and_pin k s).
Proof.
  revert s. induction k as [|k IH]; intros s H; [exact H|].
  cbn [allocate_and_pin]. apply IH.
  destruct (StrategyGetBuffer 32 None s) as [[[[i|] lh] st] s'| | | |] eqn:E;
    try exact H.
  apply reachable_pin. eapply reachable_step; [exact H|].
  eapply step_GetBuffer with (fuel := 32%nat) (strategy := None).
  rewrite E. reflexivity.
Qed.

Lemma reachable_drained : reachable pol n (drained pol n).
Proof. apply reachable_allocate_and_pin, reachable_init. Qed.
End ReachableScenarios.

Lemma twoq_scenario_reachable : reachable POLICY_2Q 8 twoq_scenario.
Proof.
  unfold twoq_scenario, repin_unpin.
  apply reachable_unpin, reachable_pin, reachable_unpin, reachable_unpin,
    reachable_unpin, reachable_drained.
Qed.

(** The partition property of C7 fails as stated: after frame 0 has been
    allocated, unpinned (which puts it in A1) and released with
    [StrategyFreeBuffer] (which pushes it on the freelist without unlinking
    it), it is on the freelist and in A1 at once. *)
Lemma partition_counterexample :
  (reachable POLICY_2Q 8 freed_while_queued /\
   on_freelist freed_while_queued 0 /\
   in_queue freed_while_queued QA1 0 /\
   ~ at_most_one freed_while_queued 0) /\
  (reachable POLICY_2Q 8 freed_while_queued_bare /\
   on_freelist freed_while_queued_bare 0 /\
   in_queue freed_while_queued_bare QA1 0 /\
   ~ at_most_one freed_while_queued_bare 0).
Proof.
  assert (H1 : on_freelist freed_while_queued 0).
  { eexists. split; [vm_compute; reflexivity|]. vm_compute. discriminate. }
  assert (H2 : in_queue freed_while_queued QA1 0).
  { unfold in_queue. vm_compute. apply linked_here. }
  assert (H3 : on_freelist freed_while_queued_bare 0).
  { eexists. split; [vm_compute; reflexivity|]. vm_compute. discriminate. }
  assert (H4 : in_queue freed_while_queued_bare QA1 0).
  { unfold in_queue. vm_compute. apply linked_here. }
  split; (split; [|split; [assumption|split; [assumption|]]]).
  - unfold freed_while_queued.
    apply reachable_exec_FreeBuffer, reachable_unpin,
      reachable_allocate_and_pin, reachable_init.
  - intros (_ & H & _). apply H. auto.
  - unfold freed_while_queued_bare.
    apply reachable_exec_FreeBuffer, reachable_exec_BufferUnpinned,
      reachable_exec_GetBuffer, reachable_init.
  - intros (_ & H & _). apply H. auto.
Qed.

(** C1.  Under 2Q the frame [StrategyGetBuffer] returns is unpinned but its
    header spinlock is not held: the 2Q branch never calls [LockBufHdr].  In
    the reachable state of scenario 4 the call returns frame 1 with
    [refcount = 0] and a free header lock.  (On every other path the
    contract holds, see [StrategyGetBuffer_returns_ok].) *)
Theorem twoq_returns_unlocked :
  reachable POLICY_2Q 8 twoq_scenario /\
  exists s',
    StrategyGetBuffer 32 None twoq_scenario = Ret (Some 1%nat, true, None) s' /\
    unpinned s' 1 /\ ~ header_locked s' 1.
Proof.
  split; [exact twoq_scenario_reachable|].
  eexists. split; [vm_compute; reflexivity|]. split.
  - eexists. split; vm_compute; reflexivity.
  - intros (b & Hb & Hl). vm_compute in Hb. injection Hb as <-. discriminate Hl.
Qed.

(** C2.  With nothing on the freelist and every frame pinned, CLOCK and 2Q
    fail with "no unpinned buffers available", but LRU and MRU do not: when
    their walk ends with [buf == NULL] they call [UnlockBufHdr(buf)] on that
    NULL pointer before reaching [elog], with an empty main queue as well as
    with a queue of stale, pinned entries.  (In general, see
    [CLOCK_all_pinned_raises], [twoq_all_pinned_raises] and
    [LRU_MRU_never_NoUnpinnedBuffers].) *)
Theorem all_pinned_outcomes :
  (forall pol, all_pinned (drained pol 8)) /\
  (forall pol, all_pinned (all_pinned_stale pol)) /\
  (forall fuel,
      StrategyGetBuffer (S fuel) None (drained POLICY_LRU 8) = Fault /\
      StrategyGetBuffer (S fuel) None (drained POLICY_MRU 8) = Fault) /\
  StrategyGetBuffer 32 None (all_pinned_stale POLICY_LRU) = Fault /\
  StrategyGetBuffer 32 None (all_pinned_stale POLICY_MRU) = Fault /\
  (exists s', StrategyGetBuffer 32 None (drained POLICY_CLOCK 8)
              = Elog NoUnpinnedBuffers s') /\
  (exists s', StrategyGetBuffer 32 None (drained POLICY_2Q 8)
              = Elog NoUnpinnedBuffers s') /\
  (exists s', StrategyGetBuffer 32 None (all_pinned_stale POLICY_2Q)
              = Elog NoUnpinnedBuffers s').
Proof.
  assert (Hpinned : forall s : State,
             length (BufferDescriptors s) = 8%nat ->
             (forall i b, BufferDescriptors s !! i = Some b -> refcount b = 1) ->
             forall i, valid_frame s i -> pinned s i).
  { intros s Hlen Hall i Hi. destruct (lookup_lt_is_Some_2 _ _ Hi) as [b Hb].
    exists b. split; [exact Hb|]. rewrite (Hall i b Hb). discriminate. }
  split; [|split].
  - intros pol. split; [destruct pol; vm_compute; reflexivity|].
    apply Hpinned; [destruct pol; reflexivity|].
    intros i b Hb.
    destruct pol; vm_compute in Hb;
      do 8 (destruct i; [injection Hb as <-; reflexivity|]); discriminate Hb.
  - intros pol. split; [destruct pol; vm_compute; reflexivity|].
    apply Hpinned; [destruct pol; reflexivity|].
    intros i b Hb.
    destruct pol; vm_compute in Hb;
      do 8 (destruct i; [injection Hb as <-; reflexivity|]); discriminate Hb.
  - split; [|split; [|split; [|split; [|split]]]].
    + intros fuel. split; vm_compute; reflexivity.
    + vm_compute. reflexivity.
    + vm_compute. reflexivity.
    + eexists. vm_compute. reflexivity.
    + eexists. vm_compute. reflexivity.
    + eexists. vm_compute. reflexivity.
Qed.

Lemma self_linked_head_not_queue (s : State) q i :
  queue_head q (StrategyControl s) = Some i -> self_linked s i ->
  forall l, ~ queue_is s q l.
Proof.
  intros Hhead (b' & Hb' & _ & Hp') l (Hh & _ & Hs & _).
  rewrite Hhead in Hh. destruct l as [|j l]; [discriminate Hh|].
  injection Hh as <-. cbn [seg] in Hs. destruct Hs as (b & Hb & Hp & _).
  congruence.
Qed.

Lemma sole_element_broken_proof pol :
  pol = POLICY_CLOCK \/ pol = POLICY_LRU \/ pol = POLICY_MRU ->
  sole_element_broken pol.
Proof.
  intros Hpol.
  assert (Hself : self_linked (repin_unpin 3 (sole_element_scenario pol)) 3).
  { destruct Hpol as [->|[->| ->]];
      (eexists; split; [vm_compute; reflexivity|split; reflexivity]). }
  assert (Hhead : firstUnpinned (StrategyControl
                    (repin_unpin 3 (sole_element_scenario pol))) = Some 3%nat).
  { destruct Hpol as [->|[->| ->]]; vm_compute; reflexivity. }
  assert (Hhead' : queue_head QAM (StrategyControl
                     (repin_unpin 3 (sole_element_scenario pol))) = Some 3%nat).
  { destruct Hpol as [->|[->| ->]]; vm_compute; reflexivity. }
  split; [destruct Hpol as [->|[->| ->]]; solve_queue_is|].
  cbv zeta. split; [exact Hhead|].
  split; [destruct Hpol as [->|[->| ->]]; vm_compute; reflexivity|].
  split; [exact Hself|].
  exact (self_linked_head_not_queue
           (repin_unpin 3 (sole_element_scenario pol)) QAM 3%nat Hhead' Hself).
Qed.

(** C5.  Under CLOCK, LRU and MRU, [BufferUnpinned] on the only frame of the
    main queue does not keep the queue well formed: the frame has nil links,
    which the hook takes for "new to list", so it links the frame behind the
    tail, which is the frame itself.  (The other cases do keep it well
    formed, see [BufferUnpinned_single_queue_well_formed].) *)
Theorem sole_element_self_loop :
  sole_element_broken POLICY_CLOCK /\
  sole_element_broken POLICY_LRU /\
  sole_element_broken POLICY_MRU.
Proof. split; [|split]; apply sole_element_broken_proof; auto. Qed.

(** ** The theorems at concrete inputs *)

Lemma StrategyFreeBuffer_idempotent_witness :
  firstFreeBuffer (StrategyControl release_scenario) <> FREENEXT_NOT_IN_LIST /\
  (StrategyFreeBuffer (Some 2%nat) ;; StrategyFreeBuffer (Some 2%nat))
    release_scenario
  = StrategyFreeBuffer (Some 2%nat) release_scenario.
Proof.
  assert (H : firstFreeBuffer (StrategyControl release_scenario)
              <> FREENEXT_NOT_IN_LIST).
  { vm_compute. discriminate. }
  split; [exact H|].
  exact (StrategyFreeBuffer_idempotent (Some 2%nat) release_scenario H).
Defined.

Lemma clock_scenario_ready : clock_ready clock_scenario.
Proof.
  split; [vm_compute; reflexivity|]. split; [vm_compute; reflexivity|].
  split; [vm_compute; reflexivity|]. split; [vm_compute; reflexivity|].
  split; [vm_compute; reflexivity|].
  intros i b Hb. vm_compute in Hb.
  do 8 (destruct i; [injection Hb as <-; repeat split|]). discriminate Hb.
Qed.

Lemma clock_decrement_then_evict_witness :
  clock_ready clock_scenario /\ (9 <= 32)%nat /\
  exists s',
    StrategyGetBuffer 32 None clock_scenario = Ret (Some 0%nat, true, None) s' /\
    nextVictimBuffer (StrategyControl s') = 1 /\
    completePasses (StrategyControl s') = 1.
Proof.
  assert (Hfuel : (9 <= 32)%nat) by lia.
  split; [exact clock_scenario_ready|]. split; [exact Hfuel|].
  destruct (clock_decrement_then_evict clock_scenario 32
              clock_scenario_ready Hfuel) as (s' & Hrun & Hhand & Hpass & _).
  exists s'. auto.
Defined.

Lemma StrategyRejectBuffer_spec_witness :
  exists r st',
    StrategyRejectBuffer ring_scenario (Some 0%nat) (drained POLICY_2Q 8)
    = Ret (r, st') (drained POLICY_2Q 8) /\
    (r = true <->
       btype ring_scenario = BAS_BULKREAD /\
       1 = BufferDescriptorGetBuffer (mkBufferDesc 0 1 1 (-2) None None false) /\
       current_was_in_ring ring_scenario = true).
Proof.
  destruct (StrategyRejectBuffer_spec ring_scenario 0%nat
              (mkBufferDesc 0 1 1 (-2) None None false) 1
              (drained POLICY_2Q 8))
    as (r & st' & Hrun & Hiff & _).
  - vm_compute. reflexivity.
  - vm_compute. reflexivity.
  - exists r, st'. auto.
Defined.

Lemma LRU_MRU_selection_leaves_queue_witness :
  firstUnpinned (StrategyControl (exec (StrategyGetBuffer 32 None) lru_scenario))
  = firstUnpinned (StrategyControl lru_scenario) /\
  lastUnpinned (StrategyControl (exec (StrategyGetBuffer 32 None) lru_scenario))
  = lastUnpinned (StrategyControl lru_scenario).
Proof.
  destruct (LRU_MRU_selection_leaves_queue 32 None lru_scenario
              (Some 3%nat, true, None)
              (exec (StrategyGetBuffer 32 None) lru_scenario))
    as (Hf & Hl & _).
  - left. vm_compute. reflexivity.
  - vm_compute. reflexivity.
  - auto.
Defined.

Lemma twoq_scenario_ids : ids_ok twoq_scenario.
Proof.
  intros i b Hb. vm_compute in Hb.
  do 8 (destruct i; [injection Hb as <-; reflexivity|]). discriminate Hb.
Qed.

Lemma twoq_victim_selection_witness :
  exists s',
    StrategyGetBuffer 32 None twoq_scenario = Ret (Some 1%nat, true, None) s' /\
    queue_is s' QAM [] /\ queue_is s' QA1 [0; 2]%nat.
Proof.
  assert (Hpol : BufferReplacementPolicy twoq_scenario = POLICY_2Q)
    by (vm_compute; reflexivity).
  assert (Hfree : firstFreeBuffer (StrategyControl twoq_scenario) < 0)
    by (vm_compute; reflexivity).
  assert (Hfuel : (length [1%nat] + length [0%nat; 2%nat] < 32)%nat)
    by (vm_compute; lia).
  destruct (twoq_victim_selection 32 twoq_scenario [1%nat] [0; 2]%nat
              Hpol Hfree twoq_scenario_ids twoq_scenario_queues Hfuel)
    as (_ & _ & _ & Hfound & _).
  destruct (Hfound [] 1%nat []) as (s' & Hrun & Hq & Hq' & _).
  - vm_compute. reflexivity.
  - intros i Hi. inversion Hi.
  - eexists. split; vm_compute; reflexivity.
  - exists s'. auto.
Defined.

Lemma BufferUnpinned_2Q_dispatch_witness :
  exists s',
    BufferUnpinned 32 true 1 (unpin 2 (unpin 1 (unpin 0 (drained POLICY_2Q 8))))
    = Ret tt s' /\
    queues_are s' ([] ++ [1%nat]) (without 1 [0; 1; 2]%nat).
Proof.
  destruct (proj1 BufferUnpinned_2Q_dispatch 32%nat
              (unpin 2 (unpin 1 (unpin 0 (drained POLICY_2Q 8))))
              [] [0; 1; 2]%nat 1%nat)
    as (s' & Hrun & _ & Hpromote & _).
  - vm_compute. reflexivity.
  - exact twoq_scenario_A1.
  - vm_compute. lia.
  - vm_compute. lia.
  - exists s'. split; [exact Hrun|]. apply Hpromote.
    + apply not_elem_of_nil.
    + right. left.
Defined.

Lemma queues_disjoint_when_reachable_witness :
  reachable POLICY_2Q 8 twoq_scenario /\
  ~ (in_queue twoq_scenario QAM 1 /\ in_queue twoq_scenario QA1 1).
Proof.
  split; [exact twoq_scenario_reachable|].
  exact (queues_disjoint_when_reachable POLICY_2Q 8 twoq_scenario 1%nat
           twoq_scenario_reachable).
Defined.

(** * Further properties of the code *)

(** ** The backend-private ring *)

Lemma ring_read_in_range st i :
  Z.of_nat (length (buffers st)) = ring_size st ->
  0 <= i < ring_size st -> is_Some (ring_read st i).
Proof.
  intros Hlen Hi. unfold ring_read.
  destruct (0 <=? i) eqn:E; [|apply Z.leb_gt in E; lia].
  apply lookup_lt_is_Some. lia.
Qed.

Lemma next_slot_range st :
  ring_ok st ->
  0 <= next_slot st < ring_size st /\
  next_slot st = (current st + 1) mod ring_size st.
Proof.
  intros (Hpos & Hcur & _). unfold next_slot.
  destruct (ring_size st <=? current st + 1) eqn:E.
  - apply Z.leb_le in E. assert (current st + 1 = ring_size st) as -> by lia.
    rewrite Z.mod_same by lia. lia.
  - apply Z.leb_gt in E. rewrite Z.mod_small by lia. lia.
Qed.

Lemma state_eta (s : State) :
  mkState (BufferReplacementPolicy s) (BufferDescriptors s)
          (StrategyControl s) (latches_set s) = s.
Proof. destruct s. reflexivity. Qed.

Lemma lock_unlock_frame (s : State) i b :
  BufferDescriptors s !! i = Some b -> buf_hdr_lock b = false ->
  update_frame i (set_buf_hdr_lock false) (lock_frame i s) = s.
Proof.
  intros Hb Hl. unfold lock_frame, update_frame.
  cbn [BufferDescriptors BufferReplacementPolicy StrategyControl latches_set].
  rewrite (toggle_lock _ _ _ Hb Hl). apply state_eta.
Qed.

Lemma LockBufHdr_inv p s s' :
  LockBufHdr p s = Ret tt s' ->
  exists i b, p = Some i /\ BufferDescriptors s !! i = Some b /\
              buf_hdr_lock b = false /\ s' = lock_frame i s.
Proof.
  unfold LockBufHdr. intros H.
  apply bind_Ret_inv in H as (b & s1 & Hd & H).
  apply deref_inv in Hd as [-> (i & -> & Hb)].
  destruct (buf_hdr_lock b) eqn:Hl; [discriminate|].
  apply store_inv in H as (j & [= <-] & ->). exists i, b. auto.
Qed.

Lemma LockBufHdr_run (s : State) i b :
  BufferDescriptors s !! i = Some b -> buf_hdr_lock b = false ->
  LockBufHdr (Some i) s = Ret tt (lock_frame i s).
Proof.
  intros Hb Hl. unfold LockBufHdr.
  rewrite (bind_Ret _ _ _ _ _ (deref_Some s i b Hb)). rewrite Hl.
  apply store_Some. eapply lookup_lt_Some, Hb.
Qed.

Lemma lock_frame_lookup (s : State) i b :
  BufferDescriptors s !! i = Some b ->
  BufferDescriptors (lock_frame i s) !! i = Some (set_buf_hdr_lock true b).
Proof.
  intros Hb. unfold lock_frame. cbn. rewrite list_lookup_alter_eq, Hb.
  reflexivity.
Qed.

Lemma UnlockBufHdr_run (s : State) i :
  valid_frame s i ->
  UnlockBufHdr (Some i) s = Ret tt (update_frame i (set_buf_hdr_lock false) s).
Proof. intros H. unfold UnlockBufHdr. apply store_Some, H. Qed.

(** What one probe of the ring does, read backwards from its result. *)
Lemma GetBufferFromRing_inv st s p st' s' :
  GetBufferFromRing st s = Ret (p, st') s' ->
  exists bufnum,
    ring_read st (next_slot st) = Some bufnum /\
    match p with
    | Some i =>
        st' = ring_advanced true st /\ bufnum = Z.of_nat i + 1 /\
        s' = lock_frame i s /\
        exists b, BufferDescriptors s !! i = Some b /\
                  buf_hdr_lock b = false /\ refcount b = 0 /\
                  usage_count b <= 1
    | None =>
        st' = ring_advanced false st /\ s' = s /\
        (bufnum = InvalidBuffer \/
         exists i b, bufnum = Z.of_nat i + 1 /\
                     BufferDescriptors s !! i = Some b /\
                     buf_hdr_lock b = false /\
                     ~ (refcount b = 0 /\ usage_count b <= 1))
    end.
Proof.
  unfold GetBufferFromRing. cbv zeta.
  change (ring_read (set_current (next_slot st) st)
            (current (set_current (next_slot st) st)))
    with (ring_read st (next_slot st)).
  destruct (ring_read st (next_slot st)) as [bufnum|]; [|discriminate].
  intros H. exists bufnum. split; [reflexivity|].
  destruct (bufnum =? InvalidBuffer) eqn:Hinv.
  - injection H as <- <- <-. apply Z.eqb_eq in Hinv. auto.
  - apply bind_Ret_inv in H as (buf & s1 & Ha & H).
    apply desc_addr_inv in Ha as (-> & -> & Hnn).
    apply bind_Ret_inv in H as ([] & s1 & Hlock & H).
    apply LockBufHdr_inv in Hlock as (i & b & [= <-] & Hb & Hl & ->).
    apply bind_Ret_inv in H as (b1 & s2 & Hd & H).
    apply deref_inv in Hd as [-> (j & [= <-] & Hb1)].
    rewrite (lock_frame_lookup _ _ _ Hb) in Hb1. injection Hb1 as <-.
    cbn [refcount usage_count set_buf_hdr_lock] in H.
    assert (Hnum : bufnum = Z.of_nat (Z.to_nat (bufnum - 1)) + 1)
      by (rewrite Z2Nat.id by lia; lia).
    destruct ((refcount b =? 0) && (usage_count b <=? 1)) eqn:Hc.
    + injection H as <- <- <-. apply andb_prop in Hc as [Hr Hu].
      apply Z.eqb_eq in Hr. apply Z.leb_le in Hu.
      split; [reflexivity|]. split; [exact Hnum|]. split; [reflexivity|].
      exists b. auto.
    + apply bind_Ret_inv in H as ([] & s3 & Hu & H).
      rewrite UnlockBufHdr_run in Hu
        by (unfold lock_frame; rewrite valid_frame_update;
            eapply lookup_lt_Some, Hb).
      injection Hu as <-. injection H as <- <- <-.
      split; [reflexivity|].
      split; [apply (lock_unlock_frame _ _ _ Hb Hl)|].
      right. exists (Z.to_nat (bufnum - 1)), b.
      repeat split; auto.
      intros [Hr Hu]. apply andb_false_iff in Hc as [Hc|Hc].
      * apply Z.eqb_neq in Hc. contradiction.
      * apply Z.leb_gt in Hc. lia.
Qed.

Lemma ring_advanced_ok hit st : ring_ok st -> ring_ok (ring_advanced hit st).
Proof.
  intros Hok. destruct (next_slot_range st Hok) as [Hr _].
  destruct Hok as (Hpos & _ & Hlen). repeat split; cbn; auto; lia.
Qed.

Lemma ring_write_ok st i v st' :
  ring_ok st -> ring_write st i v = Some st' ->
  ring_ok st' /\ current st' = current st /\
  ring_read st' i = Some v /\
  forall j, j <> i -> ring_read st' j = ring_read st j.
Proof.
  intros (Hpos & Hcur & Hlen) Hw.
  destruct (ring_read_write st i v st' Hw) as (Hr & Hc & Hs & _).
  unfold ring_write in Hw. destruct (ring_read st i) eqn:E; [|discriminate].
  injection Hw as <-.
  split; [|split; [|split]]; auto.
  - unfold ring_ok. cbn. rewrite length_insert. auto.
  - intros j Hj. unfold ring_read in *. cbn.
    destruct (0 <=? j) eqn:Ej; [|reflexivity].
    destruct (0 <=? i) eqn:Ei; [|discriminate].
    apply Z.leb_le in Ej, Ei.
    apply list_lookup_insert_ne. intros Heq. apply Hj.
    apply Z2Nat.inj in Heq; lia.
Qed.

(** X1.  [GetAccessStrategy] gives NULL for [BAS_NORMAL]; for the other
    types, with a block size of at most 256 kB and a pool of eight buffers
    or more, it gives a well-formed ring of
    [Min(NBuffers / 8, bytes / BLCKSZ)] slots (at least one, never more than
    an eighth of the pool), all of them [InvalidBuffer]; the shared state is
    not touched, and the first probe of such a ring declines, so that the
    caller allocates from the global strategy. *)
Theorem GetAccessStrategy_ring BLCKSZ (s : State) :
  0 < BLCKSZ <= 256 * 1024 -> 8 <= NBuffers s ->
  GetAccessStrategy BLCKSZ BAS_NORMAL s = Ret None s /\
  forall bt, bt <> BAS_NORMAL ->
    exists st,
      GetAccessStrategy BLCKSZ bt s = Ret (Some st) s /\
      ring_ok st /\ btype st = bt /\ current_was_in_ring st = false /\
      ring_size st = Z.min (Z.quot (NBuffers s) 8)
                           (Z.quot (ring_bytes bt) BLCKSZ) /\
      8 * ring_size st <= NBuffers s /\
      ring_size st * BLCKSZ <= ring_bytes bt /\
      (forall i, 0 <= i < ring_size st -> ring_read st i = Some InvalidBuffer) /\
      forall s0, GetBufferFromRing st s0 = Ret (None, ring_advanced false st) s0.
Proof.
  intros HB HN. split; [reflexivity|]. intros bt Hbt.
  set (rs := Z.min (Z.quot (NBuffers s) 8) (Z.quot (ring_bytes bt) BLCKSZ)).
  assert (Hbytes : 256 * 1024 <= ring_bytes bt) by (destruct bt; cbn; lia).
  assert (Hq1 : 1 <= Z.quot (NBuffers s) 8).
  { rewrite Z.quot_div_nonneg by lia. apply Z.div_le_lower_bound; lia. }
  assert (Hq2 : 1 <= Z.quot (ring_bytes bt) BLCKSZ).
  { rewrite Z.quot_div_nonneg by lia. apply Z.div_le_lower_bound; lia. }
  assert (Hq3 : 8 * Z.quot (NBuffers s) 8 <= NBuffers s).
  { rewrite Z.quot_div_nonneg by lia. apply Z.mul_div_le. lia. }
  assert (Hq4 : Z.quot (ring_bytes bt) BLCKSZ * BLCKSZ <= ring_bytes bt).
  { rewrite Z.quot_div_nonneg by lia. rewrite Z.mul_comm.
    apply Z.mul_div_le. lia. }
  assert (Hrs : 1 <= rs) by (unfold rs; lia).
  exists (mkStrategy bt rs 0 false (replicate (Z.to_nat rs) 0)).
  assert (Hread : forall i, 0 <= i < rs ->
            ring_read (mkStrategy bt rs 0 false (replicate (Z.to_nat rs) 0)) i
            = Some InvalidBuffer).
  { intros i Hi. unfold ring_read. cbn [buffers].
    destruct (0 <=? i) eqn:E; [|apply Z.leb_gt in E; lia].
    apply lookup_replicate_2. lia. }
  split; [|split; [|split; [|split; [|split; [|split; [|split; [|split]]]]]]].
  - destruct bt; try contradiction; reflexivity.
  - repeat split; cbn; try lia. rewrite length_replicate. lia.
  - reflexivity.
  - reflexivity.
  - reflexivity.
  - cbn [ring_size]. unfold rs. lia.
  - cbn [ring_size]. unfold rs. nia.
  - exact Hread.
  - intros s0. apply GetBufferFromRing_invalid_slot. apply Hread.
    unfold next_slot. cbn [ring_size current].
    destruct (rs <=? 0 + 1) eqn:E; [lia|]. apply Z.leb_gt in E. lia.
Qed.

Lemma GetAccessStrategy_ring_witness :
  exists st,
    GetAccessStrategy 8192 BAS_BULKREAD (drained POLICY_CLOCK 8)
    = Ret (Some st) (drained POLICY_CLOCK 8) /\
    ring_size st = 1.
Proof.
  assert (HB : 0 < 8192 <= 256 * 1024) by lia.
  assert (HN : 8 <= NBuffers (drained POLICY_CLOCK 8))
    by (vm_compute; discriminate).
  destruct (proj2 (GetAccessStrategy_ring 8192 (drained POLICY_CLOCK 8) HB HN)
              BAS_BULKREAD)
    as (st & Hrun & _ & _ & _ & Hsize & _).
  - discriminate.
  - exists st. split; [exact Hrun|]. rewrite Hsize. vm_compute. reflexivity.
Defined.

Lemma AddBufferToRing_ok st buf (s : State) o s' :
  ring_ok st -> AddBufferToRing (Some st) buf s = Ret o s' ->
  exists i b st', buf = Some i /\ BufferDescriptors s !! i = Some b /\
    o = Some st' /\ s' = s /\ ring_ok st' /\ current st' = current st /\
    ring_read st' (current st) = Some (BufferDescriptorGetBuffer b) /\
    forall j, j <> current st -> ring_read st' j = ring_read st j.
Proof.
  intros Hok H. unfold AddBufferToRing in H.
  apply bind_Ret_inv in H as (b & s1 & Hd & H).
  apply deref_inv in Hd as [-> (i & -> & Hb)].
  destruct (ring_write st (current st) (BufferDescriptorGetBuffer b))
    as [st'|] eqn:Hw; [|discriminate].
  injection H as <- <-.
  destruct (ring_write_ok _ _ _ _ Hok Hw) as (H1 & H2 & H3 & H4).
  exists i, b, st'. repeat split; auto; apply H1.
Qed.

Lemma StrategyRejectBuffer_ok st buf (s : State) r st' s' :
  ring_ok st -> StrategyRejectBuffer st buf s = Ret (r, st') s' ->
  ring_ok st' /\ current st' = current st.
Proof.
  intros Hok H. unfold StrategyRejectBuffer in H.
  destruct (btype st); try (injection H as _ <- _; auto).
  destruct (negb (current_was_in_ring st)); [injection H as _ <- _; auto|].
  destruct (ring_read st (current st)) as [bufnum|]; [|discriminate].
  apply bind_Ret_inv in H as (b & s1 & _ & H).
  destruct (negb (bufnum =? BufferDescriptorGetBuffer b));
    [injection H as _ <- _; auto|].
  destruct (ring_write st (current st) InvalidBuffer) as [st1|] eqn:Hw;
    [|discriminate].
  injection H as _ <- _.
  destruct (ring_write_ok _ _ _ _ Hok Hw) as (H1 & H2 & _). auto.
Qed.

Lemma freelist_loop_strategy fuel strategy (s : State) buf strategy' s' :
  freelist_loop fuel strategy s = Ret (Some (buf, strategy')) s' ->
  AddBufferToRing strategy buf s' = Ret strategy' s'.
Proof.
  revert s. induction fuel as [|fuel IH]; intros s H; [discriminate|].
  cbn [freelist_loop] in H.
  apply bind_Ret_inv in H as (ctl & s1 & _ & H).
  destruct (0 <=? firstFreeBuffer ctl); [|discriminate].
  apply bind_Ret_inv in H as (buf0 & s2 & _ & H).
  apply bind_Ret_inv in H as (b0 & s3 & _ & H).
  apply bind_Ret_inv in H as (? & s4 & _ & H).
  apply bind_Ret_inv in H as (? & s5 & _ & H).
  apply bind_Ret_inv in H as (? & s6 & _ & H).
  apply bind_Ret_inv in H as (? & s7 & _ & H).
  apply bind_Ret_inv in H as (b & s8 & _ & H).
  destruct ((refcount b =? 0) && (usage_count b =? 0)).
  - apply bind_Ret_inv in H as (st1 & s9 & Hadd & H).
    pose proof (AddBufferToRing_inv _ _ _ _ _ Hadd) as ->.
    injection H as <- <- <-. exact Hadd.
  - apply bind_Ret_inv in H as (? & s9 & _ & H). eapply IH, H.
Qed.

Lemma clock_sweep_strategy fuel strategy trycounter (s : State) buf strategy' s' :
  clock_sweep fuel strategy trycounter s = Ret (buf, strategy') s' ->
  AddBufferToRing strategy buf s' = Ret strategy' s'.
Proof.
  revert trycounter s. induction fuel as [|fuel IH]; intros trycounter s H;
    [discriminate|].
  cbn [clock_sweep] in H.
  apply bind_Ret_inv in H as (ctl & s1 & _ & H).
  apply bind_Ret_inv in H as (buf0 & s2 & _ & H).
  apply bind_Ret_inv in H as (n & s3 & _ & H).
  apply bind_Ret_inv in H as (? & s4 & _ & H).
  apply bind_Ret_inv in H as (? & s5 & _ & H).
  apply bind_Ret_inv in H as (b & s6 & _ & H).
  destruct (refcount b =? 0).
  - destruct (0 <? usage_count b).
    + apply bind_Ret_inv in H as (? & s7 & _ & H).
      apply bind_Ret_inv in H as (? & s8 & _ & H). eapply IH, H.
    + apply bind_Ret_inv in H as (st1 & s7 & Hadd & H).
      pose proof (AddBufferToRing_inv _ _ _ _ _ Hadd) as ->.
      injection H as <- <- <-. exact Hadd.
  - destruct (trycounter - 1 =? 0).
    + apply bind_Ret_inv in H as (? & s7 & _ & H). discriminate.
    + apply bind_Ret_inv in H as (? & s7 & _ & H). eapply IH, H.
Qed.

Lemma return_result_inv strategy idx (s : State) buf lh strategy' s' :
  return_result strategy idx s = Ret (buf, lh, strategy') s' ->
  buf = Some (Z.to_nat idx) /\ lh = true /\ strategy' = strategy /\ s' = s /\
  0 <= idx < NBuffers s.
Proof.
  unfold return_result. destruct (idx =? -1); [discriminate|].
  intros H. apply bind_Ret_inv in H as (p & s1 & Ha & H).
  unfold desc_addr in Ha.
  destruct (0 <=? idx) eqn:E1; [|discriminate].
  destruct (idx <? NBuffers s) eqn:E2; [|discriminate].
  injection Ha as <- <-. injection H as <- <- <- <-.
  apply Z.leb_le in E1. apply Z.ltb_lt in E2. repeat split; auto.
Qed.


(** ** The paths through [StrategyGetBuffer] *)

Lemma StrategyGetBuffer_global_counted fuel strategy (s : State) :
  StrategyGetBuffer_global fuel strategy s
  = (r <- freelist_loop fuel strategy ;;
     match r with
     | Some (buf, strategy') => ret (buf, true, strategy')
     | None => select_victim fuel strategy
     end) (counted s).
Proof.
  unfold StrategyGetBuffer_global.
  rewrite (bind_Ret _ _ _ _ _ (count_allocation_run s)). reflexivity.
Qed.

Lemma select_victim_Ret fuel strategy (s : State) buf lh strategy' s' :
  select_victim fuel strategy s = Ret (buf, lh, strategy') s' ->
  lh = true /\
  (BufferReplacementPolicy s = POLICY_CLOCK /\
   AddBufferToRing strategy buf s' = Ret strategy' s' \/
   BufferReplacementPolicy s <> POLICY_CLOCK /\ strategy' = strategy).
Proof.
  unfold select_victim.
  rewrite (bind_Ret get_policy _ s (BufferReplacementPolicy s) s eq_refl).
  destruct (BufferReplacementPolicy s) eqn:Hpol; intros H.
  - unfold clock_select in H.
    apply bind_Ret_inv in H as (n & s1 & _ & H).
    apply bind_Ret_inv in H as ([p st1] & s2 & Hsweep & H).
    injection H as <- <- <- <-. split; [reflexivity|]. left.
    split; [reflexivity|]. eapply clock_sweep_strategy, Hsweep.
  - unfold queue_select in H.
    apply bind_Ret_inv in H as (ctl & s1 & _ & H).
    apply bind_Ret_inv in H as (r & s2 & _ & H).
    apply bind_Ret_inv in H as (idx & s3 & _ & H).
    apply return_result_inv in H as (_ & -> & -> & _).
    split; [reflexivity|]. right. split; [discriminate|reflexivity].
  - unfold queue_select in H.
    apply bind_Ret_inv in H as (ctl & s1 & _ & H).
    apply bind_Ret_inv in H as (r & s2 & _ & H).
    apply bind_Ret_inv in H as (idx & s3 & _ & H).
    apply return_result_inv in H as (_ & -> & -> & _).
    split; [reflexivity|]. right. split; [discriminate|reflexivity].
  - unfold twoq_victim in H.
    apply bind_Ret_inv in H as (idx & s3 & _ & H).
    apply return_result_inv in H as (_ & -> & -> & _).
    split; [reflexivity|]. right. split; [discriminate|reflexivity].
  - discriminate.
Qed.

Lemma StrategyGetBuffer_global_Ret fuel strategy (s : State) buf lh strategy' s' :
  StrategyGetBuffer_global fuel strategy s = Ret (buf, lh, strategy') s' ->
  lh = true /\
  (AddBufferToRing strategy buf s' = Ret strategy' s' \/
   BufferReplacementPolicy s <> POLICY_CLOCK /\ strategy' = strategy) /\
  (firstFreeBuffer (StrategyControl s) < 0 ->
   BufferReplacementPolicy s <> POLICY_CLOCK -> strategy' = strategy).
Proof.
  rewrite StrategyGetBuffer_global_counted. intros H.
  apply bind_Ret_inv in H as (r & s1 & Hloop & H).
  assert (Hpol : BufferReplacementPolicy s1 = BufferReplacementPolicy s).
  { assert (Hq : same_queues (counted s) s1).
    { eapply freelist_loop_keeps_queues. rewrite Hloop. reflexivity. }
    destruct Hq as (-> & _). apply counted_policy. }
  destruct r as [[buf0 st0]|].
  - injection H as <- <- <- <-. split; [reflexivity|]. split.
    + left. eapply freelist_loop_strategy, Hloop.
    + intros Hfree Hnc. destruct fuel as [|fuel]; [discriminate|].
      rewrite freelist_loop_empty in Hloop; [discriminate|].
      rewrite firstFreeBuffer_counted. exact Hfree.
  - apply select_victim_Ret in H as (-> & H). rewrite Hpol in H.
    split; [reflexivity|]. split.
    + destruct H as [[_ H]|H]; auto.
    + intros _ Hnc. destruct H as [[H _]|[_ H]]; [contradiction|exact H].
Qed.

Lemma StrategyGetBuffer_ring_cases fuel st (s : State) r s' :
  StrategyGetBuffer fuel (Some st) s = Ret r s' ->
  (exists i, r = (Some i, false, Some (ring_advanced true st)) /\
             GetBufferFromRing st s = Ret (Some i, ring_advanced true st) s') \/
  (GetBufferFromRing st s = Ret (None, ring_advanced false st) s /\
   StrategyGetBuffer_global fuel (Some (ring_advanced false st)) s = Ret r s').
Proof.
  unfold StrategyGetBuffer. intros H.
  apply bind_Ret_inv in H as ([p st1] & s1 & Hring & H). cbn [fst snd] in H.
  pose proof (GetBufferFromRing_inv _ _ _ _ _ Hring) as (bufnum & _ & Hp).
  destruct p as [i|].
  - destruct Hp as (-> & _). injection H as <- <-. left. eauto.
  - destruct Hp as (-> & -> & _). right. auto.
Qed.

(** X2.  The ring operations keep a well-formed ring well formed:
    [GetBufferFromRing] moves [current] to [(current + 1) mod ring_size],
    [AddBufferToRing] and [StrategyRejectBuffer] leave it where it is, and
    the ring [StrategyGetBuffer] hands back has advanced by exactly one
    slot, whichever path supplied the buffer. *)
Theorem ring_ok_preserved st :
  ring_ok st ->
  next_slot st = (current st + 1) mod ring_size st /\
  (forall (s : State) p st' s',
      GetBufferFromRing st s = Ret (p, st') s' ->
      ring_ok st' /\ current st' = next_slot st /\
      buffers st' = buffers st) /\
  (forall (s : State) buf o s',
      AddBufferToRing (Some st) buf s = Ret o s' ->
      exists st', o = Some st' /\ ring_ok st' /\ current st' = current st) /\
  (forall (s : State) buf r st' s',
      StrategyRejectBuffer st buf s = Ret (r, st') s' ->
      ring_ok st' /\ current st' = current st) /\
  (forall fuel (s : State) buf lh o s',
      StrategyGetBuffer fuel (Some st) s = Ret (buf, lh, o) s' ->
      exists st', o = Some st' /\ ring_ok st' /\ current st' = next_slot st).
Proof.
  intros Hok. split; [apply next_slot_range, Hok|].
  split; [|split; [|split]].
  - intros s p st' s' H.
    apply GetBufferFromRing_inv in H as (bufnum & _ & Hp).
    destruct p as [i|]; destruct Hp as (-> & _);
      (split; [apply ring_advanced_ok, Hok|split; reflexivity]).
  - intros s buf o s' H.
    destruct (AddBufferToRing_ok _ _ _ _ _ Hok H)
      as (i & b & st' & _ & _ & -> & _ & H1 & H2 & _).
    exists st'. auto.
  - intros s buf r st' s' H. eapply StrategyRejectBuffer_ok; eauto.
  - intros fuel s buf lh o s' H.
    destruct (StrategyGetBuffer_ring_cases _ _ _ _ _ H)
      as [(i & [= _ _ ->] & _)|[_ Hg]].
    + exists (ring_advanced true st).
      split; [reflexivity|]. split; [apply ring_advanced_ok, Hok|reflexivity].
    + apply StrategyGetBuffer_global_Ret in Hg as (_ & [Hadd|[_ ->]] & _).
      * destruct (AddBufferToRing_ok _ _ _ _ _
                    (ring_advanced_ok false st Hok) Hadd)
          as (i & b & st' & _ & _ & -> & _ & H1 & H2 & _).
        exists st'. split; [reflexivity|]. split; [exact H1|]. rewrite H2.
        reflexivity.
      * exists (ring_advanced false st).
        split; [reflexivity|].
        split; [apply ring_advanced_ok, Hok|reflexivity].
Qed.

Lemma small_ring_ok : ring_ok small_ring.
Proof. unfold ring_ok. cbn. lia. Qed.

Lemma ring_ok_preserved_witness :
  ring_ok small_ring /\ next_slot small_ring = (0 + 1) mod 2.
Proof.
  split; [exact small_ring_ok|].
  exact (proj1 (ring_ok_preserved small_ring small_ring_ok)).
Defined.

(** X3.  The contract of one probe of the ring.  [GetBufferFromRing] moves
    to the next slot and leaves the slots as they are.  When it returns a
    frame, that frame is the one the slot names, it was unpinned with a
    usage count of at most one, its header lock was free and is now held,
    nothing else in the shared state has changed, and
    [current_was_in_ring] is set.  When it returns NULL,
    [current_was_in_ring] is clear and the shared state is exactly as it
    was: the header lock taken to look at the frame has been released. *)
Theorem GetBufferFromRing_contract st (s : State) p st' s' :
  GetBufferFromRing st s = Ret (p, st') s' ->
  current st' = next_slot st /\ buffers st' = buffers st /\
  match p with
  | Some i =>
      current_was_in_ring st' = true /\
      ring_read st' (current st') = Some (Z.of_nat i + 1) /\
      s' = lock_frame i s /\
      header_locked s' i /\
      exists b, BufferDescriptors s !! i = Some b /\
                buf_hdr_lock b = false /\ refcount b = 0 /\
                usage_count b <= 1
  | None => current_was_in_ring st' = false /\ s' = s
  end.
Proof.
  intros H. apply GetBufferFromRing_inv in H as (bufnum & Hread & Hp).
  destruct p as [i|].
  - destruct Hp as (-> & -> & -> & b & Hb & Hl & Hr & Hu).
    split; [reflexivity|]. split; [reflexivity|].
    split; [reflexivity|]. split; [exact Hread|]. split; [reflexivity|].
    split; [|exists b; auto].
    exists (set_buf_hdr_lock true b). split; [|reflexivity].
    apply lock_frame_lookup, Hb.
  - destruct Hp as (-> & -> & _). auto.
Qed.

Lemma GetBufferFromRing_contract_witness :
  GetBufferFromRing small_ring (small_pool POLICY_LRU)
  = Ret (Some 1%nat, ring_advanced true small_ring)
        (lock_frame 1 (small_pool POLICY_LRU)) /\
  current (ring_advanced true small_ring) = next_slot small_ring.
Proof.
  assert (H : GetBufferFromRing small_ring (small_pool POLICY_LRU)
              = Ret (Some 1%nat, ring_advanced true small_ring)
                    (lock_frame 1 (small_pool POLICY_LRU)))
    by (vm_compute; reflexivity).
  split; [exact H|].
  exact (proj1 (GetBufferFromRing_contract small_ring (small_pool POLICY_LRU)
                  (Some 1%nat) (ring_advanced true small_ring)
                  (lock_frame 1 (small_pool POLICY_LRU)) H)).
Defined.

Lemma GetBufferFromRing_run st (s : State) i b :
  ring_read st (next_slot st) = Some (Z.of_nat i + 1) ->
  BufferDescriptors s !! i = Some b -> buf_hdr_lock b = false ->
  GetBufferFromRing st s
  = if (refcount b =? 0) && (usage_count b <=? 1)
    then Ret (Some i, ring_advanced true st) (lock_frame i s)
    else Ret (None, ring_advanced false st) s.
Proof.
  intros Hread Hb Hl.
  assert (Hv : valid_frame s i) by (eapply lookup_lt_Some, Hb).
  unfold GetBufferFromRing. cbv zeta.
  change (ring_read (set_current (next_slot st) st)
            (current (set_current (next_slot st) st)))
    with (ring_read st (next_slot st)).
  rewrite Hread.
  replace (Z.of_nat i + 1 =? InvalidBuffer) with false
    by (symmetry; apply Z.eqb_neq; unfold InvalidBuffer; lia).
  replace (Z.of_nat i + 1 - 1) with (Z.of_nat i) by lia.
  rewrite (bind_Ret _ _ _ _ _ (desc_addr_frame s i Hv)).
  rewrite (bind_Ret _ _ _ _ _ (LockBufHdr_run s i b Hb Hl)).
  rewrite (bind_Ret _ _ _ _ _
             (deref_Some _ _ _ (lock_frame_lookup s i b Hb))).
  cbn [refcount usage_count set_buf_hdr_lock].
  destruct ((refcount b =? 0) && (usage_count b <=? 1)); [reflexivity|].
  rewrite (bind_Ret _ _ (lock_frame i s) tt s); [reflexivity|].
  rewrite UnlockBufHdr_run
    by (unfold lock_frame; rewrite valid_frame_update; exact Hv).
  rewrite (lock_unlock_frame s i b Hb Hl). reflexivity.
Qed.

(** X4.  A buffer recorded in the ring comes back.  On a well-formed ring,
    [AddBufferToRing] writes the buffer number of the frame into the current
    slot and nothing else; when the ring has come round to that slot again,
    [GetBufferFromRing] offers that very frame: it returns it, locked, if it
    is unpinned with a usage count of at most one, and declines without any
    change to the shared state otherwise. *)
Theorem ring_slot_round_trip st (s : State) i b :
  ring_ok st -> BufferDescriptors s !! i = Some b -> buf_id b = Z.of_nat i ->
  exists st',
    AddBufferToRing (Some st) (Some i) s = Ret (Some st') s /\
    ring_ok st' /\ current st' = current st /\
    ring_read st' (current st) = Some (Z.of_nat i + 1) /\
    (forall j, j <> current st -> ring_read st' j = ring_read st j) /\
    forall st2 (s2 : State) b2,
      buffers st2 = buffers st' -> next_slot st2 = current st ->
      BufferDescriptors s2 !! i = Some b2 -> buf_hdr_lock b2 = false ->
      GetBufferFromRing st2 s2
      = if (refcount b2 =? 0) && (usage_count b2 <=? 1)
        then Ret (Some i, ring_advanced true st2) (lock_frame i s2)
        else Ret (None, ring_advanced false st2) s2.
Proof.
  intros Hok Hb Hid.
  destruct (ring_read_in_range st (current st)) as [v Hv];
    [apply Hok|apply Hok|].
  assert (Hw : exists st', ring_write st (current st) (Z.of_nat i + 1) = Some st').
  { unfold ring_write. rewrite Hv. eauto. }
  destruct Hw as [st' Hw].
  destruct (ring_write_ok _ _ _ _ Hok Hw) as (H1 & H2 & H3 & H4).
  exists st'. split; [|split; [|split; [|split; [|split]]]]; auto.
  - unfold AddBufferToRing.
    rewrite (bind_Ret _ _ _ _ _ (deref_Some s i b Hb)).
    unfold BufferDescriptorGetBuffer. rewrite Hid, Hw. reflexivity.
  - intros st2 s2 b2 Hbufs Hnext Hb2 Hl2.
    apply GetBufferFromRing_run; auto.
    rewrite Hnext. unfold ring_read in *. rewrite Hbufs. exact H3.
Qed.

Lemma ring_slot_round_trip_witness :
  exists st',
    AddBufferToRing (Some small_ring) (Some 2%nat) (small_pool POLICY_LRU)
    = Ret (Some st') (small_pool POLICY_LRU) /\
    ring_read st' (current small_ring) = Some (Z.of_nat 2 + 1).
Proof.
  destruct (ring_slot_round_trip small_ring (small_pool POLICY_LRU) 2%nat
              (mkBufferDesc 2 0 0 FREENEXT_NOT_IN_LIST None None false)
              small_ring_ok eq_refl eq_refl)
    as (st' & Hadd & _ & _ & Hread & _).
  exists st'. split; [exact Hadd|exact Hread].
Defined.

(** ** What a call leaves alone *)

Section Preserved.
Context {X Y : Type}.
Variable fd : BufferDesc -> X.
Variable fc : BufferStrategyControl -> Y.

Lemma preserved_refl s : preserved fd fc s s.
Proof. repeat split. Qed.

Lemma preserved_trans s1 s2 s3 :
  preserved fd fc s1 s2 -> preserved fd fc s2 s3 -> preserved fd fc s1 s3.
Proof.
  intros (? & ? & ? & ?) (? & ? & ? & ?).
  repeat split; etransitivity; eauto.
Qed.

Lemma preserved_update_frame f s i :
  (forall b, fd (f b) = fd b) -> preserved fd fc s (update_frame i f s).
Proof.
  intros Hf. split; [reflexivity|]. split; [reflexivity|].
  split; [|reflexivity]. cbn. apply list_eq. intros j.
  rewrite !list_lookup_fmap, list_lookup_alter. case_decide; [|reflexivity].
  subst. destruct (BufferDescriptors s !! j); cbn; [|reflexivity].
  f_equal. apply Hf.
Qed.

Lemma preserved_control g s :
  (forall c, fc (g c) = fc c) ->
  preserved fd fc s (mkState (BufferReplacementPolicy s) (BufferDescriptors s)
                             (g (StrategyControl s)) (latches_set s)).
Proof. intros Hg. repeat split. apply Hg. Qed.

Lemma preserved_lookup s s' i b :
  preserved fd fc s s' -> BufferDescriptors s !! i = Some b ->
  exists b', BufferDescriptors s' !! i = Some b' /\ fd b' = fd b.
Proof.
  intros (_ & _ & Hd & _) Hb.
  assert (H : (fd <$> BufferDescriptors s') !! i = Some (fd b))
    by (rewrite Hd, list_lookup_fmap, Hb; reflexivity).
  rewrite list_lookup_fmap in H.
  destruct (BufferDescriptors s' !! i) as [b'|]; [|discriminate].
  injection H as H. eauto.
Qed.

Lemma preserved_length s s' :
  preserved fd fc s s' ->
  length (BufferDescriptors s') = length (BufferDescriptors s).
Proof.
  intros (_ & _ & Hd & _).
  rewrite <- (length_fmap fd (BufferDescriptors s')), Hd.
  apply length_fmap.
Qed.
End Preserved.

Ltac preserved_step :=
  first
    [ apply keeps_ret; exact (preserved_refl _ _)
    | apply keeps_elog; exact (preserved_refl _ _)
    | apply keeps_fault
    | apply keeps_out_of_fuel
    | apply keeps_stuck
    | apply keeps_get_control; exact (preserved_refl _ _)
    | apply keeps_get_policy; exact (preserved_refl _ _)
    | apply keeps_get_NBuffers; exact (preserved_refl _ _)
    | apply keeps_desc_addr; exact (preserved_refl _ _)
    | apply keeps_deref; exact (preserved_refl _ _)
    | apply keeps_Assert; exact (preserved_refl _ _)
    | apply keeps_store; intros; apply preserved_update_frame; reflexivity
    | apply keeps_modify_control; intros; apply preserved_control; reflexivity
    | apply (keeps_bind _ (preserved_trans _ _)); [|intros ?]
    | match goal with
      | |- keeps _ (if ?b then _ else _) => destruct b
      | |- keeps _ (match ?x with _ => _ end) => destruct x
      end
    | progress unfold LockBufHdr, UnlockBufHdr, AddBufferToRing,
        GetBufferFromRing, queue_walk_result, return_result,
        unlink_victim, twoq_scan_result, clock_select, queue_select
    | match goal with q : Queue |- _ => destruct q end ].

(** Whatever a loop writes, proved for its body, holds of the loop. *)
Ltac preserved_loops :=
  repeat first
    [ match goal with IH : _ |- _ => apply IH end
    | preserved_step ].

Lemma freelist_loop_stats fuel strategy :
  keeps (preserved (@no_view BufferDesc) alloc_stats)
        (freelist_loop fuel strategy).
Proof.
  induction fuel as [|fuel IH]; cbn [freelist_loop]; preserved_loops.
Qed.

Lemma clock_sweep_stats fuel strategy trycounter :
  keeps (preserved (@no_view BufferDesc) alloc_stats)
        (clock_sweep fuel strategy trycounter).
Proof.
  revert trycounter. induction fuel as [|fuel IH]; intros trycounter;
    cbn [clock_sweep]; preserved_loops.
Qed.

Lemma queue_walk_stats fuel link buf :
  keeps (preserved (@no_view BufferDesc) alloc_stats)
        (queue_walk fuel link buf).
Proof.
  revert buf. induction fuel as [|fuel IH]; intros buf;
    cbn [queue_walk]; preserved_loops.
Qed.

Lemma a1_size_stats fuel head acc :
  keeps (preserved (@no_view BufferDesc) alloc_stats) (a1_size fuel head acc).
Proof.
  revert head acc. induction fuel as [|fuel IH]; intros head acc;
    cbn [a1_size]; preserved_loops.
Qed.

Lemma twoq_scan_stats fuel q buf :
  keeps (preserved (@no_view BufferDesc) alloc_stats) (twoq_scan fuel q buf).
Proof.
  revert buf. induction fuel as [|fuel IH]; intros buf;
    cbn [twoq_scan]; preserved_loops.
Qed.

Lemma select_victim_stats fuel strategy :
  keeps (preserved (@no_view BufferDesc) alloc_stats)
        (select_victim fuel strategy).
Proof.
  unfold select_victim, twoq_victim, twoq_select.
  repeat first [ apply clock_sweep_stats | apply queue_walk_stats
               | apply a1_size_stats | apply twoq_scan_stats
               | preserved_step ].
Qed.

(** ** Counting allocations and waking the bgwriter *)

Lemma counted_stats (s : State) :
  numBufferAllocs (StrategyControl (counted s))
  = uint32_incr (numBufferAllocs (StrategyControl s)) /\
  bgwriterLatch (StrategyControl (counted s)) = None /\
  latches_set (counted s)
  = match bgwriterLatch (StrategyControl s) with
    | Some l => l :: latches_set s
    | None => latches_set s
    end.
Proof.
  unfold counted.
  destruct (bgwriterLatch (StrategyControl s)) eqn:E; cbn; auto.
Qed.

Lemma StrategyGetBuffer_global_stats fuel strategy (s s' : State) :
  final_state (StrategyGetBuffer_global fuel strategy s) = Some s' ->
  numBufferAllocs (StrategyControl s')
  = uint32_incr (numBufferAllocs (StrategyControl s)) /\
  bgwriterLatch (StrategyControl s') = None /\
  latches_set s'
  = match bgwriterLatch (StrategyControl s) with
    | Some l => l :: latches_set s
    | None => latches_set s
    end.
Proof.
  rewrite StrategyGetBuffer_global_counted. intros H.
  assert (Hk : keeps (preserved (@no_view BufferDesc) alloc_stats)
                 (r <- freelist_loop fuel strategy ;;
                  match r with
                  | Some (buf, strategy') => ret (buf, true, strategy')
                  | None => select_victim fuel strategy
                  end)).
  { repeat first [ apply freelist_loop_stats | apply select_victim_stats
                 | preserved_step ]. }
  apply Hk in H as (_ & Hl & _ & Hc). unfold alloc_stats in Hc.
  injection Hc as Hn Hb.
  destruct (counted_stats s) as (H1 & H2 & H3). repeat split; congruence.
Qed.

Lemma GetBufferFromRing_never_raises e st :
  never_raises e (GetBufferFromRing st).
Proof. repeat never_raises_step. Qed.

(** A call of [StrategyGetBuffer] that comes back either got its buffer
    from the ring, or is a run of the global path from the same state. *)
Lemma StrategyGetBuffer_final fuel strategy (s s' : State) :
  final_state (StrategyGetBuffer fuel strategy s) = Some s' ->
  (exists st i,
      strategy = Some st /\
      GetBufferFromRing st s = Ret (Some i, ring_advanced true st) s' /\
      StrategyGetBuffer fuel strategy s
      = Ret (Some i, false, Some (ring_advanced true st)) s') \/
  (exists strategy0,
      StrategyGetBuffer fuel strategy s
      = StrategyGetBuffer_global fuel strategy0 s /\
      final_state (StrategyGetBuffer_global fuel strategy0 s) = Some s').
Proof.
  destruct strategy as [st|]; [|intros H; right; exists None; auto].
  unfold StrategyGetBuffer, bind.
  destruct (GetBufferFromRing st s) as [[p st1] s1|e s1| | |] eqn:Hring;
    cbn [fst snd final_state]; try discriminate.
  - pose proof (GetBufferFromRing_inv _ _ _ _ _ Hring) as (bufnum & _ & Hp).
    destruct p as [i|].
    + destruct Hp as (-> & _). intros [= <-]. left. exists st, i. auto.
    + destruct Hp as (-> & -> & _). intros H. right.
      exists (Some (ring_advanced false st)). auto.
  - exfalso. exact (GetBufferFromRing_never_raises e st s s1 Hring).
Qed.

(** X5.  [*lock_held] and the allocation count.  A call of
    [StrategyGetBuffer] that comes back, by returning or through [elog],
    is of one of two kinds.  Either the ring supplied the buffer: then
    [*lock_held] is false and the control block is untouched, in particular
    the allocation is not counted.  Or the call took the BufFreelistLock:
    then [*lock_held] is true if it returns, and [numBufferAllocs] has been
    incremented by exactly one (as a [uint32]), also when the call ends in
    an error. *)
Theorem StrategyGetBuffer_counts_allocations fuel strategy (s s' : State) :
  final_state (StrategyGetBuffer fuel strategy s) = Some s' ->
  (exists i st',
      StrategyGetBuffer fuel strategy s = Ret (Some i, false, st') s' /\
      StrategyControl s' = StrategyControl s) \/
  ((exists buf st', StrategyGetBuffer fuel strategy s = Ret (buf, true, st') s')
   \/ (exists e, StrategyGetBuffer fuel strategy s = Elog e s')) /\
  numBufferAllocs (StrategyControl s')
  = uint32_incr (numBufferAllocs (StrategyControl s)).
Proof.
  intros H.
  destruct (StrategyGetBuffer_final _ _ _ _ H)
    as [(st & i & -> & Hring & Hrun)|(strategy0 & Heq & Hg)].
  - left. exists i, (Some (ring_advanced true st)). split; [exact Hrun|].
    apply GetBufferFromRing_inv in Hring as (_ & _ & _ & _ & -> & _).
    reflexivity.
  - right. split; [|apply (StrategyGetBuffer_global_stats _ _ _ _ Hg)].
    rewrite Heq.
    destruct (StrategyGetBuffer_global fuel strategy0 s)
      as [[[buf lh] st'] s1|e s1| | |] eqn:E; try discriminate.
    + injection Hg as <-. left. exists buf, st'.
      apply StrategyGetBuffer_global_Ret in E as (-> & _). reflexivity.
    + injection Hg as <-. right. eauto.
Qed.

Lemma StrategyGetBuffer_counts_allocations_witness :
  numBufferAllocs
    (StrategyControl (exec (StrategyGetBuffer 8 None) (small_pool POLICY_CLOCK)))
  = uint32_incr (numBufferAllocs (StrategyControl (small_pool POLICY_CLOCK))).
Proof.
  destruct (StrategyGetBuffer_counts_allocations 8 None
              (small_pool POLICY_CLOCK)
              (exec (StrategyGetBuffer 8 None) (small_pool POLICY_CLOCK)))
    as [(i & st' & Hrun & _)|[_ Hn]].
  - vm_compute. reflexivity.
  - vm_compute in Hrun. discriminate Hrun.
  - exact Hn.
Defined.

(** X6.  The bgwriter's wake-up.  After [StrategyNotifyBgWriter(latch)],
    the next call of [StrategyGetBuffer] that takes the BufFreelistLock sets
    that latch, once, and clears the registration, so that later calls set
    nothing until the bgwriter registers again; passing NULL withdraws a
    pending registration.  A call served from the ring neither sets the
    latch nor clears the registration. *)
Theorem bgwriter_notification fuel strategy l (s s' : State) :
  final_state ((StrategyNotifyBgWriter l ;; StrategyGetBuffer fuel strategy) s)
  = Some s' ->
  (bgwriterLatch (StrategyControl s') = l /\ latches_set s' = latches_set s /\
   exists i st',
     (StrategyNotifyBgWriter l ;; StrategyGetBuffer fuel strategy) s
     = Ret (Some i, false, st') s') \/
  (bgwriterLatch (StrategyControl s') = None /\
   latches_set s' = match l with
                    | Some x => x :: latches_set s
                    | None => latches_set s
                    end /\
   forall fuel2 strategy2 s2,
     final_state (StrategyGetBuffer fuel2 strategy2 s') = Some s2 ->
     latches_set s2 = latches_set s').
Proof.
  set (s1 := mkState (BufferReplacementPolicy s) (BufferDescriptors s)
               (set_bgwriterLatch l (StrategyControl s)) (latches_set s)).
  assert (Hn : StrategyNotifyBgWriter l s = Ret tt s1) by reflexivity.
  rewrite (bind_Ret _ _ _ _ _ Hn). intros H.
  destruct (StrategyGetBuffer_final _ _ _ _ H)
    as [(st & i & -> & Hring & Hrun)|(strategy0 & Heq & Hg)].
  - left. apply GetBufferFromRing_inv in Hring as (_ & _ & _ & _ & -> & _).
    split; [reflexivity|]. split; [reflexivity|]. eauto.
  - right. apply StrategyGetBuffer_global_stats in Hg as (_ & Hb & Hl).
    split; [exact Hb|]. split; [exact Hl|].
    intros fuel2 strategy2 s2 H2.
    destruct (StrategyGetBuffer_final _ _ _ _ H2)
      as [(st & i & -> & Hring & Hrun)|(strategy3 & Heq3 & Hg3)].
    + apply GetBufferFromRing_inv in Hring as (_ & _ & _ & _ & -> & _).
      reflexivity.
    + apply StrategyGetBuffer_global_stats in Hg3 as (_ & _ & Hl3).
      rewrite Hb in Hl3. exact Hl3.
Qed.

Lemma bgwriter_notification_witness :
  latches_set
    (exec (StrategyNotifyBgWriter (Some 7%nat) ;; StrategyGetBuffer 8 None)
          (small_pool POLICY_CLOCK))
  = [7%nat].
Proof.
  destruct (bgwriter_notification 8 None (Some 7%nat)
              (small_pool POLICY_CLOCK)
              (exec (StrategyNotifyBgWriter (Some 7%nat) ;;
                     StrategyGetBuffer 8 None)
                    (small_pool POLICY_CLOCK)))
    as [(_ & _ & i & st' & Hrun)|(_ & Hl & _)].
  - vm_compute. reflexivity.
  - vm_compute in Hrun. discriminate Hrun.
  - exact Hl.
Defined.

Lemma BufferUnpinned_stats fuel acquired bufIndex :
  keeps (preserved (@no_view BufferDesc) alloc_stats)
        (BufferUnpinned fuel acquired bufIndex).
Proof.
  assert (Hm : forall fuel head buf,
    keeps (preserved (@no_view BufferDesc) alloc_stats)
          (queue_member fuel head buf)).
  { clear. intros fuel. induction fuel as [|fuel IH]; intros head buf;
      cbn [queue_member]; preserved_loops. }
  unfold BufferUnpinned, unpinned_in_AM, unpinned_in_A1, unpinned_new_2Q,
    unpinned_other, append_to_AM.
  repeat first [ apply Hm | preserved_step ].
Qed.

Lemma StrategyFreeBuffer_stats buf :
  keeps (preserved (@no_view BufferDesc) alloc_stats) (StrategyFreeBuffer buf).
Proof. unfold StrategyFreeBuffer. repeat preserved_step. Qed.

Lemma uint32_incr_add a k :
  uint32_incr ((a + Z.of_nat k) mod 2 ^ 32) = (a + Z.of_nat (S k)) mod 2 ^ 32.
Proof.
  unfold uint32_incr. rewrite Z.add_mod_idemp_l by lia. f_equal. lia.
Qed.

Lemma allocations_count (s s' : State) k :
  allocations s k s' ->
  0 <= numBufferAllocs (StrategyControl s) < 2 ^ 32 ->
  numBufferAllocs (StrategyControl s')
  = (numBufferAllocs (StrategyControl s) + Z.of_nat k) mod 2 ^ 32.
Proof.
  intros Hrun Hrange.
  induction Hrun as [|k s1 s2 fuel strategy r _ IH Hcall Hlh
                     |k s1 s2 fuel strategy _ IH Hcall Hlh
                     |k s1 s2 buf _ IH Hcall
                     |k s1 s2 fuel acquired bufIndex _ IH Hcall
                     |k s1 s2 l _ IH Hcall
                     |k s1 i refs usage lock _ IH].
  - rewrite Z.add_0_r, Z.mod_small by lia. reflexivity.
  - rewrite <- IH.
    assert (Hf : final_state (StrategyGetBuffer fuel strategy s1) = Some s2)
      by (rewrite Hcall; reflexivity).
    destruct (StrategyGetBuffer_final _ _ _ _ Hf)
      as [(st & i & -> & Hring & Hrun2)|(strategy0 & Heq & Hg)].
    + apply GetBufferFromRing_inv in Hring as (_ & _ & _ & _ & -> & _).
      reflexivity.
    + rewrite Heq in Hcall. destruct r as [[buf lh] st'].
      apply StrategyGetBuffer_global_Ret in Hcall as (-> & _).
      discriminate Hlh.
  - rewrite <- uint32_incr_add, <- IH.
    destruct (StrategyGetBuffer_final _ _ _ _ Hcall)
      as [(st & i & -> & Hring & Hrun2)|(strategy0 & Heq & Hg)].
    + specialize (Hlh _ Hrun2). discriminate Hlh.
    + apply (StrategyGetBuffer_global_stats _ _ _ _ Hg).
  - rewrite <- IH. apply StrategyFreeBuffer_stats in Hcall as (_ & _ & _ & Hc).
    injection Hc as Hc _. exact Hc.
  - rewrite <- IH. apply BufferUnpinned_stats in Hcall as (_ & _ & _ & Hc).
    injection Hc as Hc _. exact Hc.
  - rewrite <- IH. injection Hcall as <-. reflexivity.
  - rewrite <- IH. reflexivity.
Qed.

(** X7.  [StrategySyncStart] is a read-and-clear of the allocation count.
    It returns the clock hand and, where asked, [completePasses] and
    [numBufferAllocs]; it changes nothing but [numBufferAllocs], which it
    sets to zero when the count was asked for.  After such a call, whatever
    the entry points of this file and the pin manager do next, the following
    [StrategySyncStart] reports the number of calls of [StrategyGetBuffer]
    that took the BufFreelistLock in between (modulo 2^32); calls served
    from a ring are not counted. *)
Theorem StrategySyncStart_read_and_clear want_passes want_allocs (s : State) :
  StrategySyncStart want_passes want_allocs s
  = Ret (nextVictimBuffer (StrategyControl s),
         if want_passes then Some (completePasses (StrategyControl s)) else None,
         if want_allocs then Some (numBufferAllocs (StrategyControl s)) else None)
        (sync_started want_allocs s) /\
  forall k s' want_passes',
    allocations (sync_started true s) k s' ->
    StrategySyncStart want_passes' true s'
    = Ret (nextVictimBuffer (StrategyControl s'),
           if want_passes' then Some (completePasses (StrategyControl s')) else None,
           Some (Z.of_nat k mod 2 ^ 32))
          (sync_started true s').
Proof.
  assert (Hrun : forall wp wa (s : State),
    StrategySyncStart wp wa s
    = Ret (nextVictimBuffer (StrategyControl s),
           if wp then Some (completePasses (StrategyControl s)) else None,
           if wa then Some (numBufferAllocs (StrategyControl s)) else None)
          (sync_started wa s)).
  { intros wp wa s0. unfold StrategySyncStart, sync_started.
    rewrite (bind_Ret get_control _ s0 (StrategyControl s0) s0 eq_refl).
    destruct wa; reflexivity. }
  split; [apply Hrun|].
  intros k s' wp' Hk. rewrite Hrun.
  apply allocations_count in Hk; [|cbn; lia].
  rewrite Hk. reflexivity.
Qed.

(** ** The freelist *)

Lemma preserved_sym {X Y : Type} (fd : BufferDesc -> X)
  (fc : BufferStrategyControl -> Y) s s' :
  preserved fd fc s s' -> preserved fd fc s' s.
Proof. intros (? & ? & ? & ?). repeat split; auto. Qed.

Lemma free_chain_frame (bufs bufs' : list BufferDesc) h l :
  (forall i, i ∈ l -> freeNext <$> bufs' !! i = freeNext <$> bufs !! i) ->
  free_chain bufs h l -> free_chain bufs' h l.
Proof.
  revert h. induction l as [|x l IH]; intros h Hsame; [auto|].
  intros (-> & b & Hb & Hc). split; [reflexivity|].
  assert (Hx : freeNext <$> bufs' !! x = freeNext <$> bufs !! x)
    by (apply Hsame; left).
  rewrite Hb in Hx. destruct (bufs' !! x) as [b'|]; [|discriminate].
  injection Hx as Hx. exists b'. split; [reflexivity|]. rewrite Hx.
  apply IH; [|exact Hc]. intros i Hi. apply Hsame. right. exact Hi.
Qed.

Lemma free_chain_head (bufs : list BufferDesc) h l :
  free_chain bufs h l -> h <> FREENEXT_NOT_IN_LIST /\ -1 <= h /\
                         (h < 0 <-> l = []).
Proof.
  unfold FREENEXT_NOT_IN_LIST. destruct l as [|x l]; cbn.
  - intros ->. repeat split; try lia; auto.
  - intros (-> & _). repeat split; try lia; discriminate.
Qed.


Lemma freelist_is_preserved (s s' : State) l :
  preserved freeNext freelist_ends s s' ->
  freelist_is s l -> freelist_is s' l.
Proof.
  intros Hp (Hc & Hnd & Hin & Hlast).
  pose proof Hp as (_ & _ & Hd & He). injection He as Hf Hl.
  split; [|split; [|split]].
  - rewrite Hf. eapply free_chain_frame; [|exact Hc].
    intros i _. rewrite <- !list_lookup_fmap, Hd. reflexivity.
  - exact Hnd.
  - intros i b' Hb'.
    destruct (preserved_lookup _ _ _ _ _ _ (preserved_sym _ _ _ _ Hp) Hb')
      as (b & Hb & Heq).
    rewrite <- Heq. apply Hin, Hb.
  - intros t Ht. rewrite Hl. apply Hlast, Ht.
Qed.

Lemma freelist_is_head (s : State) x l :
  freelist_is s (x :: l) ->
  firstFreeBuffer (StrategyControl s) = Z.of_nat x /\
  exists b, BufferDescriptors s !! x = Some b /\
            freeNext b <> FREENEXT_NOT_IN_LIST.
Proof.
  intros ((Hh & b & Hb & Hc) & _ & Hin & _). split; [exact Hh|].
  exists b. split; [exact Hb|]. apply (Hin x b Hb). left.
Qed.

Lemma popped_freelist (s : State) x l b :
  freelist_is s (x :: l) -> BufferDescriptors s !! x = Some b ->
  freelist_is (popped x b s) l.
Proof.
  intros ((Hh & b0 & Hb0 & Hc) & Hnd & Hin & Hlast) Hb.
  assert (b0 = b) by congruence. subst b0.
  apply NoDup_cons in Hnd as [Hx Hnd].
  split; [|split; [|split]].
  - cbn. eapply free_chain_frame; [|exact Hc].
    intros i Hi. rewrite list_lookup_alter_ne; [reflexivity|].
    intros ->. contradiction.
  - exact Hnd.
  - intros i b' Hb'. cbn in Hb'. rewrite list_lookup_alter in Hb'.
    case_decide as Hi.
    + subst i. rewrite Hb in Hb'. injection Hb' as <-. cbn. tauto.
    + rewrite <- (Hin i b' Hb'). rewrite elem_of_cons. intuition congruence.
  - intros t Ht. cbn. apply Hlast. rewrite last_cons, Ht. reflexivity.
Qed.

Lemma pushed_freelist (s : State) i l b :
  freelist_is s l -> BufferDescriptors s !! i = Some b ->
  buf_id b = Z.of_nat i -> freeNext b = FREENEXT_NOT_IN_LIST ->
  freelist_is (free_buffer_state i b s) (i :: l).
Proof.
  intros (Hc & Hnd & Hin & Hlast) Hb Hid Hfree.
  assert (Hi : i ∉ l) by (rewrite (Hin i b Hb); tauto).
  destruct (free_chain_head _ _ _ Hc) as (Hne & Hge & Hnil).
  unfold free_buffer_state. rewrite Hfree, Z.eqb_refl.
  split; [|split; [|split]].
  - cbn [free_chain BufferDescriptors StrategyControl firstFreeBuffer
         set_firstFreeBuffer].
    split; [exact Hid|].
    exists (set_freeNext (firstFreeBuffer (StrategyControl s)) b). split.
    + rewrite list_lookup_alter_eq, Hb. reflexivity.
    + cbn [freeNext set_freeNext]. eapply free_chain_frame; [|exact Hc].
      intros j Hj. rewrite list_lookup_alter_ne; [reflexivity|].
      intros ->. contradiction.
  - apply NoDup_cons. auto.
  - intros j b' Hb'. cbn in Hb'. rewrite list_lookup_alter in Hb'.
    case_decide as Hj.
    + subst j. rewrite Hb in Hb'. injection Hb' as <-. cbn.
      split; [intros _; exact Hne|intros _; left].
    + rewrite <- (Hin j b' Hb'). rewrite elem_of_cons. intuition congruence.
  - intros t Ht. cbn [StrategyControl].
    destruct (firstFreeBuffer (StrategyControl s) <? 0) eqn:E.
    + apply Z.ltb_lt in E. apply Hnil in E. subst l.
      injection Ht as <-. cbn. exact Hid.
    + cbn. apply Hlast. rewrite last_cons in Ht.
      destruct (last l) as [t'|] eqn:El; [exact Ht|].
      apply Z.ltb_ge in E. apply last_None in El. subst l.
      cbn in Hc. lia.
Qed.

Lemma free_buffer_state_preserved i b (s : State) :
  preserved beside_freeNext beside_freelist s (free_buffer_state i b s).
Proof.
  unfold free_buffer_state.
  destruct (freeNext b =? FREENEXT_NOT_IN_LIST); [|apply preserved_refl].
  split; [reflexivity|]. split; [reflexivity|]. split.
  - cbn. apply list_eq. intros j.
    rewrite !list_lookup_fmap, list_lookup_alter. case_decide; [|reflexivity].
    subst. destruct (BufferDescriptors s !! j); reflexivity.
  - cbn. destruct (firstFreeBuffer (StrategyControl s) <? 0); reflexivity.
Qed.

(** X8.  [StrategyFreeBuffer] pushes at the head of the freelist.  On a
    well-formed freelist holding [l], releasing frame [i] leaves a
    well-formed freelist holding [i :: l]; [lastFreeBuffer] is set only when
    the list was empty.  When the frame is on the list already the call
    changes nothing at all.  In either case it writes no field but the
    frame's [freeNext] and the head and tail of the freelist: pin count,
    usage count, header lock and the links and ends of the victim queues
    are as before, so a frame that sits in a victim queue stays there. *)
Theorem StrategyFreeBuffer_pushes (s : State) l i :
  freelist_is s l -> ids_ok s -> valid_frame s i ->
  exists s',
    StrategyFreeBuffer (Some i) s = Ret tt s' /\
    freelist_is s' (if bool_decide (i ∈ l) then l else i :: l) /\
    (i ∈ l -> s' = s) /\
    (l <> [] ->
     lastFreeBuffer (StrategyControl s') = lastFreeBuffer (StrategyControl s)) /\
    preserved beside_freeNext beside_freelist s s'.
Proof.
  intros Hfl Hids Hv. destruct (lookup_lt_is_Some_2 _ _ Hv) as [b Hb].
  exists (free_buffer_state i b s).
  split; [apply StrategyFreeBuffer_run, Hb|].
  pose proof Hfl as (Hc & _ & Hin & _).
  split; [|split; [|split; [|apply free_buffer_state_preserved]]].
  - case_bool_decide as Hi.
    + apply (Hin i b Hb) in Hi. unfold free_buffer_state.
      apply Z.eqb_neq in Hi. rewrite Hi. exact Hfl.
    + apply pushed_freelist; auto.
      destruct (decide (freeNext b = FREENEXT_NOT_IN_LIST)) as [|Hne]; auto.
      apply (Hin i b Hb) in Hne. contradiction.
  - intros Hi. apply (Hin i b Hb) in Hi. unfold free_buffer_state.
    apply Z.eqb_neq in Hi. rewrite Hi. reflexivity.
  - intros Hl. unfold free_buffer_state.
    destruct (freeNext b =? FREENEXT_NOT_IN_LIST); [|reflexivity].
    destruct (free_chain_head _ _ _ Hc) as (_ & _ & Hnil).
    destruct (firstFreeBuffer (StrategyControl s) <? 0) eqn:E; [|reflexivity].
    apply Z.ltb_lt in E. apply Hnil in E. contradiction.
Qed.

Lemma free_chain_seq (bufs : list BufferDesc) m k :
  (forall i b, bufs !! i = Some b ->
     freeNext b = if Nat.eqb (S i) (length bufs) then -1 else Z.of_nat (S i)) ->
  (k + S m = length bufs)%nat ->
  free_chain bufs (Z.of_nat k) (seq k (S m)).
Proof.
  intros Hth. revert k. induction m as [|m IH]; intros k Hk.
  - cbn. split; [reflexivity|].
    destruct (lookup_lt_is_Some_2 bufs k) as [b Hb]; [lia|].
    exists b. split; [exact Hb|]. rewrite (Hth k b Hb).
    replace (S k) with (length bufs) by lia. rewrite Nat.eqb_refl. reflexivity.
  - change (seq k (S (S m))) with (k :: seq (S k) (S m)).
    split; [reflexivity|].
    destruct (lookup_lt_is_Some_2 bufs k) as [b Hb]; [lia|].
    exists b. split; [exact Hb|]. rewrite (Hth k b Hb).
    destruct (Nat.eqb (S k) (length bufs)) eqn:E;
      [apply Nat.eqb_eq in E; lia|].
    apply IH. lia.
Qed.

(** X9.  [StrategyInitialize] on its first call.  When the descriptors have
    been threaded into one list (frame [i] pointing at frame [i + 1], the
    last one at -1), the first [StrategyInitialize(true)] makes the freelist
    the whole pool, frames 0 to [NBuffers - 1] in this order, with both
    victim queues empty, the clock hand on frame 0, the counters at zero and
    no latch registered; it does not touch the descriptors.  A later call
    that finds the control block in place changes nothing. *)
Theorem StrategyInitialize_freelist (s : State) :
  threaded s -> (0 < length (BufferDescriptors s))%nat ->
  exists s',
    StrategyInitialize false true s = Ret tt s' /\
    freelist_is s' (seq 0 (length (BufferDescriptors s))) /\
    BufferDescriptors s' = BufferDescriptors s /\
    StrategyControl s'
    = mkControl 0 0 (NBuffers s - 1) 0 0 None None None None None /\
    StrategyInitialize true false s' = Ret tt s'.
Proof.
  intros Hth Hn.
  exists (mkState (BufferReplacementPolicy s) (BufferDescriptors s)
            (mkControl 0 0 (NBuffers s - 1) 0 0 None None None None None)
            (latches_set s)).
  split; [reflexivity|]. split; [|repeat split].
  destruct (length (BufferDescriptors s)) as [|m] eqn:Hlen; [lia|].
  split; [|split; [|split]].
  - cbn [BufferDescriptors StrategyControl firstFreeBuffer].
    apply (free_chain_seq (BufferDescriptors s) m 0%nat Hth). lia.
  - apply NoDup_seq.
  - intros i b Hb. cbn in Hb. rewrite (Hth i b Hb).
    assert (Hi : i ∈ seq 0 (S m)).
    { apply elem_of_seq. apply lookup_lt_Some in Hb. lia. }
    unfold FREENEXT_NOT_IN_LIST.
    destruct (Nat.eqb (S i) (length (BufferDescriptors s)));
      split; intros; try exact Hi; lia.
  - intros t Ht. cbn [StrategyControl lastFreeBuffer]. unfold NBuffers.
    rewrite Hlen. rewrite seq_S, last_snoc in Ht. injection Ht as <-. lia.
Qed.

Lemma freelist_is_counted (s : State) l :
  freelist_is s l -> freelist_is (counted s) l.
Proof.
  intros (Hc & Hnd & Hin & Hlast).
  assert (Hl : lastFreeBuffer (StrategyControl (counted s))
               = lastFreeBuffer (StrategyControl s)).
  { unfold counted. destruct (bgwriterLatch (StrategyControl s)); reflexivity. }
  split; [|split; [|split]].
  - rewrite firstFreeBuffer_counted, counted_frames. exact Hc.
  - exact Hnd.
  - rewrite counted_frames. exact Hin.
  - rewrite Hl. exact Hlast.
Qed.

(** One turn of the freelist loop, up to where it takes the header lock. *)
Lemma freelist_loop_step fuel strategy (s : State) x l b :
  freelist_is s (x :: l) -> BufferDescriptors s !! x = Some b ->
  freelist_loop (S fuel) strategy s
  = (LockBufHdr (Some x) ;;
     b' <- deref (Some x) ;;
     if (refcount b' =? 0) && (usage_count b' =? 0) then
       strategy' <- AddBufferToRing strategy (Some x) ;;
       ret (Some (Some x, strategy'))
     else
       UnlockBufHdr (Some x) ;;
       freelist_loop fuel strategy) (popped x b s).
Proof.
  intros Hfl Hb.
  destruct (freelist_is_head _ _ _ Hfl) as (Hh & b0 & Hb0 & Hne).
  assert (b0 = b) by congruence. subst b0.
  assert (Hv : valid_frame s x) by (eapply lookup_lt_Some, Hb).
  cbn [freelist_loop].
  rewrite (bind_Ret get_control _ s (StrategyControl s) s eq_refl).
  rewrite Hh. replace (0 <=? Z.of_nat x) with true
    by (symmetry; apply Z.leb_le; lia).
  rewrite (bind_Ret _ _ _ _ _ (desc_addr_frame s x Hv)).
  rewrite (bind_Ret _ _ _ _ _ (deref_Some s x b Hb)).
  apply Z.eqb_neq in Hne. rewrite Hne. cbn [negb Assert].
  rewrite (bind_Ret (ret tt) _ s tt s eq_refl).
  rewrite (bind_Ret (modify_control (set_firstFreeBuffer (freeNext b))) _ s tt
             (mkState (BufferReplacementPolicy s) (BufferDescriptors s)
                (set_firstFreeBuffer (freeNext b) (StrategyControl s))
                (latches_set s)) eq_refl).
  erewrite bind_Ret by (apply store_Some; exact Hv). reflexivity.
Qed.

Lemma popped_lookup_ne (s : State) x b i :
  i <> x -> BufferDescriptors (popped x b s) !! i = BufferDescriptors s !! i.
Proof. intros Hi. cbn. apply list_lookup_alter_ne. congruence. Qed.

Lemma popped_lookup (s : State) x b :
  BufferDescriptors s !! x = Some b ->
  BufferDescriptors (popped x b s) !! x
  = Some (set_freeNext FREENEXT_NOT_IN_LIST b).
Proof. intros Hb. cbn. rewrite list_lookup_alter_eq, Hb. reflexivity. Qed.

(** The loop throws a discardable head away... *)
Lemma freelist_loop_discard fuel strategy (s : State) x l :
  freelist_is s (x :: l) -> discardable s x ->
  freelist_loop (S fuel) strategy s = freelist_loop fuel strategy (pop x s).
Proof.
  intros Hfl (b & Hb & Hl & Hu).
  rewrite (freelist_loop_step fuel strategy s x l b Hfl Hb).
  unfold pop. rewrite Hb.
  pose proof (popped_lookup s x b Hb) as Hb1.
  rewrite (bind_Ret _ _ _ _ _ (LockBufHdr_run _ x _ Hb1 Hl)).
  rewrite (bind_Ret _ _ _ _ _ (deref_Some _ _ _ (lock_frame_lookup _ _ _ Hb1))).
  cbn [refcount usage_count set_buf_hdr_lock set_freeNext].
  unfold usable in Hu. rewrite Hu.
  erewrite bind_Ret; [reflexivity|].
  rewrite UnlockBufHdr_run
    by (unfold lock_frame; rewrite valid_frame_update;
        eapply lookup_lt_Some, Hb1).
  rewrite (lock_unlock_frame _ _ _ Hb1 Hl). reflexivity.
Qed.

(** ... and hands out a usable one, with its header lock held. *)
Lemma freelist_loop_take fuel (s : State) x l b :
  freelist_is s (x :: l) -> BufferDescriptors s !! x = Some b ->
  buf_hdr_lock b = false -> usable b = true ->
  freelist_loop (S fuel) None s
  = Ret (Some (Some x, None)) (lock_frame x (pop x s)).
Proof.
  intros Hfl Hb Hl Hu.
  rewrite (freelist_loop_step fuel None s x l b Hfl Hb).
  unfold pop. rewrite Hb.
  pose proof (popped_lookup s x b Hb) as Hb1.
  rewrite (bind_Ret _ _ _ _ _ (LockBufHdr_run _ x _ Hb1 Hl)).
  rewrite (bind_Ret _ _ _ _ _ (deref_Some _ _ _ (lock_frame_lookup _ _ _ Hb1))).
  cbn [refcount usage_count set_buf_hdr_lock set_freeNext].
  unfold usable in Hu. rewrite Hu. reflexivity.
Qed.

Lemma pop_freelist (s : State) x l :
  freelist_is s (x :: l) -> freelist_is (pop x s) l.
Proof.
  intros Hfl. destruct (freelist_is_head _ _ _ Hfl) as (_ & b & Hb & _).
  unfold pop. rewrite Hb. apply popped_freelist; assumption.
Qed.

Lemma pop_lookup_ne (s : State) x i :
  i <> x -> BufferDescriptors (pop x s) !! i = BufferDescriptors s !! i.
Proof.
  intros Hi. unfold pop. destruct (BufferDescriptors s !! x); [|reflexivity].
  apply popped_lookup_ne, Hi.
Qed.

Lemma pop_all_lookup_ne (s : State) l i :
  i ∉ l -> BufferDescriptors (pop_all l s) !! i = BufferDescriptors s !! i.
Proof.
  revert s. induction l as [|x l IH]; intros s Hi; [reflexivity|].
  apply not_elem_of_cons in Hi as [Hx Hi]. cbn [pop_all].
  rewrite IH by exact Hi. apply pop_lookup_ne, Hx.
Qed.

Lemma freelist_loop_discards fuel strategy (s : State) r1 l2 :
  freelist_is s (r1 ++ l2) -> (forall i, i ∈ r1 -> discardable s i) ->
  freelist_loop (length r1 + fuel) strategy s
  = freelist_loop fuel strategy (pop_all r1 s) /\
  freelist_is (pop_all r1 s) l2.
Proof.
  revert s. induction r1 as [|x r1 IH]; intros s Hfl Hd; [auto|].
  change ((x :: r1) ++ l2) with (x :: (r1 ++ l2)) in Hfl.
  cbn [length pop_all Nat.add].
  rewrite (freelist_loop_discard _ _ s x (r1 ++ l2) Hfl)
    by (apply Hd; left).
  apply IH; [apply pop_freelist, Hfl|].
  intros i Hi. destruct (Hd i) as (b & Hb & Hrest); [right; exact Hi|].
  exists b. split; [|exact Hrest].
  rewrite pop_lookup_ne; [exact Hb|].
  destruct Hfl as (_ & Hnd & _). apply NoDup_cons in Hnd as [Hx _].
  intros ->. apply Hx. apply elem_of_app. left. exact Hi.
Qed.

Lemma discardable_counted (s : State) i :
  discardable s i -> discardable (counted s) i.
Proof. unfold discardable. rewrite counted_frames. auto. Qed.

(** X10.  The freelist is tried first, whatever the policy.  On a
    well-formed freelist whose first frames [r1] are pinned or have a
    nonzero usage count, [StrategyGetBuffer] takes these frames off the list
    one by one without returning any of them.  If the list holds a frame
    [x] after them that is unpinned with a zero usage count, the call
    returns [x] with its header lock held and [*lock_held] set, and the
    freelist is what followed [x]; no victim queue is consulted.  If there
    is no frame after them, the freelist is now empty and the call goes on
    to the replacement policy.  In either case the frames thrown away are
    off the freelist. *)
Theorem freelist_tried_first fuel (s : State) r1 l2 :
  freelist_is s (r1 ++ l2) -> (forall i, i ∈ r1 -> discardable s i) ->
  (length r1 < fuel)%nat ->
  let s1 := pop_all r1 (counted s) in
  freelist_is s1 l2 /\
  (forall i, i ∈ r1 -> ~ on_freelist s1 i) /\
  match l2 with
  | [] => StrategyGetBuffer fuel None s = select_victim fuel None s1
  | x :: r2 =>
      forall b, BufferDescriptors s !! x = Some b ->
                buf_hdr_lock b = false -> usable b = true ->
        StrategyGetBuffer fuel None s
        = Ret (Some x, true, None) (lock_frame x (pop x s1)) /\
        freelist_is (lock_frame x (pop x s1)) r2 /\
        returned_frame_ok (lock_frame x (pop x s1)) x /\
        ~ on_freelist (lock_frame x (pop x s1)) x
  end.
Proof.
  intros Hfl Hd Hfuel s1.
  assert (Hfl0 : freelist_is (counted s) (r1 ++ l2))
    by (apply freelist_is_counted, Hfl).
  assert (Hd0 : forall i, i ∈ r1 -> discardable (counted s) i)
    by (intros i Hi; apply discardable_counted, Hd, Hi).
  assert (Hnd : NoDup (r1 ++ l2)) by apply Hfl.
  destruct fuel as [|fuel]; [lia|].
  destruct (freelist_loop_discards (S fuel - length r1) None (counted s) r1 l2
              Hfl0 Hd0) as [Hrun Hfl1].
  replace (length r1 + (S fuel - length r1))%nat with (S fuel) in Hrun by lia.
  replace (S fuel - length r1)%nat with (S (fuel - length r1)) in Hrun by lia.
  fold s1 in Hrun, Hfl1.
  split; [exact Hfl1|]. split.
  - intros i Hi (b & Hb & Hne).
    destruct Hfl1 as (_ & _ & Hin & _). apply (Hin i b Hb) in Hne.
    apply NoDup_app in Hnd as (_ & Hdis & _). exact (Hdis i Hi Hne).
  - unfold StrategyGetBuffer. rewrite StrategyGetBuffer_global_counted.
    destruct l2 as [|x r2].
    + rewrite (freelist_loop_empty (fuel - length r1) None s1) in Hrun.
      * rewrite (bind_Ret _ _ _ _ _ Hrun). reflexivity.
      * destruct Hfl1 as (Hc & _). cbn in Hc. lia.
    + intros b Hb Hl Hu.
      assert (Hx : x ∉ r1).
      { apply NoDup_app in Hnd as (_ & Hdis & _). intros Hx.
        apply (Hdis x Hx). left. }
      assert (Hb1 : BufferDescriptors s1 !! x = Some b).
      { unfold s1. rewrite pop_all_lookup_ne by exact Hx.
        rewrite counted_frames. exact Hb. }
      rewrite (freelist_loop_take _ s1 x r2 b Hfl1 Hb1 Hl Hu) in Hrun.
      rewrite (bind_Ret _ _ _ _ _ Hrun).
      assert (Hfl2 : freelist_is (lock_frame x (pop x s1)) r2).
      { eapply freelist_is_preserved; [|apply pop_freelist, Hfl1].
        apply preserved_update_frame. reflexivity. }
      assert (Hb2 : BufferDescriptors (lock_frame x (pop x s1)) !! x
                    = Some (set_buf_hdr_lock true
                              (set_freeNext FREENEXT_NOT_IN_LIST b))).
      { apply lock_frame_lookup. unfold pop. rewrite Hb1.
        apply popped_lookup, Hb1. }
      split; [reflexivity|]. split; [exact Hfl2|]. split.
      * apply andb_prop in Hu as [Hr _]. apply Z.eqb_eq in Hr.
        eapply returned_frame_ok_intro; [exact Hb2|reflexivity|exact Hr].
      * intros (b' & Hb' & Hne). rewrite Hb2 in Hb'. injection Hb' as <-.
        apply Hne. reflexivity.
Qed.

(** *** The freelist stays well formed *)

Lemma keeps_freelist_refl s : keeps_freelist s s.
Proof. intros H. exact H. Qed.

Lemma keeps_freelist_trans s1 s2 s3 :
  keeps_freelist s1 s2 -> keeps_freelist s2 s3 -> keeps_freelist s1 s3.
Proof. unfold keeps_freelist. auto. Qed.

Lemma keeps_freelist_preserved (s s' : State) :
  preserved freeNext freelist_ends s s' -> keeps_freelist s s'.
Proof. intros Hp [l Hl]. exists l. eapply freelist_is_preserved; eauto. Qed.

Ltac keeps_freelist_step :=
  first
    [ apply keeps_ret; exact keeps_freelist_refl
    | apply keeps_elog; exact keeps_freelist_refl
    | apply keeps_fault
    | apply keeps_out_of_fuel
    | apply keeps_stuck
    | apply keeps_get_control; exact keeps_freelist_refl
    | apply keeps_get_policy; exact keeps_freelist_refl
    | apply keeps_get_NBuffers; exact keeps_freelist_refl
    | apply keeps_desc_addr; exact keeps_freelist_refl
    | apply keeps_deref; exact keeps_freelist_refl
    | apply keeps_Assert; exact keeps_freelist_refl
    | apply keeps_store; intros; apply keeps_freelist_preserved,
        preserved_update_frame; reflexivity
    | apply keeps_modify_control; intros; apply keeps_freelist_preserved,
        preserved_control; reflexivity
    | apply (keeps_bind _ keeps_freelist_trans); [|intros ?]
    | match goal with
      | |- keeps _ (if ?b then _ else _) => destruct b
      | |- keeps _ (match ?x with _ => _ end) => destruct x
      end
    | progress unfold LockBufHdr, UnlockBufHdr, AddBufferToRing,
        GetBufferFromRing, queue_walk_result, return_result,
        unlink_victim, twoq_scan_result, clock_select, queue_select
    | match goal with q : Queue |- _ => destruct q end ].

Ltac keeps_freelist_loops :=
  repeat first
    [ match goal with IH : _ |- _ => apply IH end
    | keeps_freelist_step ].

Lemma freelist_loop_keeps_freelist fuel strategy :
  keeps keeps_freelist (freelist_loop fuel strategy).
Proof.
  induction fuel as [|fuel IH]; [intros s s' [=]|].
  intros s s' H [l Hl]. destruct l as [|x l].
  - rewrite freelist_loop_empty in H.
    + injection H as <-. exists []. exact Hl.
    + destruct Hl as (Hc & _). cbn in Hc. lia.
  - destruct (freelist_is_head _ _ _ Hl) as (_ & b & Hb & _).
    rewrite (freelist_loop_step fuel strategy s x l b Hl Hb) in H.
    revert H. 
    assert (Hk : keeps keeps_freelist
                   (LockBufHdr (Some x) ;;
                    b' <- deref (Some x) ;;
                    if (refcount b' =? 0) && (usage_count b' =? 0) then
                      strategy' <- AddBufferToRing strategy (Some x) ;;
                      ret (Some (Some x, strategy'))
                    else
                      UnlockBufHdr (Some x) ;;
                      freelist_loop fuel strategy)).
    { keeps_freelist_loops. }
    intros H. apply (Hk _ _ H). exists l. apply popped_freelist; assumption.
Qed.

Lemma clock_sweep_keeps_freelist fuel strategy trycounter :
  keeps keeps_freelist (clock_sweep fuel strategy trycounter).
Proof.
  revert trycounter. induction fuel as [|fuel IH]; intros trycounter;
    cbn [clock_sweep]; keeps_freelist_loops.
Qed.

Lemma queue_walk_keeps_freelist fuel link buf :
  keeps keeps_freelist (queue_walk fuel link buf).
Proof.
  revert buf. induction fuel as [|fuel IH]; intros buf;
    cbn [queue_walk]; keeps_freelist_loops.
Qed.

Lemma a1_size_keeps_freelist fuel head acc :
  keeps keeps_freelist (a1_size fuel head acc).
Proof.
  revert head acc. induction fuel as [|fuel IH]; intros head acc;
    cbn [a1_size]; keeps_freelist_loops.
Qed.

Lemma twoq_scan_keeps_freelist fuel q buf :
  keeps keeps_freelist (twoq_scan fuel q buf).
Proof.
  revert buf. induction fuel as [|fuel IH]; intros buf;
    cbn [twoq_scan]; keeps_freelist_loops.
Qed.

Lemma queue_member_keeps_freelist fuel head buf :
  keeps keeps_freelist (queue_member fuel head buf).
Proof.
  revert head. induction fuel as [|fuel IH]; intros head;
    cbn [queue_member]; keeps_freelist_loops.
Qed.

Lemma select_victim_keeps_freelist fuel strategy :
  keeps keeps_freelist (select_victim fuel strategy).
Proof.
  unfold select_victim, twoq_victim, twoq_select.
  repeat first [ apply clock_sweep_keeps_freelist
               | apply queue_walk_keeps_freelist
               | apply a1_size_keeps_freelist | apply twoq_scan_keeps_freelist
               | keeps_freelist_step ].
Qed.

Lemma StrategyGetBuffer_keeps_freelist fuel strategy :
  keeps keeps_freelist (StrategyGetBuffer fuel strategy).
Proof.
  intros s s' H.
  destruct (StrategyGetBuffer_final _ _ _ _ H)
    as [(st & i & -> & Hring & _)|(strategy0 & _ & Hg)].
  - apply GetBufferFromRing_inv in Hring as (_ & _ & _ & _ & -> & _).
    apply keeps_freelist_preserved, preserved_update_frame. reflexivity.
  - rewrite StrategyGetBuffer_global_counted in Hg.
    apply keeps_freelist_trans with (s2 := counted s).
    { intros [l Hl]. exists l. apply freelist_is_counted, Hl. }
    assert (Hk : keeps keeps_freelist
                   (r <- freelist_loop fuel strategy0 ;;
                    match r with
                    | Some (buf, strategy') => ret (buf, true, strategy')
                    | None => select_victim fuel strategy0
                    end)).
    { repeat first [ apply freelist_loop_keeps_freelist
                   | apply select_victim_keeps_freelist
                   | keeps_freelist_step ]. }
    exact (Hk _ _ Hg).
Qed.

Lemma BufferUnpinned_keeps_freelist fuel acquired bufIndex :
  keeps keeps_freelist (BufferUnpinned fuel acquired bufIndex).
Proof.
  unfold BufferUnpinned, unpinned_in_AM, unpinned_in_A1, unpinned_new_2Q,
    unpinned_other, append_to_AM.
  repeat first [ apply queue_member_keeps_freelist | keeps_freelist_step ].
Qed.

Lemma pin_manager_ids (s : State) i refs usage lock :
  ids_ok s -> ids_ok (update_frame i (pin_manager_update refs usage lock) s).
Proof.
  apply same_ids_ok, same_ids_update_frame. reflexivity.
Qed.

(** X11.  The freelist invariant.  Every operation of the interface
    ([StrategyInitialize] that finds the control block, [StrategyGetBuffer],
    [StrategyFreeBuffer], [BufferUnpinned]) and every update of a frame by
    the pin manager takes a state in which every descriptor carries its own
    index and the freelist is well formed (a chain without repetition from
    [firstFreeBuffer] to -1 that holds exactly the frames whose [freeNext]
    is not [FREENEXT_NOT_IN_LIST], [lastFreeBuffer] being its last frame)
    to a state of the same kind, also when the call ends in an error. *)
Theorem freelist_stays_well_formed (s s' : State) :
  step s s' ->
  ids_ok s -> (exists l, freelist_is s l) ->
  ids_ok s' /\ exists l', freelist_is s' l'.
Proof.
  intros Hstep Hids Hfl.
  destruct Hstep as [init s' H|fuel strategy s' H|buf s' H
                    |fuel acquired bufIndex s' H|i refs usage lock].
  - apply StrategyInitialize_found in H as ->. auto.
  - split.
    + eapply same_ids_ok; [|exact Hids].
      eapply StrategyGetBuffer_keeps_ids, H.
    + eapply StrategyGetBuffer_keeps_freelist; eauto.
  - split.
    + eapply same_ids_ok; [|exact Hids].
      eapply StrategyFreeBuffer_keeps_ids, H.
    + destruct buf as [i|]; [|discriminate].
      destruct (BufferDescriptors s !! i) as [b|] eqn:Hb.
      2:{ unfold StrategyFreeBuffer, bind, deref in H. rewrite Hb in H.
          discriminate. }
      rewrite (StrategyFreeBuffer_run s i b Hb) in H. injection H as <-.
      destruct Hfl as [l Hl].
      destruct (decide (freeNext b = FREENEXT_NOT_IN_LIST)) as [Hfree|Hne].
      * exists (i :: l). apply pushed_freelist; auto.
      * exists l. unfold free_buffer_state. apply Z.eqb_neq in Hne.
        rewrite Hne. exact Hl.
  - split.
    + eapply same_ids_ok; [|exact Hids].
      eapply BufferUnpinned_keeps_ids, H.
    + eapply BufferUnpinned_keeps_freelist; eauto.
  - split; [apply pin_manager_ids, Hids|].
    revert Hfl. apply keeps_freelist_preserved, preserved_update_frame.
    reflexivity.
Qed.

(** ** The walks of LRU and MRU *)

Lemma queue_walk_skip fuel link (s : State) i :
  skippable s i ->
  exists b, BufferDescriptors s !! i = Some b /\
    queue_walk (S fuel) link (Some i) s = queue_walk fuel link (link b) s.
Proof.
  intros (b & Hb & Hl & Hr). exists b. split; [exact Hb|].
  cbn [queue_walk].
  rewrite (bind_Ret _ _ _ _ _ (LockBufHdr_run s i b Hb Hl)).
  rewrite (bind_Ret _ _ _ _ _ (deref_Some _ _ _ (lock_frame_lookup s i b Hb))).
  cbn [refcount set_buf_hdr_lock]. apply Z.eqb_neq in Hr. rewrite Hr.
  erewrite bind_Ret.
  2:{ rewrite UnlockBufHdr_run
        by (unfold lock_frame; rewrite valid_frame_update;
            eapply lookup_lt_Some, Hb).
      rewrite (lock_unlock_frame s i b Hb Hl). reflexivity. }
  rewrite (bind_Ret _ _ _ _ _ (deref_Some s i b Hb)). reflexivity.
Qed.

Lemma queue_walk_take fuel link (s : State) x :
  takeable s x ->
  queue_walk (S fuel) link (Some x) s = Ret (Some x, Z.of_nat x) (lock_frame x s).
Proof.
  intros (b & Hb & Hl & Hr & Hid). cbn [queue_walk].
  rewrite (bind_Ret _ _ _ _ _ (LockBufHdr_run s x b Hb Hl)).
  rewrite (bind_Ret _ _ _ _ _ (deref_Some _ _ _ (lock_frame_lookup s x b Hb))).
  cbn [refcount buf_id set_buf_hdr_lock]. rewrite Hr, Hid. reflexivity.
Qed.

(** Following [next] from the head of a segment. *)
Lemma queue_walk_next fuel (s : State) l0 r1 x r2 :
  seg (BufferDescriptors s) None (l0 ++ r1 ++ x :: r2) None ->
  (forall i, i ∈ r1 -> skippable s i) -> takeable s x ->
  (length r1 < fuel)%nat ->
  queue_walk fuel next (hd_ptr (r1 ++ x :: r2) None) s
  = Ret (Some x, Z.of_nat x) (lock_frame x s).
Proof.
  revert fuel l0. induction r1 as [|i r1 IH]; intros fuel l0 Hs Hskip Hx Hfuel;
    (destruct fuel as [|fuel]; [cbn in Hfuel; lia|]).
  - cbn [app hd_ptr]. apply queue_walk_take, Hx.
  - change ((i :: r1) ++ x :: r2) with (i :: (r1 ++ x :: r2)) in *.
    cbn [hd_ptr].
    destruct (queue_walk_skip fuel next s i) as (b & Hb & ->);
      [apply Hskip; left|].
    destruct (seg_middle _ _ _ _ _ _ Hs) as (b' & Hb' & _ & Hn).
    assert (b' = b) by congruence. subst b'. rewrite Hn.
    apply (IH fuel (l0 ++ [i])).
    + rewrite <- app_assoc. exact Hs.
    + intros j Hj. apply Hskip. right. exact Hj.
    + exact Hx.
    + cbn in Hfuel. lia.
Qed.

(** Following [previous] from the tail of a segment. *)
Lemma queue_walk_previous fuel (s : State) l1 x r2 r0 :
  seg (BufferDescriptors s) None (l1 ++ x :: r2 ++ r0) None ->
  (forall i, i ∈ r2 -> skippable s i) -> takeable s x ->
  (length r2 < fuel)%nat ->
  queue_walk fuel previous (last_ptr (l1 ++ x :: r2) None) s
  = Ret (Some x, Z.of_nat x) (lock_frame x s).
Proof.
  revert fuel r0. induction r2 as [|i r2 IH] using rev_ind;
    intros fuel r0 Hs Hskip Hx Hfuel;
    (destruct fuel as [|fuel]; [rewrite ?length_app in Hfuel; cbn in Hfuel; lia|]).
  - rewrite (last_ptr_snoc l1 x None). apply queue_walk_take, Hx.
  - replace (l1 ++ x :: r2 ++ [i]) with ((l1 ++ x :: r2) ++ [i])
      by (rewrite <- app_assoc; reflexivity).
    rewrite last_ptr_snoc.
    destruct (queue_walk_skip fuel previous s i) as (b & Hb & ->).
    { apply Hskip. apply elem_of_app. right. left. }
    replace (l1 ++ x :: (r2 ++ [i]) ++ r0) with ((l1 ++ x :: r2) ++ i :: r0)
      in Hs by (rewrite <- !app_assoc; reflexivity).
    destruct (seg_middle _ _ _ _ _ _ Hs) as (b' & Hb' & Hp & _).
    assert (b' = b) by congruence. subst b'. rewrite Hp.
    apply (IH fuel (i :: r0)).
    + rewrite <- app_assoc in Hs. exact Hs.
    + intros j Hj. apply Hskip. apply elem_of_app. left. exact Hj.
    + exact Hx.
    + rewrite length_app in Hfuel. cbn in Hfuel. lia.
Qed.

Lemma takeable_valid (s : State) x : takeable s x -> valid_frame s x.
Proof. intros (b & Hb & _). eapply lookup_lt_Some, Hb. Qed.

Lemma queue_select_takes fuel link entry (s : State) x :
  takeable s x ->
  queue_walk fuel link (entry (StrategyControl s)) s
  = Ret (Some x, Z.of_nat x) (lock_frame x s) ->
  queue_select fuel None link entry s = Ret (Some x, true, None) (lock_frame x s).
Proof.
  intros Hx Hwalk. unfold queue_select.
  rewrite (bind_Ret get_control _ s (StrategyControl s) s eq_refl).
  rewrite (bind_Ret _ _ _ _ _ Hwalk). cbn [queue_walk_result fst snd].
  rewrite (bind_Ret (ret (Z.of_nat x)) _ _ _ _ eq_refl).
  apply return_result_frame. unfold lock_frame.
  rewrite valid_frame_update. apply takeable_valid, Hx.
Qed.

Lemma skippable_counted (s : State) i : skippable s i -> skippable (counted s) i.
Proof. unfold skippable. rewrite counted_frames. auto. Qed.

Lemma takeable_counted (s : State) i : takeable s i -> takeable (counted s) i.
Proof. unfold takeable. rewrite counted_frames. auto. Qed.

Lemma LRU_walk_takes fuel (s : State) r1 x r2 :
  BufferReplacementPolicy s = POLICY_LRU ->
  firstFreeBuffer (StrategyControl s) < 0 ->
  queue_is s QAM (r1 ++ x :: r2) ->
  (forall i, i ∈ r1 -> skippable s i) -> takeable s x ->
  (length r1 < fuel)%nat ->
  StrategyGetBuffer fuel None s
  = Ret (Some x, true, None) (lock_frame x (counted s)).
Proof.
  intros Hpol Hfree Hq Hskip Hx Hfuel.
  assert (Hq' : queue_is (counted s) QAM (r1 ++ x :: r2))
    by (eapply queue_is_same_queues; [apply same_queues_counted|exact Hq]).
  destruct fuel as [|fuel]; [lia|].
  rewrite (StrategyGetBuffer_empty_freelist fuel s Hfree).
  unfold select_victim.
  rewrite (bind_Ret get_policy _ _ (BufferReplacementPolicy (counted s))
             (counted s) eq_refl).
  rewrite counted_policy, Hpol.
  apply queue_select_takes; [apply takeable_counted, Hx|].
  destruct Hq' as (Hh & _ & Hs & _). cbn [queue_head] in Hh. rewrite Hh.
  apply (queue_walk_next (S fuel) (counted s) [] r1 x r2); auto.
  - intros i Hi. apply skippable_counted, Hskip, Hi.
  - apply takeable_counted, Hx.
Qed.

(** X12.  LRU takes the least recently unpinned frame that is free.  With
    nothing on the freelist and a well-formed main queue, under
    [POLICY_LRU] [StrategyGetBuffer] walks the queue from [firstUnpinned],
    steps over the pinned frames and returns the first unpinned one, with
    its header lock held and [*lock_held] set.  The call changes nothing
    else but the allocation count: the frame stays in the queue, and the
    header locks taken on the way have been released. *)
Theorem LRU_takes_first_unpinned fuel (s : State) r1 x r2 :
  BufferReplacementPolicy s = POLICY_LRU ->
  firstFreeBuffer (StrategyControl s) < 0 ->
  queue_is s QAM (r1 ++ x :: r2) ->
  (forall i, i ∈ r1 -> skippable s i) -> takeable s x ->
  (length r1 < fuel)%nat ->
  StrategyGetBuffer fuel None s
  = Ret (Some x, true, None) (lock_frame x (counted s)) /\
  returned_frame_ok (lock_frame x (counted s)) x /\
  queue_is (lock_frame x (counted s)) QAM (r1 ++ x :: r2).
Proof.
  intros Hpol Hfree Hq Hskip Hx Hfuel.
  split; [|split].
  - apply (LRU_walk_takes fuel s r1 x r2); assumption.
  - destruct Hx as (b & Hb & Hl & Hr & _).
    eapply returned_frame_ok_intro.
    + apply lock_frame_lookup. rewrite counted_frames. exact Hb.
    + reflexivity.
    + exact Hr.
  - eapply queue_is_same_queues; [|exact Hq].
    eapply same_queues_trans; [apply same_queues_counted|].
    apply same_queues_update_frame. reflexivity.
Qed.

Lemma MRU_walk_takes fuel (s : State) l1 x r2 :
  BufferReplacementPolicy s = POLICY_MRU ->
  firstFreeBuffer (StrategyControl s) < 0 ->
  queue_is s QAM (l1 ++ x :: r2) ->
  (forall i, i ∈ r2 -> skippable s i) -> takeable s x ->
  (length r2 < fuel)%nat ->
  StrategyGetBuffer fuel None s
  = Ret (Some x, true, None) (lock_frame x (counted s)).
Proof.
  intros Hpol Hfree Hq Hskip Hx Hfuel.
  assert (Hq' : queue_is (counted s) QAM (l1 ++ x :: r2))
    by (eapply queue_is_same_queues; [apply same_queues_counted|exact Hq]).
  destruct fuel as [|fuel]; [lia|].
  rewrite (StrategyGetBuffer_empty_freelist fuel s Hfree).
  unfold select_victim.
  rewrite (bind_Ret get_policy _ _ (BufferReplacementPolicy (counted s))
             (counted s) eq_refl).
  rewrite counted_policy, Hpol.
  apply queue_select_takes; [apply takeable_counted, Hx|].
  destruct Hq' as (_ & Ht & Hs & _). cbn [queue_tail] in Ht. rewrite Ht.
  apply (queue_walk_previous (S fuel) (counted s) l1 x r2 []); auto.
  - rewrite app_nil_r. exact Hs.
  - intros i Hi. apply skippable_counted, Hskip, Hi.
  - apply takeable_counted, Hx.
Qed.

(** X13.  MRU takes the most recently unpinned frame that is free.  With
    nothing on the freelist and a well-formed main queue, under
    [POLICY_MRU] [StrategyGetBuffer] walks the queue backwards from
    [lastUnpinned], steps over the pinned frames and returns the first
    unpinned one it meets, with its header lock held and [*lock_held] set;
    nothing else changes but the allocation count, and the frame stays in
    the queue. *)
Theorem MRU_takes_last_unpinned fuel (s : State) l1 x r2 :
  BufferReplacementPolicy s = POLICY_MRU ->
  firstFreeBuffer (StrategyControl s) < 0 ->
  queue_is s QAM (l1 ++ x :: r2) ->
  (forall i, i ∈ r2 -> skippable s i) -> takeable s x ->
  (length r2 < fuel)%nat ->
  StrategyGetBuffer fuel None s
  = Ret (Some x, true, None) (lock_frame x (counted s)) /\
  returned_frame_ok (lock_frame x (counted s)) x /\
  queue_is (lock_frame x (counted s)) QAM (l1 ++ x :: r2).
Proof.
  intros Hpol Hfree Hq Hskip Hx Hfuel.
  split; [|split].
  - apply (MRU_walk_takes fuel s l1 x r2); assumption.
  - destruct Hx as (b & Hb & Hl & Hr & _).
    eapply returned_frame_ok_intro.
    + apply lock_frame_lookup. rewrite counted_frames. exact Hb.
    + reflexivity.
    + exact Hr.
  - eapply queue_is_same_queues; [|exact Hq].
    eapply same_queues_trans; [apply same_queues_counted|].
    apply same_queues_update_frame. reflexivity.
Qed.

(** ** Which paths record the buffer in the ring *)

Lemma AddBufferToRing_records st buf (s : State) o s' :
  AddBufferToRing (Some st) buf s = Ret o s' ->
  exists i b st', buf = Some i /\ BufferDescriptors s !! i = Some b /\
    o = Some st' /\ current st' = current st /\
    ring_read st' (current st') = Some (buf_id b + 1).
Proof.
  intros H. unfold AddBufferToRing in H.
  apply bind_Ret_inv in H as (b & s1 & Hd & H).
  apply deref_inv in Hd as [-> (i & -> & Hb)].
  destruct (ring_write st (current st) (BufferDescriptorGetBuffer b))
    as [st'|] eqn:Hw; [|discriminate].
  injection H as <- <-.
  destruct (ring_read_write _ _ _ _ Hw) as (Hr & Hc & _).
  exists i, b, st'. rewrite Hc. auto.
Qed.

(** X14.  Which paths record the buffer in the caller's ring.  When
    [StrategyGetBuffer] is called with a ring and the ring itself does not
    supply the buffer, the frame that the freelist or the clock sweep hands
    out is written into the ring's current slot ([AddBufferToRing]): under
    [POLICY_CLOCK] the returned ring always names the returned frame there.
    The branches for LRU, MRU and 2Q return through the end of the
    function without that call: with nothing on the freelist, the ring
    comes back with its slots as they were, so the victim is not
    recorded. *)
Theorem ring_records_victim fuel st (s : State) i o s' :
  ids_ok s ->
  StrategyGetBuffer fuel (Some st) s = Ret (Some i, true, o) s' ->
  (BufferReplacementPolicy s = POLICY_CLOCK ->
   exists st', o = Some st' /\ current st' = next_slot st /\
               ring_read st' (current st') = Some (Z.of_nat i + 1)) /\
  (BufferReplacementPolicy s <> POLICY_CLOCK ->
   firstFreeBuffer (StrategyControl s) < 0 ->
   o = Some (ring_advanced false st) /\
   buffers (ring_advanced false st) = buffers st).
Proof.
  intros Hids H.
  assert (Hids' : ids_ok s').
  { eapply same_ids_ok; [|exact Hids].
    eapply StrategyGetBuffer_keeps_ids. rewrite H. reflexivity. }
  destruct (StrategyGetBuffer_ring_cases _ _ _ _ _ H)
    as [(j & [=] & _)|[_ Hg]].
  apply StrategyGetBuffer_global_Ret in Hg as (_ & Hadd & Hsame).
  split.
  - intros Hpol. destruct Hadd as [Hadd|[Hne _]]; [|contradiction].
    apply AddBufferToRing_records in Hadd
      as (j & b & st' & [= <-] & Hb & -> & Hc & Hr).
    exists st'. split; [reflexivity|]. split; [exact Hc|].
    rewrite Hr, (Hids' i b Hb). reflexivity.
  - intros Hpol Hfree. split; [|reflexivity]. apply Hsame; assumption.
Qed.

(** ** Header locks: taken for the returned frame only *)








Section LockEffect.
Context {A : Type}.
Variable res : A -> ptr.









End LockEffect.















(** ** What [StrategyGetBuffer] never writes *)

Lemma usage_not_raised_refl s : usage_not_raised s s.
Proof. intros i b Hb. exists b. repeat split; auto; lia. Qed.

Lemma usage_not_raised_trans s1 s2 s3 :
  usage_not_raised s1 s2 -> usage_not_raised s2 s3 -> usage_not_raised s1 s3.
Proof.
  intros H1 H2 i b Hb. destruct (H1 i b Hb) as (b2 & Hb2 & Hle2 & Hz2).
  destruct (H2 i b2 Hb2) as (b3 & Hb3 & Hle3 & Hz3).
  exists b3. split; [exact Hb3|]. split; [lia|]. intros Hlt.
  destruct (Z.eq_dec (usage_count b3) (usage_count b2)) as [Heq|Hne].
  - rewrite Heq in *. apply Hz2. lia.
  - apply Hz3. lia.
Qed.

Lemma usage_not_raised_preserved {Y : Type}
  (fc : BufferStrategyControl -> Y) (s s' : State) :
  preserved usage_count fc s s' -> usage_not_raised s s'.
Proof.
  intros Hp i b Hb. destruct (preserved_lookup _ _ _ _ _ _ Hp Hb) as (b' & Hb' & He).
  exists b'. split; [exact Hb'|]. lia.
Qed.

Ltac usage_step :=
  first
    [ apply keeps_ret; exact usage_not_raised_refl
    | apply keeps_elog; exact usage_not_raised_refl
    | apply keeps_fault
    | apply keeps_out_of_fuel
    | apply keeps_stuck
    | apply keeps_get_control; exact usage_not_raised_refl
    | apply keeps_get_policy; exact usage_not_raised_refl
    | apply keeps_get_NBuffers; exact usage_not_raised_refl
    | apply keeps_desc_addr; exact usage_not_raised_refl
    | apply keeps_deref; exact usage_not_raised_refl
    | apply keeps_Assert; exact usage_not_raised_refl
    | apply keeps_store; intros;
        apply (usage_not_raised_preserved (@no_view BufferStrategyControl)),
          preserved_update_frame; reflexivity
    | apply keeps_modify_control; intros;
        apply (usage_not_raised_preserved (@no_view BufferStrategyControl)),
          preserved_control; reflexivity
    | apply (keeps_bind _ usage_not_raised_trans); [|intros ?]
    | match goal with
      | |- keeps _ (if ?b then _ else _) => destruct b
      | |- keeps _ (match ?x with _ => _ end) => destruct x
      end
    | progress unfold LockBufHdr, UnlockBufHdr, AddBufferToRing ].

Lemma keeps_deref_dep {A} (R : State -> State -> Prop) p (k : BufferDesc -> M A) :
  (forall i b (s s' : State), p = Some i ->
      BufferDescriptors s !! i = Some b ->
      final_state (k b s) = Some s' -> R s s') ->
  keeps R (b <- deref p ;; k b).
Proof.
  intros Hk s s' H. unfold bind in H.
  destruct (deref p s) as [b s1|e s1| | |] eqn:E; try discriminate.
  - apply deref_inv in E as [-> (i & -> & Hb)]. eapply Hk; eauto.
  - exfalso. revert E. apply never_raises_deref.
Qed.

Lemma clock_sweep_usage fuel strategy trycounter :
  keeps usage_not_raised (clock_sweep fuel strategy trycounter).
Proof.
  revert trycounter. induction fuel as [|fuel IH]; intros trycounter;
    cbn [clock_sweep]; [apply keeps_out_of_fuel|].
  apply (keeps_bind _ usage_not_raised_trans); [repeat usage_step|intros ctl].
  apply (keeps_bind _ usage_not_raised_trans); [repeat usage_step|intros buf].
  apply (keeps_bind _ usage_not_raised_trans); [repeat usage_step|intros n].
  apply (keeps_bind _ usage_not_raised_trans); [repeat usage_step|intros _].
  apply (keeps_bind _ usage_not_raised_trans); [repeat usage_step|intros _].
  apply keeps_deref_dep. intros i b s s' -> Hb H.
  assert (Hrest : keeps usage_not_raised
            (UnlockBufHdr (Some i) ;; clock_sweep fuel strategy n))
    by (repeat first [apply IH | usage_step]).
  assert (Hadd : keeps usage_not_raised
            (strategy' <- AddBufferToRing strategy (Some i) ;;
             ret (Some i, strategy')))
    by (repeat usage_step).
  assert (Hpinned : keeps usage_not_raised
            (if trycounter - 1 =? 0
             then UnlockBufHdr (Some i) ;; elog NoUnpinnedBuffers
             else UnlockBufHdr (Some i) ;;
                  clock_sweep fuel strategy (trycounter - 1)))
    by (repeat first [apply IH | usage_step]).
  destruct (refcount b =? 0).
  - destruct (0 <? usage_count b) eqn:Hu.
    + apply Z.ltb_lt in Hu.
      assert (Hv : valid_frame s i) by (eapply lookup_lt_Some, Hb).
      rewrite (bind_Ret _ _ _ _ _ (store_Some s i _ Hv)) in H.
      eapply usage_not_raised_trans; [|exact (Hrest _ _ H)].
      intros j bj Hbj. cbn. rewrite list_lookup_alter. case_decide.
      * subst j. rewrite Hb. cbn. rewrite Hb in Hbj. injection Hbj as <-.
        eexists. split; [reflexivity|]. cbn. lia.
      * exists bj. split; [exact Hbj|]. lia.
    + exact (Hadd _ _ H).
  - exact (Hpinned _ _ H).
Qed.


Lemma freelist_loop_use fuel strategy :
  keeps (preserved use_view clock_fields) (freelist_loop fuel strategy).
Proof.
  induction fuel as [|fuel IH]; cbn [freelist_loop]; preserved_loops.
Qed.

Lemma queue_walk_use fuel link buf :
  keeps (preserved use_view clock_fields) (queue_walk fuel link buf).
Proof.
  revert buf. induction fuel as [|fuel IH]; intros buf;
    cbn [queue_walk]; preserved_loops.
Qed.

Lemma a1_size_use fuel head acc :
  keeps (preserved use_view clock_fields) (a1_size fuel head acc).
Proof.
  revert head acc. induction fuel as [|fuel IH]; intros head acc;
    cbn [a1_size]; preserved_loops.
Qed.

Lemma twoq_scan_use fuel q buf :
  keeps (preserved use_view clock_fields) (twoq_scan fuel q buf).
Proof.
  revert buf. induction fuel as [|fuel IH]; intros buf;
    cbn [twoq_scan]; preserved_loops.
Qed.

Lemma clock_sweep_pins fuel strategy trycounter :
  keeps (preserved pin_view (@no_view BufferStrategyControl))
        (clock_sweep fuel strategy trycounter).
Proof.
  revert trycounter. induction fuel as [|fuel IH]; intros trycounter;
    cbn [clock_sweep]; preserved_loops.
Qed.

Lemma preserved_use_pins (s s' : State) :
  preserved use_view clock_fields s s' ->
  preserved pin_view (@no_view BufferStrategyControl) s s' /\
  preserved usage_count clock_fields s s'.
Proof.
  intros (Hp & Hl & Hd & Hc).
  assert (H1 : pin_view <$> BufferDescriptors s'
               = pin_view <$> BufferDescriptors s).
  { change pin_view with (fst ∘ use_view).
    rewrite !(list_fmap_compose use_view fst), Hd. reflexivity. }
  assert (H2 : usage_count <$> BufferDescriptors s'
               = usage_count <$> BufferDescriptors s).
  { change usage_count with (snd ∘ use_view).
    rewrite !(list_fmap_compose use_view snd), Hd. reflexivity. }
  repeat split; auto.
Qed.

Lemma queue_select_use fuel strategy link entry :
  keeps (preserved use_view clock_fields)
        (queue_select fuel strategy link entry).
Proof. repeat first [apply queue_walk_use | preserved_step]. Qed.

Lemma twoq_victim_use fuel strategy :
  keeps (preserved use_view clock_fields) (twoq_victim fuel strategy).
Proof.
  unfold twoq_victim, twoq_select.
  repeat first [apply a1_size_use | apply twoq_scan_use | preserved_step].
Qed.

Lemma select_victim_use fuel strategy (s s' : State) :
  BufferReplacementPolicy s <> POLICY_CLOCK ->
  final_state (select_victim fuel strategy s) = Some s' ->
  preserved use_view clock_fields s s'.
Proof.
  intros Hpol. unfold select_victim.
  rewrite (bind_Ret get_policy _ s (BufferReplacementPolicy s) s eq_refl).
  destruct (BufferReplacementPolicy s); try contradiction.
  - apply queue_select_use.
  - apply queue_select_use.
  - apply twoq_victim_use.
  - intros [= <-]. apply preserved_refl.
Qed.

Lemma clock_select_pins fuel strategy :
  keeps (preserved pin_view (@no_view BufferStrategyControl))
        (clock_select fuel strategy).
Proof. repeat first [apply clock_sweep_pins | preserved_step]. Qed.

Lemma clock_select_usage fuel strategy :
  keeps usage_not_raised (clock_select fuel strategy).
Proof.
  unfold clock_select. repeat first [apply clock_sweep_usage | usage_step].
Qed.

Lemma select_victim_pins fuel strategy :
  keeps (preserved pin_view (@no_view BufferStrategyControl))
        (select_victim fuel strategy).
Proof.
  intros s s' H.
  destruct (decide (BufferReplacementPolicy s = POLICY_CLOCK)) as [Hpol|Hpol].
  - revert H. unfold select_victim.
    rewrite (bind_Ret get_policy _ s (BufferReplacementPolicy s) s eq_refl).
    rewrite Hpol. apply clock_select_pins.
  - apply (select_victim_use _ _ _ _ Hpol) in H.
    apply preserved_use_pins in H as [H _]. exact H.
Qed.

Lemma select_victim_usage fuel strategy :
  keeps usage_not_raised (select_victim fuel strategy).
Proof.
  intros s s' H.
  destruct (decide (BufferReplacementPolicy s = POLICY_CLOCK)) as [Hpol|Hpol].
  - revert H. unfold select_victim.
    rewrite (bind_Ret get_policy _ s (BufferReplacementPolicy s) s eq_refl).
    rewrite Hpol. apply clock_select_usage.
  - apply (select_victim_use _ _ _ _ Hpol) in H.
    apply preserved_use_pins in H as [_ H].
    eapply usage_not_raised_preserved, H.
Qed.

(** X16.  What [StrategyGetBuffer] never writes.  Whatever path the call
    takes, and also when it ends in an error: the policy, every [buf_id] and
    every pin count are as before; no usage count has gone up, and one that
    has gone down has not gone below zero.  Unless the policy is
    [POLICY_CLOCK], no usage count has changed at all and the clock hand and
    [completePasses] are as before.  Unless the policy is [POLICY_2Q], the
    victim queues are as before: the same heads and tails and the same
    [next] and [previous] in every descriptor. *)
Theorem StrategyGetBuffer_writes fuel strategy (s s' : State) :
  final_state (StrategyGetBuffer fuel strategy s) = Some s' ->
  BufferReplacementPolicy s' = BufferReplacementPolicy s /\
  pin_view <$> BufferDescriptors s' = pin_view <$> BufferDescriptors s /\
  usage_not_raised s s' /\
  (BufferReplacementPolicy s <> POLICY_CLOCK ->
   usage_count <$> BufferDescriptors s' = usage_count <$> BufferDescriptors s /\
   clock_fields (StrategyControl s') = clock_fields (StrategyControl s)) /\
  (BufferReplacementPolicy s <> POLICY_2Q -> same_queues s s').
Proof.
  intros H.
  assert (Hq : BufferReplacementPolicy s <> POLICY_2Q -> same_queues s s')
    by (intros Hpol; eapply StrategyGetBuffer_keeps_queues; eauto).
  destruct (StrategyGetBuffer_final _ _ _ _ H)
    as [(st & i & -> & Hring & _)|(strategy0 & _ & Hg)].
  - apply GetBufferFromRing_inv in Hring as (_ & _ & _ & _ & -> & _).
    assert (Hp : preserved use_view clock_fields s (lock_frame i s))
      by (apply preserved_update_frame; reflexivity).
    destruct (preserved_use_pins _ _ Hp) as [(_ & _ & H1 & _) H2].
    split; [reflexivity|]. split; [exact H1|].
    split; [eapply usage_not_raised_preserved, H2|].
    split; [|exact Hq]. intros _. destruct H2 as (_ & _ & H2 & H3). auto.
  - clear H. rewrite StrategyGetBuffer_global_counted in Hg.
    apply final_state_bind in Hg as [(r & s1 & Hloop & Hg)|(e & Hloop)].
    2:{ exfalso. revert Hloop. apply freelist_loop_never_raises. }
    assert (H1 : preserved use_view clock_fields (counted s) s1)
      by (eapply freelist_loop_use; rewrite Hloop; reflexivity).
    assert (Hpol1 : BufferReplacementPolicy s1 = BufferReplacementPolicy s)
      by (destruct H1 as (-> & _); apply counted_policy).
    assert (Hc : clock_fields (StrategyControl (counted s))
                 = clock_fields (StrategyControl s)).
    { unfold counted. destruct (bgwriterLatch (StrategyControl s)); reflexivity. }
    destruct (preserved_use_pins _ _ H1) as [H1p H1u].
    assert (Hs1 : final_state (select_victim fuel strategy0 s1) = Some s' \/
                  s' = s1).
    { destruct r as [[buf st']|]; [right|left; exact Hg].
      injection Hg as <-. reflexivity. }
    assert (H2p : preserved pin_view (@no_view BufferStrategyControl) s1 s').
    { destruct Hs1 as [Hs1| ->]; [|apply preserved_refl].
      eapply select_victim_pins, Hs1. }
    assert (H2u : usage_not_raised s1 s').
    { destruct Hs1 as [Hs1| ->]; [|apply usage_not_raised_refl].
      eapply select_victim_usage, Hs1. }
    assert (H2n : BufferReplacementPolicy s <> POLICY_CLOCK ->
                  preserved usage_count clock_fields s1 s').
    { intros Hpol. destruct Hs1 as [Hs1| ->]; [|apply preserved_refl].
      rewrite <- Hpol1 in Hpol.
      apply (select_victim_use _ _ _ _ Hpol) in Hs1.
      apply preserved_use_pins in Hs1 as [_ Hs1]. exact Hs1. }
    pose proof (preserved_trans _ _ _ _ _ H1p H2p) as (Hp & _ & Hd & _).
    rewrite counted_policy in Hp. rewrite counted_frames in Hd.
    split; [exact Hp|]. split; [exact Hd|]. split; [|split; [|exact Hq]].
    + eapply usage_not_raised_trans; [|exact H2u].
      apply usage_not_raised_preserved in H1u.
      intros j b Hb. apply H1u. rewrite counted_frames. exact Hb.
    + intros Hpol.
      pose proof (preserved_trans _ _ _ _ _ H1u (H2n Hpol))
        as (_ & _ & Hu & Hcl).
      rewrite counted_frames in Hu. rewrite Hc in Hcl. auto.
Qed.

(** ** The clock hand *)

Lemma clock_sweep_step fuel strategy trycounter (s : State) :
  hand_in_range s ->
  clock_sweep (S fuel) strategy trycounter s
  = clock_visit (Z.to_nat (nextVictimBuffer (StrategyControl s))) strategy
      trycounter (NBuffers s) (clock_sweep fuel strategy) (clock_advance s).
Proof.
  intros Hhand. cbn [clock_sweep].
  rewrite (bind_Ret get_control _ s (StrategyControl s) s eq_refl).
  set (h := nextVictimBuffer (StrategyControl s)) in *.
  assert (Haddr : desc_addr h s = Ret (Some (Z.to_nat h)) s).
  { unfold desc_addr, hand_in_range in *. fold h in Hhand.
    destruct (Z.leb_spec 0 h); [|lia].
    destruct (Z.ltb_spec h (NBuffers s)); [|lia]. reflexivity. }
  rewrite (bind_Ret _ _ _ _ _ Haddr).
  rewrite (bind_Ret get_NBuffers _ s (NBuffers s) s eq_refl).
  assert (Hadv : (if NBuffers s <=? h + 1
                  then modify_control (set_nextVictimBuffer 0) ;;
                       modify_control
                         (fun c => set_completePasses
                                     (uint32_incr (completePasses c)) c)
                  else modify_control (set_nextVictimBuffer (h + 1))) s
                 = Ret tt (clock_advance s)).
  { unfold clock_advance. fold h. destruct (NBuffers s <=? h + 1); reflexivity. }
  rewrite (bind_Ret _ _ _ _ _ Hadv). reflexivity.
Qed.

Lemma keeps_hand_refl s : keeps_hand s s.
Proof. intros H. exact H. Qed.

Lemma keeps_hand_trans s1 s2 s3 :
  keeps_hand s1 s2 -> keeps_hand s2 s3 -> keeps_hand s1 s3.
Proof. unfold keeps_hand. auto. Qed.

Lemma keeps_hand_preserved (s s' : State) :
  preserved (@no_view BufferDesc) nextVictimBuffer s s' -> keeps_hand s s'.
Proof.
  intros Hp. unfold keeps_hand, hand_in_range, NBuffers.
  rewrite (preserved_length _ _ _ _ Hp). destruct Hp as (_ & _ & _ & ->).
  auto.
Qed.

Ltac keeps_hand_step :=
  first
    [ apply keeps_ret; exact keeps_hand_refl
    | apply keeps_elog; exact keeps_hand_refl
    | apply keeps_fault
    | apply keeps_out_of_fuel
    | apply keeps_stuck
    | apply keeps_get_control; exact keeps_hand_refl
    | apply keeps_get_policy; exact keeps_hand_refl
    | apply keeps_get_NBuffers; exact keeps_hand_refl
    | apply keeps_desc_addr; exact keeps_hand_refl
    | apply keeps_deref; exact keeps_hand_refl
    | apply keeps_Assert; exact keeps_hand_refl
    | apply keeps_store; intros; apply keeps_hand_preserved,
        preserved_update_frame; reflexivity
    | apply keeps_modify_control; intros; apply keeps_hand_preserved,
        preserved_control; reflexivity
    | apply (keeps_bind _ keeps_hand_trans); [|intros ?]
    | match goal with
      | |- keeps _ (if ?b then _ else _) => destruct b
      | |- keeps _ (match ?x with _ => _ end) => destruct x
      end
    | progress unfold LockBufHdr, UnlockBufHdr, AddBufferToRing,
        GetBufferFromRing, queue_walk_result, return_result,
        unlink_victim, twoq_scan_result, queue_select
    | match goal with q : Queue |- _ => destruct q end ].

Ltac keeps_hand_loops :=
  repeat first
    [ match goal with IH : _ |- _ => apply IH end
    | keeps_hand_step ].

Lemma clock_sweep_keeps_hand fuel strategy trycounter :
  keeps keeps_hand (clock_sweep fuel strategy trycounter).
Proof.
  revert trycounter. induction fuel as [|fuel IH]; intros trycounter;
    [apply keeps_out_of_fuel|].
  intros s s' H Hhand. rewrite (clock_sweep_step _ _ _ _ Hhand) in H.
  assert (Hk : forall i n, keeps keeps_hand
            (clock_visit i strategy trycounter n (clock_sweep fuel strategy))).
  { intros i n. unfold clock_visit. keeps_hand_loops. }
  apply (Hk _ _ _ _ H). apply clock_advance_hand_in_range, Hhand.
Qed.

Lemma freelist_loop_keeps_hand fuel strategy :
  keeps keeps_hand (freelist_loop fuel strategy).
Proof.
  induction fuel as [|fuel IH]; cbn [freelist_loop]; keeps_hand_loops.
Qed.

Lemma queue_walk_keeps_hand fuel link buf :
  keeps keeps_hand (queue_walk fuel link buf).
Proof.
  revert buf. induction fuel as [|fuel IH]; intros buf;
    cbn [queue_walk]; keeps_hand_loops.
Qed.

Lemma a1_size_keeps_hand fuel head acc :
  keeps keeps_hand (a1_size fuel head acc).
Proof.
  revert head acc. induction fuel as [|fuel IH]; intros head acc;
    cbn [a1_size]; keeps_hand_loops.
Qed.

Lemma twoq_scan_keeps_hand fuel q buf :
  keeps keeps_hand (twoq_scan fuel q buf).
Proof.
  revert buf. induction fuel as [|fuel IH]; intros buf;
    cbn [twoq_scan]; keeps_hand_loops.
Qed.

Lemma queue_member_keeps_hand fuel head buf :
  keeps keeps_hand (queue_member fuel head buf).
Proof.
  revert head. induction fuel as [|fuel IH]; intros head;
    cbn [queue_member]; keeps_hand_loops.
Qed.

Lemma select_victim_keeps_hand fuel strategy :
  keeps keeps_hand (select_victim fuel strategy).
Proof.
  unfold select_victim, clock_select, twoq_victim, twoq_select.
  repeat first [ apply clock_sweep_keeps_hand | apply queue_walk_keeps_hand
               | apply a1_size_keeps_hand | apply twoq_scan_keeps_hand
               | keeps_hand_step ].
Qed.

Lemma StrategyGetBuffer_keeps_hand fuel strategy :
  keeps keeps_hand (StrategyGetBuffer fuel strategy).
Proof.
  intros s s' H.
  destruct (StrategyGetBuffer_final _ _ _ _ H)
    as [(st & i & -> & Hring & _)|(strategy0 & _ & Hg)].
  - apply GetBufferFromRing_inv in Hring as (_ & _ & _ & _ & -> & _).
    apply keeps_hand_preserved, preserved_update_frame. reflexivity.
  - rewrite StrategyGetBuffer_global_counted in Hg.
    apply keeps_hand_trans with (s2 := counted s).
    { unfold keeps_hand, hand_in_range, NBuffers. rewrite counted_frames.
      unfold counted. destruct (bgwriterLatch (StrategyControl s)); auto. }
    assert (Hk : keeps keeps_hand
                   (r <- freelist_loop fuel strategy0 ;;
                    match r with
                    | Some (buf, strategy') => ret (buf, true, strategy')
                    | None => select_victim fuel strategy0
                    end)).
    { repeat first [ apply freelist_loop_keeps_hand
                   | apply select_victim_keeps_hand | keeps_hand_step ]. }
    exact (Hk _ _ Hg).
Qed.

Lemma BufferUnpinned_keeps_hand fuel acquired bufIndex :
  keeps keeps_hand (BufferUnpinned fuel acquired bufIndex).
Proof.
  unfold BufferUnpinned, unpinned_in_AM, unpinned_in_A1, unpinned_new_2Q,
    unpinned_other, append_to_AM.
  repeat first [ apply queue_member_keeps_hand | keeps_hand_step ].
Qed.

Lemma StrategyFreeBuffer_keeps_hand buf :
  keeps keeps_hand (StrategyFreeBuffer buf).
Proof. unfold StrategyFreeBuffer. repeat keeps_hand_step. Qed.

(** X17.  The clock hand never leaves the pool.  Every operation of the
    interface and every update of a frame by the pin manager takes a state
    in which [0 <= nextVictimBuffer < NBuffers] to one where this holds
    again, also when [StrategyGetBuffer] ends in an error in the middle of
    a sweep; the number of descriptors never changes.  So the buffer index
    [StrategySyncStart] returns as the place to start syncing from always
    names a buffer. *)
Theorem clock_hand_stays_in_range (s s' : State) :
  step s s' -> hand_in_range s ->
  hand_in_range s' /\ NBuffers s' = NBuffers s /\
  forall want_passes want_allocs,
    exists result passes allocs s2,
      StrategySyncStart want_passes want_allocs s'
      = Ret (result, passes, allocs) s2 /\
      0 <= result < NBuffers s' /\ hand_in_range s2.
Proof.
  intros Hstep Hhand.
  assert (Hlen : NBuffers s' = NBuffers s).
  { unfold NBuffers. f_equal.
    destruct Hstep as [init s' H|fuel strategy s' H|buf s' H
                      |fuel acquired bufIndex s' H|i refs usage lock].
    - apply StrategyInitialize_found in H as ->. reflexivity.
    - apply StrategyGetBuffer_keeps_ids in H.
      rewrite <- (length_fmap buf_id), H. apply length_fmap.
    - apply StrategyFreeBuffer_keeps_ids in H.
      rewrite <- (length_fmap buf_id), H. apply length_fmap.
    - apply BufferUnpinned_keeps_ids in H.
      rewrite <- (length_fmap buf_id), H. apply length_fmap.
    - cbn. apply length_alter. }
  assert (Hhand' : hand_in_range s').
  { destruct Hstep as [init s' H|fuel strategy s' H|buf s' H
                      |fuel acquired bufIndex s' H|i refs usage lock].
    - apply StrategyInitialize_found in H as ->. exact Hhand.
    - eapply StrategyGetBuffer_keeps_hand; eauto.
    - eapply StrategyFreeBuffer_keeps_hand; eauto.
    - eapply BufferUnpinned_keeps_hand; eauto.
    - revert Hhand. apply keeps_hand_preserved, preserved_update_frame.
      reflexivity. }
  split; [exact Hhand'|]. split; [exact Hlen|].
  intros wp wa. unfold StrategySyncStart.
  rewrite (bind_Ret get_control _ s' (StrategyControl s') s' eq_refl).
  destruct wa; do 4 eexists; (split; [reflexivity|]);
    split; try exact Hhand'; exact Hhand'.
Qed.

(** ** The clock sweep finds a victim when there is one *)

Lemma sum_list_with_alter {A} (f : A -> nat) (g : A -> A) (l : list A) i x :
  l !! i = Some x ->
  (sum_list_with f (alter g i l) + f x = sum_list_with f l + f (g x))%nat.
Proof.
  revert i. induction l as [|y l IH]; intros i Hi; [discriminate|].
  destruct i as [|i]; cbn in *.
  - injection Hi as ->. lia.
  - specialize (IH i Hi). lia.
Qed.

Lemma lock_store_unlock (s : State) i b f :
  BufferDescriptors s !! i = Some b -> buf_hdr_lock b = false ->
  (forall d, buf_hdr_lock (f d) = buf_hdr_lock d) ->
  (forall d, set_buf_hdr_lock false (f (set_buf_hdr_lock true d))
             = f (set_buf_hdr_lock false d)) ->
  update_frame i (set_buf_hdr_lock false)
    (update_frame i f (lock_frame i s))
  = update_frame i f s.
Proof.
  intros Hb Hl Hf Hcomm. unfold lock_frame, update_frame.
  cbn [BufferDescriptors BufferReplacementPolicy StrategyControl latches_set].
  f_equal. rewrite !list_alter_alter_eq. apply list_eq. intros j.
  rewrite !list_lookup_alter. case_decide; [|reflexivity].
  subst j. rewrite Hb. cbn. f_equal. rewrite Hcomm. f_equal.
  destruct b. cbn in *. subst. reflexivity.
Qed.

(** The three things a visit of the sweep can do. *)
Lemma clock_visit_pinned i strategy trycounter n rest (s : State) b :
  BufferDescriptors s !! i = Some b -> buf_hdr_lock b = false ->
  refcount b <> 0 ->
  clock_visit i strategy trycounter n rest s
  = if trycounter - 1 =? 0 then Elog NoUnpinnedBuffers s
    else rest (trycounter - 1) s.
Proof.
  intros Hb Hl Hr. unfold clock_visit.
  rewrite (bind_Ret _ _ _ _ _ (LockBufHdr_run s i b Hb Hl)).
  rewrite (bind_Ret _ _ _ _ _ (deref_Some _ _ _ (lock_frame_lookup s i b Hb))).
  cbn [refcount set_buf_hdr_lock]. apply Z.eqb_neq in Hr. rewrite Hr.
  assert (Hu : UnlockBufHdr (Some i) (lock_frame i s) = Ret tt s).
  { rewrite UnlockBufHdr_run
      by (unfold lock_frame; rewrite valid_frame_update;
          eapply lookup_lt_Some, Hb).
    rewrite (lock_unlock_frame s i b Hb Hl). reflexivity. }
  destruct (trycounter - 1 =? 0); rewrite (bind_Ret _ _ _ _ _ Hu); reflexivity.
Qed.

Lemma clock_visit_used i strategy trycounter n rest (s : State) b :
  BufferDescriptors s !! i = Some b -> buf_hdr_lock b = false ->
  refcount b = 0 -> 0 < usage_count b ->
  clock_visit i strategy trycounter n rest s
  = rest n (update_frame i (set_usage_count (usage_count b - 1)) s).
Proof.
  intros Hb Hl Hr Hu. unfold clock_visit.
  assert (Hv : valid_frame s i) by (eapply lookup_lt_Some, Hb).
  rewrite (bind_Ret _ _ _ _ _ (LockBufHdr_run s i b Hb Hl)).
  rewrite (bind_Ret _ _ _ _ _ (deref_Some _ _ _ (lock_frame_lookup s i b Hb))).
  cbn [refcount usage_count set_buf_hdr_lock]. rewrite Hr. cbn [Z.eqb].
  apply Z.ltb_lt in Hu. rewrite Hu.
  erewrite bind_Ret
    by (apply store_Some; unfold lock_frame; rewrite valid_frame_update;
        exact Hv).
  erewrite bind_Ret
    by (apply UnlockBufHdr_run; unfold lock_frame;
        rewrite !valid_frame_update; exact Hv).
  rewrite (lock_store_unlock s i b _ Hb Hl); reflexivity.
Qed.

Lemma clock_visit_free i trycounter n rest (s : State) b :
  BufferDescriptors s !! i = Some b -> buf_hdr_lock b = false ->
  refcount b = 0 -> usage_count b <= 0 ->
  clock_visit i None trycounter n rest s = Ret (Some i, None) (lock_frame i s).
Proof.
  intros Hb Hl Hr Hu. unfold clock_visit.
  rewrite (bind_Ret _ _ _ _ _ (LockBufHdr_run s i b Hb Hl)).
  rewrite (bind_Ret _ _ _ _ _ (deref_Some _ _ _ (lock_frame_lookup s i b Hb))).
  cbn [refcount usage_count set_buf_hdr_lock]. rewrite Hr. cbn [Z.eqb].
  replace (0 <? usage_count b) with false
    by (symmetry; apply Z.ltb_ge; exact Hu).
  reflexivity.
Qed.

Lemma clock_advance_hand (s : State) :
  hand_in_range s ->
  nextVictimBuffer (StrategyControl (clock_advance s))
  = (nextVictimBuffer (StrategyControl s) + 1) mod NBuffers s.
Proof.
  unfold hand_in_range, clock_advance. intros H. cbn.
  destruct (Z.leb_spec (NBuffers s) (nextVictimBuffer (StrategyControl s) + 1)).
  - cbn. replace (nextVictimBuffer (StrategyControl s) + 1) with (NBuffers s)
      by lia. rewrite Z.mod_same by lia. reflexivity.
  - cbn. rewrite Z.mod_small by lia. reflexivity.
Qed.

Lemma clock_sweep_finds fuel :
  forall (s : State) trycounter,
    hand_in_range s -> all_unlocked s ->
    1 <= trycounter <= NBuffers s ->
    (forall k, 1 <= k <= NBuffers s - trycounter ->
       pinned s (Z.to_nat ((nextVictimBuffer (StrategyControl s) - k)
                           mod NBuffers s))) ->
    (exists j, unpinned s j) ->
    Z.of_nat (usage_sum s) * NBuffers s + trycounter <= Z.of_nat fuel ->
    exists i s' b',
      clock_sweep fuel None trycounter s = Ret (Some i, None) s' /\
      BufferDescriptors s' !! i = Some b' /\
      refcount b' = 0 /\ usage_count b' <= 0 /\ buf_hdr_lock b' = true.
Proof.
  induction fuel as [|fuel IH]; intros s tc Hhand Hfree Htc Hbehind Hsome Hfuel.
  { unfold hand_in_range in Hhand. nia. }
  rewrite (clock_sweep_step _ _ _ _ Hhand).
  set (h := nextVictimBuffer (StrategyControl s)) in *.
  set (N := NBuffers s) in *.
  assert (Hh : 0 <= h < N) by exact Hhand.
  assert (Hv : (Z.to_nat h < length (BufferDescriptors s))%nat)
    by (unfold N, NBuffers in Hh; lia).
  destruct (lookup_lt_is_Some_2 _ _ Hv) as [b Hb].
  assert (Hb1 : BufferDescriptors (clock_advance s) !! Z.to_nat h = Some b)
    by exact Hb.
  pose proof (Hfree _ _ Hb) as Hl.
  assert (Hhand1 : hand_in_range (clock_advance s))
    by (apply clock_advance_hand_in_range, Hhand).
  assert (HN1 : NBuffers (clock_advance s) = N) by reflexivity.
  destruct (Z.eq_dec (refcount b) 0) as [Hr|Hr].
  - destruct (Z.lt_ge_cases 0 (usage_count b)) as [Hu|Hu].
    + rewrite (clock_visit_used _ _ _ _ _ _ b Hb1 Hl Hr Hu).
      set (s2 := update_frame (Z.to_nat h)
                   (set_usage_count (usage_count b - 1)) (clock_advance s)).
      assert (HN2 : NBuffers s2 = N).
      { unfold s2, NBuffers. cbn. rewrite length_alter. reflexivity. }
      assert (Hsum : (usage_sum s2 + 1 = usage_sum s)%nat).
      { unfold usage_sum, s2. cbn [BufferDescriptors update_frame clock_advance].
        pose proof (sum_list_with_alter usage_left
                      (set_usage_count (usage_count b - 1))
                      (BufferDescriptors s) (Z.to_nat h) b Hb) as Hs.
        unfold usage_left in Hs at 2 4. cbn in Hs. rewrite Hr in Hs.
        cbn in Hs. lia. }
      apply IH.
      * unfold hand_in_range. rewrite HN2. exact Hhand1.
      * intros j bj Hbj. unfold s2 in Hbj. cbn in Hbj.
        rewrite list_lookup_alter in Hbj. case_decide.
        -- subst j. rewrite Hb in Hbj. injection Hbj as <-. exact Hl.
        -- eapply Hfree, Hbj.
      * rewrite HN2. lia.
      * rewrite HN2. intros k Hk. lia.
      * destruct Hsome as (j & bj & Hbj & Hrj). exists j.
        unfold unpinned, s2. cbn. rewrite list_lookup_alter. case_decide.
        -- subst j. rewrite Hb. eexists. split; [reflexivity|]. exact Hr.
        -- exists bj. auto.
      * rewrite HN2. nia.
    + rewrite (clock_visit_free _ _ _ _ _ b Hb1 Hl Hr Hu).
      exists (Z.to_nat h), (lock_frame (Z.to_nat h) (clock_advance s)),
        (set_buf_hdr_lock true b).
      split; [reflexivity|]. split; [apply lock_frame_lookup, Hb1|]. auto.
  - rewrite (clock_visit_pinned _ _ _ _ _ _ b Hb1 Hl Hr).
    destruct (Z.eqb_spec (tc - 1) 0) as [Hz|Hz].
    + exfalso. destruct Hsome as (j & bj & Hbj & Hrj).
      assert (Hj : 0 <= Z.of_nat j < N).
      { apply lookup_lt_Some in Hbj. unfold N, NBuffers. lia. }
      destruct (Z.eq_dec h (Z.of_nat j)) as [Heq|Hne].
      { rewrite Heq, Nat2Z.id in Hb. congruence. }
      assert (Hk : 1 <= (h - Z.of_nat j) mod N <= N - tc).
      { pose proof (Z.mod_pos_bound (h - Z.of_nat j) N ltac:(lia)) as Hm.
        assert ((h - Z.of_nat j) mod N <> 0).
        { intros H0. apply Z.mod_divide in H0; [|lia].
          destruct H0 as [q Hq].
          destruct (Z.lt_trichotomy q 0) as [Hq0|[Hq0|Hq0]]; nia. }
        lia. }
      destruct (Hbehind _ Hk) as (bp & Hbp & Hrp).
      rewrite Zminus_mod_idemp_r in Hbp.
      replace (h - (h - Z.of_nat j)) with (Z.of_nat j) in Hbp by lia.
      rewrite Z.mod_small, Nat2Z.id in Hbp by lia. congruence.
    + apply IH; auto.
      * rewrite HN1. lia.
      * rewrite HN1, (clock_advance_hand s Hhand). fold h N.
        intros k Hk. rewrite Zminus_mod_idemp_l.
        destruct (Z.eq_dec k 1) as [->|Hk1].
        -- replace (h + 1 - 1) with h by lia. rewrite Z.mod_small by lia.
           exists b. auto.
        -- replace (h + 1 - k) with (h - (k - 1)) by lia.
           apply (Hbehind (k - 1)). lia.
      * rewrite HN1. unfold usage_sum in *. cbn [clock_advance BufferDescriptors].
        lia.
Qed.

Lemma counted_hand (s : State) :
  nextVictimBuffer (StrategyControl (counted s))
  = nextVictimBuffer (StrategyControl s).
Proof.
  unfold counted. destruct (bgwriterLatch (StrategyControl s)); reflexivity.
Qed.

(** X18.  The clock sweep finds a victim whenever there is one.  Under
    [POLICY_CLOCK], with nothing on the freelist, the hand inside the pool
    and no header lock held, if at least one frame is unpinned then
    [StrategyGetBuffer] returns: it does not raise "no unpinned buffers
    available", and it needs no more turns of the sweep than
    [(U + 1) * NBuffers], where [U] is the sum of the usage counts of the
    unpinned frames.  The frame it returns is unpinned, has no usage count
    left, and has its header lock held. *)
Theorem CLOCK_finds_a_victim fuel (s : State) :
  BufferReplacementPolicy s = POLICY_CLOCK ->
  firstFreeBuffer (StrategyControl s) < 0 ->
  hand_in_range s -> all_unlocked s -> (exists j, unpinned s j) ->
  (usage_sum s * length (BufferDescriptors s)
   + length (BufferDescriptors s) < fuel)%nat ->
  exists i s',
    StrategyGetBuffer fuel None s = Ret (Some i, true, None) s' /\
    returned_frame_ok s' i /\
    exists b', BufferDescriptors s' !! i = Some b' /\ usage_count b' <= 0.
Proof.
  intros Hpol Hfree Hhand Hunl Hsome Hfuel.
  destruct fuel as [|fuel]; [lia|].
  rewrite (StrategyGetBuffer_empty_freelist fuel s Hfree).
  unfold select_victim.
  rewrite (bind_Ret get_policy _ _ (BufferReplacementPolicy (counted s))
             (counted s) eq_refl).
  rewrite counted_policy, Hpol. unfold clock_select.
  rewrite (bind_Ret get_NBuffers _ _ (NBuffers (counted s)) (counted s) eq_refl).
  assert (HN : NBuffers (counted s) = NBuffers s)
    by (unfold NBuffers; rewrite counted_frames; reflexivity).
  assert (Hhand0 : hand_in_range (counted s)).
  { unfold hand_in_range. rewrite HN, counted_hand. exact Hhand. }
  destruct (clock_sweep_finds (S fuel) (counted s) (NBuffers (counted s)))
    as (i & s' & b' & Hrun & Hb' & Hr & Hu & Hl).
  - exact Hhand0.
  - unfold all_unlocked. rewrite counted_frames. exact Hunl.
  - unfold hand_in_range in Hhand0. lia.
  - intros k Hk. lia.
  - destruct Hsome as (j & Hj). exists j. unfold unpinned.
    rewrite counted_frames. exact Hj.
  - unfold usage_sum. rewrite counted_frames. fold (usage_sum s).
    rewrite HN. unfold NBuffers. nia.
  - exists i, s'. rewrite (bind_Ret _ _ _ _ _ Hrun). cbn [fst snd].
    split; [reflexivity|]. split; [|eauto].
    eapply returned_frame_ok_intro; eauto.
Qed.

(** ** What the unpin hook never writes *)

Lemma queue_member_beside fuel head buf :
  keeps (preserved beside_links beside_queues) (queue_member fuel head buf).
Proof.
  revert head. induction fuel as [|fuel IH]; intros head;
    cbn [queue_member]; preserved_loops.
Qed.

Lemma BufferUnpinned_beside fuel acquired bufIndex :
  keeps (preserved beside_links beside_queues)
        (BufferUnpinned fuel acquired bufIndex).
Proof.
  unfold BufferUnpinned, unpinned_in_AM, unpinned_in_A1, unpinned_new_2Q,
    unpinned_other, append_to_AM.
  repeat first [ apply queue_member_beside | preserved_step ].
Qed.

Lemma queue_member_never_raises e fuel head buf :
  never_raises e (queue_member fuel head buf).
Proof.
  revert head. induction fuel as [|fuel IH]; intros head;
    cbn [queue_member]; repeat first [apply IH | never_raises_step].
Qed.

Lemma never_raises_get_policy e : never_raises e get_policy.
Proof. intros s s'. discriminate. Qed.

Lemma never_raises_get_NBuffers e : never_raises e get_NBuffers.
Proof. intros s s'. discriminate. Qed.

Lemma BufferUnpinned_never_raises e fuel acquired bufIndex :
  never_raises e (BufferUnpinned fuel acquired bufIndex).
Proof.
  unfold BufferUnpinned, unpinned_in_AM, unpinned_in_A1, unpinned_new_2Q,
    unpinned_other, append_to_AM.
  repeat first [ apply queue_member_never_raises
               | apply never_raises_get_policy | never_raises_step ].
Qed.

(** X19.  What [BufferUnpinned] never does.  The hook has no error path.
    Whatever the policy, it writes nothing but the [next] and [previous]
    links of descriptors and the heads and tails of the two queues: pin
    counts, usage counts, header locks, [freeNext], the freelist, the clock
    hand and the statistics are as before.  Under CLOCK, LRU and MRU it
    leaves the A1 queue alone.  When the BufFreelistLock could not be
    taken, it returns without any change. *)
Theorem BufferUnpinned_writes fuel acquired bufIndex (s : State) :
  (forall e s', BufferUnpinned fuel acquired bufIndex s <> Elog e s') /\
  forall s',
    BufferUnpinned fuel acquired bufIndex s = Ret tt s' ->
    preserved beside_links beside_queues s s' /\
    (BufferReplacementPolicy s <> POLICY_2Q ->
     a1Head (StrategyControl s') = a1Head (StrategyControl s) /\
     a1Tail (StrategyControl s') = a1Tail (StrategyControl s)) /\
    (acquired = false -> s' = s).
Proof.
  split; [intros e s'; apply BufferUnpinned_never_raises|].
  intros s' H.
  assert (Hf : final_state (BufferUnpinned fuel acquired bufIndex s) = Some s')
    by (rewrite H; reflexivity).
  split; [apply (BufferUnpinned_beside _ _ _ _ _ Hf)|]. split.
  - intros Hpol.
    destruct (BufferUnpinned_other_inv _ _ _ _ _ Hpol Hf) as (_ & H1 & H2).
    auto.
  - intros ->. unfold BufferUnpinned in H.
    apply bind_Ret_inv in H as (buf & s1 & Ha & H).
    apply desc_addr_inv in Ha as (-> & _).
    apply bind_Ret_inv in H as (ctl & s1 & [= _ <-] & H).
    apply bind_Ret_inv in H as (b & s1 & Hd & H).
    apply deref_inv in Hd as [-> _]. cbn in H. injection H as <-.
    reflexivity.
Qed.

(** ** The errors of [StrategyGetBuffer] *)

Lemma never_raises_elog_ne {A} (e e' : ErrorKind) :
  e <> e' -> never_raises e (@elog A e').
Proof. intros Hne s s' [= He _]. congruence. Qed.

Lemma clock_sweep_raises fuel strategy trycounter e :
  e <> NoUnpinnedBuffers ->
  never_raises e (clock_sweep fuel strategy trycounter).
Proof.
  intros He. revert trycounter.
  induction fuel as [|fuel IH]; intros trycounter; cbn [clock_sweep];
    repeat first [ apply IH | apply never_raises_get_NBuffers
                 | apply never_raises_elog_ne; exact He
                 | never_raises_step ].
Qed.

Lemma a1_size_never_raises e fuel head acc :
  never_raises e (a1_size fuel head acc).
Proof.
  revert head acc. induction fuel as [|fuel IH]; intros head acc;
    cbn [a1_size]; repeat first [apply IH | never_raises_step].
Qed.

Lemma twoq_scan_never_raises e fuel q buf :
  never_raises e (twoq_scan fuel q buf).
Proof.
  revert buf. induction fuel as [|fuel IH]; intros buf; cbn [twoq_scan];
    repeat first [ apply IH | progress unfold unlink_victim
                 | never_raises_step ].
Qed.

Lemma twoq_scan_index fuel q buf (s : State) p idx s' :
  twoq_scan fuel q buf s = Ret (p, idx) s' ->
  match p with
  | Some i => exists b, BufferDescriptors s !! i = Some b /\ idx = buf_id b
  | None => True
  end.
Proof.
  revert buf. induction fuel as [|fuel IH]; intros buf H; [discriminate|].
  cbn [twoq_scan] in H. destruct buf as [j|].
  2:{ injection H as <- _ _. exact I. }
  apply bind_Ret_inv in H as (b & s1 & Hd & H).
  apply deref_inv in Hd as [-> (j' & [= <-] & Hb)].
  destruct (refcount b =? 0).
  - apply bind_Ret_inv in H as ([] & s1 & _ & H).
    injection H as <- <- _. eauto.
  - eapply IH, H.
Qed.

Lemma return_result_raises strategy idx e (s s' : State) :
  return_result strategy idx s = Elog e s' -> idx = -1.
Proof.
  unfold return_result. destruct (Z.eqb_spec idx (-1)); [auto|].
  intros H. exfalso. revert H. repeat never_raises_step.
Qed.

Lemma select_victim_free fuel strategy :
  keeps (preserved freeNext freelist_ends) (select_victim fuel strategy).
Proof.
  assert (Hc : forall fuel tc, keeps (preserved freeNext freelist_ends)
                                 (clock_sweep fuel strategy tc)).
  { clear. intros fuel. induction fuel as [|fuel IH]; intros tc;
      cbn [clock_sweep]; preserved_loops. }
  assert (Hw : forall fuel link buf, keeps (preserved freeNext freelist_ends)
                                       (queue_walk fuel link buf)).
  { clear. intros fuel. induction fuel as [|fuel IH]; intros link buf;
      cbn [queue_walk]; preserved_loops. }
  assert (Ha : forall fuel head acc, keeps (preserved freeNext freelist_ends)
                                       (a1_size fuel head acc)).
  { clear. intros fuel. induction fuel as [|fuel IH]; intros head acc;
      cbn [a1_size]; preserved_loops. }
  assert (Hs : forall fuel q buf, keeps (preserved freeNext freelist_ends)
                                    (twoq_scan fuel q buf)).
  { clear. intros fuel. induction fuel as [|fuel IH]; intros q buf;
      cbn [twoq_scan]; preserved_loops. }
  unfold select_victim, twoq_victim, twoq_select.
  repeat first [ apply Hc | apply Hw | apply Ha | apply Hs | preserved_step ].
Qed.

Lemma freelist_loop_drained fuel strategy (s s' : State) :
  freelist_loop fuel strategy s = Ret None s' ->
  firstFreeBuffer (StrategyControl s') < 0.
Proof.
  revert s. induction fuel as [|fuel IH]; intros s H; [discriminate|].
  cbn [freelist_loop] in H.
  apply bind_Ret_inv in H as (ctl & s1 & [= <- <-] & H).
  destruct (Z.leb_spec 0 (firstFreeBuffer (StrategyControl s))) as [Hge|Hlt].
  2:{ injection H as <-. exact Hlt. }
  apply bind_Ret_inv in H as (buf0 & s2 & _ & H).
  apply bind_Ret_inv in H as (b0 & s3 & _ & H).
  apply bind_Ret_inv in H as (? & s4 & _ & H).
  apply bind_Ret_inv in H as (? & s5 & _ & H).
  apply bind_Ret_inv in H as (? & s6 & _ & H).
  apply bind_Ret_inv in H as (? & s7 & _ & H).
  apply bind_Ret_inv in H as (b & s8 & _ & H).
  destruct ((refcount b =? 0) && (usage_count b =? 0)).
  - apply bind_Ret_inv in H as (st1 & s9 & _ & H). discriminate.
  - apply bind_Ret_inv in H as (? & s9 & _ & H). eapply IH, H.
Qed.

Lemma select_victim_errors fuel strategy (s : State) e s' :
  ids_ok s ->
  select_victim fuel strategy s = Elog e s' ->
  e = NoUnpinnedBuffers /\
  (BufferReplacementPolicy s = POLICY_CLOCK \/
   BufferReplacementPolicy s = POLICY_2Q) \/
  e = InvalidPolicy /\ BufferReplacementPolicy s = POLICY_INVALID.
Proof.
  intros Hids. unfold select_victim.
  rewrite (bind_Ret get_policy _ s (BufferReplacementPolicy s) s eq_refl).
  destruct (BufferReplacementPolicy s) eqn:Hpol; intros H.
  - left. split; [|auto].
    destruct e; [reflexivity| |]; exfalso; revert H; unfold clock_select;
      repeat first [ apply clock_sweep_raises; discriminate
                   | apply never_raises_get_NBuffers | never_raises_step ].
  - exfalso. unfold queue_select in H.
    rewrite (bind_Ret get_control _ s (StrategyControl s) s eq_refl) in H.
    apply bind_Elog_inv in H as [H|([p idx] & s1 & Hw & H)].
    { revert H. apply queue_walk_never_raises. }
    apply bind_Elog_inv in H as [H|(idx' & s2 & Hr & H)].
    { revert H. apply queue_walk_result_never_raises. }
    apply return_result_raises in H. subst idx'.
    unfold queue_walk_result in Hr. cbn [fst snd] in Hr.
    destruct p as [i|].
    2:{ apply bind_Ret_inv in Hr as (? & ? & Hu & _). discriminate. }
    injection Hr as -> <-.
    assert (Hids1 : ids_ok s1).
    { eapply same_ids_ok; [|exact Hids]. eapply queue_walk_keeps_ids.
      rewrite Hw. reflexivity. }
    apply queue_walk_returns_ok in Hw as (b & Hb & _ & _ & Hid).
    rewrite (Hids1 i b Hb) in Hid. lia.
  - exfalso. unfold queue_select in H.
    rewrite (bind_Ret get_control _ s (StrategyControl s) s eq_refl) in H.
    apply bind_Elog_inv in H as [H|([p idx] & s1 & Hw & H)].
    { revert H. apply queue_walk_never_raises. }
    apply bind_Elog_inv in H as [H|(idx' & s2 & Hr & H)].
    { revert H. apply queue_walk_result_never_raises. }
    apply return_result_raises in H. subst idx'.
    unfold queue_walk_result in Hr. cbn [fst snd] in Hr.
    destruct p as [i|].
    2:{ apply bind_Ret_inv in Hr as (? & ? & Hu & _). discriminate. }
    injection Hr as -> <-.
    assert (Hids1 : ids_ok s1).
    { eapply same_ids_ok; [|exact Hids]. eapply queue_walk_keeps_ids.
      rewrite Hw. reflexivity. }
    apply queue_walk_returns_ok in Hw as (b & Hb & _ & _ & Hid).
    rewrite (Hids1 i b Hb) in Hid. lia.
  - left. split; [|auto]. unfold twoq_victim in H.
    apply bind_Elog_inv in H as [H|(idx & s1 & Hsel & H)].
    + unfold twoq_select in H.
      rewrite (bind_Ret get_NBuffers _ s (NBuffers s) s eq_refl) in H.
      rewrite (bind_Ret get_control _ s (StrategyControl s) s eq_refl) in H.
      apply bind_Elog_inv in H as [H|(sz & s1 & Hsz & H)].
      { exfalso. revert H. apply a1_size_never_raises. }
      rewrite (bind_Ret get_control _ s1 (StrategyControl s1) s1 eq_refl) in H.
      destruct (_ || _);
        (apply bind_Elog_inv in H as [H|([p idx] & s2 & Hscan & H)];
         [exfalso; revert H; apply twoq_scan_never_raises|]);
        unfold twoq_scan_result in H; cbn [fst snd] in H;
        (destruct p; [discriminate|]); injection H as <- _; reflexivity.
    + exfalso. apply return_result_raises in H. subst idx.
      unfold twoq_select in Hsel.
      rewrite (bind_Ret get_NBuffers _ s (NBuffers s) s eq_refl) in Hsel.
      rewrite (bind_Ret get_control _ s (StrategyControl s) s eq_refl) in Hsel.
      apply bind_Ret_inv in Hsel as (sz & s2 & Hsz & Hsel).
      assert (Hids2 : ids_ok s2).
      { eapply same_ids_ok; [|exact Hids]. eapply a1_size_keeps_ids.
        rewrite Hsz. reflexivity. }
      rewrite (bind_Ret get_control _ s2 (StrategyControl s2) s2 eq_refl)
        in Hsel.
      destruct (_ || _);
        apply bind_Ret_inv in Hsel as ([p idx] & s3 & Hscan & Hsel);
        unfold twoq_scan_result in Hsel; cbn [fst snd] in Hsel;
        (destruct p as [i|]; [|discriminate]); injection Hsel as -> _;
        apply twoq_scan_index in Hscan as (b & Hb & Hid);
        rewrite (Hids2 i b Hb) in Hid; lia.
  - right. injection H as <- _. auto.
Qed.

(** X20.  The errors of [StrategyGetBuffer].  The call raises an error only
    after it has found the freelist empty, and the allocation is counted
    all the same.  When every descriptor carries its own index, the only
    errors are "no unpinned buffers available", which only the
    [POLICY_CLOCK] and [POLICY_2Q] branches raise, and "invalid buffer pool
    replacement policy", raised exactly when the policy variable holds none
    of the four policies; "reached end of StrategyGetBuffer() without
    selecting a buffer" is never raised, and the LRU and MRU branches raise
    no error at all. *)
Theorem StrategyGetBuffer_errors fuel strategy (s : State) :
  ids_ok s ->
  (forall e s',
      StrategyGetBuffer fuel strategy s = Elog e s' ->
      firstFreeBuffer (StrategyControl s') < 0 /\
      numBufferAllocs (StrategyControl s')
      = uint32_incr (numBufferAllocs (StrategyControl s)) /\
      (e = NoUnpinnedBuffers /\
       (BufferReplacementPolicy s = POLICY_CLOCK \/
        BufferReplacementPolicy s = POLICY_2Q) \/
       e = InvalidPolicy /\ BufferReplacementPolicy s = POLICY_INVALID)) /\
  (BufferReplacementPolicy s = POLICY_INVALID ->
   firstFreeBuffer (StrategyControl s) < 0 -> (0 < fuel)%nat ->
   StrategyGetBuffer fuel None s = Elog InvalidPolicy (counted s)).
Proof.
  intros Hids. split.
  - intros e s' H.
    assert (Hf : final_state (StrategyGetBuffer fuel strategy s) = Some s')
      by (rewrite H; reflexivity).
    destruct (StrategyGetBuffer_final _ _ _ _ Hf)
      as [(st & i & _ & _ & Hrun)|(strategy0 & Heq & Hg)].
    { rewrite Hrun in H. discriminate. }
    split; [|split; [apply (StrategyGetBuffer_global_stats _ _ _ _ Hg)|]];
      rewrite Heq, StrategyGetBuffer_global_counted in H;
      (apply bind_Elog_inv in H as [H|(r & s1 & Hloop & H)];
       [exfalso; revert H; apply freelist_loop_never_raises|]);
      (destruct r as [[buf st']|]; [discriminate|]).
    + apply freelist_loop_drained in Hloop.
      assert (Hs : final_state (select_victim fuel strategy0 s1) = Some s')
        by (rewrite H; reflexivity).
      apply select_victim_free in Hs as (_ & _ & _ & Hc).
      injection Hc as -> _. exact Hloop.
    + assert (Hs1 : same_ids (counted s) s1 /\ same_queues (counted s) s1).
      { split; [eapply freelist_loop_keeps_ids
               |eapply freelist_loop_keeps_queues]; rewrite Hloop; reflexivity. }
      destruct Hs1 as [Hi (Hp & _)]. rewrite counted_policy in Hp.
      rewrite <- Hp. apply (select_victim_errors fuel strategy0 s1 e s');
        [|exact H].
      eapply same_ids_ok; [exact Hi|].
      intros j b Hb. rewrite counted_frames in Hb. apply Hids, Hb.
  - intros Hpol Hfree Hfuel. destruct fuel as [|fuel]; [lia|].
    rewrite (StrategyGetBuffer_empty_freelist fuel s Hfree).
    unfold select_victim.
    rewrite (bind_Ret get_policy _ _ (BufferReplacementPolicy (counted s))
               (counted s) eq_refl).
    rewrite counted_policy, Hpol. reflexivity.
Qed.

(** ** Releasing a frame and getting it back *)

(** X21.  The freelist is last in, first out.  On a well-formed freelist,
    a frame that is not on the list, is unpinned, has a zero usage count
    and a free header lock, once released by [StrategyFreeBuffer], is the
    frame the next [StrategyGetBuffer] returns, whatever the policy; after
    the two calls the freelist holds what it held before and
    [firstFreeBuffer] is back to its old value. *)
Theorem freed_frame_comes_back fuel (s : State) l i b :
  freelist_is s l -> ids_ok s ->
  BufferDescriptors s !! i = Some b -> i ∉ l ->
  usable b = true -> buf_hdr_lock b = false -> (0 < fuel)%nat ->
  exists s1 s2,
    StrategyFreeBuffer (Some i) s = Ret tt s1 /\
    freelist_is s1 (i :: l) /\
    StrategyGetBuffer fuel None s1 = Ret (Some i, true, None) s2 /\
    freelist_is s2 l /\
    firstFreeBuffer (StrategyControl s2) = firstFreeBuffer (StrategyControl s) /\
    returned_frame_ok s2 i.
Proof.
  intros Hfl Hids Hb Hi Hu Hl Hfuel.
  assert (Hfree : freeNext b = FREENEXT_NOT_IN_LIST).
  { destruct Hfl as (_ & _ & Hin & _).
    destruct (decide (freeNext b = FREENEXT_NOT_IN_LIST)) as [|Hne]; auto.
    apply (Hin i b Hb) in Hne. contradiction. }
  set (s1 := free_buffer_state i b s).
  assert (Hfl1 : freelist_is s1 (i :: l))
    by (apply pushed_freelist; auto).
  set (b1 := set_freeNext (firstFreeBuffer (StrategyControl s)) b).
  assert (Hb1 : BufferDescriptors s1 !! i = Some b1).
  { unfold s1, free_buffer_state. rewrite Hfree, Z.eqb_refl. cbn.
    rewrite list_lookup_alter_eq, Hb. reflexivity. }
  assert (Hb1c : BufferDescriptors (counted s1) !! i = Some b1)
    by (rewrite counted_frames; exact Hb1).
  destruct fuel as [|fuel]; [lia|].
  pose proof (freelist_loop_take fuel (counted s1) i l b1
                (freelist_is_counted _ _ Hfl1) Hb1c Hl Hu) as Hrun.
  exists s1, (lock_frame i (pop i (counted s1))).
  assert (Hfl2 : freelist_is (lock_frame i (pop i (counted s1))) l).
  { eapply freelist_is_preserved;
      [|apply pop_freelist, freelist_is_counted, Hfl1].
    apply preserved_update_frame. reflexivity. }
  split; [apply StrategyFreeBuffer_run, Hb|]. split; [exact Hfl1|].
  split; [|split; [exact Hfl2|split]].
  - unfold StrategyGetBuffer. rewrite StrategyGetBuffer_global_counted.
    rewrite (bind_Ret _ _ _ _ _ Hrun). reflexivity.
  - unfold pop. rewrite Hb1c. reflexivity.
  - apply andb_prop in Hu as [Hr _]. apply Z.eqb_eq in Hr.
    eapply returned_frame_ok_intro.
    + apply lock_frame_lookup. unfold pop. rewrite Hb1c.
      apply popped_lookup, Hb1c.
    + reflexivity.
    + exact Hr.
Qed.

(** ** The further properties at concrete inputs *)

(** Facts about a pool written out in full, by cases on the frame index. *)
Ltac by_frame i Hb :=
  repeat (destruct i as [|i];
          [cbn in Hb; injection Hb as <-; reflexivity|]);
  cbn in Hb; discriminate Hb.

Ltac solve_member :=
  first
    [ split;
      [ intros _; unfold FREENEXT_NOT_IN_LIST; cbn; lia
      | intros _; apply (bool_decide_unpack _); vm_compute; exact I ]
    | split;
      [ intros Hin; exfalso; revert Hin;
        apply (bool_decide_unpack _); vm_compute; exact I
      | intros Hne; exfalso; apply Hne; reflexivity ] ].

Ltac member_by_frame i Hb :=
  repeat (destruct i as [|i];
          [cbn in Hb; injection Hb as <-; solve_member|]);
  cbn in Hb; discriminate Hb.

Lemma small_pool_ids pol : ids_ok (small_pool pol).
Proof. intros i b Hb. by_frame i Hb. Qed.

Lemma small_pool_freelist pol : freelist_is (small_pool pol) [].
Proof.
  split; [reflexivity|]. split; [apply NoDup_nil_2|]. split.
  - intros i b Hb. member_by_frame i Hb.
  - intros t Ht. discriminate Ht.
Qed.

Lemma fresh_pool_ids : ids_ok fresh_pool.
Proof. intros i b Hb. by_frame i Hb. Qed.

Lemma fresh_pool_freelist : freelist_is fresh_pool ([0%nat] ++ [1; 2]%nat).
Proof.
  split; [|split; [|split]].
  - cbn. repeat (split; [reflexivity|eexists; split; [reflexivity|]]).
    reflexivity.
  - apply (bool_decide_unpack _). vm_compute. exact I.
  - intros i b Hb. member_by_frame i Hb.
  - intros t Ht. cbn in Ht. injection Ht as <-. reflexivity.
Qed.


Lemma queued_pool_queue pol : queue_is (queued_pool pol) QAM [0; 1; 2]%nat.
Proof.
  split; [reflexivity|]. split; [reflexivity|]. split.
  - cbn. repeat (eexists; split; [reflexivity|];
                 split; [reflexivity|]; split; [reflexivity|]).
    exact I.
  - apply (bool_decide_unpack _). vm_compute. exact I.
Qed.

Lemma StrategyFreeBuffer_pushes_witness :
  exists s',
    StrategyFreeBuffer (Some 2%nat) (small_pool POLICY_LRU) = Ret tt s' /\
    freelist_is s' [2%nat].
Proof.
  assert (Hv : valid_frame (small_pool POLICY_LRU) 2) by (cbv; lia).
  destruct (StrategyFreeBuffer_pushes (small_pool POLICY_LRU) [] 2%nat
              (small_pool_freelist POLICY_LRU) (small_pool_ids POLICY_LRU) Hv)
    as (s' & Hrun & Hfl & _).
  exists s'. split; [exact Hrun|exact Hfl].
Defined.

Lemma threaded_pool_threaded : threaded threaded_pool.
Proof. intros i b Hb. by_frame i Hb. Qed.

Lemma StrategyInitialize_freelist_witness :
  exists s',
    StrategyInitialize false true threaded_pool = Ret tt s' /\
    freelist_is s' [0; 1; 2]%nat.
Proof.
  assert (Hn : (0 < length (BufferDescriptors threaded_pool))%nat)
    by (cbn; lia).
  destruct (StrategyInitialize_freelist threaded_pool threaded_pool_threaded Hn)
    as (s' & Hrun & Hfl & _).
  exists s'. split; [exact Hrun|exact Hfl].
Defined.

Lemma fresh_pool_discardable :
  forall i, i ∈ [0%nat] -> discardable fresh_pool i.
Proof.
  intros i Hi. apply list_elem_of_singleton in Hi as ->.
  eexists. split; [reflexivity|]. split; reflexivity.
Qed.

Lemma freelist_tried_first_witness :
  StrategyGetBuffer 8 None fresh_pool
  = Ret (Some 1%nat, true, None)
        (lock_frame 1 (pop 1 (pop_all [0%nat] (counted fresh_pool)))).
Proof.
  assert (Hfuel : (length [0%nat] < 8)%nat) by (cbn; lia).
  pose proof (freelist_tried_first 8 fresh_pool [0%nat] [1; 2]%nat
                fresh_pool_freelist fresh_pool_discardable Hfuel)
    as (_ & _ & Hrun).
  destruct (Hrun (mkBufferDesc 1 0 0 2 None None false) eq_refl eq_refl eq_refl)
    as (H & _).
  exact H.
Defined.

Lemma freelist_stays_well_formed_witness :
  ids_ok (exec (StrategyGetBuffer 8 None) fresh_pool) /\
  exists l, freelist_is (exec (StrategyGetBuffer 8 None) fresh_pool) l.
Proof.
  assert (Hstep : step fresh_pool (exec (StrategyGetBuffer 8 None) fresh_pool)).
  { apply (step_GetBuffer fresh_pool 8 None). vm_compute. reflexivity. }
  exact (freelist_stays_well_formed fresh_pool
           (exec (StrategyGetBuffer 8 None) fresh_pool) Hstep fresh_pool_ids
           (ex_intro _ _ fresh_pool_freelist)).
Defined.

Lemma queued_pool_skippable pol :
  forall i, i ∈ [0%nat] -> skippable (queued_pool pol) i.
Proof.
  intros i Hi. apply list_elem_of_singleton in Hi as ->.
  eexists. split; [reflexivity|]. split; [reflexivity|discriminate].
Qed.

Lemma queued_pool_skippable_tail pol :
  forall i, i ∈ [2%nat] -> skippable (queued_pool pol) i.
Proof.
  intros i Hi. apply list_elem_of_singleton in Hi as ->.
  eexists. split; [reflexivity|]. split; [reflexivity|discriminate].
Qed.

Lemma queued_pool_takeable pol : takeable (queued_pool pol) 1.
Proof. eexists. split; [reflexivity|]. repeat split. Qed.

Lemma LRU_takes_first_unpinned_witness :
  StrategyGetBuffer 8 None (queued_pool POLICY_LRU)
  = Ret (Some 1%nat, true, None)
        (lock_frame 1 (counted (queued_pool POLICY_LRU))).
Proof.
  assert (Hfree : firstFreeBuffer (StrategyControl (queued_pool POLICY_LRU)) < 0)
    by reflexivity.
  assert (Hfuel : (length [0%nat] < 8)%nat) by (cbn; lia).
  exact (proj1 (LRU_takes_first_unpinned 8 (queued_pool POLICY_LRU)
                  [0%nat] 1%nat [2%nat] eq_refl Hfree
                  (queued_pool_queue POLICY_LRU)
                  (queued_pool_skippable POLICY_LRU)
                  (queued_pool_takeable POLICY_LRU) Hfuel)).
Defined.

Lemma MRU_takes_last_unpinned_witness :
  StrategyGetBuffer 8 None (queued_pool POLICY_MRU)
  = Ret (Some 1%nat, true, None)
        (lock_frame 1 (counted (queued_pool POLICY_MRU))).
Proof.
  assert (Hfree : firstFreeBuffer (StrategyControl (queued_pool POLICY_MRU)) < 0)
    by reflexivity.
  assert (Hfuel : (length [2%nat] < 8)%nat) by (cbn; lia).
  exact (proj1 (MRU_takes_last_unpinned 8 (queued_pool POLICY_MRU)
                  [0%nat] 1%nat [2%nat] eq_refl Hfree
                  (queued_pool_queue POLICY_MRU)
                  (queued_pool_skippable_tail POLICY_MRU)
                  (queued_pool_takeable POLICY_MRU) Hfuel)).
Defined.

Lemma ring_records_victim_witness :
  exists st',
    returned (StrategyGetBuffer 8 (Some empty_ring) (small_pool POLICY_CLOCK))
    = Some (Some 2%nat, true, Some st') /\
    ring_read st' (current st') = Some (Z.of_nat 2 + 1).
Proof.
  assert (H : StrategyGetBuffer 8 (Some empty_ring) (small_pool POLICY_CLOCK)
              = Ret (Some 2%nat, true,
                     Some (mkStrategy BAS_BULKREAD 2 1 false [0; 3]))
                    (exec (StrategyGetBuffer 8 (Some empty_ring))
                          (small_pool POLICY_CLOCK)))
    by (vm_compute; reflexivity).
  destruct (proj1 (ring_records_victim 8 empty_ring (small_pool POLICY_CLOCK)
                     2%nat _ _ (small_pool_ids POLICY_CLOCK) H) eq_refl)
    as (st' & Ho & _ & Hr).
  exists st'. split; [|exact Hr]. rewrite H, Ho. reflexivity.
Defined.


Lemma StrategyGetBuffer_writes_witness :
  pin_view <$> BufferDescriptors
                 (exec (StrategyGetBuffer 8 None) (small_pool POLICY_CLOCK))
  = pin_view <$> BufferDescriptors (small_pool POLICY_CLOCK).
Proof.
  destruct (StrategyGetBuffer_writes 8 None (small_pool POLICY_CLOCK)
              (exec (StrategyGetBuffer 8 None) (small_pool POLICY_CLOCK)))
    as (_ & H & _).
  - vm_compute. reflexivity.
  - exact H.
Defined.

Lemma small_pool_hand pol : hand_in_range (small_pool pol).
Proof. split; [discriminate|reflexivity]. Qed.

Lemma clock_hand_stays_in_range_witness :
  hand_in_range (exec (StrategyGetBuffer 8 None) (small_pool POLICY_CLOCK)).
Proof.
  assert (Hstep : step (small_pool POLICY_CLOCK)
                    (exec (StrategyGetBuffer 8 None) (small_pool POLICY_CLOCK))).
  { apply (step_GetBuffer _ 8 None). vm_compute. reflexivity. }
  exact (proj1 (clock_hand_stays_in_range _ _ Hstep
                  (small_pool_hand POLICY_CLOCK))).
Defined.

Lemma small_pool_unlocked pol : all_unlocked (small_pool pol).
Proof. intros i b Hb. by_frame i Hb. Qed.

Lemma CLOCK_finds_a_victim_witness :
  exists i s',
    StrategyGetBuffer 16 None (small_pool POLICY_CLOCK)
    = Ret (Some i, true, None) s' /\
    returned_frame_ok s' i.
Proof.
  assert (Hfree : firstFreeBuffer (StrategyControl (small_pool POLICY_CLOCK)) < 0)
    by reflexivity.
  assert (Hsome : exists j, unpinned (small_pool POLICY_CLOCK) j).
  { exists 2%nat. eexists. split; reflexivity. }
  assert (Hfuel : (usage_sum (small_pool POLICY_CLOCK)
                   * length (BufferDescriptors (small_pool POLICY_CLOCK))
                   + length (BufferDescriptors (small_pool POLICY_CLOCK))
                   < 16)%nat) by (vm_compute; lia).
  destruct (CLOCK_finds_a_victim 16 (small_pool POLICY_CLOCK) eq_refl Hfree
              (small_pool_hand POLICY_CLOCK) (small_pool_unlocked POLICY_CLOCK)
              Hsome Hfuel) as (i & s' & Hrun & Hok & _).
  exists i, s'. auto.
Defined.

Lemma StrategyGetBuffer_errors_witness :
  StrategyGetBuffer 8 None (small_pool POLICY_INVALID)
  = Elog InvalidPolicy (counted (small_pool POLICY_INVALID)).
Proof.
  assert (Hfree : firstFreeBuffer (StrategyControl (small_pool POLICY_INVALID))
                  < 0) by reflexivity.
  assert (Hfuel : (0 < 8)%nat) by lia.
  exact (proj2 (StrategyGetBuffer_errors 8 None (small_pool POLICY_INVALID)
                  (small_pool_ids POLICY_INVALID)) eq_refl Hfree Hfuel).
Defined.

Lemma freed_frame_comes_back_witness :
  exists s1 s2,
    StrategyFreeBuffer (Some 2%nat) (small_pool POLICY_2Q) = Ret tt s1 /\
    StrategyGetBuffer 8 None s1 = Ret (Some 2%nat, true, None) s2.
Proof.
  assert (Hi : 2%nat ∉ @nil nat) by apply not_elem_of_nil.
  assert (Hfuel : (0 < 8)%nat) by lia.
  destruct (freed_frame_comes_back 8 (small_pool POLICY_2Q) [] 2%nat
              (mkBufferDesc 2 0 0 FREENEXT_NOT_IN_LIST None None false)
              (small_pool_freelist POLICY_2Q) (small_pool_ids POLICY_2Q)
              eq_refl Hi eq_refl eq_refl Hfuel)
    as (s1 & s2 & H1 & _ & H2 & _).
  exists s1, s2. auto.
Defined.


Lemma pinned_pool_pinned : pinned_and_unlocked pinned_pool.
Proof.
  intros i b Hb.
  repeat (destruct i as [|i];
          [cbn in Hb; injection Hb as <-; split; [discriminate|reflexivity]|]).
  cbn in Hb. discriminate Hb.
Qed.

Lemma CLOCK_all_pinned_raises_witness :
  exists s',
    StrategyGetBuffer 8 None pinned_pool = Elog NoUnpinnedBuffers s' /\
    nextVictimBuffer (StrategyControl s')
    = nextVictimBuffer (StrategyControl pinned_pool).
Proof.
  assert (Hfree : firstFreeBuffer (StrategyControl pinned_pool) < 0)
    by reflexivity.
  assert (Hhand : hand_in_range pinned_pool)
    by (split; [discriminate|reflexivity]).
  assert (Hfuel : (length (BufferDescriptors pinned_pool) <= 8)%nat)
    by (cbn; lia).
  destruct (CLOCK_all_pinned_raises 8 pinned_pool eq_refl Hfree Hhand
              pinned_pool_pinned Hfuel) as (s' & Hrun & _ & Hh & _).
  exists s'. auto.
Defined.

Lemma BufferUnpinned_single_queue_well_formed_witness :
  exists s',
    BufferUnpinned 8 true (Z.of_nat 0) (queued_pool POLICY_LRU) = Ret tt s' /\
    queue_is s' QAM (without 0 [0; 1; 2]%nat ++ [0%nat]).
Proof.
  assert (Hpol : single_queue_policy
                   (BufferReplacementPolicy (queued_pool POLICY_LRU)))
    by (right; left; reflexivity).
  assert (Hin : 0%nat ∈ [0; 1; 2]%nat) by left.
  assert (Hsole : [0; 1; 2]%nat <> [0%nat]) by discriminate.
  exact (proj1 (BufferUnpinned_single_queue_well_formed 8
                  (queued_pool POLICY_LRU) [0; 1; 2]%nat 0%nat
                  (mkBufferDesc 0 1 1 FREENEXT_NOT_IN_LIST (Some 1%nat) None
                                false)
                  Hpol (queued_pool_queue POLICY_LRU) eq_refl) Hin Hsole).
Defined.

(** ** The order of unpinning decides the victim *)

Lemma appended_main_same_data (s : State) x i b :
  BufferDescriptors s !! i = Some b ->
  exists b', BufferDescriptors (appended_main x s) !! i = Some b' /\
             same_data b b'.
Proof. intros Hb. unfold appended_main. cbn. apply attach_same_data, Hb. Qed.

Lemma appended_main_skippable (s : State) x i :
  skippable s i -> skippable (appended_main x s) i.
Proof.
  intros (b & Hb & Hl & Hr).
  destruct (appended_main_same_data s x i b Hb)
    as (b' & Hb' & _ & Hr' & _ & _ & Hl').
  exists b'. split; [exact Hb'|]. split; congruence.
Qed.

Lemma appended_main_takeable (s : State) x i :
  takeable s i -> takeable (appended_main x s) i.
Proof.
  intros (b & Hb & Hl & Hr & Hid).
  destruct (appended_main_same_data s x i b Hb)
    as (b' & Hb' & Hid' & Hr' & _ & _ & Hl').
  exists b'. split; [exact Hb'|]. repeat split; congruence.
Qed.

Lemma appended_main_off_queue (s : State) am x y :
  queue_is s QAM am -> y <> x -> y ∉ am ->
  off_queue s y -> off_queue (appended_main x s) y.
Proof.
  intros (_ & Ht & _) Hne Hy (b & Hb & Hn & Hp). exists b.
  split; [|auto]. unfold appended_main. cbn.
  rewrite attach_lookup_other; [exact Hb|exact Hne|].
  cbn in Ht. rewrite Ht. intros Heq. symmetry in Heq.
  apply last_ptr_elem_of in Heq. contradiction.
Qed.

Lemma BufferUnpinned_appends fuel (s : State) am x :
  single_queue_policy (BufferReplacementPolicy s) ->
  queue_is s QAM am -> x ∉ am -> off_queue s x ->
  BufferUnpinned fuel true (Z.of_nat x) s = Ret tt (appended_main x s) /\
  queue_is (appended_main x s) QAM (am ++ [x]).
Proof.
  intros Hpol Hq Hx (b & Hb & Hn & Hp). split.
  - rewrite (BufferUnpinned_single_queue fuel s x b Hpol Hb).
    apply unpinned_other_appends with (am := am); assumption.
  - apply appended_main_queue; auto. eapply lookup_lt_Some, Hb.
Qed.

(** X25.  The order of unpinning decides the victim.  Under LRU and MRU,
    with nothing on the freelist and a well-formed main queue whose frames
    are all pinned, let two frames that are in no queue be unpinned one
    after the other.  [BufferUnpinned] appends them to the main queue in
    this order, and the next [StrategyGetBuffer] returns the one unpinned
    first under [POLICY_LRU] and the one unpinned last under
    [POLICY_MRU]. *)
Theorem unpin_order_decides_victim fuel (s : State) am x y :
  BufferReplacementPolicy s = POLICY_LRU \/
  BufferReplacementPolicy s = POLICY_MRU ->
  firstFreeBuffer (StrategyControl s) < 0 ->
  queue_is s QAM am -> (forall i, i ∈ am -> skippable s i) ->
  x <> y -> x ∉ am -> y ∉ am ->
  off_queue s x -> off_queue s y -> takeable s x -> takeable s y ->
  (length am + 1 < fuel)%nat ->
  exists s2 s3,
    (BufferUnpinned fuel true (Z.of_nat x) ;;
     BufferUnpinned fuel true (Z.of_nat y)) s = Ret tt s2 /\
    queue_is s2 QAM (am ++ [x; y]) /\
    StrategyGetBuffer fuel None s2
    = Ret (Some (victim_of (BufferReplacementPolicy s) x y), true, None) s3 /\
    returned_frame_ok s3 (victim_of (BufferReplacementPolicy s) x y).
Proof.
  intros Hpol Hfree Hq Hskip Hxy Hx Hy Hox Hoy Htx Hty Hfuel.
  assert (Hsq : single_queue_policy (BufferReplacementPolicy s)).
  { destruct Hpol as [->| ->]; [right; left|right; right]; reflexivity. }
  set (s1 := appended_main x s). set (s2 := appended_main y s1).
  destruct (BufferUnpinned_appends fuel s am x Hsq Hq Hx Hox) as [Hrun1 Hq1].
  fold s1 in Hrun1, Hq1.
  assert (Hy1 : y ∉ am ++ [x]).
  { intros Hin. apply elem_of_app in Hin as [Hin|Hin]; [contradiction|].
    apply list_elem_of_singleton in Hin. congruence. }
  assert (Hoy1 : off_queue s1 y).
  { apply (appended_main_off_queue s am x y); auto. }
  destruct (BufferUnpinned_appends fuel s1 (am ++ [x]) y Hsq Hq1 Hy1 Hoy1)
    as [Hrun2 Hq2].
  fold s2 in Hrun2, Hq2. rewrite <- app_assoc in Hq2. cbn [app] in Hq2.
  assert (Hpol2 : BufferReplacementPolicy s2 = BufferReplacementPolicy s)
    by reflexivity.
  assert (Hfree2 : firstFreeBuffer (StrategyControl s2) < 0).
  { unfold s2, s1, appended_main. cbn.
    repeat match goal with |- context [if ?c then _ else _] => destruct c end;
      exact Hfree. }
  assert (Hskip2 : forall i, i ∈ am -> skippable s2 i).
  { intros i Hi. apply appended_main_skippable, appended_main_skippable, Hskip, Hi. }
  assert (Htx2 : takeable s2 x)
    by (apply appended_main_takeable, appended_main_takeable, Htx).
  assert (Hty2 : takeable s2 y)
    by (apply appended_main_takeable, appended_main_takeable, Hty).
  exists s2.
  assert (Hf1 : (length am < fuel)%nat) by lia.
  assert (Hf2 : (length (@nil nat) < fuel)%nat) by (cbn; lia).
  assert (Hq3 : queue_is s2 QAM ((am ++ [x]) ++ y :: []))
    by (rewrite <- app_assoc; exact Hq2).
  assert (Hnil : forall i, i ∈ @nil nat -> skippable s2 i)
    by (intros i Hi; inversion Hi).
  assert (Hok : forall v s3, takeable s2 v ->
            s3 = lock_frame v (counted s2) -> returned_frame_ok s3 v).
  { intros v s3 (b & Hb & Hl & Hr & _) ->.
    eapply returned_frame_ok_intro.
    - apply lock_frame_lookup. rewrite counted_frames. exact Hb.
    - reflexivity.
    - exact Hr. }
  destruct Hpol as [Hp|Hp]; rewrite Hp; cbn [victim_of].
  - assert (Hp2 : BufferReplacementPolicy s2 = POLICY_LRU) by congruence.
    pose proof (LRU_walk_takes fuel s2 am x [y] Hp2 Hfree2 Hq2 Hskip2 Htx2 Hf1)
      as Hrun.
    eexists. split; [|split; [exact Hq2|split; [exact Hrun|]]].
    + rewrite (bind_Ret _ _ _ _ _ Hrun1). exact Hrun2.
    + apply Hok; [exact Htx2|reflexivity].
  - assert (Hp2 : BufferReplacementPolicy s2 = POLICY_MRU) by congruence.
    pose proof (MRU_walk_takes fuel s2 (am ++ [x]) y [] Hp2 Hfree2 Hq3 Hnil
                  Hty2 Hf2) as Hrun.
    eexists. split; [|split; [exact Hq2|split; [exact Hrun|]]].
    + rewrite (bind_Ret _ _ _ _ _ Hrun1). exact Hrun2.
    + apply Hok; [exact Hty2|reflexivity].
Qed.

Lemma small_pool_queue pol : queue_is (small_pool pol) QAM [].
Proof.
  split; [reflexivity|]. split; [reflexivity|]. split; [exact I|].
  apply NoDup_nil_2.
Qed.

Lemma unpin_order_decides_victim_witness :
  exists s2 s3,
    (BufferUnpinned 8 true (Z.of_nat 1) ;; BufferUnpinned 8 true (Z.of_nat 2))
      (small_pool POLICY_MRU) = Ret tt s2 /\
    StrategyGetBuffer 8 None s2 = Ret (Some 2%nat, true, None) s3.
Proof.
  assert (Hpol : BufferReplacementPolicy (small_pool POLICY_MRU) = POLICY_LRU \/
                 BufferReplacementPolicy (small_pool POLICY_MRU) = POLICY_MRU)
    by (right; reflexivity).
  assert (Hfree : firstFreeBuffer (StrategyControl (small_pool POLICY_MRU)) < 0)
    by reflexivity.
  assert (Hskip : forall i, i ∈ @nil nat -> skippable (small_pool POLICY_MRU) i)
    by (intros i Hi; inversion Hi).
  assert (Hxy : 1%nat <> 2%nat) by discriminate.
  assert (Hx : 1%nat ∉ @nil nat) by apply not_elem_of_nil.
  assert (Hy : 2%nat ∉ @nil nat) by apply not_elem_of_nil.
  assert (Hox : off_queue (small_pool POLICY_MRU) 1)
    by (eexists; split; [reflexivity|split; reflexivity]).
  assert (Hoy : off_queue (small_pool POLICY_MRU) 2)
    by (eexists; split; [reflexivity|split; reflexivity]).
  assert (Htx : takeable (small_pool POLICY_MRU) 1)
    by (eexists; split; [reflexivity|repeat split]).
  assert (Hty : takeable (small_pool POLICY_MRU) 2)
    by (eexists; split; [reflexivity|repeat split]).
  assert (Hfuel : (length (@nil nat) + 1 < 8)%nat) by (cbn; lia).
  destruct (unpin_order_decides_victim 8 (small_pool POLICY_MRU) [] 1%nat 2%nat
              Hpol Hfree (small_pool_queue POLICY_MRU) Hskip Hxy Hx Hy
              Hox Hoy Htx Hty Hfuel)
    as (s2 & s3 & Hrun & _ & Hget & _).
  exists s2, s3. split; [exact Hrun|exact Hget].
Defined.

Lemma StrategySyncStart_read_and_clear_witness :
  exists s2,
    StrategySyncStart false true
      (exec (StrategyGetBuffer 8 None)
            (sync_started true (small_pool POLICY_CLOCK)))
    = Ret (3, None, Some (Z.of_nat 1 mod 2 ^ 32)) s2.
Proof.
  assert (Hrun : allocations (sync_started true (small_pool POLICY_CLOCK)) 1
                   (exec (StrategyGetBuffer 8 None)
                         (sync_started true (small_pool POLICY_CLOCK)))).
  { apply (allocations_global _ 0 (sync_started true (small_pool POLICY_CLOCK))
             _ 8 None).
    - apply allocations_none.
    - vm_compute. reflexivity.
    - intros r Hr. vm_compute in Hr. injection Hr as <-. reflexivity. }
  eexists.
  exact (proj2 (StrategySyncStart_read_and_clear true true
                  (small_pool POLICY_CLOCK)) 1%nat _ false Hrun).
Defined.

Lemma BufferUnpinned_writes_witness :
  preserved beside_links beside_queues (small_pool POLICY_LRU)
    (exec (BufferUnpinned 8 true 1) (small_pool POLICY_LRU)).
Proof.
  assert (H : BufferUnpinned 8 true 1 (small_pool POLICY_LRU)
              = Ret tt (exec (BufferUnpinned 8 true 1) (small_pool POLICY_LRU)))
    by (vm_compute; reflexivity).
  exact (proj1 (proj2 (BufferUnpinned_writes 8 true 1 (small_pool POLICY_LRU))
                  _ H)).
Defined.
